(* ===== verification/_CoqProject ===== *)
-Q . S2P
Prelude.v
Json.v
Crypto.v
LevelDB.v
Fifo.v
Rtc.v
Concrete.v
Box.v
Enums.v
Models.v
Messages.v
DBInterface.v
Stores.v
Blockchain.v
Validator.v
TransactionPool.v
Event.v
Coroutine.v
Services.v
BlockchainManager.v
TransactionPoolManager.v
Miner.v
Peer.v
RetryHandler.v
PeerConnection.v
PeerManager.v
WaitForPeers.v
SignalingClient.v
SignalingServer.v
Wallet.v
Node.v
NodeInvariant.v
Loop.v
Exchange.v
Sync.v
Broadcast.v
PoolSync.v
Consensus.v
Hub.v
Clients.v
Introduction.v
ControlNode.v
LightNode.v
Scenario.v
Witnesses.v
