(* ===== verification/Prelude.v ===== *)
(** * Krapi: a verification of the C++ sources under src/

    Krapi is a small proof-of-work blockchain. Four programs work together. The full node
    (Servers/Node) keeps the chain, the pool of pending transactions and the spent ones in
    LevelDB databases, validates blocks, answers its peers and mines. The light node
    (Servers/LightNode) has a wallet and sends transactions to the full nodes. The control node
    (Servers/ControlNode) asks the full nodes to count the votes of an interval. The signaling
    server (Servers/Signaling) introduces the others to each other. Peers talk over WebRTC data
    channels, and every process is driven by one event queue whose callbacks are the handlers of
    its components.

    ** How C++ becomes Rocq

    An operation that mutates objects of type [S] and returns an [A] is a function of type
    [M S A], from a state to a value or an exception and the state left behind; what was done
    before an exception stays done. A failed assertion, a null or dangling pointer and a missing
    key of a const JSON object end in [Err UndefinedBehaviour]. A component's state inside a
    process is reached through a [Lens]. A coroutine is a [Coroutine S A]: it runs up to its
    first [co_await] and hands back what it waits for and the rest of itself; [drive] runs it
    to its end in a world that answers, and [runs] relates it to the answers it gets. What runs
    on the executor beside the event loop is a task in the state until it is done. [uint64_t] is
    [Z] with [u64], and wraps where the code adds; strings are byte strings. Log lines are left
    out, apart from what computing their arguments can throw.

    Code that is not under src/ is a parameter: the classes [JsonLib], [CryptoLib], [HostLib]
    (clock and random tags), [LevelDB], [FifoLib] and [EventppLib] (queues), [RtcLib] and
    [HashOrder] (the unspecified order of the unordered containers) give the library calls and
    the documented facts the program relies on. LevelDB writes may fail, sockets may throw and
    the clock may stand still or go back; [ReliableWrites], [ReliableChannels] and
    [ReliableSockets] are assumed only where a theorem says so. Concrete.v has executable
    instances of all of them that satisfy every law; Scenario.v builds blocks, databases, nodes
    and servers on them, and Witnesses.v applies every theorem that has hypotheses to such a run.

    ** The files

    - Prelude: errors, the state monad with its weakest preconditions [wpx] and [wp], lenses,
      [preserves], machine words and strings.
    - Json, Crypto, LevelDB, Fifo, Rtc: the interfaces of the libraries; Concrete: instances.
    - Box: Utils/Box.h over an explicit heap of objects.
    - Enums: the enumerations with their JSON tables and [to_string] functions.
    - Models: BlockchainModels (transactions, headers, blocks, [operator==], [std::hash], JSON).
    - Messages: SharedModels (peer, signaling and internal messages, notifications, contents).
    - DBInterface: SharedModels/DBInterface.h over LevelDB, and the finite map [db_abs] it
      implements; Stores: its three instances and SpentTransactionsStore.
    - Blockchain, Validator, TransactionPool, Miner: the files of these names in Servers/Node.
      [chain_of g bs m] says that the stored blocks are exactly the linked chain [g :: bs].
    - Event: src/Event (events, promise store, event queue, event loop); Coroutine: coroutines
      over promises, their sequencing, loops and invariants.
    - Services: the class of what the node's managers need of the process they run in, and the
      invariant [stores_inv] of the three stores. BlockchainManager and TransactionPoolManager
      are proved against it; Node gives the instance.
    - Peer, RetryHandler, PeerConnection, PeerManager, SignalingClient: what every peer process
      shares; [Peer] is the state, connections are numbered objects of a heap. WaitForPeers has
      PeerManager::wait_for_peers and peers_of_type, and the run of the posted tasks.
    - SignalingServer, Wallet, LightNode, ControlNode, Node: the programs. Node is
      Servers/Node/main.cpp with the initial block download; NodeInvariant is the step relation
      [node_step] of a running node and its invariant.
    - Loop: a node between two events, whatever its connections and the messages stored for
      retries are, and what the event loop makes of the next event.
    - Exchange: a world of two nodes and the channel between them, and the way of a question and
      of its answers through it; Sync: the initial block download in this world; Broadcast: the
      tasks a broadcast posts; PoolSync: what follows the download, when the other node sends its
      pool; Consensus: a round of the miner, from the broadcast of the block to the notification
      that wakes the miner.
    - Hub: a world of the signaling server and two of its clients; Clients: what a client and the
      server make of each signaling message and of the library's callbacks; Introduction: a node
      comes to the server and is introduced to the other one, from the opening of its web socket
      to the open channel.

    ** What the theorems show

    - Data: blocks and messages survive printing and parsing, whatever a peer sends decodes to
      well-formed values, hashes are 64-bit words that respect equality, and where the JSON
      tables lose information the loss is stated.
    - Storage: the database interface refines a finite map, error statuses included; iteration
      yields every value once, in order; [last] is the newest.
    - Consensus: the validator accepts exactly the blocks that extend the chain, its checks have
      the stated precedence, blocks of peers and of the own miner are decided by it alone, a
      transaction that left the pool with a block cannot be spent again, the miner finds the
      least nonce and its blocks validate, and [remove_all_after] truncates.
    - Messaging: a message goes to an open channel if there is one and is else queued again or put
      aside, never dropped; retries are bounded; promises are resolved once and by the right
      answer, awaited events by the n-th that counts; the signaling server announces a client to
      all the others and routes to exactly the named receiver.
    - Coroutines: wait_for_peers returns the peers that match as soon as there are enough of
      them, request_headers the longest list of headers, whatever happens in between.
    - The whole node: main registers every callback once, and
      [NodeInvariant.node_stays_consistent], for every interleaving of the node's steps.
    - Two nodes: [Sync.download_synchronises]. A node that is behind ends its download with the
      chain of the other one. It is about the whole way of every message: the PeerManager, the
      channel, both event loops, the manager that answers and the promise that is resolved.
      [PoolSync.node_joins]: it ends with the pooled transactions of the other one as well.
      [Consensus.mined_block_spreads]: a mined block ends on both chains or on none; the other
      node refuses it when it is on another fork or has spent one of the transactions.
      [Introduction.server_introduces_nodes]: two clients of the signaling server get to the
      state the other theorems start from, by descriptions and candidates that pass through the
      server; [Introduction.newcomer_catches_up] goes on to the same chain and pool.

    ** Fuel

    [mining_loop] takes the number of rounds, since the search may never end, and
    [mining_function] hands out its search as a function of it; the theorem about it says that
    it ends with enough rounds exactly when a nonce exists. [wait_loop] gets one more round than
    the queue has items, and is shown equal to a structural specification.
    [EventLoop_run] takes the number of events to process and stops when none is pending; in
    the world of two nodes every number from two on is enough, since a node never has more than
    two events to process before it waits for the other one; a node that gets the pool of the
    other one needs one more than there are transactions in it. A turn of the world of the
    signaling server takes one event in each loop. [loop_until] runs a loop until an
    awaited event is there, and two events are enough as well. A coroutine needs no fuel: it
    awaits finitely often.

    ** What is not modelled

    - Threads inside one handler: a step of [node_step] is a handler, a segment of a coroutine
      between two awaits or a callback of libdatachannel, and runs undisturbed. The locks are
      left out.
    - The lifetime of what lambdas capture: it is taken to live as long as they run. A loop of a
      coroutine over the connections goes over those that are there when it starts.
    - In the world of two nodes, what else happens to them while they talk: the channel is
      reliable ([ReliableChannels]), and the web sockets as well while the signaling server
      introduces them ([ReliableSockets]). A candidate is sent after the description of its side,
      and the node that comes has no stored message for the other one.
    - Servers/Signaling/main.cpp, which constructs the server and logs its port, and
      Utils/Overload.h, a helper for [std::visit], whose uses are matches.
    - CMake files, command lines, directories (the status of opening a database is an argument),
      and callbacks that only log.
    - The continuation of a coroutine whose promise is resolved is a step of its own; the program
      may run it inside the call that resolves the promise.
    - LevelDB reads that fail: a read finds the value or finds nothing, and only writes can fail.
    - Counters of type [int] ([tally_block], [count_if], the retry count) are unbounded. *)

From stdpp Require Import base list gmap strings sorting.
From Stdlib Require Import ZArith Lia.
From Stdlib Require String Ascii.

(** ** Errors and results *)

(** What a C++ operation of the program can end with instead of a value. *)
Inductive error :=
  | TypeError           (* nlohmann::json::type_error *)
  | ParseError          (* nlohmann::json::parse_error *)
  | BadVariantAccess    (* std::bad_variant_access, from Event::get *)
  | LibraryError        (* any other exception of a library call *)
  | UndefinedBehaviour. (* the C++ program has no meaning from here on *)

#[global] Instance error_eq_dec : EqDecision error.
Proof. solve_decision. Defined.

Inductive result (A : Type) :=
  | Ok (a : A)
  | Err (e : error).
Arguments Ok {A} a.
Arguments Err {A} e.

#[global] Instance result_eq_dec `{EqDecision A} : EqDecision (result A).
Proof. solve_decision. Defined.

#[global] Instance result_ret : MRet result := @Ok.
#[global] Instance result_bind : MBind result := λ A B f m,
  match m with Ok a => f a | Err e => Err e end.

Definition result_to_option {A} (r : result A) : option A :=
  match r with Ok a => Some a | Err _ => None end.

(** A loop that converts one element after the other and stops at the first exception. *)
Fixpoint traverse {A B} (f : A → result B) (l : list A) : result (list B) :=
  match l with
  | [] => Ok []
  | x :: l => y ← f x; ys ← traverse f l; Ok (y :: ys)
  end.

(** ** State and exceptions

    An operation that mutates objects of type [S]: the state at a throw is kept, since the
    effects done before a C++ exception stay done. *)
Definition M (S A : Type) : Type := S → result A * S.

#[global] Instance M_ret {S} : MRet (M S) := λ A a s, (Ok a, s).
#[global] Instance M_bind {S} : MBind (M S) := λ A B f m s,
  match m s with
  | (Ok a, s') => f a s'
  | (Err e, s') => (Err e, s')
  end.

Definition throw {S A} (e : error) : M S A := λ s, (Err e, s).
Definition gets {S A} (f : S → A) : M S A := λ s, (Ok (f s), s).
Definition modify {S} (f : S → S) : M S unit := λ s, (Ok tt, f s).
Definition lift_result {S A} (r : result A) : M S A := λ s, (r, s).

(** A call that reads the state and may throw, and one that updates it and returns a value. *)
Definition reads {S A} (f : S → result A) : M S A := λ s, (f s, s).
Definition writes {S A} (f : S → A * S) : M S A := λ s, let '(a, s') := f s in (Ok a, s').

(** [for (x : l) body(x);] *)
Fixpoint for_each {S A} (l : list A) (body : A → M S unit) : M S unit :=
  match l with
  | [] => mret tt
  | x :: l => _ ← body x; for_each l body
  end.

(** A list without the first occurrence of an element. *)
Fixpoint remove_first {A} `{EqDecision A} (x : A) (l : list A) : list A :=
  match l with
  | [] => []
  | y :: l => if decide (x = y) then l else y :: remove_first x l
  end.

(** [k] runs when [m] is left, also by an exception: what destructors do. *)
Definition finally {S A} (m : M S A) (k : M S unit) : M S A := λ s,
  let '(r, s') := m s in
  match k s' with
  | (Ok _, s'') => (r, s'')
  | (Err e, s'') => (Err e, s'')
  end.

(** A component's state inside a larger one. *)
Record Lens (S A : Type) := MkLens { lget : S → A; lset : A → S → S }.
Arguments MkLens {S A} _ _.
Arguments lget {S A} _ _.
Arguments lset {S A} _ _ _.

Class LensLaws {S A} (l : Lens S A) : Prop := {
  lget_lset : ∀ a s, lget l (lset l a s) = a;
  lset_lget : ∀ s, lset l (lget l s) s = s;
  lset_lset : ∀ a b s, lset l a (lset l b s) = lset l a s }.

Definition zoom {S A B} (l : Lens S A) (m : M A B) : M S B := λ s,
  let '(r, a) := m (lget l s) in (r, lset l a s).

Definition lens_id {S} : Lens S S := MkLens (λ s, s) (λ a _, a).
Definition lens_comp {S A B} (l : Lens S A) (k : Lens A B) : Lens S B :=
  MkLens (λ s, lget k (lget l s)) (λ b s, lset l (lset k b (lget l s)) s).

(** [wpx m Q E s]: started in [s], [m] ends with a value and a state that satisfy [Q], or throws
    and leaves a state that satisfies [E]. *)
Definition wpx {S A} (m : M S A) (Q : A → S → Prop) (E : error → S → Prop) (s : S) : Prop :=
  match m s with
  | (Ok a, s') => Q a s'
  | (Err e, s') => E e s'
  end.

(** [wp m Q s]: started in [s], [m] throws nothing and its value and final state satisfy [Q]. *)
Definition wp {S A} (m : M S A) (Q : A → S → Prop) (s : S) : Prop :=
  wpx m Q (λ _ _, False) s.

(** ** Machine integers *)

Definition u64_modulus : Z := 2 ^ 64.

(** [n] is a value of [uint64_t]. *)
Definition u64 (n : Z) : Prop := (0 ≤ n < u64_modulus)%Z.
Definition u64_wrap (n : Z) : Z := (n mod u64_modulus)%Z.

#[global] Instance u64_dec n : Decision (u64 n).
Proof. unfold u64. apply _. Defined.

(** ** Strings of the standard library *)

(** [std::string::operator<]: bytewise lexicographic. *)
Definition string_lt (s t : string) : Prop := String.ltb s t = true.

#[global] Instance string_lt_dec s t : Decision (string_lt s t).
Proof. unfold string_lt. apply _. Defined.

(** [std::string::starts_with] *)
Definition starts_with (s pre : string) : bool := String.prefix pre s.

(** [std::string::substr(0, n)] *)
Definition substr0 (n : nat) (s : string) : string := String.substring 0 n s.

(** Every byte is below 128. *)
Fixpoint ascii_only (s : string) : bool :=
  match s with
  | EmptyString => true
  | String c s => (Ascii.N_of_ascii c <? 128)%N && ascii_only s
  end.

(** A value of [unsigned char]. *)
Definition byte (b : Z) : Prop := (0 ≤ b < 256)%Z.

(** [std::unordered_map<std::string, A>] is a finite map; the order of a loop over it is not
    specified. *)
Class HashOrder := {
  hash_order : ∀ {A}, gmap string A → list (string * A);
  hash_order_perm {A} (m : gmap string A) : hash_order m ≡ₚ map_to_list m;
  (** [std::unordered_set] of pointers *)
  hash_elements : gset nat → list nat;
  hash_elements_perm s : hash_elements s ≡ₚ elements s }.

Create HintDb krapi discriminated.

(** ** Lemmas *)

Lemma result_bind_ok {A B} (r : result A) (f : A → result B) b :
  r ≫= f = Ok b ↔ ∃ a, r = Ok a ∧ f a = Ok b.
Proof. destruct r as [a|e]; cbn; naive_solver. Qed.

Lemma traverse_ok {A B} (f : A → result B) l ys :
  traverse f l = Ok ys ↔ Forall2 (λ x y, f x = Ok y) l ys.
Proof.
  revert ys. induction l as [|x l IH]; intros ys; cbn.
  - split; [intros [= <-]; constructor | inversion 1; done].
  - destruct (f x) as [y|e] eqn:Hf; cbn.
    + destruct (traverse f l) as [ys'|e] eqn:Ht; cbn.
      * split; [intros [= <-]; constructor; [done|by apply IH] |].
        inversion 1; subst. destruct (IH l') as [_ IH']. specialize (IH' H4). congruence.
      * split; [done|]. inversion 1; subst. apply IH in H4. done.
    + split; [done|]. inversion 1; subst. congruence.
Qed.

Lemma traverse_map {A B C} (f : B → result C) (g : A → B) l :
  traverse f (map g l) = traverse (λ x, f (g x)) l.
Proof. induction l as [|x l IH]; cbn; [done|]. by rewrite IH. Qed.

Lemma traverse_id {A B} (f : A → result B) (g : A → B) l :
  (∀ x, x ∈ l → f x = Ok (g x)) → traverse f l = Ok (map g l).
Proof.
  induction l as [|x l IH]; intros Hl; cbn; [done|].
  rewrite Hl by set_solver. cbn. rewrite IH by set_solver. done.
Qed.

Section WP.
Context {S : Type}.
Implicit Types (s : S) (E : error → S → Prop).

Lemma wpx_ret {A} (a : A) (Q : A → S → Prop) E s : Q a s → wpx (mret a) Q E s.
Proof. done. Qed.

Lemma wpx_bind {A B} (m : M S A) (f : A → M S B) Q E s :
  wpx (m ≫= f) Q E s ↔ wpx m (λ a, wpx (f a) Q E) E s.
Proof. unfold wpx, mbind, M_bind. destruct (m s) as [[a|e] s']; done. Qed.

Lemma wpx_mono {A} (m : M S A) (Q R : A → S → Prop) E F s :
  wpx m Q E s → (∀ a s', Q a s' → R a s') → (∀ e s', E e s' → F e s') → wpx m R F s.
Proof. unfold wpx. destruct (m s) as [[a|e] s']; naive_solver. Qed.

Lemma wp_wpx {A} (m : M S A) (Q : A → S → Prop) E s : wp m Q s → wpx m Q E s.
Proof. intros Hm. by eapply wpx_mono. Qed.

Lemma wp_mono {A} (m : M S A) (Q R : A → S → Prop) s :
  wp m Q s → (∀ a s', Q a s' → R a s') → wp m R s.
Proof. intros Hm HQ. by eapply wpx_mono. Qed.

Lemma wpx_gets {A} (f : S → A) (Q : A → S → Prop) E s : Q (f s) s → wpx (gets f) Q E s.
Proof. done. Qed.

Lemma wpx_modify (f : S → S) (Q : unit → S → Prop) E s : Q tt (f s) → wpx (modify f) Q E s.
Proof. done. Qed.

Lemma wpx_throw {A} e (Q : A → S → Prop) E s : E e s → wpx (throw e) Q E s.
Proof. done. Qed.

Lemma wpx_lift {A} (r : result A) (Q : A → S → Prop) E s :
  (∀ a, r = Ok a → Q a s) → (∀ e, r = Err e → E e s) → wpx (lift_result r) Q E s.
Proof. unfold wpx, lift_result. destruct r; auto. Qed.

Lemma wpx_lift_ok {A} (r : result A) a (Q : A → S → Prop) E s :
  r = Ok a → Q a s → wpx (lift_result r) Q E s.
Proof. by intros ->. Qed.

Lemma wpx_reads_ok {A} (f : S → result A) a (Q : A → S → Prop) E s :
  f s = Ok a → Q a s → wpx (reads f) Q E s.
Proof. unfold wpx, reads. by intros ->. Qed.

Lemma wpx_returns {A} (m : M S A) a (Q : A → S → Prop) E s s' :
  m s = (Ok a, s') → Q a s' → wpx m Q E s.
Proof. unfold wpx. by intros ->. Qed.

Lemma wpx_writes {A} (f : S → A * S) (Q : A → S → Prop) E s :
  Q (f s).1 (f s).2 → wpx (writes f) Q E s.
Proof. unfold wpx, writes. by destruct (f s). Qed.

Lemma wp_run {A} (m : M S A) (Q : A → S → Prop) s :
  wp m Q s ↔ ∃ a s', m s = (Ok a, s') ∧ Q a s'.
Proof. unfold wp, wpx. destruct (m s) as [[a|e] s'] eqn:Em; naive_solver. Qed.

Lemma wp_unit (m : M S unit) (P : S → Prop) s :
  wp m (λ _, P) s → ∃ s', m s = (Ok tt, s') ∧ P s'.
Proof. intros Hm. apply wp_run in Hm as ([] & s' & Hm). by exists s'. Qed.

(** A loop keeps an invariant over the elements already done. *)
Lemma wpx_for_each {A} (I : list A → S → Prop) E (body : A → M S unit) l :
  (∀ don x rest s, l = don ++ x :: rest → I don s →
     wpx (body x) (λ _, I (don ++ [x])) E s) →
  ∀ s, I [] s → wpx (for_each l body) (λ _, I l) E s.
Proof.
  intros Hbody.
  enough (∀ todo don s, l = don ++ todo → I don s → wpx (for_each todo body) (λ _, I l) E s)
    as Hall by (intros s; apply (Hall l []); done).
  induction todo as [|x todo IH]; intros don s Hl HI; cbn.
  - rewrite app_nil_r in Hl. subst. by apply wpx_ret.
  - apply wpx_bind. eapply wpx_mono; [by eapply Hbody| |done].
    intros [] s' HI'. apply (IH (don ++ [x])); [by rewrite Hl, <-app_assoc | done].
Qed.

Lemma wpx_for_each_app {A} (body : A → M S unit) l1 l2 (Q : unit → S → Prop) E s :
  wpx (for_each l1 body) (λ _, wpx (for_each l2 body) Q E) E s →
  wpx (for_each (l1 ++ l2) body) Q E s.
Proof.
  revert s. induction l1 as [|x l1 IH]; intros s; cbn [for_each app]; [done|].
  intros Hs. apply wpx_bind. apply (proj1 (wpx_bind _ _ _ _ _)) in Hs. eapply wpx_mono; [exact Hs| |done].
  intros [] s' Hs'. by apply IH.
Qed.

Lemma wpx_zoom {C A} (l : Lens S C) (m : M C A) Q E s :
  wpx (zoom l m) Q E s ↔
  wpx m (λ a c, Q a (lset l c s)) (λ e c, E e (lset l c s)) (lget l s).
Proof. unfold wpx, zoom. destruct (m (lget l s)) as [[a|e] c]; done. Qed.
End WP.

Lemma wpx_zoom_bind {S A B C} (l : Lens S A) `{!LensLaws l} (m : M A B) (f : B → M A C)
    (Q : C → S → Prop) E s :
  wpx (zoom l m) (λ a, wpx (zoom l (f a)) Q E) E s → wpx (zoom l (m ≫= f)) Q E s.
Proof.
  unfold wpx, zoom, mbind, M_bind. destruct (m (lget l s)) as [[a|e] t]; [|done].
  rewrite lget_lset. destruct (f a t) as [[c|e] u]; by rewrite lset_lset.
Qed.

Lemma lens_comp_laws {S A B} (l : Lens S A) (k : Lens A B) :
  LensLaws l → LensLaws k → LensLaws (lens_comp l k).
Proof.
  intros Hl Hk. split; intros; cbn.
  - by rewrite !lget_lset.
  - by rewrite !lset_lget.
  - by rewrite lget_lset, !lset_lset.
Qed.

Lemma lens_id_laws {S} : LensLaws (@lens_id S).
Proof. split; done. Qed.

#[export] Hint Resolve wpx_ret wpx_gets wpx_modify wpx_throw : krapi.

(** ** Invariants

    [m] keeps [I], whether it ends with a value or with an exception. *)
Definition preserves {S A} (I : S → Prop) (m : M S A) : Prop :=
  ∀ s, I s → wpx m (λ _, I) (λ _, I) s.

Section Preserves.
Context {S : Type} (I : S → Prop).

Lemma preserves_bind {A B} (m : M S A) (f : A → M S B) :
  preserves I m → (∀ a, preserves I (f a)) → preserves I (m ≫= f).
Proof.
  intros Hm Hf s HI. apply wpx_bind. eapply wpx_mono; [by apply Hm| |done].
  intros a s' HI'. by apply Hf.
Qed.

(** The continuation of a pure step may use its result. *)
Lemma preserves_lift_bind {A B} (r : result A) (f : A → M S B) :
  (∀ a, r = Ok a → preserves I (f a)) → preserves I (lift_result r ≫= f).
Proof.
  intros Hf s HI. apply wpx_bind, wpx_lift; [|done]. intros a Ha. by apply Hf.
Qed.

Lemma preserves_ret {A} (a : A) : preserves I (mret a).
Proof. intros s HI. exact HI. Qed.

Lemma preserves_throw {A} e : preserves (A:=A) I (throw e).
Proof. intros s HI. exact HI. Qed.

Lemma preserves_gets {A} (f : S → A) : preserves I (gets f).
Proof. intros s HI. exact HI. Qed.

Lemma preserves_lift {A} (r : result A) : preserves I (lift_result r).
Proof. intros s HI. by apply wpx_lift. Qed.

Lemma preserves_reads {A} (f : S → result A) : preserves I (reads f).
Proof. intros s HI. unfold wpx, reads. by destruct (f s). Qed.

Lemma preserves_modify (f : S → S) : (∀ s, I s → I (f s)) → preserves I (modify f).
Proof. intros Hf s HI. by apply wpx_modify, Hf. Qed.

Lemma preserves_for_each {A} (l : list A) (body : A → M S unit) :
  (∀ x, preserves I (body x)) → preserves I (for_each l body).
Proof.
  intros Hbody. induction l as [|x l IH]; [by apply preserves_ret|].
  apply preserves_bind; [apply Hbody|]. by intros [].
Qed.

Lemma preserves_finally {A} (m : M S A) (k : M S unit) :
  preserves I m → preserves I k → preserves I (finally m k).
Proof.
  intros Hm Hk s HI. specialize (Hm s HI). unfold wpx, finally in *.
  destruct (m s) as [[a|e] s']; specialize (Hk s' Hm); unfold wpx in Hk;
    by destruct (k s') as [[u|e'] s''].
Qed.

Lemma preserves_zoom {C A} (J : C → Prop) (l : Lens S C) (m : M C A) :
  (∀ s, I s → J (lget l s)) → (∀ s c, I s → J c → I (lset l c s)) →
  preserves J m → preserves I (zoom l m).
Proof.
  intros Hget Hset Hm s HI. apply wpx_zoom.
  eapply wpx_mono; [by apply Hm, Hget|..]; intros; by apply Hset.
Qed.

(** A component the invariant does not speak about. *)
Lemma preserves_zoom_other {C A} (l : Lens S C) (m : M C A) :
  (∀ s c, I s → I (lset l c s)) → preserves I (zoom l m).
Proof.
  intros Hset. apply (preserves_zoom (λ _, True)); [done|auto|].
  intros c _. unfold wpx. by destruct (m c) as [[]].
Qed.
Lemma preserves_and {A} (J : S → Prop) (m : M S A) :
  preserves I m → preserves J m → preserves (λ s, I s ∧ J s) m.
Proof.
  intros Hm Hm' s [HI HJ]. specialize (Hm s HI). specialize (Hm' s HJ).
  unfold wpx in *. by destruct (m s) as [[a|e] s'].
Qed.

Lemma preserves_wp {A} (m : M S A) :
  (∀ s, I s → wp m (λ _, I) s) → preserves I m.
Proof. intros Hm s HI. by apply wp_wpx, Hm. Qed.

(** What a run does, and what it keeps. *)
Lemma wp_preserves {A} (m : M S A) (Q : A → S → Prop) s :
  preserves I m → I s → wp m Q s → wp m (λ a s', Q a s' ∧ I s') s.
Proof.
  intros Hm HI HQ. specialize (Hm s HI). unfold wp, wpx in *. by destruct (m s) as [[a|e] s'].
Qed.

(** The state it leaves, however it ends. *)
Lemma preserves_final {A} (m : M S A) s : preserves I m → I s → I (m s).2.
Proof. intros Hm HI. specialize (Hm s HI). unfold wpx in Hm. by destruct (m s) as [[a|e] s']. Qed.
End Preserves.

#[export] Hint Resolve preserves_ret preserves_throw preserves_gets preserves_lift
  preserves_reads : krapi.

(** One step of a program under [wpx] or [wp]: binds, loads, stores and component calls. *)
Ltac wp_step :=
  lazymatch goal with
  | |- wp _ _ _ => unfold wp; wp_step
  | |- wpx (mbind _ _) _ _ _ => apply wpx_bind
  | |- wpx (mret _) _ _ _ => apply wpx_ret
  | |- wpx (gets _) _ _ _ => apply wpx_gets
  | |- wpx (modify _) _ _ _ => apply wpx_modify
  | |- wpx (throw _) _ _ _ => apply wpx_throw
  | |- wpx (zoom _ _) _ _ _ => apply wpx_zoom
  end.
Ltac wp_steps := repeat wp_step; cbn [lget lset].
#[export] Hint Resolve lens_comp_laws lens_id_laws : typeclass_instances.

