(* ===== verification/Json.v ===== *)
(** * What the program relies on of nlohmann::json

    The JSON library is a git submodule of the repository, so it is a parameter here: the class
    [JsonLib] has the operations the program calls and the documented facts it relies on. The
    program's own enum tables and [to_json] / [from_json] functions are in the files that
    require this one. *)

From stdpp Require Import base list gmap strings.
From S2P Require Import Prelude.

(** The argument of NLOHMANN_JSON_SERIALIZE_ENUM: at least one pair. *)
Record enum_table (E : Type) := EnumTable {
  et_first : E * string;
  et_rest : list (E * string) }.
Arguments EnumTable {E} _ _.
Arguments et_first {E} _.
Arguments et_rest {E} _.

Definition et_all {E} (t : enum_table E) : list (E * string) := et_first t :: et_rest t.

(** The name the macro gives an enumerator: that of the first pair that has it, and of the
    first pair when none has. *)
Definition enum_name {E} `{EqDecision E} (t : enum_table E) (e : E) : string :=
  match list_find (λ p, p.1 = e) (et_all t) with
  | Some (_, p) => p.2
  | None => (et_first t).2
  end.

(** The enumerator the macro gives a name: that of the first pair that has it, and of the
    first pair when none has. *)
Definition enum_value {E} (t : enum_table E) (s : string) : E :=
  match list_find (λ p, p.2 = s) (et_all t) with
  | Some (_, p) => p.1
  | None => (et_first t).1
  end.

Class JsonLib := {
  json : Type;
  json_eq_dec :: EqDecision json;

  (** Values. [jobject] is the object the initializer list of pairs builds. *)
  jnull : json;
  jbool : bool → json;
  jint : Z → json;
  juint : Z → json;
  jstring : string → json;
  jarray : list json → json;
  jobject : list (string * json) → json;

  (** [json[key]] on a const and on a mutable value, [get<T>()] and the range-based loop. *)
  index_const : json → string → result json;
  index_mut : json → string → result json;
  get_string : json → result string;
  get_uint64 : json → result Z;
  elements : json → list json;
  (** [get<std::unordered_map<std::string, uint64_t>>()] *)
  get_uint64_map : json → result (gmap string Z);

  (** The two functions NLOHMANN_JSON_SERIALIZE_ENUM defines. *)
  enum_to_json : ∀ {E} `{EqDecision E}, enum_table E → E → json;
  enum_from_json : ∀ {E}, enum_table E → json → E;

  (** [dump] throws on a string that is not UTF-8; [parse] throws on malformed text. *)
  dump : json → result string;
  parse : string → result json;

  (** Valid UTF-8, and a value that [dump] prints and [parse] reads back as it was. *)
  text : string → Prop;
  canonical : json → Prop;

  get_string_string s : get_string (jstring s) = Ok s;
  get_string_null : get_string jnull = Err TypeError;
  get_uint64_uint n : u64 n → get_uint64 (juint n) = Ok n;
  get_uint64_null : get_uint64 jnull = Err TypeError;
  get_uint64_map_object l kvs :
    NoDup l.*1 → traverse (λ kv, n ← get_uint64 kv.2; Ok (kv.1, n)) l = Ok kvs →
    get_uint64_map (jobject l) = Ok (list_to_map kvs);
  get_uint64_range j n : get_uint64 j = Ok n → u64 n;
  index_const_object l k v :
    NoDup l.*1 → (k, v) ∈ l → index_const (jobject l) k = Ok v;
  index_const_missing l k :
    k ∉ l.*1 → index_const (jobject l) k = Err UndefinedBehaviour;
  index_mut_object l k v :
    NoDup l.*1 → (k, v) ∈ l → index_mut (jobject l) k = Ok v;
  index_mut_missing l k : k ∉ l.*1 → index_mut (jobject l) k = Ok jnull;
  elements_array l : elements (jarray l) = l;
  elements_null : elements jnull = [];
  enum_to_json_name {E} `{EqDecision E} (t : enum_table E) e :
    enum_to_json t e = jstring (enum_name t e);
  enum_from_json_string {E} (t : enum_table E) s :
    enum_from_json t (jstring s) = enum_value t s;
  enum_from_json_other {E} (t : enum_table E) j :
    (∀ s, j ≠ jstring s) → enum_from_json t j = (et_first t).1;

  parse_dump j : canonical j → ∃ s, dump j = Ok s ∧ parse s = Ok j;
  parse_canonical s j : parse s = Ok j → canonical j;
  canonical_null : canonical jnull;
  canonical_bool b : canonical (jbool b);
  canonical_uint n : u64 n → canonical (juint n);
  canonical_string s : text s → canonical (jstring s);
  canonical_array l : Forall canonical l → canonical (jarray l);
  canonical_object l :
    NoDup l.*1 → Forall (λ p, text p.1 ∧ canonical p.2) l → canonical (jobject l);
  canonical_get_string j s : canonical j → get_string j = Ok s → text s;
  canonical_index_const j k v : canonical j → index_const j k = Ok v → canonical v;
  canonical_index_mut j k v : canonical j → index_mut j k = Ok v → canonical v;
  canonical_elements j : canonical j → Forall canonical (elements j);
  text_ascii s : ascii_only s = true → text s }.

(** ** Enum tables *)

(** A table with no name and no enumerator twice. *)
Definition table_ok {E} (t : enum_table E) : Prop :=
  NoDup (et_all t).*1 ∧ NoDup (et_all t).*2.

(** The enumerators of [t]. *)
Definition in_table {E} (t : enum_table E) (e : E) : Prop := e ∈ (et_all t).*1.

#[global] Instance table_ok_dec {E} `{EqDecision E} (t : enum_table E) : Decision (table_ok t).
Proof. unfold table_ok. apply _. Defined.

#[global] Instance in_table_dec {E} `{EqDecision E} (t : enum_table E) e :
  Decision (in_table t e).
Proof. unfold in_table. apply _. Defined.

(** Decoding the name of an enumerator of the table gives the enumerator back. *)
Lemma enum_value_name {E} `{EqDecision E} (t : enum_table E) e :
  table_ok t → in_table t e → enum_value t (enum_name t e) = e.
Proof.
  intros [Hfst Hsnd] Hin. unfold in_table in Hin. unfold enum_value, enum_name.
  destruct (list_find (λ p, p.1 = e) (et_all t)) as [[i p]|] eqn:Hf.
  - apply list_find_Some in Hf as (Hi & He & _). cbn in He.
    destruct (list_find (λ q, q.2 = p.2) (et_all t)) as [[j q]|] eqn:Hg.
    + apply list_find_Some in Hg as (Hj & Hn & _). cbn in Hn.
      assert (i = j) as <-; [|congruence].
      eapply (NoDup_lookup _ _ _ (p.2) Hsnd); rewrite list_lookup_fmap.
      * by rewrite Hi.
      * rewrite Hj. cbn. by rewrite Hn.
    + exfalso. apply list_find_None in Hg. rewrite Forall_forall in Hg.
      apply (Hg p); [|done]. by eapply list_elem_of_lookup_2.
  - exfalso. apply list_find_None in Hf. rewrite Forall_forall in Hf.
    apply list_elem_of_fmap in Hin as (p & -> & Hp). by apply (Hf p).
Qed.

(** A name is never decoded to an enumerator outside the table. *)
Lemma enum_value_in {E} (t : enum_table E) s : in_table t (enum_value t s).
Proof.
  unfold in_table, enum_value.
  destruct (list_find (λ p, p.2 = s) (et_all t)) as [[i p]|] eqn:Hf.
  - apply list_find_Some in Hf as (Hi & _ & _).
    apply list_elem_of_fmap_2. by eapply list_elem_of_lookup_2.
  - cbn. apply list_elem_of_here.
Qed.

Section Enums.
Context `{JsonLib}.

Lemma enum_roundtrip {E} `{EqDecision E} (t : enum_table E) e :
  table_ok t → in_table t e → enum_from_json t (enum_to_json t e) = e.
Proof.
  intros. rewrite enum_to_json_name, enum_from_json_string. by apply enum_value_name.
Qed.

End Enums.

(** ** Automation: fields of an object the program built *)

(** Closes [(k, ?v) ∈ l] for a literal list of pairs. *)
Ltac json_member :=
  repeat first [apply list_elem_of_here | apply list_elem_of_further].

(** Closes [NoDup l.*1] and [k ∉ l.*1] for literal keys. *)
Ltac json_keys := cbn; compute_done.

(** Evaluates every [json[key]] on an object the program built. *)
Ltac json_index :=
  repeat first
    [ erewrite index_const_object; [| json_keys | json_member]
    | erewrite index_mut_object; [| json_keys | json_member] ];
  cbn [mbind result_bind].

(** An object the program builds from literal keys and canonical values is canonical. *)
Ltac json_canonical :=
  apply canonical_object;
  [ json_keys
  | repeat (apply Forall_cons; split; [split; [apply text_ascii; reflexivity | cbn]|]);
    [.. | by apply Forall_nil] ].

#[export] Hint Resolve canonical_null canonical_bool canonical_uint canonical_string
  canonical_array text_ascii : krapi.
