(* ===== verification/Crypto.v ===== *)
(** * What the program relies on of Crypto++, fmt, merklecpp, stduuid and the clock

    All of them are outside [src/]: their functions are parameters of the model, with the
    documented facts the program relies on. *)

From stdpp Require Import base list strings.
From S2P Require Import Prelude.

(** Crypto++'s SHA-256 and hexadecimal filters, fmt's decimal output of an unsigned integer and
    merklecpp's tree over a hash function of two 32-byte nodes. *)
Class CryptoLib := {
  (** [StringSource(s, true, new HashFilter(sha_256, ...))] *)
  sha256 : string → list Z;
  (** [sha_256.Update(l); sha_256.Update(r); sha_256.Final(out)] *)
  sha256_bytes : list Z → list Z;
  (** [new HexEncoder(new StringSink(out))] *)
  hex_encode : list Z → string;
  (** [StringSource(s, true, new HexDecoder(new ArraySink(a.data(), 32)))] with [a] zeroed. *)
  hex_decode32 : string → list Z;
  (** [fmt::format] of one [uint64_t] with the format of two braces. *)
  fmt_uint64 : Z → string;
  (** [tree.insert] of every hash, then [tree.root().to_string(32, false)], for a
      [merkle::TreeT<32, f>]. *)
  merkle_root_string : (list Z → list Z → list Z) → list string → result string;

  sha256_length s : length (sha256 s) = 32;
  sha256_byte s : Forall byte (sha256 s);
  hex_encode_ascii l : ascii_only (hex_encode l) = true;
  hex_decode32_length s : length (hex_decode32 s) = 32;
  hex_decode32_byte s : Forall byte (hex_decode32 s);
  hex_decode32_encode l :
    length l = 32 → Forall byte l → hex_decode32 (hex_encode l) = l;
  merkle_root_ascii f l s : merkle_root_string f l = Ok s → ascii_only s = true;
  merkle_root_empty f : merkle_root_string f [] = Err LibraryError }.

(** The wall clock in milliseconds and the source of random tags. The [n]-th reading and the
    [n]-th tag of a run are numbered. *)
Class HostLib := {
  clock_at : nat → Z;
  uuid_at : nat → string;
  clock_u64 n : u64 (clock_at n);
  uuid_ascii n : ascii_only (uuid_at n) = true;
  uuid_unique m n : uuid_at m = uuid_at n → m = n }.

(** How many readings and tags the process has used. *)
Record Host := MkHost { clock_ix : nat; uuid_ix : nat }.

Section Host.
Context `{HostLib}.

(** [get_krapi_timestamp()]: milliseconds since the epoch, as [uint64_t]. *)
Definition get_krapi_timestamp : M Host Z := λ h,
  (Ok (clock_at (clock_ix h)), MkHost (S (clock_ix h)) (uuid_ix h)).

(** [uuids::to_string(uuids::uuid_system_generator{}())] *)
Definition create_tag : M Host string := λ h,
  (Ok (uuid_at (uuid_ix h)), MkHost (clock_ix h) (S (uuid_ix h))).

Lemma wpx_create_tag (Q : string → Host → Prop) E h :
  (∀ tag h', ascii_only tag = true → Q tag h') → wpx create_tag Q E h.
Proof. intros HQ. apply HQ, uuid_ascii. Qed.

Lemma wpx_timestamp (Q : Z → Host → Prop) E h :
  (∀ t h', u64 t → Q t h') → wpx get_krapi_timestamp Q E h.
Proof. intros HQ. apply HQ, clock_u64. Qed.
End Host.
