(* ===== verification/LevelDB.v ===== *)
(** * What the program relies on of LevelDB

    LevelDB is a git submodule: an ordered map from string keys to string values. The class
    gives its calls and their meaning on the contents [db_view] of an open database. A write may
    fail; it is atomic, so it then changes nothing. *)

From stdpp Require Import base list gmap strings sorting.
From S2P Require Import Prelude.

Class LevelDB := {
  db : Type;
  db_view : db → gmap string string;

  (** [Get]: the value when the status is ok. *)
  db_get : db → string → option string;
  (** [Put] and [Delete]: [status.ok()] and the database afterwards. *)
  db_put : string → string → db → bool * db;
  db_delete : string → db → bool * db;
  (** [NewIterator] on a snapshot, then [SeekToFirst], [Valid], [Next], [value]. *)
  db_iter : db → list (string * string);

  db_get_view k d : db_get d k = db_view d !! k;
  db_put_view k v d :
    db_view (db_put k v d).2 =
      if (db_put k v d).1 then <[k := v]> (db_view d) else db_view d;
  db_delete_view k d :
    db_view (db_delete k d).2 =
      if (db_delete k d).1 then delete k (db_view d) else db_view d;
  db_iter_view d : db_iter d ≡ₚ map_to_list (db_view d);
  db_iter_sorted d : StronglySorted string_lt (db_iter d).*1 }.

Section LevelDB.
Context `{LevelDB}.

Lemma db_iter_elem d k v : (k, v) ∈ db_iter d ↔ db_view d !! k = Some v.
Proof. rewrite db_iter_view. apply elem_of_map_to_list. Qed.

Lemma db_iter_nodup d : NoDup (db_iter d).*1.
Proof. rewrite db_iter_view. apply NoDup_fst_map_to_list. Qed.

Lemma db_iter_length d : length (db_iter d) = size (db_view d).
Proof. rewrite db_iter_view. apply length_map_to_list. Qed.
End LevelDB.

(** A disk on which every write succeeds. *)
Class ReliableWrites `{LevelDB} : Prop := {
  reliable_put k v d : (db_put k v d).1 = true;
  reliable_delete k d : (db_delete k d).1 = true }.
