(* ===== verification/Fifo.v ===== *)
(** * What the program relies on of its queues

    [moodycamel::BlockingReaderWriterQueue] (the transaction pool's queue) and
    [eventpp::EventQueue] (the process's event queue) are submodules. Both are used as first-in
    first-out queues; the first one refuses [try_enqueue] when it has no room, the second one
    also keeps the registered callbacks. *)

From stdpp Require Import base list.
From S2P Require Import Prelude.

Class FifoLib := {
  fifo : Type → Type;
  fifo_view : ∀ {A}, fifo A → list A;
  fifo_empty : ∀ {A}, fifo A;
  fifo_enqueue : ∀ {A}, A → fifo A → fifo A;
  (** [try_enqueue]: whether there was room, and the queue afterwards. *)
  fifo_try_enqueue : ∀ {A}, A → fifo A → bool * fifo A;
  (** [wait_dequeue]: [None] while the call has to wait. *)
  fifo_dequeue : ∀ {A}, fifo A → option (A * fifo A);

  fifo_empty_view {A} : fifo_view (@fifo_empty A) = [];
  fifo_enqueue_view {A} (x : A) q : fifo_view (fifo_enqueue x q) = fifo_view q ++ [x];
  fifo_try_enqueue_view {A} (x : A) q :
    fifo_view (fifo_try_enqueue x q).2 =
      if (fifo_try_enqueue x q).1 then fifo_view q ++ [x] else fifo_view q;
  fifo_dequeue_view {A} (q : fifo A) :
    match fifo_dequeue q with
    | Some (x, q') => fifo_view q = x :: fifo_view q'
    | None => fifo_view q = []
    end }.

(** [eventpp::EventQueue<K, void(A)>] with callbacks of type [C]. *)
Class EventppLib := {
  epp : Type → Type → Type → Type;
  epp_pending : ∀ {K A C}, epp K A C → list (K * A);
  epp_listeners : ∀ {K A C} `{EqDecision K}, epp K A C → K → list (nat * C);
  epp_empty : ∀ {K A C}, epp K A C;
  epp_enqueue : ∀ {K A C}, K → A → epp K A C → epp K A C;
  (** [takeEvent] *)
  epp_take : ∀ {K A C}, epp K A C → option (K * A * epp K A C);
  (** [clearEvents] *)
  epp_clear : ∀ {K A C}, epp K A C → epp K A C;
  (** [appendListener] returns the handle [removeListener] needs. *)
  epp_append : ∀ {K A C}, K → C → epp K A C → nat * epp K A C;
  epp_remove : ∀ {K A C} `{EqDecision K}, K → nat → epp K A C → epp K A C;

  epp_empty_pending {K A C} : epp_pending (@epp_empty K A C) = [];
  epp_enqueue_pending {K A C} k a (q : epp K A C) :
    epp_pending (epp_enqueue k a q) = epp_pending q ++ [(k, a)];
  epp_take_pending {K A C} (q : epp K A C) :
    match epp_take q with
    | Some (k, a, q') => epp_pending q = (k, a) :: epp_pending q'
    | None => epp_pending q = []
    end;
  epp_clear_pending {K A C} (q : epp K A C) : epp_pending (epp_clear q) = [];
  epp_append_pending {K A C} k c (q : epp K A C) :
    epp_pending (epp_append k c q).2 = epp_pending q;
  epp_remove_pending {K A C} `{EqDecision K} k h (q : epp K A C) :
    epp_pending (epp_remove k h q) = epp_pending q;

  epp_empty_listeners {K A C} `{EqDecision K} k :
    epp_listeners (@epp_empty K A C) k = [];
  epp_enqueue_listeners {K A C} `{EqDecision K} k k' a (q : epp K A C) :
    epp_listeners (epp_enqueue k a q) k' = epp_listeners q k';
  epp_take_listeners {K A C} `{EqDecision K} k a q' (q : epp K A C) k' :
    epp_take q = Some (k, a, q') → epp_listeners q' k' = epp_listeners q k';
  epp_clear_listeners {K A C} `{EqDecision K} (q : epp K A C) k :
    epp_listeners (epp_clear q) k = epp_listeners q k;
  epp_append_listeners {K A C} `{EqDecision K} k c (q : epp K A C) k' :
    epp_listeners (epp_append k c q).2 k' =
      epp_listeners q k' ++
        (if decide (k = k') then [((epp_append k c q).1, c)] else []);
  epp_append_fresh {K A C} `{EqDecision K} k c (q : epp K A C) k' c' :
    ((epp_append k c q).1, c') ∉ epp_listeners q k';
  epp_remove_listeners {K A C} `{EqDecision K} k h (q : epp K A C) k' :
    epp_listeners (epp_remove k h q) k' =
      if decide (k = k') then filter (λ p, p.1 ≠ h) (epp_listeners q k')
      else epp_listeners q k' }.
