(* ===== verification/Rtc.v ===== *)
(** * What the program relies on of libdatachannel

    Peer connections, data channels and web sockets of the submodule libdatachannel. The state
    [rtc] is the library's; connections, channels and sockets are numbers. What matters to the
    program's users is what was handed over for sending, [rtc_sent]: sending appends to it when
    it does not throw, and nothing else changes it. The callbacks of the library are the entry
    points of the files that require this one. *)

From stdpp Require Import base list strings.
From S2P Require Import Prelude.

(** Where a text is sent. *)
Inductive Target :=
  | Channel (n : nat)
  | Socket (n : nat).

#[global] Instance Target_eq_dec : EqDecision Target.
Proof. solve_decision. Defined.

(** The texts of a list that went to [target]. *)
Definition texts_to (target : Target) (sent : list (Target * string)) : list string :=
  omap (λ ts : Target * string, if decide (ts.1 = target) then Some ts.2 else None) sent.

Lemma texts_to_app target sent sent' :
  texts_to target (sent ++ sent') = texts_to target sent ++ texts_to target sent'.
Proof. apply omap_app. Qed.

Lemma texts_to_same target (ts : list string) : texts_to target (map (pair target) ts) = ts.
Proof. unfold texts_to. induction ts as [|t ts IH]; [done|]. cbn. by rewrite decide_True, IH. Qed.

Lemma texts_to_other target target' (ts : list string) :
  target ≠ target' → texts_to target (map (pair target') ts) = [].
Proof.
  intros Hne. unfold texts_to. induction ts as [|t ts IH]; [done|]. cbn.
  by rewrite decide_False by congruence.
Qed.

Class RtcLib := {
  rtc : Type;
  rtc_sent : rtc → list (Target * string);

  (** [make_shared<rtc::PeerConnection>(rtc::Configuration())] and [createDataChannel] *)
  rtc_connect : rtc → nat * rtc;
  rtc_create_channel : nat → string → rtc → nat * rtc;
  (** [setRemoteDescription(rtc::Description(sdp, type))] and
      [addRemoteCandidate(rtc::Candidate(candidate, mid))] *)
  rtc_set_remote : nat → string → string → M rtc unit;
  rtc_add_candidate : nat → string → string → M rtc unit;
  (** [isOpen], [isClosed], [send] and [close] of a data channel, [send] of a web socket *)
  ch_is_open : rtc → nat → bool;
  ch_is_closed : rtc → nat → bool;
  ch_send : nat → string → M rtc unit;
  ch_close : nat → rtc → rtc;
  ws_send : nat → string → M rtc unit;

  rtc_connect_sent r : rtc_sent (rtc_connect r).2 = rtc_sent r;
  rtc_create_channel_sent c l r : rtc_sent (rtc_create_channel c l r).2 = rtc_sent r;
  rtc_set_remote_sent c s t r : rtc_sent (rtc_set_remote c s t r).2 = rtc_sent r;
  rtc_add_candidate_sent c s t r : rtc_sent (rtc_add_candidate c s t r).2 = rtc_sent r;
  ch_close_sent c r : rtc_sent (ch_close c r) = rtc_sent r;
  ch_send_sent c s r :
    wpx (ch_send c s) (λ _ r', rtc_sent r' = rtc_sent r ++ [(Channel c, s)])
        (λ _ r', rtc_sent r' = rtc_sent r) r;
  ws_send_sent w s r :
    wpx (ws_send w s) (λ _ r', rtc_sent r' = rtc_sent r ++ [(Socket w, s)])
        (λ _ r', rtc_sent r' = rtc_sent r) r }.

(** An open channel takes every text and stays open: the network does not fail. *)
Class ReliableChannels `{RtcLib} : Prop := {
  ch_send_open c s r :
    ch_is_open r c = true → ch_is_closed r c = false →
    wp (ch_send c s)
       (λ _ r', rtc_sent r' = rtc_sent r ++ [(Channel c, s)] ∧
          ∀ d, ch_is_open r' d = ch_is_open r d ∧ ch_is_closed r' d = ch_is_closed r d) r }.

(** A web socket takes every text: the connection to the signaling server does not fail. *)
Class ReliableSockets `{RtcLib} : Prop := {
  ws_send_open w s r :
    wp (ws_send w s) (λ _ r', rtc_sent r' = rtc_sent r ++ [(Socket w, s)]) r }.

(** An open channel that throws is one that fails. *)
Lemma ch_send_fails `{RtcLib} c s r :
  ch_is_open r c && negb (ch_is_closed r c) = true →
  wpx (ch_send c s) (λ _ r', rtc_sent r' = rtc_sent r ++ [(Channel c, s)])
      (λ _ r', ¬ ReliableChannels ∧ rtc_sent r' = rtc_sent r) r.
Proof.
  intros [Ho Hc%negb_true_iff]%andb_prop. pose proof (ch_send_sent c s r) as Hs.
  unfold wpx in *. destruct (ch_send c s r) as [[[]|e] r'] eqn:Hr; [done|]. split; [|done].
  intros HR. pose proof (ch_send_open c s r Ho Hc) as Hok. unfold wp, wpx in Hok.
  by rewrite Hr in Hok.
Qed.

(** A socket that throws is one that fails. *)
Lemma ws_send_fails `{RtcLib} w s r :
  wpx (ws_send w s) (λ _ r', rtc_sent r' = rtc_sent r ++ [(Socket w, s)])
      (λ _ r', ¬ ReliableSockets ∧ rtc_sent r' = rtc_sent r) r.
Proof.
  pose proof (ws_send_sent w s r) as Hs. unfold wpx in *.
  destruct (ws_send w s r) as [[[]|e] r'] eqn:Hr; [done|]. split; [|done].
  intros HR. pose proof (ws_send_open w s r) as Hok. unfold wp, wpx in Hok. by rewrite Hr in Hok.
Qed.

(** [rtc::message_variant] *)
Inductive RtcMessage :=
  | RtcBinary (bytes : list Z)
  | RtcText (s : string).

(** [std::get<std::string>(message)] *)
Definition rtc_text (m : RtcMessage) : result string :=
  match m with RtcText s => Ok s | RtcBinary _ => Err BadVariantAccess end.
