(* ===== verification/Concrete.v ===== *)
(** * Concrete libraries

    Executable instances of the classes that stand for the third-party code, so that the
    theorems can be applied to runs of the program: JSON values as trees printed as bits, a
    checksum as digest, hexadecimal digits as Crypto++ writes them, a sorted finite map as
    database, lists as queues, a counter as clock. They satisfy every law of the classes. *)

From Stdlib Require Import Ascii.
From stdpp Require Import base sets list gmap strings countable sorting pretty.
From Stdlib Require Import ZArith Lia.
From Stdlib Require String Ascii.
From S2P Require Import Prelude Json Crypto LevelDB Fifo Rtc.

Open Scope Z_scope.

(** ** JSON *)

Module Trees.
Inductive leaf :=
  | LNull
  | LBool (b : bool)
  | LInt (n : Z)
  | LUint (n : Z)
  | LString (s : string).

#[global] Instance leaf_eq_dec : EqDecision leaf.
Proof. solve_decision. Defined.

#[global] Instance leaf_countable : Countable leaf.
Proof.
  refine (inj_countable'
    (λ l, match l with
          | LNull => inl (inl None)
          | LBool b => inl (inl (Some b))
          | LInt n => inl (inr (false, n))
          | LUint n => inl (inr (true, n))
          | LString s => inr s
          end)
    (λ x, match x with
          | inl (inl None) => LNull
          | inl (inl (Some b)) => LBool b
          | inl (inr (false, n)) => LInt n
          | inl (inr (true, n)) => LUint n
          | inr s => LString s
          end) _).
  by intros [].
Defined.

Definition tree := gen_tree leaf.

(** Arrays are nodes 0, objects nodes 1, the members of an object nodes 2. *)
Definition member (p : string * tree) : tree := GenNode 2 [GenLeaf (LString p.1); p.2].

Fixpoint find_member (k : string) (l : list tree) : option tree :=
  match l with
  | [] => None
  | GenNode 2 [GenLeaf (LString k'); v] :: l =>
      if decide (k' = k) then Some v else find_member k l
  | _ :: l => find_member k l
  end.

Definition index_const (j : tree) (k : string) : result tree :=
  match j with
  | GenNode 1 l => match find_member k l with Some v => Ok v | None => Err UndefinedBehaviour end
  | _ => Err TypeError
  end.

Definition index_mut (j : tree) (k : string) : result tree :=
  match j with
  | GenNode 1 l => match find_member k l with Some v => Ok v | None => Ok (GenLeaf LNull) end
  | GenLeaf LNull => Ok (GenLeaf LNull)
  | _ => Err TypeError
  end.

Definition get_string (j : tree) : result string :=
  match j with GenLeaf (LString s) => Ok s | _ => Err TypeError end.

Definition get_uint64 (j : tree) : result Z :=
  match j with
  | GenLeaf (LUint n) => Ok (u64_wrap n)
  | GenLeaf (LInt n) => Ok (u64_wrap n)
  | GenLeaf (LBool b) => Ok (if b then 1 else 0)
  | _ => Err TypeError
  end.

Definition elements (j : tree) : list tree :=
  match j with
  | GenNode 0 l => l
  | GenNode _ l => omap (λ m, match m with GenNode 2 [_; v] => Some v | _ => None end) l
  | GenLeaf LNull => []
  | GenLeaf _ => [j]
  end.

Definition get_uint64_map (j : tree) : result (gmap string Z) :=
  match j with
  | GenNode 1 l =>
      kvs ← traverse (λ m, match m with
                           | GenNode 2 [GenLeaf (LString k); v] => n ← get_uint64 v; Ok (k, n)
                           | _ => Err TypeError
                           end) l;
      Ok (list_to_map kvs)
  | _ => Err TypeError
  end.

(** A value that prints: its strings are ASCII and its numbers in range. *)
Fixpoint printable (j : tree) : bool :=
  match j with
  | GenLeaf (LString s) => ascii_only s
  | GenLeaf (LUint n) => (0 <=? n) && (n <? 2 ^ 64)
  | GenLeaf (LInt n) => (- 2 ^ 63 <=? n) && (n <? 0)
  | GenLeaf _ => true
  | GenNode _ l => forallb printable l
  end.

Fixpoint to_bits (p : positive) : string :=
  match p with
  | xH => ""
  | xO p => String "0"%char (to_bits p)
  | xI p => String "1"%char (to_bits p)
  end.

Fixpoint of_bits (s : string) : positive :=
  match s with
  | EmptyString => xH
  | String c s => if Ascii.eqb c "1"%char then xI (of_bits s) else xO (of_bits s)
  end.

Definition dump (j : tree) : result string :=
  if printable j then Ok (to_bits (encode j)) else Err TypeError.

Definition parse (s : string) : result tree :=
  match decode (of_bits s) with
  | Some j => if printable j then Ok j else Err ParseError
  | None => Err ParseError
  end.

Lemma of_to_bits p : of_bits (to_bits p) = p.
Proof. induction p as [p IH|p IH|]; cbn; congruence. Qed.

Lemma find_member_in l k v :
  NoDup l.*1 → (k, v) ∈ l → find_member k (map member l) = Some v.
Proof.
  induction l as [|[k' v'] l IH]; [set_solver|]. cbn. intros [Hk' Hl]%NoDup_cons.
  intros [[= -> ->]|Hin]%elem_of_cons; [by rewrite decide_True|].
  rewrite decide_False; [by apply IH|]. intros ->. apply Hk'.
  apply list_elem_of_fmap. by exists (k, v).
Qed.

Lemma find_member_none l k : k ∉ l.*1 → find_member k (map member l) = None.
Proof.
  induction l as [|[k' v'] l IH]; [done|]. cbn. intros Hk.
  rewrite decide_False by set_solver. apply IH. set_solver.
Qed.

Lemma printable_member l k v :
  forallb printable l = true → find_member k l = Some v → printable v = true.
Proof.
  induction l as [|t l IH]; [done|]. cbn [forallb].
  intros [Ht Hl]%andb_prop Hf. specialize (IH Hl). cbn in Hf.
  repeat case_match; subst; auto. injection Hf as <-. cbn in Ht.
  repeat (apply andb_prop in Ht as [? Ht]). done.
Qed.

Lemma printable_index_mut j k v :
  printable j = true → index_mut j k = Ok v → printable v = true.
Proof.
  destruct j as [[]|[|[|n]] l]; cbn [index_mut]; try done.
  - by intros _ [= <-].
  - intros Hl. destruct (find_member k l) eqn:Hf; intros [= <-]; [|done].
    by eapply printable_member.
Qed.

Lemma printable_index_const j k v :
  printable j = true → index_const j k = Ok v → printable v = true.
Proof.
  destruct j as [[]|[|[|n]] l]; cbn [index_const]; try done.
  intros Hl. destruct (find_member k l) eqn:Hf; intros [= <-]. by eapply printable_member.
Qed.

Lemma forallb_Forall_true (l : list tree) :
  forallb printable l = true ↔ Forall (λ j, printable j = true) l.
Proof. rewrite forallb_forall, Forall_forall. by setoid_rewrite list_elem_of_In. Qed.

Lemma printable_elements j :
  printable j = true → Forall (λ j, printable j = true) (elements j).
Proof.
  assert (∀ l, forallb printable l = true → Forall (λ j, printable j = true)
    (omap (λ m, match m with GenNode 2 [_; v] => Some v | _ => None end) l)) as Hvals.
  { intros l Hl. apply forallb_Forall_true in Hl. apply Forall_forall. intros v.
    rewrite list_elem_of_omap. intros (m & Hm & Hv). rewrite Forall_forall in Hl.
    apply Hl in Hm. repeat case_match; simplify_eq. cbn in Hm.
    repeat (apply andb_prop in Hm as [? Hm]). done. }
  destruct j as [[]|[|n] l]; cbn [elements]; intros Hj;
    repeat constructor; try done; [by apply forallb_Forall_true|by apply Hvals].
Qed.
End Trees.

#[global] Instance tree_json : JsonLib.
Proof.
  refine {|
    json := Trees.tree;
    jnull := GenLeaf Trees.LNull;
    jbool b := GenLeaf (Trees.LBool b);
    jint n := GenLeaf (Trees.LInt n);
    juint n := GenLeaf (Trees.LUint n);
    jstring s := GenLeaf (Trees.LString s);
    jarray := GenNode 0;
    jobject l := GenNode 1 (map Trees.member l);
    Json.index_const := Trees.index_const;
    Json.index_mut := Trees.index_mut;
    Json.get_string := Trees.get_string;
    Json.get_uint64 := Trees.get_uint64;
    Json.elements := Trees.elements;
    Json.get_uint64_map := Trees.get_uint64_map;
    enum_to_json E _ t e := GenLeaf (Trees.LString (enum_name t e));
    enum_from_json E t j :=
      match j with GenLeaf (Trees.LString s) => enum_value t s | _ => (et_first t).1 end;
    Json.dump := Trees.dump;
    Json.parse := Trees.parse;
    text s := ascii_only s = true;
    canonical j := Trees.printable j = true |}; try done.
  - intros n Hn. cbn. unfold u64_wrap. by rewrite Z.mod_small.
  - intros l kvs _ Hl. cbn in *. rewrite traverse_map. cbn. by rewrite Hl.
  - intros j n. unfold u64, Trees.get_uint64, u64_wrap, u64_modulus.
    intros Hj. repeat case_match; simplify_eq; try lia; by apply Z.mod_pos_bound.
  - intros l k v Hl Hin. cbn. by rewrite (Trees.find_member_in l k v).
  - intros l k Hk. cbn. by rewrite Trees.find_member_none.
  - intros l k v Hl Hin. cbn. by rewrite (Trees.find_member_in l k v).
  - intros l k Hk. cbn. by rewrite Trees.find_member_none.
  - intros E t j Hj. repeat case_match; try done. by destruct (Hj s).
  - intros j Hj. unfold Trees.dump, Trees.parse. rewrite Hj. eexists. split; [done|].
    by rewrite Trees.of_to_bits, decode_encode, Hj.
  - intros s j. unfold Trees.parse. intros Hs. by repeat case_match; simplify_eq.
  - intros n [??]. cbn. unfold u64_modulus in *. lia.
  - intros l Hl. by apply Trees.forallb_Forall_true.
  - intros l _ Hl. cbn. apply Trees.forallb_Forall_true, Forall_map.
    eapply Forall_impl; [done|]. intros [k v] [Hk Hv]. cbn in *. by rewrite Hk, Hv.
  - intros j s. unfold Trees.get_string. intros Hj Hs. by repeat case_match; simplify_eq.
  - exact Trees.printable_index_const.
  - exact Trees.printable_index_mut.
  - exact Trees.printable_elements.
Defined.

(** ** Digests, digits and the clock *)

Module Digest.
Fixpoint checksum (acc : Z) (s : string) : Z :=
  match s with
  | EmptyString => acc
  | String c s => checksum ((acc * 33 + Z.of_N (Ascii.N_of_ascii c) + 1) mod 2 ^ 32) s
  end.

(** 32 bytes; one checksum in four has two leading zero bytes. *)
Definition spread (sum : Z) : list Z :=
  let h := (sum * 2654435761) mod 2 ^ 32 in
  let lead := if h mod 4 =? 0 then 0 else 1 + h mod 250 in
  [lead; lead; (h / 2 ^ 24) mod 256; (h / 2 ^ 16) mod 256; (h / 2 ^ 8) mod 256; h mod 256] ++
  replicate 26 0.

Definition sha256 (s : string) : list Z := spread (checksum 0 s).

Definition sha256_bytes (l : list Z) : list Z :=
  spread (fold_left (λ acc b, (acc * 33 + b + 1) mod 2 ^ 32) l 0).

Definition digit (d : Z) : Ascii.ascii :=
  Ascii.ascii_of_N (Z.to_N (if d <? 10 then 48 + d else 55 + d)).

Fixpoint hex_encode (l : list Z) : string :=
  match l with
  | [] => ""
  | b :: l => String (digit ((b / 16) mod 16)) (String (digit (b mod 16)) (hex_encode l))
  end.

Definition nibble (c : Ascii.ascii) : option Z :=
  let n := Z.of_N (Ascii.N_of_ascii c) in
  if (48 <=? n) && (n <=? 57) then Some (n - 48)
  else if (65 <=? n) && (n <=? 70) then Some (n - 55)
  else if (97 <=? n) && (n <=? 102) then Some (n - 87)
  else None.

(** Characters that are no digits are skipped, as is a last single digit. *)
Fixpoint nibbles (s : string) : list Z :=
  match s with
  | EmptyString => []
  | String c s => match nibble c with Some d => d :: nibbles s | None => nibbles s end
  end.

Fixpoint pair_up (l : list Z) : list Z :=
  match l with
  | a :: b :: l => (16 * a + b) :: pair_up l
  | _ => []
  end.

Definition hex_decode32 (s : string) : list Z :=
  take 32 (map (λ b, b mod 256) (pair_up (nibbles s)) ++ replicate 32 0).

Definition merkle_root_string (f : list Z → list Z → list Z) (l : list string)
    : result string :=
  match l with
  | [] => Err LibraryError
  | s :: l => Ok (hex_encode (fold_left (λ a s, f a (hex_decode32 s)) l (hex_decode32 s)))
  end.

Lemma spread_length h : length (spread h) = 32%nat.
Proof. done. Qed.

Lemma mod_byte n : byte (n mod 256).
Proof. unfold byte. by apply Z.mod_pos_bound. Qed.

Lemma spread_byte h : Forall byte (spread h).
Proof.
  unfold spread. generalize ((h * 2654435761) mod 2 ^ 32). clear h. intros h. apply Forall_app. split.
  - assert (byte (if h mod 4 =? 0 then 0 else 1 + h mod 250)).
    { unfold byte. pose proof (Z.mod_pos_bound h 250). destruct (h mod 4 =? 0); lia. }
    repeat (apply Forall_cons; split; [first [done|apply mod_byte]|]). by apply Forall_nil.
  - apply Forall_forall. intros b [-> _]%elem_of_replicate. unfold byte. lia.
Qed.

(** Facts about one digit, by computing all sixteen. *)
Definition digit_ok (d : Z) : bool :=
  bool_decide (nibble (digit d) = Some d) && (Ascii.N_of_ascii (digit d) <? 128)%N.

Lemma digit_spec d : 0 ≤ d < 16 → digit_ok d = true.
Proof.
  intros Hd. assert (forallb (λ n, digit_ok (Z.of_nat n)) (seq 0 16) = true) as Hall by done.
  rewrite forallb_forall in Hall. specialize (Hall (Z.to_nat d)).
  rewrite Z2Nat.id in Hall by lia. apply Hall, in_seq. lia.
Qed.

Lemma nibble_digit d : 0 ≤ d < 16 → nibble (digit d) = Some d.
Proof.
  intros Hd. apply digit_spec, andb_prop in Hd as [Hd _]. by apply bool_decide_eq_true in Hd.
Qed.

Lemma hex_encode_ascii l : ascii_only (hex_encode l) = true.
Proof.
  induction l as [|b l IH]; [done|]. cbn [hex_encode ascii_only]. rewrite IH.
  assert (∀ n, (Ascii.N_of_ascii (digit (n mod 16)) <? 128)%N = true) as Hd.
  { intros n. pose proof (digit_spec (n mod 16) ltac:(by apply Z.mod_pos_bound)) as Hn.
    by apply andb_prop in Hn as [_ Hn]. }
  by rewrite !Hd.
Qed.

Lemma pair_up_nibbles l : Forall byte l → pair_up (nibbles (hex_encode l)) = l.
Proof.
  induction 1 as [|b l Hb _ IH]; [done|]. unfold byte in Hb. cbn [hex_encode nibbles].
  rewrite !nibble_digit by (by apply Z.mod_pos_bound). cbn [pair_up]. rewrite IH. f_equal.
  pose proof (Z.div_lt_upper_bound b 16 16). pose proof (Z.div_pos b 16).
  rewrite (Z.mod_small (b / 16)) by lia. pose proof (Z.div_mod b 16). lia.
Qed.

Lemma hex_decode32_encode l :
  length l = 32%nat → Forall byte l → hex_decode32 (hex_encode l) = l.
Proof.
  intros Hlen Hl. unfold hex_decode32. rewrite pair_up_nibbles by done.
  rewrite (list_fmap_id' l) || idtac.
  assert (map (λ b, b mod 256) l = l) as ->.
  { clear Hlen. induction Hl as [|b l Hb _ IH]; [done|]. cbn. rewrite IH. f_equal.
    unfold byte in Hb. by apply Z.mod_small. }
  by rewrite <-Hlen, take_app_length.
Qed.

(** One tag per number. *)
Fixpoint tally (n : nat) : string :=
  match n with O => "" | S n => String "i"%char (tally n) end.

Lemma tally_inj m n : tally m = tally n → m = n.
Proof. revert n. induction m as [|m IH]; intros [|n]; cbn; try done. intros [= ?]. auto. Qed.
End Digest.

#[global] Instance digest_crypto : CryptoLib.
Proof.
  refine {|
    sha256 := Digest.sha256;
    sha256_bytes := Digest.sha256_bytes;
    hex_encode := Digest.hex_encode;
    hex_decode32 := Digest.hex_decode32;
    fmt_uint64 n := pretty n;
    merkle_root_string := Digest.merkle_root_string |}; try done.
  - intros s. apply Digest.spread_byte.
  - exact Digest.hex_encode_ascii.
  - intros s. unfold Digest.hex_decode32. rewrite length_take, length_app, length_replicate. lia.
  - intros s. unfold Digest.hex_decode32. apply Forall_take, Forall_app. split.
    + apply Forall_map, Forall_forall. intros b _. apply Digest.mod_byte.
    + apply Forall_forall. intros b [-> _]%elem_of_replicate. unfold byte. lia.
  - exact Digest.hex_decode32_encode.
  - intros f [|s' l] s; cbn; [done|]. intros [= <-]. apply Digest.hex_encode_ascii.
Defined.

(** The clock ticks at every reading. *)
#[global] Instance counter_host : HostLib.
Proof.
  refine {|
    clock_at n := u64_wrap (1668542700000 + Z.of_nat n);
    uuid_at := Digest.tally |}.
  - intros n. unfold u64, u64_wrap. by apply Z.mod_pos_bound.
  - intros n. induction n; done.
  - exact Digest.tally_inj.
Defined.

(** ** The database *)

Module Sorted.
Definition key_le (p q : string * string) : Prop := String.le p.1 q.1.

#[global] Instance key_le_dec : RelDecision key_le.
Proof. intros p q. unfold key_le. apply _. Defined.

Definition iter (d : gmap string string) : list (string * string) :=
  merge_sort key_le (map_to_list d).

Lemma string_le_ne_lt s t : String.le s t → s ≠ t → string_lt s t.
Proof.
  unfold String.le, string_lt, String.leb, String.ltb. intros Hle Hne.
  destruct (String.compare s t) eqn:Hc; [|done|done].
  by apply String.compare_eq_iff in Hc.
Qed.

Lemma iter_sorted d : StronglySorted string_lt (iter d).*1.
Proof.
  assert (NoDup (iter d).*1) as Hnd.
  { unfold iter. rewrite merge_sort_Permutation. apply NoDup_fst_map_to_list. }
  assert (StronglySorted key_le (iter d)) as Hs.
  { apply StronglySorted_merge_sort.
    - intros p q r. unfold key_le. by etrans.
    - intros p q. unfold key_le. apply (total String.le). }
  induction Hs as [|p l Hl IH Hp]; [constructor|]. cbn in *.
  apply NoDup_cons in Hnd as [Hnotin Hnd]. constructor; [by apply IH|].
  apply Forall_map. rewrite Forall_forall in *. intros q Hq.
  apply string_le_ne_lt; [by apply Hp|]. intros Heq. apply Hnotin. rewrite Heq.
  by apply list_elem_of_fmap_2.
Qed.
End Sorted.

#[global] Instance map_leveldb : LevelDB.
Proof.
  refine {|
    db := gmap string string;
    db_view d := d;
    db_get d k := d !! k;
    db_put k v d := (true, <[k := v]> d);
    db_delete k d := (true, delete k d);
    db_iter := Sorted.iter |}; try done.
  - intros d. unfold Sorted.iter. by rewrite merge_sort_Permutation.
  - exact Sorted.iter_sorted.
Defined.

#[global] Instance map_reliable : ReliableWrites.
Proof. done. Qed.

(** ** Queues: fifteen places for [try_enqueue], as in the library's default *)

#[global] Instance list_fifo : FifoLib.
Proof.
  refine {|
    fifo := list;
    fifo_view A q := q;
    fifo_empty A := [];
    fifo_enqueue A x q := q ++ [x];
    fifo_try_enqueue A x q :=
      if decide (length q < 15)%nat then (true, q ++ [x]) else (false, q);
    fifo_dequeue A q := match q with [] => None | x :: q => Some (x, q) end |}; try done.
  - intros A x q. by case_decide.
  - by intros A [].
Defined.

Module ListQueue.
Record t (K A C : Type) := Mk {
  pending : list (K * A);
  callbacks : list (K * (nat * C)) }.
Arguments Mk {K A C} _ _.
Arguments pending {K A C} _.
Arguments callbacks {K A C} _.

Definition listeners {K A C} `{EqDecision K} (q : t K A C) (k : K) : list (nat * C) :=
  (filter (λ c, c.1 = k) (callbacks q)).*2.

(** A handle above all the others. *)
Definition fresh {K A C} (q : t K A C) : nat :=
  S (max_list (callbacks q).*2.*1).

Lemma listeners_fresh {K A C} `{EqDecision K} (q : t K A C) k c : (fresh q, c) ∉ listeners q k.
Proof.
  unfold listeners. intros ([k' [h c']] & Heq & Hin)%list_elem_of_fmap.
  apply list_elem_of_filter in Hin as [_ Hin]. cbn in Heq. injection Heq as <- <-.
  assert (fresh q ≤ max_list (callbacks q).*2.*1)%nat; [|unfold fresh in *; lia].
  apply max_list_elem_of_le.
  apply (list_elem_of_fmap_2 (λ p : nat * C, p.1) _ (fresh q, c)).
  apply (list_elem_of_fmap_2 (λ p : K * (nat * C), p.2) _ (k', (fresh q, c))). exact Hin.
Qed.

Definition remove {K A C} `{EqDecision K} (k : K) (h : nat) (q : t K A C) : t K A C :=
  Mk (pending q) (filter (λ c, ¬ (c.1 = k ∧ c.2.1 = h)) (callbacks q)).

Lemma listeners_remove {K A C} `{EqDecision K} k h (q : t K A C) k' :
  listeners (remove k h q) k' =
    if decide (k = k') then filter (λ p, p.1 ≠ h) (listeners q k') else listeners q k'.
Proof.
  unfold listeners, remove. cbn. induction (callbacks q) as [|[k1 [h1 c1]] l IH];
    [by case_decide|].
  rewrite (filter_cons (λ c, ¬ _)), (filter_cons (λ c, c.1 = k') _ l). cbn.
  destruct (decide (k1 = k')) as [->|Hk1]; cbn.
  - destruct (decide (k = k')) as [->|Hk].
    + destruct (decide (h1 = h)) as [->|Hh].
      * rewrite !decide_False by tauto. exact IH.
      * rewrite !decide_True by tauto. rewrite filter_cons, decide_True by done.
        cbn. by rewrite IH.
    + rewrite decide_True by naive_solver. rewrite filter_cons, decide_True by done.
      cbn. by rewrite IH.
  - destruct (decide (¬ (k1 = k ∧ h1 = h))); [rewrite filter_cons, decide_False by done|];
      exact IH.
Qed.

Lemma listeners_append {K A C} `{EqDecision K} k x (q : t K A C) (p : list (K * A)) k' :
  listeners (Mk p (callbacks q ++ [(k, x)])) k' =
    listeners q k' ++ (if decide (k = k') then [x] else []).
Proof.
  unfold listeners. cbn. rewrite filter_app, fmap_app, filter_cons, filter_nil. cbn.
  by case_decide.
Qed.
End ListQueue.

#[global] Instance list_eventpp : EventppLib.
Proof.
  refine {|
    epp := ListQueue.t;
    epp_pending K A C := ListQueue.pending;
    epp_listeners K A C _ := ListQueue.listeners;
    epp_empty K A C := ListQueue.Mk [] [];
    epp_enqueue K A C k a q :=
      ListQueue.Mk (ListQueue.pending q ++ [(k, a)]) (ListQueue.callbacks q);
    epp_take K A C q :=
      match ListQueue.pending q with
      | [] => None
      | (k, a) :: p => Some (k, a, ListQueue.Mk p (ListQueue.callbacks q))
      end;
    epp_clear K A C q := ListQueue.Mk [] (ListQueue.callbacks q);
    epp_append K A C k c q :=
      (ListQueue.fresh q,
       ListQueue.Mk (ListQueue.pending q)
         (ListQueue.callbacks q ++ [(k, (ListQueue.fresh q, c))]));
    epp_remove K A C _ := ListQueue.remove |}; try done.
  - intros K A C q. destruct (ListQueue.pending q) as [|[k a] p]; done.
  - intros K A C EqK k a q' q k'. destruct (ListQueue.pending q) as [|[k1 a1] p]; [done|].
    by intros [= -> -> <-].
  - intros. apply ListQueue.listeners_append.
  - intros. apply ListQueue.listeners_fresh.
  - intros. apply ListQueue.listeners_remove.
Defined.

(** ** The network: channels are opened by the other side *)

Module Wire.
Record t := Mk {
  sent : list (Target * string);
  next : nat;
  opened : gset nat }.

Definition send (target : Target) (s : string) : M t unit :=
  modify (λ r, Mk (sent r ++ [(target, s)]) (next r) (opened r)).

Definition fresh_id (r : t) : nat * t := (next r, Mk (sent r) (S (next r)) (opened r)).
End Wire.

#[global] Instance wire_rtc : RtcLib.
Proof.
  refine {|
    Rtc.rtc := Wire.t;
    rtc_sent := Wire.sent;
    rtc_connect := Wire.fresh_id;
    rtc_create_channel c l := Wire.fresh_id;
    rtc_set_remote c s t := if decide (s = "") then throw LibraryError else mret tt;
    rtc_add_candidate c s m := mret tt;
    ch_is_open r c := bool_decide (c ∈ Wire.opened r);
    ch_is_closed r c := negb (bool_decide (c ∈ Wire.opened r));
    ch_send c s := Wire.send (Channel c) s;
    ch_close c r := Wire.Mk (Wire.sent r) (Wire.next r) (Wire.opened r ∖ {[c]});
    ws_send w s := Wire.send (Socket w) s |}; try done.
  intros c s t r. by case_decide.
Defined.

#[global] Instance wire_reliable : ReliableChannels.
Proof. by split. Qed.

#[global] Instance wire_sockets_reliable : ReliableSockets.
Proof. by split. Qed.

#[global] Instance list_order : HashOrder.
Proof.
  by refine {| hash_order A m := map_to_list m; hash_elements s := base.elements s |}.
Defined.
