(* ===== verification/Box.v ===== *)
(** * The owning pointer of the events (Utils/Box.h)

    A [Box] owns an object on the heap and copies it when it is copied. The heap holds objects
    of one type [V], and a static type and a base of it are not told apart: the conversions are
    the constructors that wrap a control block. A failed [assert] or the use of a null pointer
    is undefined behaviour. *)

From stdpp Require Import base sets list gmap.
From Stdlib Require Import ZArith Lia.
From S2P Require Import Prelude.

(** direct_control_block, pointer_control_block and delegating_control_block, with the address
    of the object the first two own; the last one's pointer may be null. *)
Inductive control_block :=
  | Direct (a : nat)
  | Pointer (a : nat)
  | DelegatingNull
  | Delegating (d : control_block).

Definition delegating (d : option control_block) : control_block :=
  match d with Some d => Delegating d | None => DelegatingNull end.

(** Members [ptr_] and [cb_]. *)
Record Box := MkBox {
  bx_ptr : option nat;
  bx_cb : option control_block }.

Section Box.
Context {V : Type}.
Abbreviation Heap := (gmap nat V).
Implicit Types (h : Heap) (b p : Box) (c : control_block).

(** ** The heap *)

Definition new_object (v : V) : M Heap nat := λ h,
  let a := fresh (dom h) in (Ok a, <[a := v]> h).

Definition read_object (a : nat) : M Heap V := λ h,
  match h !! a with
  | Some v => (Ok v, h)
  | None => (Err UndefinedBehaviour, h)
  end.

(** default_copy *)
Definition copy_object (a : nat) : M Heap nat := v ← read_object a; new_object v.

(** ** Control blocks *)

Fixpoint clone (c : control_block) : M Heap control_block :=
  match c with
  | Direct a => a' ← copy_object a; mret (Direct a')
  | Pointer a => a' ← copy_object a; mret (Pointer a')
  | Delegating d => d' ← clone d; mret (Delegating d')
  | DelegatingNull => throw UndefinedBehaviour
  end.

Fixpoint cb_ptr (c : control_block) : result nat :=
  match c with
  | Direct a => Ok a
  | Pointer a => Ok a
  | Delegating d => cb_ptr d
  | DelegatingNull => Err UndefinedBehaviour
  end.

(** The destructors; the heap without the object. *)
Fixpoint destroy (c : control_block) : M Heap unit :=
  match c with
  | Direct a => modify (delete a)
  | Pointer a => modify (delete a)
  | Delegating d => destroy d
  | DelegatingNull => mret tt
  end.

Definition reset (cb : option control_block) : M Heap unit :=
  match cb with Some c => destroy c | None => mret tt end.

(** ** Box *)

Definition Box_default : Box := MkBox None None.

(** Box(U *u) *)
Definition Box_pointer (u : option nat) : Box :=
  match u with
  | None => Box_default
  | Some a => MkBox (Some a) (Some (Pointer a))
  end.

(** operator bool *)
Definition Box_bool (b : Box) : bool := bool_decide (is_Some (bx_cb b)).

(** Box(const Box &) *)
Definition Box_copy (p : Box) : M Heap Box :=
  match bx_cb p with
  | None => mret Box_default
  | Some c =>
      tmp_cb ← clone c;
      a ← lift_result (cb_ptr tmp_cb);
      mret (MkBox (Some a) (Some tmp_cb))
  end.

(** Box(Box &&): the new box and what is left of the old one. *)
Definition Box_move (p : Box) : Box * Box :=
  (MkBox (bx_ptr p) (bx_cb p), MkBox None None).

(** Box(const Box<U> &) and Box(Box<U> &&) *)
Definition Box_convert (p : Box) : M Heap Box :=
  tmp ← Box_copy p;
  mret (MkBox (bx_ptr tmp) (Some (delegating (bx_cb tmp)))).

Definition Box_convert_move (p : Box) : Box * Box :=
  (MkBox (bx_ptr p) (Some (delegating (bx_cb p))), MkBox None None).

(** Box(std::in_place_type<U>, ...); the object constructed from the arguments is [v]. *)
Definition Box_in_place (v : V) : M Heap Box :=
  a ← new_object v;
  let cb := Direct a in
  ptr ← lift_result (cb_ptr cb);
  mret (MkBox (Some ptr) (Some cb)).

(** make_box<T> and make_box<T, U>: a default box that gets its members. *)
Definition make_box (v : V) : M Heap Box :=
  a ← new_object v;
  mret (MkBox (Some a) (Some (Direct a))).

Definition make_box_as (v : V) : M Heap Box :=
  a ← new_object v;
  mret (MkBox (Some a) (Some (Direct a))).

(** operator=(const Box &); [same] is [std::addressof(p) == this]. *)
Definition Box_assign (same : bool) (this p : Box) : M Heap Box :=
  if same then mret this
  else
    match bx_cb p with
    | None => _ ← reset (bx_cb this); mret Box_default
    | Some c =>
        tmp_cb ← clone c;
        a ← lift_result (cb_ptr tmp_cb);
        _ ← reset (bx_cb this);
        mret (MkBox (Some a) (Some tmp_cb))
    end.

(** operator=(Box &&): both boxes afterwards. *)
Definition Box_move_assign (same : bool) (this p : Box) : M Heap (Box * Box) :=
  if same then mret (this, this)
  else _ ← reset (bx_cb this); mret (MkBox (bx_ptr p) (bx_cb p), MkBox None None).

Definition Box_swap (a b : Box) : Box * Box :=
  (MkBox (bx_ptr b) (bx_cb b), MkBox (bx_ptr a) (bx_cb a)).

(** The function swap. *)
Definition swap (t u : Box) : Box * Box := Box_swap t u.

(** operator-> : on a const box the assertion looks at the pointer, else at the control block. *)
Definition Box_arrow_const (b : Box) : result nat :=
  match bx_ptr b with
  | Some a => Ok a
  | None => Err UndefinedBehaviour
  end.

Definition Box_arrow (b : Box) : result (option nat) :=
  if Box_bool b then Ok (bx_ptr b) else Err UndefinedBehaviour.

(** operator* : the assertion looks at the control block, the access uses the pointer. *)
Definition Box_deref (b : Box) : M Heap V :=
  if Box_bool b then
    match bx_ptr b with
    | Some a => read_object a
    | None => throw UndefinedBehaviour
    end
  else throw UndefinedBehaviour.

(** An assignment through the reference. *)
Definition Box_write (b : Box) (v : V) : M Heap unit :=
  _ ← Box_deref b;
  match bx_ptr b with
  | Some a => modify (insert a v)
  | None => throw UndefinedBehaviour
  end.

(** ~Box *)
Definition Box_destroy (b : Box) : M Heap unit := reset (bx_cb b).

(** ** Lemmas *)

(** An empty box, or one whose control block owns the live object it points to. *)
Definition box_wf h b : Prop :=
  match bx_cb b with
  | None => bx_ptr b = None
  | Some c => ∃ a, cb_ptr c = Ok a ∧ bx_ptr b = Some a ∧ is_Some (h !! a)
  end.

(** The value of a box: that of the object it points to. *)
Definition box_value h b : option V := bx_ptr b ≫= λ a, h !! a.

Lemma clone_spec c a v h :
  cb_ptr c = Ok a → h !! a = Some v →
  ∃ c' a', clone c h = (Ok c', <[a' := v]> h) ∧ cb_ptr c' = Ok a' ∧ h !! a' = None ∧
           (∀ h', destroy c' h' = (Ok tt, delete a' h')).
Proof.
  assert (h !! fresh (dom h) = None) as Hnew by (apply not_elem_of_dom, is_fresh).
  intros Ha Hv. revert a Ha Hv.
  induction c as [a'|a'| |d IH]; intros a; cbn; intros [= Ha] Hv; subst.
  - exists (Direct (fresh (dom h))), (fresh (dom h)).
    unfold mbind, M_bind, copy_object, read_object, new_object. cbn.
    unfold mbind, M_bind. rewrite Hv. cbn. by split_and!.
  - exists (Pointer (fresh (dom h))), (fresh (dom h)).
    unfold mbind, M_bind, copy_object, read_object, new_object. cbn.
    unfold mbind, M_bind. rewrite Hv. cbn. by split_and!.
  - destruct (IH a Ha Hv) as (c' & a' & Hc & Hp & Hn & Hd).
    exists (Delegating c'), a'. unfold mbind, M_bind. rewrite Hc. by split_and!.
Qed.

(** A copy is a new object with the same value, and everything else stays where it is. *)
Lemma Box_copy_spec b h :
  box_wf h b → Box_bool b = true →
  ∃ b' a' v, Box_copy b h = (Ok b', <[a' := v]> h) ∧ bx_ptr b' = Some a' ∧
    h !! a' = None ∧ box_value h b = Some v ∧ box_wf (<[a' := v]> h) b' ∧
    Box_destroy b' (<[a' := v]> h) = (Ok tt, h).
Proof.
  unfold box_wf, Box_bool, Box_copy, box_value, Box_destroy.
  destruct (bx_cb b) as [c|]; [|by rewrite bool_decide_eq_true; intros _ [? ?]].
  intros (a & Ha & -> & [v Hv]) _.
  destruct (clone_spec c a v h Ha Hv) as (c' & a' & Hc & Hp & Hn & Hd).
  unfold mbind at 1, M_bind. rewrite Hc. unfold mbind, M_bind, lift_result. rewrite Hp.
  exists (MkBox (Some a') (Some c')), a', v. cbn. split_and!; try done.
  - exists a'. split_and!; [done..|]. by rewrite lookup_insert_eq.
  - rewrite Hd. by rewrite delete_insert_id.
Qed.

Lemma Box_copy_empty b h :
  Box_bool b = false → Box_copy b h = (Ok Box_default, h).
Proof.
  unfold Box_bool, Box_copy. destruct (bx_cb b) as [c|]; [|done].
  rewrite bool_decide_eq_false. intros Hn. exfalso. by apply Hn.
Qed.

(** Every way to make a box with an object gives the same box: it owns a new object. *)
Lemma make_box_spec v h :
  ∃ b a, make_box v h = (Ok b, <[a := v]> h) ∧ make_box_as v h = (Ok b, <[a := v]> h) ∧
    Box_in_place v h = (Ok b, <[a := v]> h) ∧ h !! a = None ∧
    box_wf (<[a := v]> h) b ∧ box_value (<[a := v]> h) b = Some v ∧
    Box_destroy b (<[a := v]> h) = (Ok tt, h).
Proof.
  set (a := fresh (dom h)). assert (h !! a = None) as Hnew by apply not_elem_of_dom, is_fresh.
  exists (MkBox (Some a) (Some (Direct a))), a. split_and!; try done.
  - exists a. cbn. split_and!; [done..|]. by rewrite lookup_insert_eq.
  - unfold box_value. cbn. by rewrite lookup_insert_eq.
  - unfold Box_destroy. cbn. unfold modify. by rewrite delete_insert_id.
Qed.

(** On a box with an object both arrows give its address. *)
Lemma Box_arrow_wf b h :
  box_wf h b → Box_bool b = true →
  ∃ a, Box_arrow b = Ok (Some a) ∧ Box_arrow_const b = Ok a ∧ is_Some (h !! a).
Proof.
  unfold box_wf, Box_arrow, Box_arrow_const. intros Hb Hbool. rewrite Hbool.
  unfold Box_bool in Hbool. destruct (bx_cb b) as [c|].
  - destruct Hb as (a & _ & -> & Ha). by exists a.
  - apply bool_decide_eq_true in Hbool. by destruct Hbool.
Qed.

(** Other boxes do not see what happens to a fresh object. *)
Lemma box_value_frame h b a v :
  box_wf h b → h !! a = None →
  box_value (<[a := v]> h) b = box_value h b ∧ box_wf (<[a := v]> h) b.
Proof.
  unfold box_wf, box_value. destruct (bx_cb b) as [c|].
  - intros (a' & Hc & -> & [u Hu]) Hn. cbn. rewrite lookup_insert_ne by congruence.
    split; [done|]. exists a'. split_and!; [done..|]. rewrite lookup_insert_ne by congruence.
    by eexists.
  - by intros ->.
Qed.
End Box.

(** ** Properties *)

Section Properties.
Context {V : Type}.

(** C39: a copy of a box is deep: it has the same value in a new object, writing through the copy
    does not change the original, and destroying the copy brings the heap back. *)
Theorem copy_is_deep b (h : gmap nat V) :
  box_wf h b → Box_bool b = true →
  ∃ b' h', Box_copy b h = (Ok b', h') ∧ box_wf h' b' ∧ box_wf h' b ∧
    box_value h' b' = box_value h b ∧ box_value h' b = box_value h b ∧
    Box_destroy b' h' = (Ok tt, h) ∧
    ∀ w, ∃ h'', Box_write b' w h' = (Ok tt, h'') ∧
                box_value h'' b' = Some w ∧ box_value h'' b = box_value h b.
Proof.
  intros Hb Hbool. destruct (Box_copy_spec b h Hb Hbool)
    as (b' & a' & v & Hcopy & Hptr & Hnew & Hv & Hb' & Hdes).
  destruct (box_value_frame h b a' v Hb Hnew) as [Hval Hwf].
  exists b', (<[a' := v]> h). split_and!; try done.
  - rewrite Hv. unfold box_value. rewrite Hptr. cbn. by rewrite lookup_insert_eq.
  - intros w. exists (<[a' := w]> h).
    destruct (box_value_frame h b a' w Hb Hnew) as [Hval' _]. split_and!; [| |done].
    + unfold Box_write, Box_deref. assert (Box_bool b' = true) as ->.
      { unfold box_wf in Hb'. unfold Box_bool. destruct (bx_cb b'); [|congruence].
        by apply bool_decide_eq_true. }
      rewrite Hptr. unfold mbind, M_bind, read_object. rewrite lookup_insert_eq. cbn.
      unfold modify. by rewrite insert_insert_eq.
    + unfold box_value. rewrite Hptr. cbn. by rewrite lookup_insert_eq.
Qed.

(** Converting an empty box makes one that claims to hold an object, and using it is
    undefined behaviour, where the empty box itself says it is empty. The assertion of the
    arrow of a box that is not const passes, and the arrow gives a null pointer. *)
Theorem convert_empty_box_is_broken (h : gmap nat V) :
  Box_bool Box_default = false ∧
  ∃ b, Box_convert Box_default h = (Ok b, h) ∧ Box_bool b = true ∧
       Box_deref b h = (Err UndefinedBehaviour, h) ∧
       Box_arrow_const b = Err UndefinedBehaviour ∧ Box_arrow b = Ok None ∧
       Box_copy b h = (Err UndefinedBehaviour, h).
Proof. split; [done|]. eexists. split; [done|]. by split_and!. Qed.
End Properties.
