(* ===== verification/Enums.v ===== *)
(** * The enumerations of the program and their names

    One module per [enum class]: the type [t], the table of NLOHMANN_JSON_SERIALIZE_ENUM and the
    function [to_string] that the log lines use. *)

From stdpp Require Import base list strings.
From S2P Require Import Prelude Json.

(** [enum class TransactionType], BlockchainModels/Transaction.h *)
Module TransactionType.
Inductive t :=
  | Send.

#[global] Instance t_eq_dec : EqDecision t.
Proof. solve_decision. Defined.

Definition table : enum_table t := EnumTable (Send, "send")
  [].

End TransactionType.

(** [enum class TransactionStatus], BlockchainModels/Transaction.h *)
Module TransactionStatus.
Inductive t :=
  | Pending
  | Verified
  | Rejected.

#[global] Instance t_eq_dec : EqDecision t.
Proof. solve_decision. Defined.

Definition table : enum_table t := EnumTable (Pending, "pending")
  [(Verified, "verified");
   (Rejected, "rejected")].

Definition to_string (type : t) : string :=
  match type with
  | Pending => "Pending"
  | Verified => "Verified"
  | Rejected => "Rejected"
  end.

End TransactionStatus.

(** [enum class PeerState], SharedModels/PeerState.h *)
Module PeerState.
Inductive t :=
  | InitialBlockDownload
  | WaitingForPeers
  | Closed
  | Open
  | Error
  | Unknown.

#[global] Instance t_eq_dec : EqDecision t.
Proof. solve_decision. Defined.

Definition table : enum_table t := EnumTable (InitialBlockDownload, "initial_block_download")
  [(WaitingForPeers, "waiting_for_peers");
   (Closed, "closed");
   (Open, "open");
   (Error, "error");
   (Unknown, "unknown")].

Definition to_string (type : t) : string :=
  match type with
  | InitialBlockDownload => "initial_block_download"
  | WaitingForPeers => "waiting_for_peers"
  | Closed => "closed"
  | Open => "open"
  | Error => "error"
  | Unknown => "unknown"
  end.

End PeerState.

(** [enum class PeerType], SharedModels/PeerType.h *)
Module PeerType.
Inductive t :=
  | Light
  | Full
  | Observer
  | Control
  | Unknown.

#[global] Instance t_eq_dec : EqDecision t.
Proof. solve_decision. Defined.

Definition table : enum_table t := EnumTable (Full, "full")
  [(Light, "light");
   (Observer, "observer");
   (Control, "control");
   (Unknown, "unknown")].

Definition to_string (type : t) : string :=
  if decide (type = Full) then "full" else
  if decide (type = Light) then "light" else
  if decide (type = Control) then "control" else
  if decide (type = Observer) then "observer" else "unknown".

End PeerType.

(** [enum class ValidationState], SharedModels/ValidationState.h *)
Module ValidationState.
Inductive t :=
  | Success
  | TransactionAlreadySpent
  | WrongTimestamp
  | IncompeleteProofOfWork
  | WrongPreviousHash.

#[global] Instance t_eq_dec : EqDecision t.
Proof. solve_decision. Defined.

Definition table : enum_table t := EnumTable (Success, "success")
  [(TransactionAlreadySpent, "transaction_already_spent");
   (WrongTimestamp, "wrong_timestamp");
   (IncompeleteProofOfWork, "incompelete_proof_of_work");
   (WrongPreviousHash, "wrong_previous_hash")].

Definition to_string (type : t) : string :=
  match type with
  | Success => "success"
  | TransactionAlreadySpent => "transaction_already_spent"
  | WrongTimestamp => "wrong_time_stamp"
  | IncompeleteProofOfWork => "incompelete_proof_of_work"
  | WrongPreviousHash => "wrong_previous_hash"
  end.

End ValidationState.

(** [enum class PeerMessageType], SharedModels/PeerMessage.h *)
Module PeerMessageType.
Inductive t :=
  | DEFAULT
  | PeerTypeRequest
  | PeerTypeResponse
  | AddTransaction
  | RemoveTransactions
  | SetTransactionStatus
  | BlockHeadersRequest
  | BlockHeadersResponse
  | BlockRequest
  | BlockResponse
  | BlockNotFoundResponse
  | PeerStateRequest
  | PeerStateResponse
  | PeerStateUpdate
  | AddBlock
  | BlockRejected
  | BlockAccepted
  | GetLastBlockRequest
  | GetLastBlockResponse
  | SyncPoolRequest
  | TransactionsInRequest
  | TransactionsInResponse
  | TransactionsOutRequest
  | TransactionsOutResponse
  | ControlIsStartingPing
  | ControlIsEndingPing
  | ControlStarted
  | ControlStopped
  | ControlOperateBetween
  | ControlResult
  | IsControlStartedRequest
  | IsControlStartedResponse.

#[global] Instance t_eq_dec : EqDecision t.
Proof. solve_decision. Defined.

Definition table : enum_table t := EnumTable (PeerTypeRequest, "peer_type_request")
  [(PeerTypeResponse, "peer_type_response");
   (AddTransaction, "add_transaction");
   (RemoveTransactions, "remove_transactions");
   (SetTransactionStatus, "set_transaction_status");
   (BlockHeadersRequest, "block_headers_request");
   (BlockHeadersResponse, "block_headers_response");
   (BlockRequest, "block_request");
   (BlockResponse, "block_response");
   (BlockNotFoundResponse, "block_not_found_response");
   (PeerStateRequest, "peer_state_request");
   (PeerStateResponse, "peer_state_response");
   (PeerStateUpdate, "peer_state_update");
   (AddBlock, "add_block");
   (BlockRejected, "block_rejected");
   (BlockAccepted, "block_accepted");
   (GetLastBlockRequest, "get_last_block_request");
   (GetLastBlockResponse, "get_last_block_response");
   (SyncPoolRequest, "sync_pool_request");
   (TransactionsInRequest, "transactions_in_request");
   (TransactionsInResponse, "transactions_in_response");
   (TransactionsOutRequest, "transactions_out_request");
   (TransactionsOutResponse, "transactions_out_response");
   (ControlIsStartingPing, "control_is_starting_ping");
   (ControlIsEndingPing, "control_is_ending_ping");
   (ControlStarted, "control_started");
   (ControlStopped, "control_stopped");
   (ControlOperateBetween, "control_operate_between");
   (ControlResult, "control_result");
   (IsControlStartedRequest, "is_control_started_request");
   (IsControlStartedResponse, "is_control_started_response")].

Definition to_string (type : t) : string :=
  match type with
  | DEFAULT => "default"
  | PeerTypeRequest => "peer_type_request"
  | PeerTypeResponse => "peer_type_response"
  | AddTransaction => "add_transaction"
  | RemoveTransactions => "remove_transactions"
  | SetTransactionStatus => "set_transaction_status"
  | BlockHeadersRequest => "block_headers_request"
  | BlockHeadersResponse => "block_headers_response"
  | BlockRequest => "block_request"
  | BlockResponse => "block_response"
  | BlockNotFoundResponse => "block_not_found_response"
  | PeerStateRequest => "peer_state_request"
  | PeerStateResponse => "peer_state_response"
  | PeerStateUpdate => "peer_state_update"
  | AddBlock => "add_block"
  | BlockRejected => "block_rejected"
  | BlockAccepted => "block_accepted"
  | GetLastBlockRequest => "get_last_block_request"
  | GetLastBlockResponse => "get_last_block_response"
  | SyncPoolRequest => "sync_pool_request"
  | TransactionsInRequest => "transactions_in_request"
  | TransactionsInResponse => "transactions_in_response"
  | TransactionsOutRequest => "transactions_out_request"
  | TransactionsOutResponse => "transactions_out_response"
  | ControlIsStartingPing => "control_is_starting_ping"
  | ControlIsEndingPing => "control_is_ending_ping"
  | ControlStarted => "control_started"
  | ControlStopped => "control_stopped"
  | ControlOperateBetween => "control_operate_between"
  | ControlResult => "control_operate_between"
  | IsControlStartedRequest => "is_control_started_request"
  | IsControlStartedResponse => "is_control_started_response"
  end.

End PeerMessageType.

(** [enum class SignalingMessageType], SharedModels/SignalingMessage.h *)
Module SignalingMessageType.
Inductive t :=
  | DEFAULT
  | AvailablePeersRequest
  | AvailablePeersResponse
  | SetIdentityRequest
  | SetIdentityResponse
  | Acknowledgement
  | PeerAvailable
  | RTCSetup
  | RTCCandidate
  | PeerClosed.

#[global] Instance t_eq_dec : EqDecision t.
Proof. solve_decision. Defined.

Definition table : enum_table t := EnumTable (DEFAULT, "default")
  [(AvailablePeersRequest, "available_peers_request");
   (AvailablePeersResponse, "available_peers_response");
   (SetIdentityRequest, "set_identity_request");
   (SetIdentityResponse, "set_identity_response");
   (PeerAvailable, "peer_available");
   (RTCSetup, "rtc_setup");
   (RTCCandidate, "rtc_candidate");
   (PeerClosed, "peer_closed")].

Definition to_string (type : t) : string :=
  match type with
  | DEFAULT => "default"
  | AvailablePeersRequest => "available_peers_request"
  | AvailablePeersResponse => "available_peers_response"
  | SetIdentityRequest => "set_identity_request"
  | SetIdentityResponse => "set_identity_response"
  | Acknowledgement => "acknowledgement"
  | PeerAvailable => "peer_available"
  | RTCSetup => "rtc_setup"
  | RTCCandidate => "rtc_candidate"
  | PeerClosed => "peer_closed"
  end.

End SignalingMessageType.

(** [enum class InternalMessageType], SharedModels/InternalMessage.h *)
Module InternalMessageType.
Inductive t :=
  | SendSignalingMessage
  | SendPeerMessage
  | RequestTypeOf
  | RequestStateOf
  | WaitForDataChannelOpen.

#[global] Instance t_eq_dec : EqDecision t.
Proof. solve_decision. Defined.

Definition table : enum_table t := EnumTable (SendSignalingMessage, "send_signaling_message")
  [(SendPeerMessage, "send_peer_message");
   (RequestTypeOf, "request_type_of");
   (RequestStateOf, "request_state_of");
   (WaitForDataChannelOpen, "wait_for_datachannel_open")].

Definition to_string (type : t) : string :=
  match type with
  | SendSignalingMessage => "send_signaling_message"
  | SendPeerMessage => "send_peer_message"
  | RequestTypeOf => "request_type_of"
  | RequestStateOf => "request_state_of"
  | WaitForDataChannelOpen => "wait_for_datachannel_open"
  end.

End InternalMessageType.

(** [enum class InternalNotificationType], SharedModels/InternalNotification.h *)
Module InternalNotificationType.
Inductive t :=
  | DataChannelOpened
  | DataChannelClosed
  | SignalingServerOpened
  | SignalingServerClosed
  | TransactionAddedToPool
  | BlockMined
  | MinedBlockValidated.

#[global] Instance t_eq_dec : EqDecision t.
Proof. solve_decision. Defined.

Definition to_string (type : t) : string :=
  match type with
  | DataChannelOpened => "data_channel_opened"
  | DataChannelClosed => "data_channel_closed"
  | SignalingServerOpened => "signaling_server_opened"
  | SignalingServerClosed => "signaling_server_closed"
  | TransactionAddedToPool => "transaction_added_to_pool"
  | BlockMined => "block_mined"
  | MinedBlockValidated => "mined_block_validated"
  end.

End InternalNotificationType.

Lemma TransactionType_table_ok : table_ok TransactionType.table.
Proof. compute_done. Qed.

Lemma TransactionType_in_table e : in_table TransactionType.table e.
Proof. destruct e; compute_done. Qed.

Lemma TransactionStatus_table_ok : table_ok TransactionStatus.table.
Proof. compute_done. Qed.

Lemma TransactionStatus_in_table e : in_table TransactionStatus.table e.
Proof. destruct e; compute_done. Qed.

Lemma PeerState_table_ok : table_ok PeerState.table.
Proof. compute_done. Qed.

Lemma PeerState_in_table e : in_table PeerState.table e.
Proof. destruct e; compute_done. Qed.

Lemma PeerType_table_ok : table_ok PeerType.table.
Proof. compute_done. Qed.

Lemma PeerType_in_table e : in_table PeerType.table e.
Proof. destruct e; compute_done. Qed.

Lemma ValidationState_table_ok : table_ok ValidationState.table.
Proof. compute_done. Qed.

Lemma ValidationState_in_table e : in_table ValidationState.table e.
Proof. destruct e; compute_done. Qed.

Lemma PeerMessageType_table_ok : table_ok PeerMessageType.table.
Proof. compute_done. Qed.

Lemma PeerMessageType_in_table e :
  in_table PeerMessageType.table e ↔ e ≠ PeerMessageType.DEFAULT.
Proof. destruct e; compute_done. Qed.

Lemma SignalingMessageType_table_ok : table_ok SignalingMessageType.table.
Proof. compute_done. Qed.

Lemma SignalingMessageType_in_table e :
  in_table SignalingMessageType.table e ↔ e ≠ SignalingMessageType.Acknowledgement.
Proof. destruct e; compute_done. Qed.

Lemma InternalMessageType_table_ok : table_ok InternalMessageType.table.
Proof. compute_done. Qed.

Lemma InternalMessageType_in_table e : in_table InternalMessageType.table e.
Proof. destruct e; compute_done. Qed.
