(* ===== verification/Models.v ===== *)
(** * Transactions, block headers and blocks (src/BlockchainModels)

    The three data types of the chain with their constructors, JSON forms, comparisons and
    [std::hash] specialisations. *)

From stdpp Require Import base list strings.
From Stdlib Require Import ZArith Lia.
From S2P Require Import Prelude Json Crypto Enums.

Open Scope Z_scope.

(** ** Data *)

(** class Transaction. [m_byte_hash] is the array the constructor decodes [m_hash] into. *)
Record Transaction := MkTransaction {
  tx_type : TransactionType.t;
  tx_status : TransactionStatus.t;
  tx_hash : string;
  tx_timestamp : Z;
  tx_from : string;
  tx_to : string;
  tx_byte_hash : list Z }.

(** class BlockHeader *)
Record BlockHeader := MkBlockHeader {
  bh_hash : string;
  bh_previous_hash : string;
  bh_merkle_root : string;
  bh_mined_by : string;
  bh_timestamp : Z;
  bh_nonce : Z;
  bh_hash_bytes : list Z }.

(** class Block *)
Record Block := MkBlock {
  bl_header : BlockHeader;
  bl_transactions : list Transaction }.

(** Transaction::operator== is the defaulted one: every member is compared. *)
#[global] Instance Transaction_eq_dec : EqDecision Transaction.
Proof. solve_decision. Defined.

#[global] Instance BlockHeader_eq_dec : EqDecision BlockHeader.
Proof. solve_decision. Defined.

#[global] Instance Block_eq_dec : EqDecision Block.
Proof. solve_decision. Defined.

(** ** Operations of Transaction *)

Definition Transaction_eqb (a b : Transaction) : bool := bool_decide (a = b).

Definition Transaction_ltb (a b : Transaction) : bool := tx_timestamp a <? tx_timestamp b.

Definition Transaction_set_status (s : TransactionStatus.t) (t : Transaction) : Transaction :=
  MkTransaction (tx_type t) s (tx_hash t) (tx_timestamp t) (tx_from t) (tx_to t)
    (tx_byte_hash t).

Definition Transaction_tag (t : Transaction) : string := tx_hash t.

Definition Transaction_contrived_hash (t : Transaction) : string := substr0 10 (tx_hash t).

(** The byte of an array the code indexes within its 32 elements. *)
Definition byte_at (l : list Z) (i : nat) : Z := nth i l 0.

(** [x |= static_cast<unsigned long>(b) << k] *)
Definition or_shifted (x b k : Z) : Z := Z.lor x (Z.shiftl b k).

(** std::hash<krapi::Transaction>: the first eight bytes of the hash, little endian. *)
Definition Transaction_std_hash (tx : Transaction) : Z :=
  let byte_hash := byte_at (tx_byte_hash tx) in
  let x := 0 in
  let x := or_shifted x (byte_hash 0%nat) 0 in
  let x := or_shifted x (byte_hash 1%nat) 8 in
  let x := or_shifted x (byte_hash 2%nat) 16 in
  let x := or_shifted x (byte_hash 3%nat) 24 in
  let x := or_shifted x (byte_hash 4%nat) 32 in
  let x := or_shifted x (byte_hash 5%nat) 40 in
  let x := or_shifted x (byte_hash 6%nat) 48 in
  let x := or_shifted x (byte_hash 7%nat) 56 in
  x.

(** ** Operations of BlockHeader and Block *)

Definition BlockHeader_contrived_hash (h : BlockHeader) : string := substr0 10 (bh_hash h).

Definition Block_hash (b : Block) : string := bh_hash (bl_header b).

Definition Block_hash_bytes (b : Block) : list Z := bh_hash_bytes (bl_header b).

Definition Block_previous_hash (b : Block) : string := bh_previous_hash (bl_header b).

Definition Block_timestamp (b : Block) : Z := bh_timestamp (bl_header b).

Definition Block_tag (b : Block) : string := bh_hash (bl_header b).

Definition Block_contrived_hash (b : Block) : string := substr0 10 (bh_hash (bl_header b)).

Definition Block_eqb (a b : Block) : bool :=
  bool_decide (bh_hash (bl_header a) = bh_hash (bl_header b)).

Definition Block_ltb (a b : Block) : bool :=
  bh_timestamp (bl_header a) <? bh_timestamp (bl_header b).

(** [std::find(begin, end, transaction) != end] *)
Definition Block_contains_transaction (tx : Transaction) (b : Block) : bool :=
  existsb (Transaction_eqb tx) (bl_transactions b).

(** [for (auto &transaction: m_transactions) transaction.set_status(status);] *)
Definition Block_set_transactions_status (s : TransactionStatus.t) (b : Block) : Block :=
  MkBlock (bl_header b) (map (Transaction_set_status s) (bl_transactions b)).

(** std::hash<krapi::Block>: bytes 10 to 17 of the hash, little endian. *)
Definition Block_std_hash (b : Block) : Z :=
  let byte_hash := byte_at (Block_hash_bytes b) in
  let x := 0 in
  let x := or_shifted x (byte_hash 10%nat) 0 in
  let x := or_shifted x (byte_hash 11%nat) 8 in
  let x := or_shifted x (byte_hash 12%nat) 16 in
  let x := or_shifted x (byte_hash 13%nat) 24 in
  let x := or_shifted x (byte_hash 14%nat) 32 in
  let x := or_shifted x (byte_hash 15%nat) 40 in
  let x := or_shifted x (byte_hash 16%nat) 48 in
  let x := or_shifted x (byte_hash 17%nat) 56 in
  x.

(** ** Constructors and JSON *)

Section Json.
Context `{JsonLib} `{CryptoLib}.

(** Transaction::Transaction(type, status, hash, timestamp, from, to) *)
Definition Transaction_new (type : TransactionType.t) (status : TransactionStatus.t)
    (hash : string) (timestamp : Z) (from to : string) : Transaction :=
  MkTransaction type status hash timestamp from to (hex_decode32 hash).

(** Transaction::from_json: the argument is a [const json &]. *)
Definition Transaction_from_json (j : json) : result Transaction :=
  type ← index_const j "type";
  status ← index_const j "status";
  hash ← (v ← index_const j "hash"; get_string v);
  timestamp ← (v ← index_const j "timestamp"; get_uint64 v);
  from ← (v ← index_const j "from"; get_string v);
  to ← (v ← index_const j "to"; get_string v);
  Ok (Transaction_new (enum_from_json TransactionType.table type)
        (enum_from_json TransactionStatus.table status) hash timestamp from to).

Definition Transaction_to_json (t : Transaction) : json :=
  jobject
    [("type", enum_to_json TransactionType.table (tx_type t));
     ("status", enum_to_json TransactionStatus.table (tx_status t));
     ("hash", jstring (tx_hash t));
     ("timestamp", juint (tx_timestamp t));
     ("from", jstring (tx_from t));
     ("to", jstring (tx_to t))].

(** BlockHeader::BlockHeader(hash, previous_hash, merkle_root, mined_by, timestamp, nonce) *)
Definition BlockHeader_new (hash previous_hash merkle_root mined_by : string)
    (timestamp nonce : Z) : BlockHeader :=
  MkBlockHeader hash previous_hash merkle_root mined_by timestamp nonce (hex_decode32 hash).

(** BlockHeader::from_json: the argument is a [json], taken by value. *)
Definition BlockHeader_from_json (j : json) : result BlockHeader :=
  hash ← (v ← index_mut j "hash"; get_string v);
  previous_hash ← (v ← index_mut j "previous_hash"; get_string v);
  merkle_root ← (v ← index_mut j "merkle_root"; get_string v);
  mined_by ← (v ← index_mut j "mined_by"; get_string v);
  timestamp ← (v ← index_mut j "timestamp"; get_uint64 v);
  nonce ← (v ← index_mut j "nonce"; get_uint64 v);
  Ok (BlockHeader_new hash previous_hash merkle_root mined_by timestamp nonce).

Definition BlockHeader_to_json (h : BlockHeader) : json :=
  jobject
    [("hash", jstring (bh_hash h));
     ("previous_hash", jstring (bh_previous_hash h));
     ("merkle_root", jstring (bh_merkle_root h));
     ("mined_by", jstring (bh_mined_by h));
     ("timestamp", juint (bh_timestamp h));
     ("nonce", juint (bh_nonce h))].

(** [Block last_value;]: the default arguments of both constructors. *)
Definition Block_default : Block := MkBlock (BlockHeader_new "" "" "" "" 0 0) [].

(** Block::from_json: the argument is a [const json &]. *)
Definition Block_from_json (j : json) : result Block :=
  txs ← index_const j "transactions";
  transactions ← traverse Transaction_from_json (elements txs);
  header_json ← index_const j "header";
  header ← BlockHeader_from_json header_json;
  Ok (MkBlock header transactions).

Definition Block_to_json (b : Block) : json :=
  jobject
    [("header", BlockHeader_to_json (bl_header b));
     ("transactions", jarray (map Transaction_to_json (bl_transactions b)))].

(** ** Well-formed values: what the constructors and [from_json] can produce *)

Definition wf_transaction (t : Transaction) : Prop :=
  text (tx_hash t) ∧ u64 (tx_timestamp t) ∧ text (tx_from t) ∧ text (tx_to t) ∧
  tx_byte_hash t = hex_decode32 (tx_hash t).

Definition wf_header (h : BlockHeader) : Prop :=
  text (bh_hash h) ∧ text (bh_previous_hash h) ∧ text (bh_merkle_root h) ∧
  text (bh_mined_by h) ∧ u64 (bh_timestamp h) ∧ u64 (bh_nonce h) ∧
  bh_hash_bytes h = hex_decode32 (bh_hash h).

Definition wf_block (b : Block) : Prop :=
  wf_header (bl_header b) ∧ Forall wf_transaction (bl_transactions b).
End Json.

(** ** Lemmas: words packed from bytes *)

Lemma or_shifted_add x b k :
  0 ≤ k → 0 ≤ x < 2 ^ k → byte b → or_shifted x b k = x + b * 2 ^ k.
Proof.
  intros Hk Hx Hb. unfold or_shifted. rewrite Z.shiftl_mul_pow2 by done.
  assert (Z.land x (b * 2 ^ k) = 0) as Hland.
  { apply Z.bits_inj'. intros n Hn. rewrite Z.land_spec, Z.bits_0.
    destruct (Z.lt_ge_cases n k).
    - by rewrite Z.mul_pow2_bits_low, andb_false_r.
    - by rewrite <-(Z.mod_small x (2 ^ k)), Z.mod_pow2_bits_high by lia. }
  rewrite <-Z.lxor_lor by done. symmetry. by apply Z.add_nocarry_lxor.
Qed.

(** Eight bytes as a little-endian number. *)
Definition le_bytes (f : nat → Z) : Z :=
  f 0%nat + f 1%nat * 2 ^ 8 + f 2%nat * 2 ^ 16 + f 3%nat * 2 ^ 24 + f 4%nat * 2 ^ 32 +
  f 5%nat * 2 ^ 40 + f 6%nat * 2 ^ 48 + f 7%nat * 2 ^ 56.

Lemma or_bytes_le f :
  (∀ i, byte (f i)) →
  or_shifted (or_shifted (or_shifted (or_shifted (or_shifted (or_shifted (or_shifted
    (or_shifted 0 (f 0%nat) 0) (f 1%nat) 8) (f 2%nat) 16) (f 3%nat) 24) (f 4%nat) 32)
    (f 5%nat) 40) (f 6%nat) 48) (f 7%nat) 56 = le_bytes f ∧ u64 (le_bytes f).
Proof.
  intros Hf. unfold le_bytes.
  pose proof (Hf 0%nat); pose proof (Hf 1%nat); pose proof (Hf 2%nat); pose proof (Hf 3%nat).
  pose proof (Hf 4%nat); pose proof (Hf 5%nat); pose proof (Hf 6%nat); pose proof (Hf 7%nat).
  unfold u64, u64_modulus, byte in *.
  rewrite (or_shifted_add 0); [|lia..|done].
  rewrite (or_shifted_add _ _ 8); [|lia..|done].
  rewrite (or_shifted_add _ _ 16); [|lia..|done].
  rewrite (or_shifted_add _ _ 24); [|lia..|done].
  rewrite (or_shifted_add _ _ 32); [|lia..|done].
  rewrite (or_shifted_add _ _ 40); [|lia..|done].
  rewrite (or_shifted_add _ _ 48); [|lia..|done].
  rewrite (or_shifted_add _ _ 56); [|lia..|done].
  lia.
Qed.

Lemma byte_digit a b x y :
  byte a → byte b → a + 256 * x = b + 256 * y → a = b ∧ x = y.
Proof. unfold byte. lia. Qed.

(** The same number digit by digit. *)
Lemma le_bytes_horner f :
  le_bytes f = f 0%nat + 256 * (f 1%nat + 256 * (f 2%nat + 256 * (f 3%nat + 256 *
    (f 4%nat + 256 * (f 5%nat + 256 * (f 6%nat + 256 * (f 7%nat + 256 * 0))))))).
Proof. unfold le_bytes. lia. Qed.

Lemma le_bytes_inj f g :
  (∀ i, byte (f i)) → (∀ i, byte (g i)) → le_bytes f = le_bytes g →
  ∀ i, (i < 8)%nat → f i = g i.
Proof.
  intros Hf Hg Heq i Hi. rewrite !le_bytes_horner in Heq.
  do 8 (apply byte_digit in Heq as [? Heq]; [|done..]).
  do 8 (destruct i as [|i]; [done|]). lia.
Qed.

Lemma byte_at_byte l i : Forall byte l → byte (byte_at l i).
Proof.
  intros Hl. unfold byte_at. rewrite nth_lookup.
  destruct (l !! i) as [b|] eqn:E; cbn; [|unfold byte; lia].
  by eapply Forall_lookup_1.
Qed.

(** ** Lemmas: JSON *)

Section JsonLemmas.
Context `{JsonLib} `{CryptoLib}.

Lemma Transaction_from_to_json t :
  wf_transaction t → Transaction_from_json (Transaction_to_json t) = Ok t.
Proof.
  intros (_ & Hts & _ & _ & Hb). unfold Transaction_from_json, Transaction_to_json.
  json_index. rewrite !get_string_string, get_uint64_uint by done. cbn.
  rewrite !enum_roundtrip by
    (apply TransactionType_table_ok || apply TransactionStatus_table_ok ||
     apply TransactionType_in_table || apply TransactionStatus_in_table).
  unfold Transaction_new. rewrite <-Hb. by destruct t.
Qed.

Lemma BlockHeader_from_to_json h :
  wf_header h → BlockHeader_from_json (BlockHeader_to_json h) = Ok h.
Proof.
  intros (_ & _ & _ & _ & Hts & Hn & Hb). unfold BlockHeader_from_json, BlockHeader_to_json.
  json_index. rewrite !get_string_string, !get_uint64_uint by done. cbn.
  unfold BlockHeader_new. rewrite <-Hb. by destruct h.
Qed.

Lemma Block_from_to_json b : wf_block b → Block_from_json (Block_to_json b) = Ok b.
Proof.
  intros [Hh Ht]. unfold Block_from_json, Block_to_json. json_index.
  rewrite elements_array, traverse_map.
  rewrite (traverse_id _ id), list_fmap_id.
  - cbn. rewrite BlockHeader_from_to_json by done. by destruct b.
  - intros x Hx. apply Transaction_from_to_json. by rewrite Forall_forall in Ht; apply Ht.
Qed.

Lemma enum_to_json_canonical {E} `{EqDecision E} (t : enum_table E) e :
  forallb (λ p, ascii_only p.2) (et_all t) = true → canonical (enum_to_json t e).
Proof.
  intros Ht. rewrite enum_to_json_name. apply canonical_string, text_ascii. unfold enum_name.
  rewrite forallb_forall in Ht.
  destruct (list_find _ _) as [[i p]|] eqn:Hf.
  - apply list_find_Some in Hf as (Hi & _ & _). apply Ht, list_elem_of_In.
    by eapply list_elem_of_lookup_2.
  - apply Ht. by left.
Qed.

Lemma Transaction_to_json_canonical t :
  wf_transaction t → canonical (Transaction_to_json t).
Proof.
  intros (Hh & Hts & Hf & Ht & _). json_canonical.
  all: first [by apply enum_to_json_canonical | auto with krapi].
Qed.

Lemma BlockHeader_to_json_canonical h : wf_header h → canonical (BlockHeader_to_json h).
Proof. intros (? & ? & ? & ? & ? & ? & _). json_canonical; auto with krapi. Qed.

Lemma Block_to_json_canonical b : wf_block b → canonical (Block_to_json b).
Proof.
  intros [Hh Ht]. json_canonical.
  - by apply BlockHeader_to_json_canonical.
  - apply canonical_array, Forall_map. eapply Forall_impl; [done|].
    intros t Hwf. by apply Transaction_to_json_canonical.
Qed.

(** Reading a field of a received value. *)
Lemma index_const_string j k s :
  canonical j → (v ← index_const j k; get_string v) = Ok s → text s.
Proof.
  intros Hj Hs. apply result_bind_ok in Hs as (v & Hv & Hs).
  by eapply canonical_get_string, Hs; eapply canonical_index_const.
Qed.

Lemma index_mut_string j k s :
  canonical j → (v ← index_mut j k; get_string v) = Ok s → text s.
Proof.
  intros Hj Hs. apply result_bind_ok in Hs as (v & Hv & Hs).
  by eapply canonical_get_string, Hs; eapply canonical_index_mut.
Qed.

Lemma index_const_u64 j k n : (v ← index_const j k; get_uint64 v) = Ok n → u64 n.
Proof. intros Hn. apply result_bind_ok in Hn as (v & _ & Hn). by eapply get_uint64_range. Qed.

Lemma index_mut_u64 j k n : (v ← index_mut j k; get_uint64 v) = Ok n → u64 n.
Proof. intros Hn. apply result_bind_ok in Hn as (v & _ & Hn). by eapply get_uint64_range. Qed.
End JsonLemmas.

(** Splits [(x ← r; f x) = Ok b] hypotheses into their steps. *)
Ltac result_inv :=
  repeat match goal with
    | H : mbind _ (mbind _ _) = Ok _ |- _ => apply result_bind_ok in H as (? & ? & ?)
    | H : mbind _ ?r = Ok _ |- _ => apply result_bind_ok in H as (? & ? & ?)
    | H : Ok _ = Ok _ |- _ => injection H as <-
    end.

#[export] Hint Resolve index_const_string index_mut_string index_const_u64 index_mut_u64 :
  krapi.

Section JsonWf.
Context `{JsonLib} `{CryptoLib}.

Lemma Transaction_from_json_wf j t :
  canonical j → Transaction_from_json j = Ok t → wf_transaction t.
Proof.
  intros Hj Ht. unfold Transaction_from_json in Ht.
  apply result_bind_ok in Ht as (ty & _ & Ht). apply result_bind_ok in Ht as (st & _ & Ht).
  apply result_bind_ok in Ht as (hash & Hhash & Ht).
  apply result_bind_ok in Ht as (ts & Hts & Ht).
  apply result_bind_ok in Ht as (from & Hfrom & Ht).
  apply result_bind_ok in Ht as (to & Hto & Ht).
  injection Ht as <-. split_and!; cbn; eauto with krapi.
Qed.

Lemma BlockHeader_from_json_wf j h :
  canonical j → BlockHeader_from_json j = Ok h → wf_header h.
Proof.
  intros Hj Hh. unfold BlockHeader_from_json in Hh.
  apply result_bind_ok in Hh as (hash & Hhash & Hh).
  apply result_bind_ok in Hh as (prev & Hprev & Hh).
  apply result_bind_ok in Hh as (root & Hroot & Hh).
  apply result_bind_ok in Hh as (by_ & Hby & Hh).
  apply result_bind_ok in Hh as (ts & Hts & Hh).
  apply result_bind_ok in Hh as (nonce & Hnonce & Hh).
  injection Hh as <-. split_and!; cbn; eauto with krapi.
Qed.

Lemma Block_from_json_wf j b : canonical j → Block_from_json j = Ok b → wf_block b.
Proof.
  intros Hj Hb. unfold Block_from_json in Hb.
  apply result_bind_ok in Hb as (txs & Htxs & Hb).
  apply result_bind_ok in Hb as (ts & Hts & Hb).
  apply result_bind_ok in Hb as (hj & Hhj & Hb).
  apply result_bind_ok in Hb as (h & Hh & Hb).
  injection Hb as <-. split; cbn.
  - eapply BlockHeader_from_json_wf, Hh. by eapply canonical_index_const.
  - apply canonical_index_const in Htxs; [|done]. apply canonical_elements in Htxs.
    apply traverse_ok in Hts. induction Hts as [|x t l l' Hx Hl IH]; [constructor|].
    apply Forall_cons in Htxs as [Hc Hcs]. constructor; [|by apply IH].
    by eapply Transaction_from_json_wf.
Qed.

Lemma wf_block_set_status s b : wf_block b → wf_block (Block_set_transactions_status s b).
Proof.
  intros [Hh Ht]. split; [done|]. cbn. apply Forall_map. by eapply Forall_impl.
Qed.
End JsonWf.

#[export] Hint Resolve wf_block_set_status : krapi.

(** ** Properties *)

Section Properties.
Context `{JsonLib} `{CryptoLib}.

(** C35: a block that the program built survives the wire: it prints, what is printed parses, and
    [Block::from_json] of it is the block, transaction by transaction. *)
Theorem block_wire_roundtrip b :
  wf_block b →
  ∃ s, dump (Block_to_json b) = Ok s ∧ (j ← parse s; Block_from_json j) = Ok b.
Proof.
  intros Hb. destruct (parse_dump _ (Block_to_json_canonical b Hb)) as (s & Hs & Hp).
  exists s. split; [done|]. rewrite Hp. by apply Block_from_to_json.
Qed.

(** C36: whatever text a peer sends, a block decoded from it is well formed: its strings print,
    its numbers are 64-bit words, and every byte array is the decoded hash. *)
Theorem block_from_wire_wf s b :
  (j ← parse s; Block_from_json j) = Ok b → wf_block b.
Proof.
  intros Hb. apply result_bind_ok in Hb as (j & Hj & Hb).
  eapply Block_from_json_wf, Hb. by eapply parse_canonical.
Qed.

(** [std::hash<Transaction>] is the little-endian word of the first eight bytes of the hash:
    it fits 64 bits, and two transactions collide exactly when these bytes agree. *)
Theorem transaction_hash_word t u :
  wf_transaction t → wf_transaction u →
  Transaction_std_hash t = le_bytes (byte_at (hex_decode32 (tx_hash t))) ∧
  u64 (Transaction_std_hash t) ∧
  (Transaction_std_hash t = Transaction_std_hash u ↔
   ∀ i, (i < 8)%nat →
     byte_at (hex_decode32 (tx_hash t)) i = byte_at (hex_decode32 (tx_hash u)) i).
Proof.
  intros (_ & _ & _ & _ & Ht) (_ & _ & _ & _ & Hu). unfold Transaction_std_hash.
  rewrite Ht, Hu.
  assert (∀ s i, byte (byte_at (hex_decode32 s) i)) as Hb
    by (intros; apply byte_at_byte, hex_decode32_byte).
  destruct (or_bytes_le _ (Hb (tx_hash t))) as [-> Hword].
  destruct (or_bytes_le _ (Hb (tx_hash u))) as [-> _].
  split_and!; [done..|]. split.
  - intros Heq i Hi. by apply (le_bytes_inj _ _ (Hb _) (Hb _) Heq).
  - intros Heq. unfold le_bytes. by rewrite !Heq by lia.
Qed.

(** Blocks that [operator==] calls equal have the same [std::hash], which is a 64-bit word,
    as an unordered container demands; [operator==] is an equivalence that looks at the hash
    only, so equal blocks may hold different transactions. *)
Theorem block_equality_respects_hash a b :
  wf_block a → wf_block b → Block_eqb a b = true →
  Block_std_hash a = Block_std_hash b ∧ u64 (Block_std_hash a) ∧
  ∀ c, Block_eqb a c = Block_eqb b c.
Proof.
  intros [(_ & _ & _ & _ & _ & _ & Ha) _] [(_ & _ & _ & _ & _ & _ & Hb) _] Heq.
  apply bool_decide_eq_true in Heq. unfold Block_std_hash, Block_hash_bytes.
  rewrite Ha, Hb, Heq. split_and!; [done| |].
  - pose proof (or_bytes_le (λ i, byte_at (hex_decode32 (bh_hash (bl_header b))) (10 + i))
      (λ i, byte_at_byte _ _ (hex_decode32_byte _))) as [Hw Hu]. rewrite <-Hw in Hu. exact Hu.
  - intros c. unfold Block_eqb. by rewrite Heq.
Qed.
End Properties.
