(* ===== verification/Messages.v ===== *)
(** * Messages (src/SharedModels)

    What travels between peers ([PeerMessage]), between a peer and the signaling server
    ([SignalingMessage]) and inside a process ([InternalMessage], [InternalNotification]), and
    the contents of some of them (SharedModels/Content). *)

From stdpp Require Import base sets list strings sorting.
From Stdlib Require Import ZArith Lia.
From S2P Require Import Prelude Json Crypto Enums Models.

Open Scope Z_scope.

Section Messages.
Context `{JsonLib} `{CryptoLib} `{HostLib}.

(** ** Data *)

(** class PeerMessage *)
Record PeerMessage := MkPeerMessage {
  pm_type : PeerMessageType.t;
  pm_sender_identity : string;
  pm_receiver_identity : string;
  pm_tag : string;
  pm_content : json;
  pm_timestamp : Z }.

(** class SignalingMessage *)
Record SignalingMessage := MkSignalingMessage {
  sm_type : SignalingMessageType.t;
  sm_sender_identity : string;
  sm_receiver_identity : string;
  sm_tag : string;
  sm_content : json }.

(** class InternalMessage<T>; the content is never an empty Box in this program. *)
Record InternalMessage (T : Type) := MkInternalMessage {
  im_type : InternalMessageType.t;
  im_content : T;
  im_timestamp : Z;
  im_retry_count : Z }.
Global Arguments MkInternalMessage {T} _ _ _ _.
Global Arguments im_type {T} _.
Global Arguments im_content {T} _.
Global Arguments im_timestamp {T} _.
Global Arguments im_retry_count {T} _.

(** class InternalNotification<T> *)
Record InternalNotification (T : Type) := MkInternalNotification {
  in_type : InternalNotificationType.t;
  in_content : T;
  in_tag : string }.
Global Arguments MkInternalNotification {T} _ _ _.
Global Arguments in_type {T} _.
Global Arguments in_content {T} _.
Global Arguments in_tag {T} _.

#[global] Instance PeerMessage_eq_dec : EqDecision PeerMessage.
Proof. solve_decision. Defined.

#[global] Instance SignalingMessage_eq_dec : EqDecision SignalingMessage.
Proof. solve_decision. Defined.

#[global] Instance InternalMessage_eq_dec `{EqDecision T} : EqDecision (InternalMessage T).
Proof. solve_decision. Defined.

#[global] Instance InternalNotification_eq_dec `{EqDecision T} :
  EqDecision (InternalNotification T).
Proof. solve_decision. Defined.

(** ** PeerMessage *)

(** PeerMessage(type, sender, receiver, tag, content): stamped with the current time. *)
Definition PeerMessage_create (type : PeerMessageType.t)
    (sender_identity receiver_identity tag : string) (content : json) : M Host PeerMessage :=
  timestamp ← get_krapi_timestamp;
  mret (MkPeerMessage type sender_identity receiver_identity tag content timestamp).

Definition PeerMessage_to_json (m : PeerMessage) : json :=
  jobject
    [("type", enum_to_json PeerMessageType.table (pm_type m));
     ("sender_identity", jstring (pm_sender_identity m));
     ("receiver_identity", jstring (pm_receiver_identity m));
     ("tag", jstring (pm_tag m));
     ("content", pm_content m);
     ("timestamp", juint (pm_timestamp m))].

Definition PeerMessage_to_string (m : PeerMessage) : result string :=
  dump (PeerMessage_to_json m).

Definition PeerMessage_from_json (j : json) : result PeerMessage :=
  type ← index_mut j "type";
  sender_identity ← (v ← index_mut j "sender_identity"; get_string v);
  receiver_identity ← (v ← index_mut j "receiver_identity"; get_string v);
  tag ← (v ← index_mut j "tag"; get_string v);
  timestamp ← (v ← index_mut j "timestamp"; get_uint64 v);
  content ← index_mut j "content";
  Ok (MkPeerMessage (enum_from_json PeerMessageType.table type) sender_identity
        receiver_identity tag content timestamp).

(** ** SignalingMessage *)

(** SignalingMessage(type, receiver, tag, content): the sender is left empty. *)
Definition SignalingMessage_unsent (type : SignalingMessageType.t)
    (receiver_identity tag : string) (content : json) : SignalingMessage :=
  MkSignalingMessage type "" receiver_identity tag content.

Definition SignalingMessage_set_sender_identity (identity : string) (m : SignalingMessage)
    : SignalingMessage :=
  MkSignalingMessage (sm_type m) identity (sm_receiver_identity m) (sm_tag m) (sm_content m).

Definition SignalingMessage_to_json (m : SignalingMessage) : json :=
  jobject
    [("type", enum_to_json SignalingMessageType.table (sm_type m));
     ("sender_identity", jstring (sm_sender_identity m));
     ("receiver_identity", jstring (sm_receiver_identity m));
     ("tag", jstring (sm_tag m));
     ("content", sm_content m)].

Definition SignalingMessage_to_string (m : SignalingMessage) : result string :=
  dump (SignalingMessage_to_json m).

Definition SignalingMessage_from_json (j : json) : result SignalingMessage :=
  type ← index_mut j "type";
  sender_identity ← (v ← index_mut j "sender_identity"; get_string v);
  receiver_identity ← (v ← index_mut j "receiver_identity"; get_string v);
  tag ← (v ← index_mut j "tag"; get_string v);
  content ← index_mut j "content";
  Ok (MkSignalingMessage (enum_from_json SignalingMessageType.table type) sender_identity
        receiver_identity tag content).

(** ** InternalMessage<T> *)

(** InternalMessage(type, content): stamped with the current time, no retry yet. *)
Definition InternalMessage_create {T} (type : InternalMessageType.t) (content : T)
    : M Host (InternalMessage T) :=
  timestamp ← get_krapi_timestamp;
  mret (MkInternalMessage type content timestamp 0).

Definition InternalMessage_tag (m : InternalMessage PeerMessage) : string :=
  pm_tag (im_content m).

Definition increament_retry_count {T} (m : InternalMessage T) : InternalMessage T :=
  MkInternalMessage (im_type m) (im_content m) (im_timestamp m) (im_retry_count m + 1).

Definition reset_retry_count {T} (m : InternalMessage T) : InternalMessage T :=
  MkInternalMessage (im_type m) (im_content m) (im_timestamp m) 0.

(** The two member templates at [T = PeerMessage], the instance that is stored. *)
Definition InternalMessage_to_json (m : InternalMessage PeerMessage) : json :=
  jobject
    [("type", enum_to_json InternalMessageType.table (im_type m));
     ("content", PeerMessage_to_json (im_content m));
     ("timestamp", juint (im_timestamp m))].

Definition InternalMessage_from_json (j : json) : result (InternalMessage PeerMessage) :=
  type ← index_mut j "type";
  content ← (v ← index_mut j "content"; PeerMessage_from_json v);
  timestamp ← (v ← index_mut j "timestamp"; get_uint64 v);
  Ok (MkInternalMessage (enum_from_json InternalMessageType.table type) content timestamp 0).

(** ** InternalNotification<T> *)

(** InternalNotification(type, content): a fresh tag. *)
Definition InternalNotification_create {T} (type : InternalNotificationType.t) (content : T)
    : M Host (InternalNotification T) :=
  tag ← create_tag;
  mret (MkInternalNotification type content tag).

(** ** Contents *)

Definition BlockHeadersResponseContent_to_json (headers : list BlockHeader) : json :=
  jobject [("headers", jarray (map BlockHeader_to_json headers))].

Definition BlockHeadersResponseContent_from_json (j : json) : result (list BlockHeader) :=
  headers ← index_mut j "headers";
  traverse BlockHeader_from_json (elements headers).

Definition BlocksResponseContent_to_json (blocks : list Block) : json :=
  jobject [("blocks", jarray (map Block_to_json blocks))].

Definition BlocksResponseContent_from_json (j : json) : result (list Block) :=
  blocks ← index_mut j "blocks";
  traverse Block_from_json (elements blocks).

(** [std::set<Transaction>::insert]: the set is ordered by [operator<], which compares
    timestamps, and an element equivalent to a present one is not inserted. *)
Fixpoint tx_set_insert (t : Transaction) (s : list Transaction) : list Transaction :=
  match s with
  | [] => [t]
  | u :: s' =>
      if Transaction_ltb t u then t :: s
      else if Transaction_ltb u t then u :: tx_set_insert t s'
      else s
  end.

Definition PoolResponseContent_to_json (transactions : list Transaction) : json :=
  jobject [("transactions", jarray (map Transaction_to_json transactions))].

Definition PoolResponseContent_from_json (j : json) : result (list Transaction) :=
  transactions ← index_mut j "transactions";
  ts ← traverse Transaction_from_json (elements transactions);
  Ok (fold_left (λ s t, tx_set_insert t s) ts []).

Record SetTransactionStatusContent := MkSetTransactionStatusContent {
  sts_status : TransactionStatus.t;
  sts_hash : string }.

Definition SetTransactionStatusContent_to_json (c : SetTransactionStatusContent) : json :=
  jobject
    [("status", enum_to_json TransactionStatus.table (sts_status c));
     ("hash", jstring (sts_hash c))].

Definition SetTransactionStatusContent_from_json (j : json)
    : result SetTransactionStatusContent :=
  status ← index_mut j "status";
  hash ← (v ← index_mut j "hash"; get_string v);
  Ok (MkSetTransactionStatusContent (enum_from_json TransactionStatus.table status) hash).

(** ** Well-formed values *)

Definition wf_peer_message (m : PeerMessage) : Prop :=
  text (pm_sender_identity m) ∧ text (pm_receiver_identity m) ∧ text (pm_tag m) ∧
  canonical (pm_content m) ∧ u64 (pm_timestamp m).

Definition wf_signaling_message (m : SignalingMessage) : Prop :=
  text (sm_sender_identity m) ∧ text (sm_receiver_identity m) ∧ text (sm_tag m) ∧
  canonical (sm_content m).

Definition wf_internal_message (m : InternalMessage PeerMessage) : Prop :=
  wf_peer_message (im_content m) ∧ u64 (im_timestamp m).

(** The type a receiver sees: the table of PeerMessageType has no DEFAULT and starts with
    PeerTypeRequest. *)
Definition peer_wire_type (t : PeerMessageType.t) : PeerMessageType.t :=
  match t with PeerMessageType.DEFAULT => PeerMessageType.PeerTypeRequest | _ => t end.

(** The table of SignalingMessageType has no Acknowledgement and starts with DEFAULT. *)
Definition signaling_wire_type (t : SignalingMessageType.t) : SignalingMessageType.t :=
  match t with SignalingMessageType.Acknowledgement => SignalingMessageType.DEFAULT | _ => t end.
End Messages.

(** ** Lemmas *)

Section MessageLemmas.
Context `{JsonLib} `{CryptoLib} `{HostLib}.

Lemma peer_wire_type_spec t :
  enum_from_json PeerMessageType.table (enum_to_json PeerMessageType.table t) =
  peer_wire_type t.
Proof. rewrite enum_to_json_name, enum_from_json_string. by destruct t. Qed.

Lemma signaling_wire_type_spec t :
  enum_from_json SignalingMessageType.table (enum_to_json SignalingMessageType.table t) =
  signaling_wire_type t.
Proof. rewrite enum_to_json_name, enum_from_json_string. by destruct t. Qed.

Lemma PeerMessage_from_to_json m :
  u64 (pm_timestamp m) →
  PeerMessage_from_json (PeerMessage_to_json m) =
  Ok (MkPeerMessage (peer_wire_type (pm_type m)) (pm_sender_identity m)
        (pm_receiver_identity m) (pm_tag m) (pm_content m) (pm_timestamp m)).
Proof.
  intros Hts. unfold PeerMessage_from_json, PeerMessage_to_json. json_index.
  rewrite !get_string_string, get_uint64_uint by done. cbn. by rewrite peer_wire_type_spec.
Qed.

Lemma SignalingMessage_from_to_json m :
  SignalingMessage_from_json (SignalingMessage_to_json m) =
  Ok (MkSignalingMessage (signaling_wire_type (sm_type m)) (sm_sender_identity m)
        (sm_receiver_identity m) (sm_tag m) (sm_content m)).
Proof.
  unfold SignalingMessage_from_json, SignalingMessage_to_json. json_index.
  rewrite !get_string_string. cbn. by rewrite signaling_wire_type_spec.
Qed.

Lemma PeerMessage_to_json_canonical m :
  wf_peer_message m → canonical (PeerMessage_to_json m).
Proof.
  intros (? & ? & ? & ? & ?). json_canonical.
  all: first [by apply enum_to_json_canonical | auto with krapi].
Qed.

Lemma SignalingMessage_to_json_canonical m :
  wf_signaling_message m → canonical (SignalingMessage_to_json m).
Proof.
  intros (? & ? & ? & ?). json_canonical.
  all: first [by apply enum_to_json_canonical | auto with krapi].
Qed.

Lemma InternalMessage_to_json_canonical m :
  wf_internal_message m → canonical (InternalMessage_to_json m).
Proof.
  intros [? ?]. json_canonical.
  all: first [by apply enum_to_json_canonical | by apply PeerMessage_to_json_canonical
             | auto with krapi].
Qed.

Lemma PeerMessage_from_json_wf j m :
  canonical j → PeerMessage_from_json j = Ok m → wf_peer_message m.
Proof.
  intros Hj Hm. unfold PeerMessage_from_json in Hm.
  apply result_bind_ok in Hm as (ty & _ & Hm). apply result_bind_ok in Hm as (s & Hs & Hm).
  apply result_bind_ok in Hm as (r & Hr & Hm). apply result_bind_ok in Hm as (t & Ht & Hm).
  apply result_bind_ok in Hm as (n & Hn & Hm). apply result_bind_ok in Hm as (c & Hc & Hm).
  injection Hm as <-. split_and!; cbn; eauto with krapi. by eapply canonical_index_mut.
Qed.

Lemma SignalingMessage_from_json_wf j m :
  canonical j → SignalingMessage_from_json j = Ok m → wf_signaling_message m.
Proof.
  intros Hj Hm. unfold SignalingMessage_from_json in Hm.
  apply result_bind_ok in Hm as (ty & _ & Hm). apply result_bind_ok in Hm as (s & Hs & Hm).
  apply result_bind_ok in Hm as (r & Hr & Hm). apply result_bind_ok in Hm as (t & Ht & Hm).
  apply result_bind_ok in Hm as (c & Hc & Hm).
  injection Hm as <-. split_and!; cbn; eauto with krapi. by eapply canonical_index_mut.
Qed.

Lemma InternalMessage_from_to_json m :
  wf_internal_message m →
  InternalMessage_from_json (InternalMessage_to_json m) =
  Ok (MkInternalMessage (im_type m)
        (MkPeerMessage (peer_wire_type (pm_type (im_content m)))
           (pm_sender_identity (im_content m)) (pm_receiver_identity (im_content m))
           (pm_tag (im_content m)) (pm_content (im_content m)) (pm_timestamp (im_content m)))
        (im_timestamp m) 0).
Proof.
  intros [(_ & _ & _ & _ & Hp) Hts].
  unfold InternalMessage_from_json, InternalMessage_to_json. json_index.
  rewrite PeerMessage_from_to_json, get_uint64_uint by done. cbn.
  by rewrite enum_roundtrip by (apply InternalMessageType_table_ok ||
                                apply InternalMessageType_in_table).
Qed.

Lemma BlockHeadersResponseContent_from_to_json hs :
  Forall wf_header hs →
  BlockHeadersResponseContent_from_json (BlockHeadersResponseContent_to_json hs) = Ok hs.
Proof.
  intros Hhs. unfold BlockHeadersResponseContent_from_json,
    BlockHeadersResponseContent_to_json. json_index.
  rewrite elements_array, traverse_map, (traverse_id _ id), list_fmap_id; [done|].
  intros x Hx. apply BlockHeader_from_to_json. by rewrite Forall_forall in Hhs; apply Hhs.
Qed.

Lemma BlockHeadersResponseContent_to_json_canonical hs :
  Forall wf_header hs → canonical (BlockHeadersResponseContent_to_json hs).
Proof.
  intros Hhs. json_canonical. apply canonical_array, Forall_map.
  eapply Forall_impl; [done|]. apply BlockHeader_to_json_canonical.
Qed.

Lemma BlocksResponseContent_from_to_json bs :
  Forall wf_block bs →
  BlocksResponseContent_from_json (BlocksResponseContent_to_json bs) = Ok bs.
Proof.
  intros Hbs. unfold BlocksResponseContent_from_json, BlocksResponseContent_to_json.
  json_index. rewrite elements_array, traverse_map, (traverse_id _ id), list_fmap_id; [done|].
  intros x Hx. apply Block_from_to_json. by rewrite Forall_forall in Hbs; apply Hbs.
Qed.

Lemma SetTransactionStatusContent_from_to_json c :
  SetTransactionStatusContent_from_json (SetTransactionStatusContent_to_json c) = Ok c.
Proof.
  unfold SetTransactionStatusContent_from_json, SetTransactionStatusContent_to_json.
  json_index. rewrite get_string_string. cbn.
  rewrite enum_roundtrip by
    (apply TransactionStatus_table_ok || apply TransactionStatus_in_table).
  by destruct c.
Qed.

(** ** The std::set of pool transactions *)

Definition tx_before (t u : Transaction) : Prop := tx_timestamp t < tx_timestamp u.

Lemma tx_set_insert_elem t s u : u ∈ tx_set_insert t s → u = t ∨ u ∈ s.
Proof.
  induction s as [|v s IH]; cbn; [set_solver|].
  destruct (Transaction_ltb t v), (Transaction_ltb v t); set_solver.
Qed.

Lemma tx_set_insert_keeps t s u : u ∈ s → u ∈ tx_set_insert t s.
Proof.
  induction s as [|v s IH]; cbn; [set_solver|].
  destruct (Transaction_ltb t v), (Transaction_ltb v t); set_solver.
Qed.

Lemma tx_set_insert_sorted t s :
  StronglySorted tx_before s → StronglySorted tx_before (tx_set_insert t s).
Proof.
  induction 1 as [|v s Hs IH Hv]; cbn; [repeat constructor|].
  unfold Transaction_ltb. destruct (Z.ltb_spec (tx_timestamp t) (tx_timestamp v)).
  - constructor; [by constructor|]. constructor; [done|].
    eapply Forall_impl; [done|]. unfold tx_before. intros; cbn in *; lia.
  - destruct (Z.ltb_spec (tx_timestamp v) (tx_timestamp t)); [|by constructor].
    constructor; [done|]. rewrite Forall_forall in *.
    intros u [->|Hu]%tx_set_insert_elem; [done|by apply Hv].
Qed.

(** What is inserted, or one with the same timestamp that was there, is in the set. *)
Lemma tx_set_insert_covers t s :
  ∃ u, u ∈ tx_set_insert t s ∧ tx_timestamp u = tx_timestamp t ∧ (u = t ∨ u ∈ s).
Proof.
  induction s as [|v s (u & Hu & Hts & Hor)]; cbn; [exists t; set_solver|].
  unfold Transaction_ltb. destruct (Z.ltb_spec (tx_timestamp t) (tx_timestamp v)).
  - exists t; set_solver.
  - destruct (Z.ltb_spec (tx_timestamp v) (tx_timestamp t)).
    + exists u; set_solver.
    + exists v. split_and!; [set_solver|lia|set_solver].
Qed.

Lemma tx_set_insert_last t s :
  Forall (λ u, tx_before u t) s → tx_set_insert t s = s ++ [t].
Proof.
  induction 1 as [|u s Hu Hs IH]; cbn; [done|]. unfold tx_before in Hu.
  unfold Transaction_ltb at 1 2. destruct (Z.ltb_spec (tx_timestamp t) (tx_timestamp u)); [lia|].
  destruct (Z.ltb_spec (tx_timestamp u) (tx_timestamp t)); [by rewrite IH|lia].
Qed.

Lemma tx_set_of_sorted_app l s :
  StronglySorted tx_before (s ++ l) → fold_left (λ s t, tx_set_insert t s) l s = s ++ l.
Proof.
  revert s. induction l as [|t l IH]; intros s Hs; cbn; [by rewrite app_nil_r|].
  rewrite tx_set_insert_last.
  - rewrite IH; rewrite <-app_assoc; done.
  - apply Forall_forall. intros u Hu. revert Hs Hu. induction s as [|v s IHs]; [set_solver|].
    cbn. intros Hs Hu. apply StronglySorted_inv in Hs as [Hs Hall].
    apply elem_of_cons in Hu as [->|Hu]; [|by apply IHs].
    rewrite Forall_forall in Hall. apply Hall. set_solver.
Qed.

Lemma tx_set_fold_sorted l s :
  StronglySorted tx_before s →
  StronglySorted tx_before (fold_left (λ s t, tx_set_insert t s) l s).
Proof.
  revert s. induction l as [|t l IH]; intros s Hs; cbn; [done|].
  by apply IH, tx_set_insert_sorted.
Qed.

Lemma tx_set_fold_elem l s u :
  u ∈ fold_left (λ s t, tx_set_insert t s) l s → u ∈ s ∨ u ∈ l.
Proof.
  revert s. induction l as [|t l IH]; intros s; cbn; [set_solver|].
  intros [Hu|Hu]%IH; [|set_solver]. apply tx_set_insert_elem in Hu. set_solver.
Qed.

Lemma tx_set_fold_keeps l s u :
  u ∈ s → u ∈ fold_left (λ s t, tx_set_insert t s) l s.
Proof.
  revert s. induction l as [|t l IH]; intros s Hu; cbn; [done|].
  by apply IH, tx_set_insert_keeps.
Qed.

Lemma tx_set_fold_covers l s t :
  t ∈ l → ∃ u, u ∈ fold_left (λ s t, tx_set_insert t s) l s ∧ tx_timestamp u = tx_timestamp t.
Proof.
  revert s. induction l as [|v l IH]; intros s; [set_solver|].
  intros [->|Ht]%elem_of_cons; cbn; [|by apply IH].
  destruct (tx_set_insert_covers v s) as (u & Hu & Hts & _).
  exists u. split; [|done]. by apply tx_set_fold_keeps.
Qed.
End MessageLemmas.

(** ** Properties *)

Section Properties.
Context `{JsonLib} `{CryptoLib} `{HostLib}.

(** C37: a peer message survives the wire, but for its type: the JSON table of PeerMessageType
    lacks DEFAULT, which arrives as PeerTypeRequest; every other type arrives unchanged. *)
Theorem peer_message_wire_roundtrip m :
  wf_peer_message m →
  ∃ s, PeerMessage_to_string m = Ok s ∧
    (j ← parse s; PeerMessage_from_json j) =
      Ok (MkPeerMessage
            (if decide (pm_type m = PeerMessageType.DEFAULT)
             then PeerMessageType.PeerTypeRequest else pm_type m)
            (pm_sender_identity m) (pm_receiver_identity m) (pm_tag m) (pm_content m)
            (pm_timestamp m)).
Proof.
  intros Hm. destruct (parse_dump _ (PeerMessage_to_json_canonical m Hm)) as (s & Hs & Hp).
  exists s. split; [done|]. rewrite Hp. cbn. rewrite PeerMessage_from_to_json by apply Hm.
  do 2 f_equal. by destruct (pm_type m).
Qed.

(** C38: a pool response is decoded into a [std::set] ordered by timestamps: the result is
    strictly sorted, holds nothing that was not sent, has a transaction for every timestamp that
    was sent, and is what was sent when that was sorted already. Transactions that share a
    timestamp are merged. *)
Theorem pool_response_roundtrip ts :
  Forall wf_transaction ts →
  ∃ set, PoolResponseContent_from_json (PoolResponseContent_to_json ts) = Ok set ∧
    StronglySorted tx_before set ∧ (∀ t, t ∈ set → t ∈ ts) ∧
    (∀ t, t ∈ ts → ∃ u, u ∈ set ∧ tx_timestamp u = tx_timestamp t) ∧
    (StronglySorted tx_before ts → set = ts).
Proof.
  intros Hts. unfold PoolResponseContent_from_json, PoolResponseContent_to_json. json_index.
  rewrite elements_array, traverse_map, (traverse_id _ id), list_fmap_id.
  2:{ intros x Hx. apply Transaction_from_to_json. by rewrite Forall_forall in Hts; apply Hts. }
  eexists. split; [done|]. split_and!.
  - apply tx_set_fold_sorted. constructor.
  - intros t Ht. apply tx_set_fold_elem in Ht as [?|?]; [set_solver|done].
  - intros t Ht. by apply tx_set_fold_covers.
  - intros Hs. by apply (tx_set_of_sorted_app ts []).
Qed.
End Properties.
