(* ===== verification/DBInterface.v ===== *)
(** * The database interface (SharedModels/Concepts.h, SharedModels/DBInterface.h)

    [DBInternface<DataType>] keeps values of one type in a LevelDB database, as JSON text under
    the value's tag. The class [DBData] is what the concepts of Concepts.h ask of the type, and
    [DBDataLaws] what a type has to satisfy for its values to survive storage. The operations
    are translated over the LevelDB calls and then shown to implement a finite map from tags to
    values ([db_abs]). *)

From stdpp Require Import base sets list gmap strings sorting.
From Stdlib Require Import ZArith Lia.
From S2P Require Import Prelude Json LevelDB.

Open Scope Z_scope.

(** concepts ConvertableToJson, DBComparable and TaggableConcept *)
Class DBData `{JsonLib} (T : Type) := {
  data_tag : T → string;
  data_timestamp : T → Z;
  data_to_json : T → json;
  data_from_json : json → result T }.

Section Operations.
Context `{JsonLib} `{LevelDB} {T : Type} `{!DBData T}.

Definition from_slice (slice : string) : result T :=
  j ← parse slice;
  data_from_json j.

(** The loop counts in a [size_t]. *)
Definition db_size (d : db) : Z :=
  fold_left (λ counter _, u64_wrap (counter + 1)) (db_iter d) 0.

(** The values [data()] yields when the loop over it runs to its end. *)
Definition db_data (d : db) : result (list T) := traverse from_slice (db_iter d).*2.

(** [for (auto value: data()) body(value);], the iterator reading the snapshot of [d]. *)
Definition for_data {S} (d : db) (body : T → M S unit) : M S unit :=
  for_each (db_iter d).*2 (λ slice, value ← lift_result (from_slice slice); body value).

Definition get (tag : string) (d : db) : result (option T) :=
  match db_get d tag with
  | Some value_str => value ← from_slice value_str; Ok (Some value)
  | None => Ok None
  end.

Definition contains_tag (tag : string) (d : db) : result bool :=
  value ← get tag d;
  Ok (bool_decide (is_Some value)).

Definition contains (value : T) (d : db) : result bool := contains_tag (data_tag value) d.

Definition put (value : T) : M db bool :=
  present ← reads (contains value);
  if (present : bool) then mret false
  else
    string_representation ← lift_result (dump (data_to_json value));
    writes (db_put (data_tag value) string_representation).

Definition remove_tag (tag : string) : M db bool :=
  present ← reads (contains_tag tag);
  if (present : bool) then writes (db_delete tag) else mret false.

Definition remove (value : T) : M db bool := remove_tag (data_tag value).

(** [last_value] starts as a default-constructed value. *)
Definition last (default : T) (d : db) : result T :=
  values ← db_data d;
  Ok (fold_left
        (λ last_value value,
           if data_timestamp last_value <? data_timestamp value then value else last_value)
        values default).

(** [initialize]: whether the directory exists or could be made, and the database LevelDB
    opens there, if it does. *)
Definition initialize (exists_ created : bool) (opened : option db) : option db :=
  if negb exists_ && negb created then None else opened.
End Operations.

(** ** The contract *)

(** [data_norm v] is what is read back after storing [v]. *)
Class DBDataLaws `{JsonLib} (T : Type) `{!DBData T} := {
  data_ok : T → Prop;
  data_norm : T → T;
  data_store v :
    data_ok v →
    ∃ s, dump (data_to_json v) = Ok s ∧ from_slice s = Ok (data_norm v);
  data_norm_tag v : data_tag (data_norm v) = data_tag v;
  data_norm_timestamp v : data_timestamp (data_norm v) = data_timestamp v;
  data_norm_ok v : data_ok v → data_ok (data_norm v);
  data_norm_norm v : data_norm (data_norm v) = data_norm v }.

Section Contract.
Context `{JsonLib} `{LevelDB} {T : Type} `{!DBData T} `{!DBDataLaws T}.

(** A slice that holds a value under the right key. *)
Definition slice_ok (k s : string) : Prop :=
  ∃ v : T, from_slice s = Ok v ∧ data_tag v = k ∧ data_ok v ∧ data_norm v = v.

Definition db_wf (d : db) : Prop := map_Forall slice_ok (db_view d).

(** The map the database stands for. *)
Definition db_abs (d : db) : gmap string T :=
  omap (λ s, result_to_option (from_slice s)) (db_view d).

(** What [put] and [remove] mean on the map, [ok] being the status of the write. *)
Definition put_spec (v : T) (ok : bool) (m : gmap string T) : bool * gmap string T :=
  match m !! data_tag v with
  | Some _ => (false, m)
  | None => (ok, if ok then <[data_tag v := data_norm v]> m else m)
  end.

Definition remove_spec (k : string) (ok : bool) (m : gmap string T) : bool * gmap string T :=
  match m !! k with
  | Some _ => (ok, if ok then delete k m else m)
  | None => (false, m)
  end.
End Contract.

Section Lemmas.
Context `{JsonLib} `{LevelDB} {T : Type} `{!DBData T} `{!DBDataLaws T}.
Implicit Types (v : T) (d : db).

Lemma db_abs_lookup d k :
  db_abs d !! k = s ← db_view d !! k; result_to_option (from_slice (T:=T) s).
Proof. unfold db_abs. by rewrite lookup_omap. Qed.

Lemma db_wf_lookup d k s :
  db_wf (T:=T) d → db_view d !! k = Some s →
  ∃ v, from_slice s = Ok v ∧ db_abs d !! k = Some v ∧ data_tag v = k ∧ data_ok v ∧
       data_norm v = v.
Proof.
  intros Hwf Hs. destruct (Hwf _ _ Hs) as (v & Hv & ?). exists v.
  rewrite db_abs_lookup, Hs. cbn. by rewrite Hv.
Qed.

Lemma db_abs_inv d k v :
  db_wf d → db_abs d !! k = Some v → data_tag v = k ∧ data_ok v ∧ data_norm v = v.
Proof.
  intros Hwf Hv. pose proof Hv as Hv'. rewrite db_abs_lookup in Hv'.
  destruct (db_view d !! k) as [s|] eqn:Hs; [|done].
  destruct (db_wf_lookup d k s Hwf Hs) as (v' & _ & Hv'' & ?). by simplify_eq.
Qed.

Lemma get_abs d k : db_wf d → get k d = Ok (db_abs d !! k).
Proof.
  intros Hwf. unfold get. rewrite db_get_view.
  destruct (db_view d !! k) as [s|] eqn:Hs.
  - destruct (db_wf_lookup d k s Hwf Hs) as (v & -> & -> & _). done.
  - rewrite db_abs_lookup, Hs. done.
Qed.

Lemma contains_tag_abs d k :
  db_wf (T:=T) d → contains_tag k d = Ok (bool_decide (is_Some (db_abs (T:=T) d !! k))).
Proof. intros Hwf. unfold contains_tag. by rewrite get_abs. Qed.

(** Storing under the tag keeps the database well formed and updates the map. *)
Lemma db_put_wf d v s :
  db_wf d → data_ok v → from_slice s = Ok (data_norm v) →
  db_wf (T:=T) (db_put (data_tag v) s d).2 ∧
  db_abs (db_put (data_tag v) s d).2 =
    if (db_put (data_tag v) s d).1 then <[data_tag v := data_norm v]> (db_abs d)
    else db_abs d.
Proof.
  intros Hwf Hok Hs. unfold db_wf, db_abs. rewrite db_put_view.
  destruct (db_put (data_tag v) s d).1; [|done]. split.
  - apply map_Forall_insert_2; [|done]. exists (data_norm v).
    by rewrite data_norm_tag, data_norm_norm; auto using data_norm_ok.
  - erewrite omap_insert_Some; [done|]. by rewrite Hs.
Qed.

Lemma db_delete_wf d k :
  db_wf (T:=T) d →
  db_wf (T:=T) (db_delete k d).2 ∧
  db_abs (T:=T) (db_delete k d).2 =
    if (db_delete k d).1 then delete k (db_abs d) else db_abs d.
Proof.
  intros Hwf. unfold db_wf, db_abs. rewrite db_delete_view.
  destruct (db_delete k d).1; [|done]. split.
  - by apply map_Forall_delete.
  - by rewrite omap_delete.
Qed.

(** The writes throw nothing on a well-formed database and refine the map operations. *)
Lemma put_refines d v :
  db_wf d → data_ok v →
  ∃ ok d', put v d = (Ok (put_spec v ok (db_abs d)).1, d') ∧ db_wf (T:=T) d' ∧
           db_abs d' = (put_spec v ok (db_abs d)).2 ∧
           (is_Some (db_abs d !! data_tag v) → d' = d) ∧ (ReliableWrites → ok = true).
Proof.
  intros Hwf Hok. unfold put, put_spec, contains, reads, writes, mbind, M_bind.
  rewrite contains_tag_abs by done.
  destruct (db_abs d !! data_tag v) as [u|] eqn:Hu; cbn.
  - exists true, d. done.
  - destruct (data_store v Hok) as (s & Hs & Hfs). unfold lift_result. rewrite Hs.
    destruct (db_put_wf d v s Hwf Hok Hfs) as [Hwf' Habs].
    pose proof (λ R, reliable_put (ReliableWrites:=R) (data_tag v) s d) as Hrel.
    destruct (db_put (data_tag v) s d) as [ok d'] eqn:Hput. cbn in *.
    exists ok, d'. split_and!; [done..| |done]. by intros [? ?].
Qed.

Lemma remove_tag_refines d k :
  db_wf (T:=T) d →
  ∃ ok d', remove_tag (T:=T) k d = (Ok (remove_spec (T:=T) k ok (db_abs d)).1, d') ∧
           db_wf (T:=T) d' ∧ db_abs (T:=T) d' = (remove_spec k ok (db_abs d)).2 ∧
           (db_abs (T:=T) d !! k = None → d' = d) ∧ (ReliableWrites → ok = true).
Proof.
  intros Hwf. unfold remove_tag, remove_spec, reads, writes, mbind, M_bind.
  rewrite contains_tag_abs by done.
  destruct (db_abs (T:=T) d !! k) as [u|] eqn:Hu; cbn.
  - destruct (db_delete_wf d k Hwf) as [Hwf' Habs].
    pose proof (λ R, reliable_delete (ReliableWrites:=R) k d) as Hrel.
    destruct (db_delete k d) as [ok d'] eqn:Hdel. cbn in *. exists ok, d'.
    by split_and!.
  - exists true, d. done.
Qed.

Lemma wpx_put d v Q E :
  db_wf d → data_ok v →
  (∀ ok d', db_wf (T:=T) d' → db_abs d' = (put_spec v ok (db_abs d)).2 →
     (ReliableWrites → ok = true) → Q (put_spec v ok (db_abs d)).1 d') →
  wpx (put v) Q E d.
Proof.
  intros Hwf Hok HQ. destruct (put_refines d v Hwf Hok) as (ok & d' & Hput & ? & ? & _ & ?).
  unfold wpx. rewrite Hput. by apply HQ.
Qed.

Lemma wpx_remove_tag d k Q E :
  db_wf (T:=T) d →
  (∀ ok d', db_wf (T:=T) d' → db_abs d' = (remove_spec k ok (db_abs d)).2 →
     (ReliableWrites → ok = true) → Q (remove_spec (T:=T) k ok (db_abs d)).1 d') →
  wpx (remove_tag (T:=T) k) Q E d.
Proof.
  intros Hwf HQ. destruct (remove_tag_refines d k Hwf) as (ok & d' & Hrm & ? & ? & _ & ?).
  unfold wpx. rewrite Hrm. by apply HQ.
Qed.

Lemma wpx_remove d v Q E :
  db_wf (T:=T) d →
  (∀ ok d', db_wf (T:=T) d' → db_abs d' = (remove_spec (data_tag v) ok (db_abs d)).2 →
     (ReliableWrites → ok = true) →
     Q (remove_spec (T:=T) (data_tag v) ok (db_abs d)).1 d') →
  wpx (remove v) Q E d.
Proof. intros. by apply wpx_remove_tag. Qed.

Lemma remove_spec_lookup k (m : gmap string T) k' :
  (remove_spec k true m).2 !! k' = if decide (k' = k) then None else m !! k'.
Proof.
  unfold remove_spec. destruct (m !! k) eqn:Hk; cbn; case_decide; subst;
    by rewrite ?lookup_delete_eq, ?lookup_delete_ne by done.
Qed.

(** Replacing a value. *)
Lemma put_remove_spec v (m : gmap string T) :
  (put_spec v true (remove_spec (data_tag v) true m).2).2 = <[data_tag v := data_norm v]> m.
Proof.
  unfold put_spec. rewrite remove_spec_lookup, decide_True by done. cbn.
  apply map_eq. intros k. destruct (decide (data_tag v = k)) as [<-|Hne].
  - by rewrite !lookup_insert_eq.
  - by rewrite !lookup_insert_ne, remove_spec_lookup, decide_False by done.
Qed.

(** ** Iteration *)

(** [data()] yields every value of the map once, in the order of the tags. *)
Lemma db_data_spec d :
  db_wf (T:=T) d →
  ∃ vs : list T, db_data d = Ok vs ∧ map data_tag vs = (db_iter d).*1 ∧
    (∀ v, v ∈ vs ↔ db_abs d !! data_tag v = Some v) ∧
    Forall (λ v, data_ok v ∧ data_norm v = v) vs.
Proof.
  intros Hwf. unfold db_data.
  assert (∀ kv, kv ∈ db_iter d → ∃ v : T, from_slice kv.2 = Ok v ∧
    db_abs d !! kv.1 = Some v ∧ data_tag v = kv.1 ∧ data_ok v ∧ data_norm v = v) as Hall.
  { intros [k s] Hin. apply db_iter_elem in Hin. by eapply db_wf_lookup. }
  assert (∃ vs : list T, Forall2 (λ kv v, from_slice kv.2 = Ok v ∧ db_abs d !! kv.1 = Some v ∧
    data_tag v = kv.1 ∧ data_ok v ∧ data_norm v = v) (db_iter d) vs) as [vs Hvs].
  { clear -Hall. induction (db_iter d) as [|kv l IH]; [by exists []|].
    destruct IH as [vs Hvs]; [set_solver|]. destruct (Hall kv) as [v Hv]; [set_solver|].
    exists (v :: vs). by constructor. }
  exists vs. split_and!.
  - apply traverse_ok. apply Forall2_fmap_l. eapply Forall2_impl; [done|]. naive_solver.
  - clear Hall. induction Hvs as [|kv v l vs (_ & _ & ? & _) _ IH]; [done|]. cbn. congruence.
  - intros v. split.
    + intros [i Hi]%list_elem_of_lookup_1.
      eapply Forall2_lookup_r in Hvs as (kv & _ & _ & Habs & Htag & _); [|done].
      by rewrite Htag.
    + intros Habs. pose proof Habs as Habs'. rewrite db_abs_lookup in Habs'.
      destruct (db_view d !! data_tag v) as [s|] eqn:Hs; [|done].
      apply db_iter_elem, list_elem_of_lookup_1 in Hs as [i Hi].
      eapply Forall2_lookup_l in Hvs as (v' & Hv' & _ & Habs'' & _); [|done].
      cbn in Habs''. assert (v' = v) as -> by congruence. by eapply list_elem_of_lookup_2.
  - clear Hall. induction Hvs; constructor; naive_solver.
Qed.

Lemma db_data_elem d vs v :
  db_wf (T:=T) d → db_data d = Ok vs → v ∈ vs ↔ db_abs d !! data_tag v = Some v.
Proof.
  intros Hwf Hd. destruct (db_data_spec d Hwf) as (vs' & Hd' & _ & He & _).
  assert (vs' = vs) as -> by congruence. apply He.
Qed.

Lemma db_data_tags d vs :
  db_wf (T:=T) d → db_data (T:=T) d = Ok vs →
  StronglySorted string_lt (map data_tag vs) ∧ NoDup (map data_tag vs).
Proof.
  intros Hwf Hd. destruct (db_data_spec d Hwf) as (vs' & Hd' & Htags & _).
  assert (vs' = vs) as -> by congruence. rewrite Htags.
  split; [apply db_iter_sorted | apply db_iter_nodup].
Qed.

Lemma db_size_spec d : db_size d = u64_wrap (Z.of_nat (size (db_view d))).
Proof.
  rewrite <-db_iter_length. unfold db_size.
  enough (∀ (l : list (string * string)) c,
    fold_left (λ counter _, u64_wrap (counter + 1)) l (u64_wrap c) =
    u64_wrap (c + Z.of_nat (length l))) as Hl.
  { specialize (Hl (db_iter d) 0). by rewrite Z.add_0_l in Hl. }
  induction l as [|x l IH]; intros c; cbn.
  - by rewrite Z.add_0_r.
  - unfold u64_wrap at 2. unfold u64_wrap at 2. rewrite Zplus_mod_idemp_l.
    fold (u64_wrap (c + 1)). rewrite IH. f_equal. lia.
Qed.

(** ** The value with the greatest timestamp *)

Definition later (last_value value : T) : T :=
  if data_timestamp last_value <? data_timestamp value then value else last_value.

Lemma fold_later vs v0 :
  let w := fold_left later vs v0 in
  (w = v0 ∨ w ∈ vs) ∧ data_timestamp v0 ≤ data_timestamp w ∧
  (∀ v, v ∈ vs → data_timestamp v ≤ data_timestamp w) ∧
  (w ≠ v0 → data_timestamp v0 < data_timestamp w).
Proof.
  revert v0. induction vs as [|v vs IH]; intros v0; cbn.
  - split_and!; [by left|lia|set_solver|done].
  - specialize (IH (later v0 v)). cbn in IH. destruct IH as (Hin & Hge & Hall & Hne).
    unfold later in *. destruct (Z.ltb_spec (data_timestamp v0) (data_timestamp v)).
    + split_and!; [set_solver|lia| |lia].
      intros v' [->|Hv']%elem_of_cons; [lia|by apply Hall].
    + split_and!; [set_solver|lia| |done].
      intros v' [->|Hv']%elem_of_cons; [lia|by apply Hall].
Qed.

Lemma last_spec d v0 :
  db_wf (T:=T) d →
  ∃ w, last v0 d = Ok w ∧ (w = v0 ∨ db_abs d !! data_tag w = Some w) ∧
    (∀ k v, db_abs d !! k = Some v → data_timestamp v ≤ data_timestamp w) ∧
    data_timestamp v0 ≤ data_timestamp w ∧
    (w ≠ v0 → data_timestamp v0 < data_timestamp w).
Proof.
  intros Hwf. destruct (db_data_spec d Hwf) as (vs & Hvs & _ & Helem & _).
  unfold last. rewrite Hvs. cbn. eexists; split; [done|].
  pose proof (fold_later vs v0) as (Hin & Hge & Hall & Hne). fold later.
  split_and!; [|intros k v Hv|done|done].
  - destruct Hin as [?|Hin]; [by left|right]. by apply Helem.
  - apply Hall, Helem. destruct (db_abs_inv d k v Hwf Hv) as (-> & _). done.
Qed.

(** When the database has a value whose timestamp beats all others, it is the last one. *)
Lemma last_unique d v0 k v :
  db_wf (T:=T) d → db_abs d !! k = Some v → data_timestamp v0 < data_timestamp v →
  (∀ k' v', db_abs d !! k' = Some v' → k' ≠ k → data_timestamp v' < data_timestamp v) →
  last v0 d = Ok v.
Proof.
  intros Hwf Hv Hv0 Hmax. destruct (last_spec d v0 Hwf) as (w & Hw & Hin & Hge & _ & _).
  rewrite Hw. f_equal. specialize (Hge _ _ Hv). destruct Hin as [->|Hin]; [lia|].
  destruct (decide (data_tag w = k)) as [<-|Hne]; [congruence|].
  specialize (Hmax _ _ Hin Hne). lia.
Qed.
End Lemmas.

(** ** Properties *)

Section Properties.
Context `{JsonLib} `{LevelDB} {T : Type} `{!DBData T} `{!DBDataLaws T}.
Implicit Types (v : T) (d : db).

(** C15: on a database that holds values of one type under their tags, DBInternface implements a
    finite map: [get] and [contains] read it and throw nothing; [put] stores a value unless its
    tag is taken, in which case it changes nothing and says so; [remove] deletes; a write LevelDB
    refuses leaves the map as it was; and the database stays well formed. *)
Theorem database_refines_map d :
  db_wf (T:=T) d →
  (∀ k, get (T:=T) k d = Ok (db_abs d !! k)) ∧
  (∀ k, contains_tag (T:=T) k d = Ok (bool_decide (is_Some (db_abs (T:=T) d !! k)))) ∧
  (∀ v, data_ok v → ∃ ok d', put v d = (Ok (put_spec v ok (db_abs d)).1, d') ∧
     db_wf (T:=T) d' ∧ db_abs d' = (put_spec v ok (db_abs d)).2 ∧ (ReliableWrites → ok = true)) ∧
  (∀ k, ∃ ok d', remove_tag (T:=T) k d = (Ok (remove_spec (T:=T) k ok (db_abs d)).1, d') ∧
     db_wf (T:=T) d' ∧ db_abs (T:=T) d' = (remove_spec k ok (db_abs d)).2 ∧
     (ReliableWrites → ok = true)).
Proof.
  intros Hwf. split_and!; [by intros; apply get_abs|by intros; apply contains_tag_abs|..].
  - intros v Hv. destruct (put_refines d v Hwf Hv) as (ok & d' & ? & ? & ? & _ & ?). eauto 6.
  - intros k. destruct (remove_tag_refines d k Hwf) as (ok & d' & ? & ? & ? & _ & ?). eauto 6.
Qed.

(** The generator [data()] runs to its end on a well-formed database and yields every stored
    value exactly once, in the bytewise order of the tags. *)
Theorem data_enumerates d :
  db_wf (T:=T) d →
  ∃ vs : list T, db_data d = Ok vs ∧ (∀ v, v ∈ vs ↔ db_abs d !! data_tag v = Some v) ∧
    NoDup (map data_tag vs) ∧ StronglySorted string_lt (map data_tag vs).
Proof.
  intros Hwf. destruct (db_data_spec d Hwf) as (vs & Hvs & _ & Hin & _). exists vs.
  destruct (db_data_tags d vs Hwf Hvs). done.
Qed.

(** [last()] returns a value whose timestamp no stored one beats; it is a stored value that
    is newer than the default one, or the default one. *)
Theorem last_is_newest d v0 :
  db_wf (T:=T) d →
  ∃ w, last v0 d = Ok w ∧
    (∀ k v, db_abs d !! k = Some v → data_timestamp v ≤ data_timestamp w) ∧
    (w = v0 ∨ db_abs d !! data_tag w = Some w) ∧
    (w ≠ v0 → data_timestamp v0 < data_timestamp w).
Proof.
  intros Hwf. destruct (last_spec d v0 Hwf) as (w & Hw & Hin & Hmax & _ & Hne). by exists w.
Qed.
End Properties.
