(* ===== verification/Stores.v ===== *)
(** * The types that are stored: blocks, transactions and messages to retry

    [DBInternface] is instantiated three times: with [Block] (Blockchain), with [Transaction]
    (TransactionPool, SpentTransactionsStore, Wallet) and with [InternalMessage<PeerMessage>]
    (RetryHandler). Each instance is shown to satisfy the storage contract. *)

From stdpp Require Import base sets list gmap strings.
From Stdlib Require Import ZArith Lia.
From S2P Require Import Prelude Json Crypto LevelDB Enums Models Messages DBInterface.

Open Scope Z_scope.

Section Instances.
Context `{JsonLib} `{CryptoLib} `{HostLib}.

#[global] Instance Transaction_data : DBData Transaction := {
  data_tag := Transaction_tag;
  data_timestamp := tx_timestamp;
  data_to_json := Transaction_to_json;
  data_from_json := Transaction_from_json }.

#[global] Instance Block_data : DBData Block := {
  data_tag := Block_tag;
  data_timestamp := Block_timestamp;
  data_to_json := Block_to_json;
  data_from_json := Block_from_json }.

#[global] Instance InternalMessage_data : DBData (InternalMessage PeerMessage) := {
  data_tag := InternalMessage_tag;
  data_timestamp := im_timestamp;
  data_to_json := InternalMessage_to_json;
  data_from_json := InternalMessage_from_json }.

(** What storing makes of a message: the retry count is not written, and the type goes through
    its JSON name. *)
Definition stored_message (m : InternalMessage PeerMessage) : InternalMessage PeerMessage :=
  let c := im_content m in
  MkInternalMessage (im_type m)
    (MkPeerMessage (peer_wire_type (pm_type c)) (pm_sender_identity c)
       (pm_receiver_identity c) (pm_tag c) (pm_content c) (pm_timestamp c))
    (im_timestamp m) 0.

(** A value whose JSON form is canonical and decodes to [w] is stored as [w]. *)
Lemma store_canonical {T} `{!DBData T} (v w : T) :
  canonical (data_to_json v) → data_from_json (data_to_json v) = Ok w →
  ∃ s, dump (data_to_json v) = Ok s ∧ from_slice s = Ok w.
Proof.
  intros Hc Hd. destruct (parse_dump _ Hc) as (s & Hs & Hp). exists s.
  split; [done|]. unfold from_slice. rewrite Hp. cbn. done.
Qed.

#[global] Instance Transaction_data_laws : DBDataLaws Transaction.
Proof.
  refine {| data_ok := wf_transaction; data_norm := id |}; try done.
  intros v Hv. apply store_canonical.
  - by apply Transaction_to_json_canonical.
  - by apply Transaction_from_to_json.
Defined.

#[global] Instance Block_data_laws : DBDataLaws Block.
Proof.
  refine {| data_ok := wf_block; data_norm := id |}; try done.
  intros v Hv. apply store_canonical.
  - by apply Block_to_json_canonical.
  - by apply Block_from_to_json.
Defined.

#[global] Instance InternalMessage_data_laws : DBDataLaws (InternalMessage PeerMessage).
Proof.
  refine {| data_ok := wf_internal_message; data_norm := stored_message |}; try done.
  - intros v Hv. apply store_canonical.
    + by apply InternalMessage_to_json_canonical.
    + by apply InternalMessage_from_to_json.
  - intros [ty c ts n]. unfold stored_message. cbn. by destruct (pm_type c).
Defined.
End Instances.

(** SpentTransactionsStore(path): [None] is the constructor's [exit(1)]. *)
Definition SpentTransactionsStore_new `{LevelDB} (exists_ created : bool) (opened : option db)
    : option db :=
  initialize exists_ created opened.

Section Facts.
Context `{JsonLib} `{CryptoLib} `{LevelDB}.

(** A stored value sits under its own tag. *)
Lemma spent_lookup d k t :
  db_wf (T:=Transaction) d → db_abs d !! k = Some t → tx_hash t = k ∧ wf_transaction t.
Proof. intros Hwf Ht. by destruct (db_abs_inv d k t Hwf Ht) as (? & ? & _). Qed.

Lemma chain_lookup d k b :
  db_wf (T:=Block) d → db_abs d !! k = Some b → Block_hash b = k ∧ wf_block b.
Proof. intros Hwf Hb. by destruct (db_abs_inv d k b Hwf Hb) as (? & ? & _). Qed.
End Facts.
