(* ===== verification/Blockchain.v ===== *)
(** * The blockchain (Servers/Node/Blockchain/Blockchain.{h,cpp})

    A [DBInternface<Block>] with its genesis block and its queries. A store that holds a chain
    ([chain_of]) is one whose blocks can be listed from the genesis block on, each linked to the
    one before. *)

From stdpp Require Import base sets list gmap strings sorting.
From Stdlib Require Import ZArith Lia.
From S2P Require Import Prelude Json Crypto LevelDB Enums Models DBInterface Stores.

Open Scope Z_scope.

Section Blockchain.
Context `{JsonLib} `{CryptoLib} `{LevelDB}.

(** The text whose digest is a block's hash: [fmt::format] of the four values. *)
Definition hash_input (previous_hash merkle_root : string) (timestamp nonce : Z) : string :=
  previous_hash +:+ merkle_root +:+ fmt_uint64 timestamp +:+ fmt_uint64 nonce.

Definition create_genesis_block : Block :=
  let previous_hash := "0" in
  let merkle_root := "0" in
  let mined_by := "0" in
  let timestamp := 1668542625 in
  let nonce := 0 in
  let block_hash :=
    hex_encode (sha256 (hash_input previous_hash merkle_root timestamp nonce)) in
  MkBlock (BlockHeader_new block_hash previous_hash merkle_root mined_by timestamp nonce) [].

(** Blockchain(path): [None] is [exit(1)]; an empty database gets the genesis block. *)
Definition Blockchain_new (exists_ created : bool) (opened : option db)
    : option (result unit * db) :=
  match initialize exists_ created opened with
  | None => None
  | Some d =>
      Some
        ((size ← gets db_size;
          if decide (size = 0) then _ ← put create_genesis_block; mret tt else mret tt) d)
  end.

(** The loop of remove_all_after over the snapshot [data()] reads. *)
Fixpoint remove_loop (remove_after : Block) (slices : list string)
    (removed_blocks : list Block) : M db (list Block) :=
  match slices with
  | [] => mret removed_blocks
  | slice :: slices =>
      block ← lift_result (from_slice slice);
      if Block_timestamp remove_after <=? Block_timestamp block then
        _ ← remove block;
        remove_loop remove_after slices (removed_blocks ++ [block])
      else remove_loop remove_after slices removed_blocks
  end.

Definition remove_all_after (header : BlockHeader) : M db (list Block) :=
  block_opt ← reads (get (bh_hash header));
  match block_opt with
  | None => mret []
  | Some remove_after =>
      slices ← gets (λ d, (db_iter d).*2);
      remove_loop remove_after slices []
  end.

Definition get_hashes (d : db) : result (list string) :=
  blocks ← db_data d;
  Ok (map Block_hash blocks).

Definition get_headers (d : db) : result (list BlockHeader) :=
  blocks ← db_data d;
  Ok (map bl_header blocks).

Definition get_all_after (header : BlockHeader) (d : db) : result (list BlockHeader) :=
  blocks ← db_data d;
  Ok (map bl_header
        (List.filter (λ block, negb (String.eqb (Block_hash block) "") &&
                               (bh_timestamp header <? bh_timestamp (bl_header block)))
           blocks)).

(** ** Chains *)

(** [b'] may follow [b]: what Validator::validate_header asks. *)
Definition follows (b b' : Block) : Prop :=
  Block_timestamp b < Block_timestamp b' ∧
  starts_with (Block_hash b') "0000" = true ∧
  Block_previous_hash b' = Block_hash b.

(** A non-empty list of blocks, oldest first, each following the one before. *)
Fixpoint linked (b : Block) (bs : list Block) : Prop :=
  match bs with
  | [] => True
  | b' :: bs => follows b b' ∧ linked b' bs
  end.

(** The map holds exactly the chain [g :: bs]. *)
Definition chain_of (g : Block) (bs : list Block) (m : gmap string Block) : Prop :=
  0 < Block_timestamp g ∧ linked g bs ∧
  ∀ k b, m !! k = Some b ↔ k = Block_hash b ∧ b ∈ g :: bs.

(** The newest block of the chain. *)
Fixpoint tip (g : Block) (bs : list Block) : Block :=
  match bs with
  | [] => g
  | b :: bs => tip b bs
  end.
End Blockchain.

Section ChainLemmas.
Context `{JsonLib} `{CryptoLib} `{LevelDB}.
Implicit Types (b g : Block) (bs : list Block) (m : gmap string Block).

Lemma tip_app g bs b : tip g (bs ++ [b]) = b.
Proof. revert g. induction bs as [|c bs IH]; intros g; cbn; [done|apply IH]. Qed.

Lemma tip_in g bs : tip g bs ∈ g :: bs.
Proof.
  destruct bs as [|b bs] using rev_ind; [by left|]. rewrite tip_app. set_solver.
Qed.

Lemma tip_split g bs : ∃ pre, g :: bs = pre ++ [tip g bs].
Proof.
  revert g. induction bs as [|b bs IH]; intros g; [by exists []|].
  destruct (IH b) as [pre Hpre]. exists (g :: pre). cbn [tip]. by rewrite Hpre.
Qed.

Lemma linked_app g bs bs' : linked g (bs ++ bs') ↔ linked g bs ∧ linked (tip g bs) bs'.
Proof.
  revert g. induction bs as [|b bs IH]; intros g; cbn; [tauto|]. rewrite IH. tauto.
Qed.

(** Timestamps grow along a chain. *)
Lemma linked_after g bs b : linked g bs → b ∈ bs → Block_timestamp g < Block_timestamp b.
Proof.
  revert g. induction bs as [|c bs IH]; intros g; [set_solver|]. cbn.
  intros [(Hts & _) Hl] [->|Hb]%elem_of_cons; [done|].
  specialize (IH c Hl Hb). lia.
Qed.

Lemma linked_before g bs b bs' b' :
  linked g (bs ++ b :: bs') → b' ∈ g :: bs → Block_timestamp b' < Block_timestamp b.
Proof.
  revert g b'. induction bs as [|c bs IH]; intros g b'; cbn.
  - intros [(Hts & _) _] ->%list_elem_of_singleton. done.
  - intros [(Hts & _) Hl] [->|Hb]%elem_of_cons; [|by eapply IH].
    specialize (IH c c Hl (list_elem_of_here c bs)). lia.
Qed.

Lemma linked_tip_max g bs b :
  linked g bs → b ∈ g :: bs → b ≠ tip g bs → Block_timestamp b < Block_timestamp (tip g bs).
Proof.
  destruct bs as [|c bs _] using rev_ind; [set_solver|].
  rewrite tip_app. intros Hl Hb Hne. eapply linked_before; [apply Hl|].
  set_solver.
Qed.

(** Every proof-of-work prefix and previous hash of a chain is as the validator wants it. *)
Lemma linked_pow g bs b : linked g bs → b ∈ bs → starts_with (Block_hash b) "0000" = true.
Proof.
  revert g. induction bs as [|c bs IH]; intros g; [set_solver|]. cbn.
  intros [(_ & Hp & _) Hl] [->|Hb]%elem_of_cons; [done|by eapply IH].
Qed.

Lemma chain_of_genesis g bs m : chain_of g bs m → m !! Block_hash g = Some g.
Proof. intros (_ & _ & Hm). apply Hm. split; [done|left]. Qed.

(** The tip of the chain is what [last()] returns. *)
Lemma chain_last g bs d :
  db_wf (T:=Block) d → chain_of g bs (db_abs d) →
  last Block_default d = Ok (tip g bs).
Proof.
  intros Hwf (Hg & Hl & Hm).
  assert (0 < Block_timestamp (tip g bs)) as Hpos.
  { pose proof (tip_in g bs) as [->|Ht]%elem_of_cons; [done|].
    pose proof (linked_after _ _ _ Hl Ht). lia. }
  apply (last_unique d Block_default (Block_hash (tip g bs))); [done| |done|].
  - apply Hm. split; [done|apply tip_in].
  - intros k b Hb Hne. apply Hm in Hb as [-> Hb].
    apply linked_tip_max; [done..|]. congruence.
Qed.

(** Storing a block that follows the tip and whose hash is new extends the chain. *)
Lemma chain_extend g bs m b :
  chain_of g bs m → follows (tip g bs) b → m !! Block_hash b = None →
  chain_of g (bs ++ [b]) (<[Block_hash b := b]> m).
Proof.
  intros (Hg & Hl & Hm) Hf Hnew. split_and!; [done| |].
  - apply linked_app. split; [done|]. by split.
  - intros k c. rewrite lookup_insert_Some, Hm, app_comm_cons, elem_of_app,
      list_elem_of_singleton. split.
    + intros [[<- <-]|(_ & -> & Hc)]; auto.
    + intros [-> [Hc| ->]]; [right|by left].
      split; [|done]. intros Heq. rewrite Heq in Hnew.
      assert (m !! Block_hash c = Some c) by (apply Hm; done). congruence.
Qed.

(** ** Opening *)

Lemma genesis_wf : wf_block create_genesis_block.
Proof.
  split; [|constructor]. unfold wf_header. cbn. split_and!;
    try (apply text_ascii; first [apply hex_encode_ascii|done]); done.
Qed.

Lemma chain_of_genesis_only :
  chain_of create_genesis_block [] {[Block_hash create_genesis_block := create_genesis_block]}.
Proof.
  split_and!; [done..|]. intros k b. rewrite lookup_singleton_Some, list_elem_of_singleton.
  naive_solver.
Qed.

Lemma Blockchain_new_empty d :
  ReliableWrites → db_view d = ∅ →
  ∃ d', Blockchain_new true true (Some d) = Some (Ok tt, d') ∧ db_wf (T:=Block) d' ∧
        chain_of create_genesis_block [] (db_abs d').
Proof.
  intros HR Hd. unfold Blockchain_new, initialize. cbn.
  unfold mbind, M_bind, gets. rewrite db_size_spec, Hd. cbn.
  assert (db_wf (T:=Block) d) as Hwf by by (unfold db_wf; rewrite Hd).
  destruct (put_refines d create_genesis_block Hwf genesis_wf)
    as (ok & d' & Hput & Hwf' & Habs & _ & Hok).
  rewrite decide_True by done. rewrite Hput. exists d'. split_and!; [done..|]. rewrite Habs, Hok by done.
  unfold put_spec. assert (db_abs (T:=Block) d = ∅) as ->.
  { unfold db_abs. by rewrite Hd, omap_empty. }
  rewrite lookup_empty. cbn. apply chain_of_genesis_only.
Qed.

(** A database that has blocks is opened as it is. *)
Lemma Blockchain_new_stored d :
  0 < Z.of_nat (size (db_view d)) < u64_modulus →
  Blockchain_new true true (Some d) = Some (Ok tt, d).
Proof.
  intros Hd. unfold Blockchain_new, initialize. cbn. unfold mbind, M_bind, gets.
  rewrite db_size_spec. unfold u64_wrap. rewrite Z.mod_small by lia.
  by rewrite decide_False by lia.
Qed.

(** ** The queries *)

(** The blocks of a chain around one of them. *)
Lemma linked_around g cs bs b bs' :
  linked g cs → g :: cs = bs ++ b :: bs' →
  linked b bs' ∧ ∀ c, c ∈ bs → Block_timestamp c < Block_timestamp b.
Proof.
  intros Hl Heq. destruct bs as [|g' bs]; injection Heq as -> ->; [by split; [|set_solver]|].
  split; [by apply linked_app in Hl as [_ [_ ?]]|]. intros c. by apply (linked_before g' bs b bs').
Qed.

(** Before it are those with an earlier timestamp. *)
Lemma linked_split g cs bs b0 bs' :
  linked g cs → g :: cs = bs ++ b0 :: bs' →
  ∀ b, b ∈ bs ++ b0 :: bs' → (b ∈ bs ↔ Block_timestamp b < Block_timestamp b0).
Proof.
  intros Hl Heq b Hb. destruct (linked_around g cs bs b0 bs' Hl Heq) as [Hrest Hbefore].
  split; [by apply Hbefore|]. intros Hlt.
  apply elem_of_app in Hb as [|[->|Hb]%elem_of_cons]; [done|lia|].
  pose proof (linked_after _ _ _ Hrest Hb). lia.
Qed.

Lemma chain_nodup g bs m : chain_of g bs m → NoDup (g :: bs).
Proof.
  intros (_ & Hl & _). revert g Hl. induction bs as [|b bs IH]; intros g Hl.
  { apply NoDup_singleton. }
  pose proof Hl as [_ Hb]. apply NoDup_cons. split; [|by apply IH].
  intros Hin. pose proof (linked_after g (b :: bs) g Hl Hin). lia.
Qed.

(** Two chains with the same blocks are the same map. *)
Lemma chain_of_unique g bs m m' : chain_of g bs m → chain_of g bs m' → m = m'.
Proof.
  intros (_ & _ & Hm) (_ & _ & Hm'). apply map_eq. intros k.
  apply option_eq. intros b. by rewrite Hm, Hm'.
Qed.

(** On a chain, the headers are those of the blocks after it, each once. *)
Lemma get_all_after_perm g cs bs b bs' d :
  db_wf (T:=Block) d → chain_of g cs (db_abs d) → g :: cs = bs ++ b :: bs' →
  ∃ vs, get_all_after (bl_header b) d = Ok (map bl_header vs) ∧ vs ≡ₚ bs'.
Proof.
  intros Hwf Hc Heq. pose proof (chain_nodup _ _ _ Hc) as Hnd. pose proof Hc as (_ & Hl & Hm).
  destruct (db_data_spec (T:=Block) d Hwf) as (vs & Hvs & _ & Hin & _).
  destruct (db_data_tags d vs Hwf Hvs) as [_ Htags].
  destruct (linked_around g cs bs b bs' Hl Heq) as [Hrest Hbefore]. rewrite Heq in Hm, Hnd.
  eexists. split; [unfold get_all_after; by rewrite Hvs|].
  apply NoDup_app in Hnd as (_ & _ & [_ Hnd]%NoDup_cons).
  apply NoDup_Permutation; [|done|].
  { apply NoDup_fmap_1 in Htags. apply NoDup_ListNoDup. apply List.NoDup_filter.
    by apply NoDup_ListNoDup. }
  intros c. rewrite list_elem_of_In, filter_In, <-list_elem_of_In, Hin, Hm, andb_true_iff.
  split; [intros [[_ Hc'] [_ Hts%Z.ltb_lt]]|intros Hc'; split_and!].
  - apply elem_of_app in Hc' as [Hc'|[->|Hc']%elem_of_cons]; [|lia|done].
    pose proof (Hbefore c Hc'). unfold Block_timestamp in *. lia.
  - done.
  - set_solver.
  - pose proof (linked_pow _ _ _ Hrest Hc') as Hpow.
    by destruct (String.eqb_spec (Block_hash c) "") as [He|]; [rewrite He in Hpow|].
  - apply Z.ltb_lt. exact (linked_after _ _ _ Hrest Hc').
Qed.

Lemma get_all_after_chain g cs bs b bs' d :
  db_wf (T:=Block) d → chain_of g cs (db_abs d) → g :: cs = bs ++ b :: bs' →
  ∃ hs, get_all_after (bl_header b) d = Ok hs ∧ ∀ x, x ∈ hs ↔ x ∈ map bl_header bs'.
Proof.
  intros Hwf Hc Heq. destruct (get_all_after_perm g cs bs b bs' d Hwf Hc Heq) as (vs & Hvs & Hp).
  eexists. split; [exact Hvs|]. intros x. by rewrite Hp.
Qed.
End ChainLemmas.

Section Removal.
Context `{JsonLib} `{CryptoLib} `{LevelDB} `{!ReliableWrites}.

Lemma remove_reliable (v : Block) d :
  db_wf (T:=Block) d →
  ∃ r d', remove v d = (Ok r, d') ∧ db_wf (T:=Block) d' ∧
          db_abs (T:=Block) d' = delete (Block_hash v) (db_abs d).
Proof.
  intros Hwf. unfold remove, remove_tag, reads, writes, mbind, M_bind.
  rewrite contains_tag_abs by done. cbn.
  destruct (db_abs (T:=Block) d !! Block_tag v) as [u|] eqn:Hu; cbn.
  - destruct (db_delete_wf d (Block_tag v) Hwf) as [Hwf' Habs].
    rewrite reliable_delete in Habs.
    destruct (db_delete (Block_tag v) d) as [ok d'] eqn:Hd. by eauto.
  - do 2 eexists. split_and!; [done..|]. by rewrite delete_id.
Qed.

Lemma remove_loop_spec after slices vs acc d :
  Forall2 (λ s (v : Block), from_slice s = Ok v) slices vs → db_wf (T:=Block) d →
  ∃ d', remove_loop after slices acc d =
          (Ok (acc ++ List.filter (λ v, Block_timestamp after <=? Block_timestamp v) vs), d') ∧
        db_wf (T:=Block) d' ∧
        (∀ k, Exists (λ v, Block_hash v = k ∧ Block_timestamp after ≤ Block_timestamp v) vs →
              db_abs (T:=Block) d' !! k = None) ∧
        (∀ k, ¬ Exists (λ v, Block_hash v = k ∧ Block_timestamp after ≤ Block_timestamp v) vs →
              db_abs (T:=Block) d' !! k = db_abs d !! k) ∧
        (∀ k, db_abs (T:=Block) d !! k = None → db_abs (T:=Block) d' !! k = None).
Proof.
  intros Hvs. revert acc d. induction Hvs as [|s v slices vs Hv Hvs IH]; intros acc d Hwf; cbn.
  - exists d. rewrite app_nil_r. split_and!; [done..|by inversion 1|done|done].
  - unfold mbind, M_bind, lift_result. rewrite Hv.
    destruct (Z.leb_spec (Block_timestamp after) (Block_timestamp v)) as [Hle|Hgt].
    + destruct (remove_reliable v d Hwf) as (r & d1 & Hrm & Hwf1 & Habs1). rewrite Hrm.
      destruct (IH (acc ++ [v]) d1 Hwf1) as (d' & Hrun & Hwf' & Hin & Hout & Hnone).
      exists d'. rewrite Hrun, <-app_assoc. split_and!; [done..| | |]; intros k.
      * intros [[<- _]|Hk]%Exists_cons; [|by apply Hin].
        apply Hnone. rewrite Habs1. by apply lookup_delete_eq.
      * rewrite Exists_cons. intros Hk. rewrite Hout, Habs1 by tauto.
        apply lookup_delete_ne. naive_solver.
      * intros Hk. apply Hnone. rewrite Habs1. by apply lookup_delete_None; right.
    + destruct (IH acc d Hwf) as (d' & Hrun & Hwf' & Hin & Hout & Hnone). exists d'.
      split_and!; [done..| | |done]; intros k; rewrite Exists_cons.
      * intros [[_ ?]|Hk]; [lia|by apply Hin].
      * intros Hk. apply Hout. tauto.
Qed.

(** On a chain, what is left are the blocks before the first one the loop removes. *)
Lemma remove_loop_chain g cs bs b0 bs' d vs d' :
  db_wf (T:=Block) d → chain_of g cs (db_abs d) → g :: cs = bs ++ b0 :: bs' →
  db_data d = Ok vs →
  (∀ k, Exists (λ v, Block_hash v = k ∧ Block_timestamp b0 ≤ Block_timestamp v) vs →
        db_abs (T:=Block) d' !! k = None) →
  (∀ k, ¬ Exists (λ v, Block_hash v = k ∧ Block_timestamp b0 ≤ Block_timestamp v) vs →
        db_abs (T:=Block) d' !! k = db_abs d !! k) →
  ∀ k b, db_abs d' !! k = Some b ↔ k = Block_hash b ∧ b ∈ bs.
Proof.
  intros Hwf (Hg & Hl & Hm) Heq Hvs Hin Hout.
  pose proof (linked_split _ _ _ _ _ Hl Heq) as Hsplit. rewrite Heq in Hm.
  assert (∀ k, Exists (λ v, Block_hash v = k ∧ Block_timestamp b0 ≤ Block_timestamp v) vs ↔
    ∃ b, db_abs d !! k = Some b ∧ Block_timestamp b0 ≤ Block_timestamp b) as Hex.
  { intros k. rewrite Exists_exists. split.
    - intros (b & Hb & <- & Hle). exists b. by apply (db_data_elem d vs b Hwf) in Hb.
    - intros (b & Hb & Hle). destruct (chain_lookup d k b Hwf Hb) as [<- _].
      exists b. by rewrite (db_data_elem d vs b Hwf). }
  intros k b. split.
  - intros Hb. assert (¬ Exists (λ v, Block_hash v = k ∧
      Block_timestamp b0 ≤ Block_timestamp v) vs) as Hn.
    { intros Hk. apply Hin in Hk. congruence. }
    rewrite Hout in Hb by done. pose proof Hb as Hb'. apply Hm in Hb' as [-> Hb'].
    split; [done|]. apply Hsplit; [done|]. apply Znot_ge_lt. intros Hge. apply Hn, Hex.
    exists b. split; [done|lia].
  - intros [-> Hb]. assert (b ∈ bs ++ b0 :: bs') as Hb' by (apply elem_of_app; by left).
    rewrite Hout; [by apply Hm|]. rewrite Hex. intros (c & Hc & Hle).
    apply Hsplit in Hb; [|done].
    assert (db_abs d !! Block_hash b = Some b) as Hbb by by apply Hm.
    rewrite Hbb in Hc. injection Hc as <-. lia.
Qed.

(** What is returned: the block and those after it, each once. *)
Lemma removed_blocks g cs bs b0 bs' d vs :
  db_wf (T:=Block) d → chain_of g cs (db_abs d) → g :: cs = bs ++ b0 :: bs' →
  db_data d = Ok vs →
  List.filter (λ v, Block_timestamp b0 <=? Block_timestamp v) vs ≡ₚ b0 :: bs'.
Proof.
  intros Hwf Hc Heq Hvs. pose proof Hc as (_ & Hl & Hm).
  pose proof (chain_nodup _ _ _ Hc) as Hnd. pose proof (linked_split _ _ _ _ _ Hl Heq) as Hsplit.
  rewrite Heq in Hm, Hnd. pose proof Hnd as (_ & Hdis & Hnd')%NoDup_app.
  destruct (db_data_tags d vs Hwf Hvs) as [_ Htags%NoDup_fmap_1].
  apply NoDup_Permutation; [|done|].
  { apply NoDup_ListNoDup, List.NoDup_filter. by apply NoDup_ListNoDup. }
  intros c. rewrite list_elem_of_In, filter_In, <-list_elem_of_In, Z.leb_le.
  rewrite (db_data_elem d vs c Hwf Hvs), Hm. split.
  - intros [[_ Hcm] Hle]. pose proof Hcm as [Hbs|?]%elem_of_app; [|done].
    apply Hsplit in Hbs; [lia|done].
  - intros Hcm. assert (c ∈ bs ++ b0 :: bs') as Hin by (apply elem_of_app; by right).
    split; [done|]. apply Znot_gt_le. intros Hgt. apply (Hdis c); [|done].
    apply Hsplit; [done|lia].
Qed.
End Removal.

(** ** Properties *)

Section Properties.
Context `{JsonLib} `{CryptoLib} `{LevelDB}.

(** Opening an empty database on a disk that works leaves a chain of the genesis block alone;
    opening a database that has blocks changes nothing. *)
Lemma Blockchain_new_opens d :
  (ReliableWrites → db_view d = ∅ →
   ∃ d', Blockchain_new true true (Some d) = Some (Ok tt, d') ∧ db_wf (T:=Block) d' ∧
         chain_of create_genesis_block [] (db_abs d')) ∧
  (0 < Z.of_nat (size (db_view d)) < u64_modulus →
   Blockchain_new true true (Some d) = Some (Ok tt, d)).
Proof. split; [by intros; apply Blockchain_new_empty|apply Blockchain_new_stored]. Qed.
End Properties.

Section Truncation.
Context `{JsonLib} `{CryptoLib} `{LevelDB} `{!ReliableWrites}.

(** C14: on a disk that works, [remove_all_after] the header of a block of the chain removes that
    block and everything after it and returns each of them once; exactly the blocks before it
    are left. They are a chain, unless it was the genesis block, which leaves nothing. A header
    whose hash is not stored removes nothing. *)
Theorem remove_all_after_truncates g cs d :
  db_wf (T:=Block) d → chain_of g cs (db_abs d) →
  (∀ bs b bs', g :: cs = bs ++ b :: bs' →
   ∃ removed d', remove_all_after (bl_header b) d = (Ok removed, d') ∧ db_wf (T:=Block) d' ∧
     removed ≡ₚ b :: bs' ∧
     (∀ k c, db_abs d' !! k = Some c ↔ k = Block_hash c ∧ c ∈ bs) ∧
     match bs with
     | [] => b = g ∧ db_abs (T:=Block) d' = ∅
     | g' :: bs => g' = g ∧ chain_of g bs (db_abs d')
     end) ∧
  ∀ header, db_abs (T:=Block) d !! bh_hash header = None →
    remove_all_after header d = (Ok [], d).
Proof.
  intros Hwf Hc. pose proof Hc as (Hg & Hl & Hm). split.
  2:{ intros header Hno. unfold remove_all_after, mbind, M_bind, reads.
      by rewrite get_abs, Hno by done. }
  intros bs b bs' Heq.
  assert (db_abs d !! Block_hash b = Some b) as Hb.
  { apply Hm. rewrite Heq. split; [done|set_solver]. }
  destruct (db_data_spec (T:=Block) d Hwf) as (vs & Hvs & _).
  pose proof Hvs as Hslices. apply traverse_ok in Hslices.
  destruct (remove_loop_spec b _ vs [] d Hslices Hwf)
    as (d' & Hrun & Hwf' & Hgone & Hkept & _).
  pose proof (remove_loop_chain g cs bs b bs' d vs d' Hwf Hc Heq Hvs Hgone Hkept) as Hleft.
  exists (List.filter (λ v, Block_timestamp b <=? Block_timestamp v) vs), d'. split_and!.
  - unfold remove_all_after, mbind, M_bind, reads. rewrite get_abs by done.
    change (bh_hash (bl_header b)) with (Block_hash b). rewrite Hb. exact Hrun.
  - done.
  - by apply (removed_blocks g cs bs b bs' d vs).
  - exact Hleft.
  - destruct bs as [|g' bs]; injection Heq as -> ->; (split; [done|]).
    + apply map_empty. intros k. apply eq_None_not_Some. intros [c Hk].
      by apply Hleft in Hk as [_ ?%elem_of_nil].
    + split_and!; [done| |done]. by apply linked_app in Hl as [? _].
Qed.
End Truncation.
