(* ===== verification/Validator.v ===== *)
(** * The validator (Servers/Node/Validator.h) *)

From stdpp Require Import base sets list gmap strings.
From Stdlib Require Import ZArith Lia.
From S2P Require Import Prelude Json Crypto LevelDB Enums Models DBInterface Stores Blockchain.

Open Scope Z_scope.

Section Validator.
Context `{JsonLib} `{CryptoLib} `{LevelDB}.

(** The three lambdas are evaluated in the order of the [if]s. *)
Definition validate_header (last_block_header : BlockHeader) (block : Block)
    : ValidationState.t :=
  let check_timestamp := bh_timestamp last_block_header <? bh_timestamp (bl_header block) in
  let check_proof_of_work := starts_with (bh_hash (bl_header block)) "0000" in
  let check_previous_hash :=
    String.eqb (bh_hash last_block_header) (bh_previous_hash (bl_header block)) in
  if negb check_timestamp then ValidationState.WrongTimestamp
  else if negb check_proof_of_work then ValidationState.IncompeleteProofOfWork
  else if negb check_previous_hash then ValidationState.WrongPreviousHash
  else ValidationState.Success.

Definition validate_transaction (transaction_store : db) (transaction : Transaction)
    : result ValidationState.t :=
  spent ← contains transaction transaction_store;
  if (spent : bool) then Ok ValidationState.TransactionAlreadySpent
  else Ok ValidationState.Success.

(** [for (auto transaction: block.transactions())], left at the first failure. *)
Fixpoint validate_transactions (transaction_store : db) (transactions : list Transaction)
    : result ValidationState.t :=
  match transactions with
  | [] => Ok ValidationState.Success
  | transaction :: transactions =>
      transaction_state ← validate_transaction transaction_store transaction;
      if decide (transaction_state = ValidationState.Success)
      then validate_transactions transaction_store transactions
      else Ok transaction_state
  end.

Definition validate_block (blockchain transactions_store : db) (block : Block)
    : result ValidationState.t :=
  last_block ← last Block_default blockchain;
  let header_state := validate_header (bl_header last_block) block in
  if decide (header_state = ValidationState.Success)
  then validate_transactions transactions_store (bl_transactions block)
  else Ok header_state.
End Validator.

Section Lemmas.
Context `{JsonLib} `{CryptoLib} `{LevelDB}.
Implicit Types (d : db) (b : Block) (t : Transaction).

Lemma validate_header_success b b' :
  validate_header (bl_header b) b' = ValidationState.Success ↔ follows b b'.
Proof.
  unfold validate_header, follows, Block_timestamp, Block_hash, Block_previous_hash.
  destruct (Z.ltb_spec (bh_timestamp (bl_header b)) (bh_timestamp (bl_header b')));
    cbn; [|split; [done|lia]].
  destruct (starts_with (bh_hash (bl_header b')) "0000"); cbn; [|naive_solver].
  destruct (String.eqb_spec (bh_hash (bl_header b)) (bh_previous_hash (bl_header b')));
    cbn; naive_solver.
Qed.

Lemma validate_header_not_spent h b :
  validate_header h b ≠ ValidationState.TransactionAlreadySpent.
Proof. unfold validate_header. by repeat case_match. Qed.

Lemma validate_transaction_spec d t :
  db_wf (T:=Transaction) d →
  validate_transaction d t =
    Ok (if decide (is_Some (db_abs (T:=Transaction) d !! tx_hash t))
        then ValidationState.TransactionAlreadySpent else ValidationState.Success).
Proof.
  intros Hwf. unfold validate_transaction, contains. rewrite contains_tag_abs by done. cbn.
  unfold Transaction_tag. repeat case_decide; by rewrite ?bool_decide_eq_true_2,
    ?bool_decide_eq_false_2 by done.
Qed.

Definition spent_in d t : Prop := is_Some (db_abs (T:=Transaction) d !! tx_hash t).

Lemma validate_transactions_spec d ts :
  db_wf (T:=Transaction) d →
  validate_transactions d ts =
    Ok (if decide (Exists (spent_in d) ts)
        then ValidationState.TransactionAlreadySpent else ValidationState.Success).
Proof.
  intros Hwf. induction ts as [|t ts IH]; cbn.
  - rewrite decide_False; [done|]. by inversion 1.
  - rewrite validate_transaction_spec by done. cbn.
    destruct (decide (is_Some (db_abs (T:=Transaction) d !! tx_hash t))) as [Hs|Hs]; cbn.
    + rewrite (decide_True (P:=Exists _ _)); [done|]. by left.
    + rewrite IH. destruct (decide (Exists (spent_in d) ts)) as [Hts|Hts],
        (decide (Exists (spent_in d) (t :: ts))) as [Hc|Hc]; try done; exfalso.
      * by apply Hc; right.
      * by apply Exists_cons in Hc as [?|?].
Qed.

(** Validation of a block against a store that holds a chain. *)
Lemma validate_block_chain g bs chain spent b :
  db_wf (T:=Block) chain → chain_of g bs (db_abs chain) → db_wf (T:=Transaction) spent →
  validate_block chain spent b =
    Ok (let s := validate_header (bl_header (tip g bs)) b in
        if decide (s = ValidationState.Success)
        then if decide (Exists (spent_in spent) (bl_transactions b))
             then ValidationState.TransactionAlreadySpent else ValidationState.Success
        else s).
Proof.
  intros Hc Hchain Hs. unfold validate_block. rewrite (chain_last g bs) by done. cbn.
  case_decide; [by apply validate_transactions_spec|done].
Qed.

(** Whatever the chain is, a block with a spent transaction is not accepted. *)
Lemma spent_never_validates chain spent b :
  db_wf (T:=Transaction) spent → Exists (spent_in spent) (bl_transactions b) →
  validate_block chain spent b ≠ Ok ValidationState.Success.
Proof.
  intros Hs He. unfold validate_block. destruct (last Block_default chain) as [l|e]; cbn; [|done].
  case_decide; [|by intros [= ?]]. rewrite validate_transactions_spec by done.
  by rewrite decide_True by done.
Qed.
End Lemmas.

(** The verdict on [b] when [newest] is the last block of the chain. *)
Definition verdict `{JsonLib} `{CryptoLib} `{LevelDB} (newest : Block) (spent : db) (b : Block)
    : ValidationState.t :=
  let s := validate_header (bl_header newest) b in
  if decide (s = ValidationState.Success)
  then if decide (Exists (spent_in spent) (bl_transactions b))
       then ValidationState.TransactionAlreadySpent else ValidationState.Success
  else s.

Lemma verdict_success `{JsonLib} `{CryptoLib} `{LevelDB} newest spent b :
  verdict newest spent b = ValidationState.Success ↔
  follows newest b ∧ Forall (λ t, ¬ spent_in spent t) (bl_transactions b).
Proof.
  unfold verdict. rewrite <-validate_header_success, Forall_Exists_neg.
  repeat case_decide; naive_solver.
Qed.

(** ** Properties *)

Section Properties.
Context `{JsonLib} `{CryptoLib} `{LevelDB}.

(** C12: against a store that holds the chain [g :: bs], validate_block throws nothing and
    succeeds exactly on the blocks that are newer than the tip, name its hash as the previous
    one, have a hash with four leading zeros, and hold no spent transaction. *)
Theorem validate_block_accepts g bs chain spent b :
  db_wf (T:=Block) chain → chain_of g bs (db_abs chain) → db_wf (T:=Transaction) spent →
  ∃ v, validate_block chain spent b = Ok v ∧
    (v = ValidationState.Success ↔
     (Block_timestamp (tip g bs) < Block_timestamp b ∧
      Block_previous_hash b = Block_hash (tip g bs) ∧
      starts_with (Block_hash b) "0000" = true) ∧
     ∀ t, t ∈ bl_transactions b → db_abs (T:=Transaction) spent !! tx_hash t = None).
Proof.
  intros Hc Hchain Hs. eexists. split; [by apply (validate_block_chain g bs)|].
  etrans; [exact (verdict_success (tip g bs) spent b)|].
  rewrite Forall_forall. unfold follows, spent_in.
  split; intros [Hf Ht]; (split; [tauto|]); intros t Hin; specialize (Ht t Hin).
  - by apply eq_None_not_Some.
  - by rewrite Ht; intros [? ?].
Qed.

(** C13: when several checks fail, the first of timestamp, proof of work, previous hash and spent
    transactions decides the verdict, as the order of the [if]s has it. *)
Theorem validate_block_precedence g bs chain spent b :
  db_wf (T:=Block) chain → chain_of g bs (db_abs chain) → db_wf (T:=Transaction) spent →
  validate_block chain spent b =
    Ok (if decide (Block_timestamp b ≤ Block_timestamp (tip g bs))
        then ValidationState.WrongTimestamp
        else if decide (starts_with (Block_hash b) "0000" = false)
        then ValidationState.IncompeleteProofOfWork
        else if decide (Block_previous_hash b ≠ Block_hash (tip g bs))
        then ValidationState.WrongPreviousHash
        else if decide (Exists (spent_in spent) (bl_transactions b))
        then ValidationState.TransactionAlreadySpent
        else ValidationState.Success).
Proof.
  intros Hc Hchain Hs. rewrite (validate_block_chain g bs) by done. f_equal. cbn zeta.
  unfold validate_header. unfold Block_timestamp, Block_hash, Block_previous_hash.
  destruct (Z.ltb_spec (bh_timestamp (bl_header (tip g bs))) (bh_timestamp (bl_header b)));
    cbn; [rewrite (decide_False (P:=_ ≤ _)) by lia|by rewrite (decide_True (P:=_ ≤ _)) by lia].
  destruct (starts_with (bh_hash (bl_header b)) "0000"); cbn; [|done].
  destruct (String.eqb_spec (bh_hash (bl_header (tip g bs))) (bh_previous_hash (bl_header b)))
    as [Heq|Hne]; cbn.
  - by rewrite (decide_False (P:=_ ≠ _)) by auto.
  - by rewrite (decide_True (P:=_ ≠ _)) by auto.
Qed.
End Properties.
