(* ===== verification/TransactionPool.v ===== *)
(** * The transaction pool (Servers/Node/TransactionPool/TransactionPool.{h,cpp})

    A database of transactions and a queue that feeds the miner. *)

From stdpp Require Import base sets list gmap strings.
From Stdlib Require Import ZArith Lia.
From S2P Require Import Prelude Json Crypto LevelDB Fifo Enums Models DBInterface Stores.

Open Scope Z_scope.

(** enum class PoolEndReason *)
Inductive PoolEndReason := SignalingClosed.

(** [std::variant<Transaction, PoolEndReason>] *)
Inductive PoolItem :=
  | ItemTransaction (transaction : Transaction)
  | ItemEnd (reason : PoolEndReason).

Section TransactionPool.
Context `{JsonLib} `{CryptoLib} `{LevelDB} `{FifoLib}.

Record TransactionPool := MkTransactionPool {
  pool_db : db;
  pool_queue : fifo PoolItem }.

Definition pool_dbL : Lens TransactionPool db :=
  MkLens pool_db (λ d p, MkTransactionPool d (pool_queue p)).

Definition pool_queueL : Lens TransactionPool (fifo PoolItem) :=
  MkLens pool_queue (λ q p, MkTransactionPool (pool_db p) q).

(** TransactionPool(path): [None] is [exit(1)]. *)
Definition TransactionPool_new (exists_ created : bool) (opened : option db)
    : option TransactionPool :=
  d ← initialize exists_ created opened;
  Some (MkTransactionPool d fifo_empty).

(** The result of [try_enqueue] is not looked at. *)
Definition add (transaction : Transaction) : M TransactionPool bool :=
  pooled ← zoom pool_dbL (put transaction);
  if (pooled : bool) then
    enqueued ← zoom pool_queueL (writes (fifo_try_enqueue (ItemTransaction transaction)));
    mret true
  else mret false.

Definition pool_end (end_reason : PoolEndReason) : M TransactionPool unit :=
  zoom pool_queueL (modify (fifo_enqueue (ItemEnd end_reason))).

Definition enqueue_stored : M TransactionPool unit :=
  d ← gets pool_db;
  for_data d (λ transaction,
    zoom pool_queueL (modify (fifo_enqueue (ItemTransaction transaction)))).

(** What the task [wait] posts is at when it stops: it waits in [wait_dequeue] with the
    transactions collected so far, it returned without setting the promise, or it set it. *)
Inductive WaitResult :=
  | Waiting (transactions : list Transaction)
  | Ended
  | Collected (transactions : list Transaction).

(** The loop of wait(executor, n) until it has to block: [index] is the number of collected
    transactions. Each round takes an item from the queue, so [fuel] bounds the rounds. *)
Fixpoint wait_loop (fuel : nat) (n : nat) (transactions : list Transaction)
    : M TransactionPool WaitResult :=
  if decide (length transactions = n) then mret (Collected transactions) else
  match fuel with
  | O => mret (Waiting transactions)
  | S fuel =>
      queue ← gets pool_queue;
      match fifo_dequeue queue with
      | None => mret (Waiting transactions)
      | Some (item, queue') =>
          _ ← zoom pool_queueL (modify (λ _, queue'));
          match item with
          | ItemEnd _ => mret Ended
          | ItemTransaction transaction =>
              stored ← zoom pool_dbL (reads (get (T:=Transaction) (tx_hash transaction)));
              if decide (is_Some stored)
              then wait_loop fuel n (transactions ++ [transaction])
              else wait_loop fuel n transactions
          end
      end
  end.

(** The task with the fuel that is enough for it. *)
Definition wait (n : nat) (transactions : list Transaction) : M TransactionPool WaitResult :=
  fuel ← gets (λ p, S (length (fifo_view (pool_queue p))));
  wait_loop fuel n transactions.

(** ** What wait means on the items of the queue *)

(** Takes items until [n] transactions that are still pooled are collected. *)
Fixpoint wait_spec (pooled : gmap string Transaction) (n : nat)
    (transactions : list Transaction) (items : list PoolItem) : WaitResult * list PoolItem :=
  if decide (length transactions = n) then (Collected transactions, items) else
  match items with
  | [] => (Waiting transactions, [])
  | ItemEnd _ :: items => (Ended, items)
  | ItemTransaction t :: items =>
      if decide (is_Some (pooled !! tx_hash t))
      then wait_spec pooled n (transactions ++ [t]) items
      else wait_spec pooled n transactions items
  end.
End TransactionPool.

Section Lemmas.
Context `{JsonLib} `{CryptoLib} `{LevelDB} `{FifoLib}.

#[global] Instance pool_dbL_laws : LensLaws pool_dbL.
Proof. by split; intros; destruct s. Qed.

#[global] Instance pool_queueL_laws : LensLaws pool_queueL.
Proof. by split; intros; destruct s. Qed.

Lemma wait_loop_spec fuel n acc p :
  db_wf (T:=Transaction) (pool_db p) → (length (fifo_view (pool_queue p)) < fuel)%nat →
  ∃ q, wait_loop fuel n acc p =
         (Ok (wait_spec (db_abs (pool_db p)) n acc (fifo_view (pool_queue p))).1,
          MkTransactionPool (pool_db p) q) ∧
       fifo_view q = (wait_spec (db_abs (pool_db p)) n acc (fifo_view (pool_queue p))).2.
Proof.
  destruct p as [d q0]. cbn. intros Hwf. revert acc q0.
  induction fuel as [|fuel IH]; intros acc q0 Hlt; [lia|]. cbn.
  pose proof (fifo_dequeue_view q0) as Hq.
  destruct (decide (length acc = n)) as [Hn|Hn].
  { exists q0. destruct (fifo_view q0) as [|[t|r] items]; cbn; by rewrite decide_True. }
  unfold mbind, M_bind, gets, zoom, modify. cbn.
  destruct (fifo_dequeue q0) as [[item q']|]; rewrite Hq; cbn.
  2:{ exists q0. by rewrite decide_False. }
  rewrite Hq in Hlt. cbn in Hlt. rewrite decide_False by done.
  destruct item as [t|r]; cbn.
  - unfold reads. cbn. rewrite get_abs by done. case_decide; apply IH; lia.
  - by exists q'.
Qed.

Lemma wpx_wait n acc p (Q : WaitResult → TransactionPool → Prop) E :
  db_wf (T:=Transaction) (pool_db p) →
  (∀ q, fifo_view q = (wait_spec (db_abs (pool_db p)) n acc (fifo_view (pool_queue p))).2 →
     Q (wait_spec (db_abs (pool_db p)) n acc (fifo_view (pool_queue p))).1
       (MkTransactionPool (pool_db p) q)) →
  wpx (wait n acc) Q E p.
Proof.
  intros Hwf HQ. unfold wait. do 2 wp_step.
  destruct (wait_loop_spec (S (length (fifo_view (pool_queue p)))) n acc p Hwf)
    as (q & Hrun & Hq); [lia|]. unfold wpx. rewrite Hrun. by apply HQ.
Qed.

(** What is left was there, and what is collected was collected before or in the queue. *)
Lemma wait_spec_sound pooled k acc items :
  (∀ x, x ∈ (wait_spec pooled k acc items).2 → x ∈ items) ∧
  ∀ ts, (wait_spec pooled k acc items).1 = Waiting ts ∨
        (wait_spec pooled k acc items).1 = Collected ts →
        ∀ t, t ∈ ts → t ∈ acc ∨ ItemTransaction t ∈ items.
Proof.
  revert acc. induction items as [|[t|r] items IH]; intros acc; cbn;
    destruct (decide (length acc = k)); cbn.
  1-3, 5: split; [set_solver|intros ts [?|?] t' Ht'; simplify_eq; by left].
  - destruct (decide (is_Some (pooled !! tx_hash t))).
    + destruct (IH (acc ++ [t])) as [Hx Hts]. split; [set_solver|].
      intros ts Hor u Hu. destruct (Hts ts Hor u Hu); set_solver.
    + destruct (IH acc) as [Hx Hts]. split; [set_solver|].
      intros ts Hor u Hu. destruct (Hts ts Hor u Hu); set_solver.
  - split; [set_solver|]. by intros ts [|].
Qed.

(** The queue after [add] put the transaction, [res] being the result of the call. *)
Definition queued_after (res : bool) t (q q' : fifo PoolItem) : Prop :=
  if res then q' = (fifo_try_enqueue (ItemTransaction t) q).2 else q' = q.

(** It has no items but those it had and the transaction. *)
Lemma queued_after_items res t q q' x :
  queued_after res t q q' → x ∈ fifo_view q' → x ∈ fifo_view q ∨ x = ItemTransaction t.
Proof.
  unfold queued_after. destruct res; intros ->; [|by left]. rewrite fifo_try_enqueue_view.
  case_match; [|by left]. rewrite elem_of_app, list_elem_of_singleton. tauto.
Qed.

Lemma wpx_add p t (Q : bool → TransactionPool → Prop) E :
  db_wf (T:=Transaction) (pool_db p) → wf_transaction t →
  (∀ ok p', db_wf (T:=Transaction) (pool_db p') →
     db_abs (pool_db p') = (put_spec t ok (db_abs (pool_db p))).2 →
     (ReliableWrites → ok = true) →
     queued_after (put_spec t ok (db_abs (pool_db p))).1 t (pool_queue p) (pool_queue p') →
     Q (put_spec t ok (db_abs (pool_db p))).1 p') →
  wpx (add t) Q E p.
Proof.
  intros Hwf Ht HQ. unfold add. do 2 wp_step. cbn [lget lset pool_dbL].
  apply wpx_put; [done..|]. intros ok d Hd Habs Hrel.
  specialize (HQ ok). unfold queued_after in HQ.
  destruct (put_spec t ok (db_abs (pool_db p))).1.
  - do 2 wp_step. cbn [lget lset pool_queueL pool_queue pool_db].
    apply wpx_writes. wp_step. by apply HQ.
  - wp_step. by apply HQ.
Qed.

(** enqueue_stored appends every stored transaction once, whatever is queued already. *)
Lemma wpx_enqueue_stored p (Q : unit → TransactionPool → Prop) E :
  db_wf (T:=Transaction) (pool_db p) →
  (∀ q vs, db_data (pool_db p) = Ok vs →
     fifo_view q = fifo_view (pool_queue p) ++ map ItemTransaction vs →
     Q tt (MkTransactionPool (pool_db p) q)) →
  wpx enqueue_stored Q E p.
Proof.
  intros Hwf HQ. unfold enqueue_stored, for_data. do 2 wp_step.
  destruct (db_data_spec (T:=Transaction) (pool_db p) Hwf) as (vs & Hvs & _).
  assert (∀ q, fifo_view q = fifo_view (pool_queue p) ++ map ItemTransaction vs →
    Q tt (MkTransactionPool (pool_db p) q)) as HQ' by (intros; by apply (HQ q vs)).
  clear HQ Hwf. unfold db_data in Hvs. apply traverse_ok in Hvs. revert HQ'.
  destruct p as [d q0]. cbn in *. revert q0.
  induction Hvs as [|s v slices vs Hv _ IH]; intros q0 HQ; cbn.
  - apply HQ. by rewrite app_nil_r.
  - do 2 wp_step. eapply wpx_lift_ok; [exact Hv|]. do 2 wp_step. cbn. apply IH.
    intros q Hq. apply HQ. rewrite Hq, fifo_enqueue_view, <-app_assoc. done.
Qed.
End Lemmas.

(** ** Properties *)

Section Properties.
Context `{JsonLib} `{CryptoLib} `{LevelDB} `{FifoLib}.

(** C20: the task [wait] posts does on the queue what [wait_spec] says of its items, always stops,
    and leaves the database alone: it takes items until it has [n] transactions that are still
    in the pool, the queue is empty, or an end item comes; transactions that left the pool since
    they were queued are dropped. *)
Theorem wait_implements_spec n transactions p :
  db_wf (T:=Transaction) (pool_db p) →
  ∃ q, wait n transactions p =
         (Ok (wait_spec (db_abs (pool_db p)) n transactions (fifo_view (pool_queue p))).1,
          MkTransactionPool (pool_db p) q) ∧
       fifo_view q =
         (wait_spec (db_abs (pool_db p)) n transactions (fifo_view (pool_queue p))).2.
Proof. intros Hwf. apply wait_loop_spec; [done|cbn; lia]. Qed.

(** C21: [add] stores a transaction that is not in the pool and tries to enqueue it: it is at the
    end of the queue when the queue had room, and otherwise the queue is as it was; the result
    is [true] in both cases. A transaction that is in the pool, or that LevelDB refuses, changes
    nothing and gives [false]. *)
Theorem add_stores_and_queues t p :
  db_wf (T:=Transaction) (pool_db p) → wf_transaction t →
  ∃ r p', add t p = (Ok r, p') ∧ db_wf (T:=Transaction) (pool_db p') ∧
    (r = true ↔ db_abs (T:=Transaction) (pool_db p) !! tx_hash t = None ∧
                db_abs (pool_db p') !! tx_hash t = Some t) ∧
    (r = true → db_abs (pool_db p') = <[tx_hash t := t]> (db_abs (pool_db p)) ∧
       pool_queue p' = (fifo_try_enqueue (ItemTransaction t) (pool_queue p)).2 ∧
       fifo_view (pool_queue p') =
         if (fifo_try_enqueue (ItemTransaction t) (pool_queue p)).1
         then fifo_view (pool_queue p) ++ [ItemTransaction t] else fifo_view (pool_queue p)) ∧
    (r = false → db_abs (T:=Transaction) (pool_db p') = db_abs (pool_db p) ∧
                 pool_queue p' = pool_queue p) ∧
    (ReliableWrites → db_abs (T:=Transaction) (pool_db p) !! tx_hash t = None → r = true).
Proof.
  intros Hwf Ht.
  assert (wp (add t) (λ r p', ∃ ok, r = (put_spec t ok (db_abs (pool_db p))).1 ∧
    db_wf (T:=Transaction) (pool_db p') ∧
    db_abs (pool_db p') = (put_spec t ok (db_abs (pool_db p))).2 ∧
    (ReliableWrites → ok = true) ∧
    queued_after r t (pool_queue p) (pool_queue p')) p) as Hadd.
  { apply wpx_add; [done..|]. intros ok p' ? ? ? ?. by exists ok. }
  apply wp_run in Hadd as (r & p' & Hrun & ok & Hr & Hwf' & Habs & Hrel & Hq).
  exists r, p'. rewrite Hrun. unfold put_spec in *.
  change (data_tag t) with (tx_hash t) in *. change (data_norm t) with t in *.
  destruct (db_abs (pool_db p) !! tx_hash t) as [u|] eqn:Hu; [|destruct ok]; cbn in *; subst r;
    rewrite Habs; cbn in Hq.
  - split_and!; try done. split; [done|]. by intros [? _].
  - split_and!; try done; [split; [|done]; by rewrite lookup_insert_eq|]. intros _.
    split_and!; [done..|]. by rewrite Hq, fifo_try_enqueue_view.
  - split_and!; try done; [split; [done|]; intros [_ ?]; congruence|].
    intros HR. by specialize (Hrel HR).
Qed.

(** Enqueue_stored queues every stored transaction once, behind what is queued already and
    without looking at it: a transaction that waited in the queue is then there twice. *)
Theorem enqueue_stored_appends p :
  db_wf (T:=Transaction) (pool_db p) →
  ∃ p' ts, enqueue_stored p = (Ok tt, p') ∧ pool_db p' = pool_db p ∧
    fifo_view (pool_queue p') = fifo_view (pool_queue p) ++ map ItemTransaction ts ∧
    NoDup (map tx_hash ts) ∧ ∀ t, t ∈ ts ↔ db_abs (pool_db p) !! tx_hash t = Some t.
Proof.
  intros Hwf. destruct (db_data_spec (T:=Transaction) (pool_db p) Hwf)
    as (ts & Hts & _ & Hin & _).
  pose proof (db_data_tags (T:=Transaction) _ _ Hwf Hts) as [_ Hnd].
  assert (wp enqueue_stored (λ _ p', pool_db p' = pool_db p ∧
    fifo_view (pool_queue p') = fifo_view (pool_queue p) ++ map ItemTransaction ts) p) as Hrun.
  { apply wpx_enqueue_stored; [done|]. intros q vs Hvs Hq. cbn. split; [done|]. congruence. }
  apply wp_run in Hrun as ([] & p' & Hrun & Hdb & Hq). by exists p', ts.
Qed.
End Properties.
