(* ===== verification/Event.v ===== *)
(** * Events, promises and the event queue (src/Event)

    [Event] is the variant every queue carries, [PromiseStore] maps tags to promises, and
    [EventQueue] joins an eventpp queue with a promise store. The callbacks an application
    registers are data of a type [L]; the application gives their meaning to [process_one]. *)

From stdpp Require Import base sets list gmap strings.
From Stdlib Require Import ZArith Lia.
From S2P Require Import Prelude Json Crypto Fifo Enums Models Messages.

Open Scope Z_scope.

(** ** Event.h *)

(** EventType: the variant of the four enumerations. *)
Inductive EventType :=
  | SignalingEvent (type : SignalingMessageType.t)
  | PeerEvent (type : PeerMessageType.t)
  | InternalEvent (type : InternalMessageType.t)
  | NotificationEvent (type : InternalNotificationType.t).

#[global] Instance EventType_eq_dec : EqDecision EventType.
Proof. solve_decision. Defined.

Section Event.
Context `{JsonLib}.

(** EventVariant; a [Box] in it is never empty. *)
Inductive Event :=
  | EvSignaling (m : SignalingMessage)
  | EvPeer (m : PeerMessage)
  | EvInternalSignaling (m : InternalMessage SignalingMessage)
  | EvInternalPeer (m : InternalMessage PeerMessage)
  | EvString (n : InternalNotification string)
  | EvInt (n : InternalNotification Z)
  | EvTransaction (n : InternalNotification Transaction)
  | EvBlock (n : InternalNotification Block)
  | EvEmpty (n : InternalNotification unit).

#[global] Instance Event_eq_dec : EqDecision Event.
Proof. solve_decision. Defined.

(** [std::visit([](auto &&ev) -> EventType { return ev->type(); }, event)] *)
Definition event_type (e : Event) : EventType :=
  match e with
  | EvSignaling m => SignalingEvent (sm_type m)
  | EvPeer m => PeerEvent (pm_type m)
  | EvInternalSignaling m => InternalEvent (im_type m)
  | EvInternalPeer m => InternalEvent (im_type m)
  | EvString n => NotificationEvent (in_type n)
  | EvInt n => NotificationEvent (in_type n)
  | EvTransaction n => NotificationEvent (in_type n)
  | EvBlock n => NotificationEvent (in_type n)
  | EvEmpty n => NotificationEvent (in_type n)
  end.

(** [std::visit([](auto &&e) { return e->tag(); }, event)] *)
Definition event_tag (e : Event) : string :=
  match e with
  | EvSignaling m => sm_tag m
  | EvPeer m => pm_tag m
  | EvInternalSignaling m => sm_tag (im_content m)
  | EvInternalPeer m => pm_tag (im_content m)
  | EvString n => in_tag n
  | EvInt n => in_tag n
  | EvTransaction n => in_tag n
  | EvBlock n => in_tag n
  | EvEmpty n => in_tag n
  end.

(** [Event::get<T>], at the types the program asks for. *)
Definition get_signaling (e : Event) : result SignalingMessage :=
  match e with EvSignaling m => Ok m | _ => Err BadVariantAccess end.

Definition get_peer (e : Event) : result PeerMessage :=
  match e with EvPeer m => Ok m | _ => Err BadVariantAccess end.

Definition get_internal_signaling (e : Event) : result (InternalMessage SignalingMessage) :=
  match e with EvInternalSignaling m => Ok m | _ => Err BadVariantAccess end.

Definition get_internal_peer (e : Event) : result (InternalMessage PeerMessage) :=
  match e with EvInternalPeer m => Ok m | _ => Err BadVariantAccess end.

Definition get_string_notification (e : Event) : result (InternalNotification string) :=
  match e with EvString n => Ok n | _ => Err BadVariantAccess end.

Definition get_block_notification (e : Event) : result (InternalNotification Block) :=
  match e with EvBlock n => Ok n | _ => Err BadVariantAccess end.
End Event.

(** ** Promises

    A [concurrencpp::result_promise] is a number: it is satisfied once, or broken when it is
    destroyed before. *)

Record Promises (R : Type) := MkPromises {
  pr_next : nat;
  pr_results : gmap nat R;
  pr_broken : gset nat }.
Arguments MkPromises {R} _ _ _.
Arguments pr_next {R} _.
Arguments pr_results {R} _.
Arguments pr_broken {R} _.

Definition make_promise {R} : M (Promises R) nat := λ s,
  (Ok (pr_next s), MkPromises (S (pr_next s)) (pr_results s) (pr_broken s)).

(** [set_result]: a second one throws. *)
Definition satisfy {R} (p : nat) (r : R) : M (Promises R) unit := λ s,
  match pr_results s !! p with
  | Some _ => (Err LibraryError, s)
  | None => (Ok tt, MkPromises (pr_next s) (<[p := r]> (pr_results s)) (pr_broken s))
  end.

Definition break_promise {R} (p : nat) : M (Promises R) unit :=
  modify (λ s, MkPromises (pr_next s) (pr_results s) ({[p]} ∪ pr_broken s)).

(** ** PromiseStore.h *)

Record PromiseStore (R : Type) := MkPromiseStore {
  ps_promises : gmap string nat;
  ps_cells : Promises R }.
Arguments MkPromiseStore {R} _ _.
Arguments ps_promises {R} _.
Arguments ps_cells {R} _.

Definition ps_cellsL {R} : Lens (PromiseStore R) (Promises R) :=
  MkLens ps_cells (λ c s, MkPromiseStore (ps_promises s) c).

Definition ps_promisesL {R} : Lens (PromiseStore R) (gmap string nat) :=
  MkLens ps_promises (λ m s, MkPromiseStore m (ps_cells s)).

(** [m_promises.emplace(tag, std::move(promise))] does nothing when the tag is there; the new
    promise is then destroyed. *)
Definition PromiseStore_add {R} (tag : string) : M (PromiseStore R) nat :=
  promise ← zoom ps_cellsL make_promise;
  promises ← gets ps_promises;
  _ ← (if decide (is_Some (promises !! tag))
       then zoom ps_cellsL (break_promise promise)
       else zoom ps_promisesL (modify (insert tag promise)));
  mret promise.

Definition PromiseStore_contains {R} (tag : string) (s : PromiseStore R) : bool :=
  bool_decide (is_Some (ps_promises s !! tag)).

(** Returns [false] when a promise was waiting for the tag. *)
Definition PromiseStore_set_result {R} (tag : string) (r : R) : M (PromiseStore R) bool :=
  promises ← gets ps_promises;
  match promises !! tag with
  | Some promise =>
      _ ← zoom ps_cellsL (satisfy promise r);
      _ ← zoom ps_promisesL (modify (delete tag));
      mret false
  | None => mret true
  end.

(** ** EventQueue.h *)

Section EventQueue.
Context `{JsonLib} `{EventppLib} {L : Type}.

(** A registered callback: one of the application's, or the lambda of an [event_of_type]
    call, given by the number of its shared variables. *)
Inductive Listener :=
  | App (l : L)
  | Await (w : nat).

(** The variables an [event_of_type] lambda captures. *)
Record Waiter := MkWaiter {
  w_type : EventType;
  w_handle : nat;
  w_count : Z;
  w_predicate : option (Event → bool);
  w_promise : nat }.

Record EventQueue := MkEventQueue {
  eq_queue : epp EventType Event Listener;
  eq_store : PromiseStore Event;
  eq_waiters : gmap nat Waiter;
  eq_next_waiter : nat }.

Definition eq_queueL : Lens EventQueue (epp EventType Event Listener) :=
  MkLens eq_queue (λ q s, MkEventQueue q (eq_store s) (eq_waiters s) (eq_next_waiter s)).

Definition eq_storeL : Lens EventQueue (PromiseStore Event) :=
  MkLens eq_store (λ p s, MkEventQueue (eq_queue s) p (eq_waiters s) (eq_next_waiter s)).

Definition eq_waitersL : Lens EventQueue (gmap nat Waiter) :=
  MkLens eq_waiters (λ w s, MkEventQueue (eq_queue s) (eq_store s) w (eq_next_waiter s)).

Definition eq_cellsL : Lens EventQueue (Promises Event) := lens_comp eq_storeL ps_cellsL.

(** EventQueue::create *)
Definition EventQueue_new : EventQueue :=
  MkEventQueue epp_empty (MkPromiseStore ∅ (MkPromises 0 ∅ ∅)) ∅ 0.

(** enqueue(event): under the type its content has. *)
Definition enqueue (event : Event) : M EventQueue unit :=
  zoom eq_queueL (modify (epp_enqueue (event_type event) event)).

Definition create_awaitable (tag : string) : M EventQueue nat :=
  zoom eq_storeL (PromiseStore_add tag).

(** submit<T>(params...), [event] being what [T::create] makes of them. *)
Definition submit (event : Event) : M EventQueue nat :=
  awaitable ← zoom eq_storeL (PromiseStore_add (event_tag event));
  _ ← zoom eq_queueL (modify (epp_enqueue (event_type event) event));
  mret awaitable.

Definition append_listener (type : EventType) (callback : L) : M EventQueue nat :=
  zoom eq_queueL (writes (epp_append type (App callback))).

(** Returns the promise whose result the call returns. *)
Definition event_of_type (type : EventType) (count : Z) (predicate : option (Event → bool))
    : M EventQueue nat :=
  promise ← zoom eq_cellsL make_promise;
  w ← gets eq_next_waiter;
  handle ← zoom eq_queueL (writes (epp_append type (Await w)));
  _ ← modify (λ s, MkEventQueue (eq_queue s) (eq_store s)
        (<[w := MkWaiter type handle count predicate promise]> (eq_waiters s)) (S w));
  mret promise.

(** The lambda of event_of_type. *)
Definition on_awaited (w : nat) (e : Event) : M EventQueue unit :=
  waiters ← gets eq_waiters;
  match waiters !! w with
  | None => mret tt
  | Some c =>
      let counts := match w_predicate c with Some predicate => predicate e | None => true end in
      let count := if counts then w_count c - 1 else w_count c in
      _ ← zoom eq_waitersL (modify (insert w
            (MkWaiter (w_type c) (w_handle c) count (w_predicate c) (w_promise c))));
      if count <=? 0 then
        _ ← zoom eq_cellsL (satisfy (w_promise c) e);
        zoom eq_queueL (modify (epp_remove (w_type c) (w_handle c)))
      else mret tt
  end.

(** any_event_of_type: one awaited event per type, in order. *)
Fixpoint any_event_of_type (types : list EventType) : M EventQueue (list nat) :=
  match types with
  | [] => mret []
  | type :: types =>
      promise ← event_of_type type 1 None;
      promises ← any_event_of_type types;
      mret (promise :: promises)
  end.

(** [when_any]: the first of the promises that is satisfied, with its event. *)
Definition any_event_result (promises : list nat) (s : EventQueue) : option Event :=
  list_find (λ p, is_Some (pr_results (ps_cells (eq_store s)) !! p)) promises ≫=
  λ ip, pr_results (ps_cells (eq_store s)) !! ip.2.

Definition close : M EventQueue unit := zoom eq_queueL (modify epp_clear).

(** ** Processing, in a process of type [S] that owns the queue *)

Section Process.
Context {S : Type} (queueL : Lens S EventQueue) (run : L → Event → M S unit).

Definition run_listener (l : Listener) (e : Event) : M S unit :=
  match l with
  | App l => run l e
  | Await w => zoom queueL (on_awaited w e)
  end.

(** [dispatch] calls the callbacks registered when it starts, in order, except those removed
    by an earlier one. *)
Definition dispatch (type : EventType) (e : Event) : M S unit :=
  listeners ← gets (λ s, epp_listeners (eq_queue (lget queueL s)) type);
  for_each listeners (λ hl,
    current ← gets (λ s, epp_listeners (eq_queue (lget queueL s)) type);
    if decide (hl.1 ∈ current.*1) then run_listener hl.2 e else mret tt).

(** process_one: an [InternalMessage] is only dispatched; a string notification resolves the
    promise of its content, any other event that of its tag, before it is dispatched. *)
Definition process_one : M S bool :=
  queue ← gets (λ s, eq_queue (lget queueL s));
  match epp_take queue with
  | None => mret false
  | Some (type, event, queue') =>
      _ ← zoom queueL (zoom eq_queueL (modify (λ _, queue')));
      _ ← match event with
          | EvInternalSignaling _ | EvInternalPeer _ => dispatch type event
          | EvString notif =>
              _ ← zoom queueL (zoom eq_storeL (PromiseStore_set_result (in_content notif) event));
              dispatch type event
          | _ =>
              _ ← zoom queueL (zoom eq_storeL (PromiseStore_set_result (event_tag event) event));
              dispatch type event
          end;
      mret true
  end.
End Process.
End EventQueue.

(** ** EventLoop.h *)

Section EventLoop.
Context `{JsonLib} `{EventppLib} {L S : Type}.
Context (queueL : Lens S (EventQueue (L:=L))) (endL : Lens S bool).
Context (run : L → Event → M S unit).

Definition EventLoop_end : M S unit := zoom endL (modify (λ _, true)).

(** The worker's [while (!m_end->load())] for [n] rounds: it stops when the end flag is set,
    and it waits when no event is pending. *)
Fixpoint EventLoop_run (n : nat) : M S unit :=
  match n with
  | O => mret tt
  | Datatypes.S n =>
      ended ← gets (lget endL);
      if (ended : bool) then mret tt
      else
        processed ← process_one queueL run;
        if (processed : bool) then EventLoop_run n else mret tt
  end.
End EventLoop.

(** ** Lemmas: what processing keeps *)

Section ProcessLemmas.
Context `{JsonLib} `{EventppLib} {L : Type}.
Context (ok : Event → Prop).

(** Every pending event is ok. *)
Definition queue_ok (q : EventQueue (L:=L)) : Prop := Forall ok (epp_pending (eq_queue q)).*2.

Lemma queue_ok_enqueue e : ok e → preserves queue_ok (enqueue (L:=L) e).
Proof.
  intros He q Hq. unfold enqueue. do 2 wp_step. unfold queue_ok. cbn.
  rewrite epp_enqueue_pending, fmap_app. apply Forall_app. split; [done|by constructor].
Qed.

Lemma queue_ok_store {A} (m : M (PromiseStore Event) A) :
  preserves queue_ok (zoom (eq_storeL (L:=L)) m).
Proof. by apply preserves_zoom_other. Qed.

Lemma queue_ok_cells {A} (m : M (Promises Event) A) :
  preserves queue_ok (zoom (eq_cellsL (L:=L)) m).
Proof. by apply preserves_zoom_other. Qed.

Lemma queue_ok_append type callback : preserves queue_ok (append_listener (L:=L) type callback).
Proof.
  intros q Hq. unfold append_listener. wp_step. apply wpx_writes. unfold queue_ok. cbn.
  by rewrite epp_append_pending.
Qed.

Lemma queue_ok_submit e : ok e → preserves queue_ok (submit (L:=L) e).
Proof.
  intros He. unfold submit. apply preserves_bind; [apply queue_ok_store|]. intros a.
  apply preserves_bind; [by apply queue_ok_enqueue|]. intros _. apply preserves_ret.
Qed.

Lemma queue_ok_event_of_type type count predicate :
  preserves queue_ok (event_of_type (L:=L) type count predicate).
Proof.
  unfold event_of_type. apply preserves_bind; [apply queue_ok_cells|]. intros promise.
  apply preserves_bind; [apply preserves_gets|]. intros w. apply preserves_bind.
  - intros q Hq. wp_step. apply wpx_writes. unfold queue_ok. cbn.
    by rewrite epp_append_pending.
  - intros h. apply preserves_bind; [by apply preserves_modify|]. intros _. apply preserves_ret.
Qed.

Lemma queue_ok_any_event types : preserves queue_ok (any_event_of_type (L:=L) types).
Proof.
  induction types as [|type types IH]; cbn [any_event_of_type]; [apply preserves_ret|].
  apply preserves_bind; [apply queue_ok_event_of_type|]. intros promise.
  apply preserves_bind; [exact IH|]. intros promises. apply preserves_ret.
Qed.

Lemma queue_ok_remove type handle :
  preserves queue_ok (zoom (eq_queueL (L:=L)) (modify (epp_remove type handle))).
Proof.
  intros q Hq. do 2 wp_step. unfold queue_ok. cbn. by rewrite epp_remove_pending.
Qed.

Lemma queue_ok_awaited w e : preserves queue_ok (on_awaited (L:=L) w e).
Proof.
  unfold on_awaited. apply preserves_bind; [apply preserves_gets|]. intros ws.
  case_match; [|apply preserves_ret]. apply preserves_bind; [by apply preserves_zoom_other|].
  intros _. case_match; [|apply preserves_ret].
  apply preserves_bind; [apply queue_ok_cells|]. intros _. apply queue_ok_remove.
Qed.

Context {S : Type} (queueL : Lens S (EventQueue (L:=L))) (run : L → Event → M S unit).
Context (I : S → Prop).
Context (I_ok : ∀ s, I s → queue_ok (lget queueL s)).
Context (I_queue : ∀ s q, I s → queue_ok q → I (lset queueL q s)).
Context (I_run : ∀ l e, ok e → preserves I (run l e)).

Lemma preserves_on_queue {A} (m : M (EventQueue (L:=L)) A) :
  preserves queue_ok m → preserves I (zoom queueL m).
Proof. intros Hm. by apply (preserves_zoom I queue_ok). Qed.

Lemma preserves_run_listener l e : ok e → preserves I (run_listener queueL run l e).
Proof.
  intros He. destruct l as [l|w]; [by apply I_run|]. apply preserves_on_queue, queue_ok_awaited.
Qed.

Lemma preserves_dispatch type e : ok e → preserves I (dispatch queueL run type e).
Proof.
  intros He. unfold dispatch. apply preserves_bind; [apply preserves_gets|]. intros ls.
  apply preserves_for_each. intros hl. apply preserves_bind; [apply preserves_gets|].
  intros current. case_decide; [by apply preserves_run_listener|apply preserves_ret].
Qed.

(** An invariant that says the pending events are ok, survives any change of the queue that
    leaves them ok, and is kept by every callback, is kept by the event loop. *)
Lemma preserves_process_one : preserves I (process_one queueL run).
Proof.
  intros s HI. unfold process_one. do 2 wp_step.
  pose proof (epp_take_pending (eq_queue (lget queueL s))) as Htake.
  pose proof (I_ok s HI) as Hok. unfold queue_ok in Hok.
  destruct (epp_take _) as [[[type e] q']|]; [|by wp_step].
  rewrite Htake in Hok. apply Forall_cons in Hok as [He Hok].
  apply (preserves_bind I); [|intros _; apply preserves_bind|exact HI].
  - intros s0 HI0. do 3 wp_step. by apply I_queue.
  - destruct e; first [by apply preserves_dispatch
      | apply preserves_bind; [apply preserves_on_queue, queue_ok_store|];
        intros _; by apply preserves_dispatch].
  - intros _. apply preserves_ret.
Qed.

Lemma preserves_EventLoop_run endL n : preserves I (EventLoop_run queueL endL run n).
Proof.
  induction n as [|n IH]; [apply preserves_ret|]. cbn. apply preserves_bind;
    [apply preserves_gets|]. intros ended. case_match; [apply preserves_ret|].
  apply preserves_bind; [apply preserves_process_one|]. intros processed.
  case_match; [done|apply preserves_ret].
Qed.
End ProcessLemmas.

(** ** Lemmas: promises *)

Section PromiseLemmas.
Context {R : Type}.
Implicit Types (s : PromiseStore R) (tag : string) (r : R) (p : nat).

(** No promise a tag names has a result or is broken, no two tags name the same promise, and
    promises are made with fresh numbers. *)
Record store_wf s : Prop := {
  st_open tag p : ps_promises s !! tag = Some p →
    pr_results (ps_cells s) !! p = None ∧ p ∉ pr_broken (ps_cells s);
  st_inj tag tag' p :
    ps_promises s !! tag = Some p → ps_promises s !! tag' = Some p → tag = tag';
  st_fresh tag p : ps_promises s !! tag = Some p → (p < pr_next (ps_cells s))%nat;
  st_results p : (pr_next (ps_cells s) ≤ p)%nat → pr_results (ps_cells s) !! p = None;
  st_broken p : p ∈ pr_broken (ps_cells s) → (p < pr_next (ps_cells s))%nat }.

Lemma add_new tag s :
  ps_promises s !! tag = None →
  PromiseStore_add tag s =
    (Ok (pr_next (ps_cells s)),
     MkPromiseStore (<[tag := pr_next (ps_cells s)]> (ps_promises s))
       (MkPromises (S (pr_next (ps_cells s))) (pr_results (ps_cells s))
          (pr_broken (ps_cells s)))).
Proof.
  intros Ht. unfold PromiseStore_add, mbind, M_bind, zoom, gets, make_promise. cbn.
  rewrite Ht. by rewrite decide_False by by intros [? ?].
Qed.

Lemma add_duplicate tag p s :
  ps_promises s !! tag = Some p →
  PromiseStore_add tag s =
    (Ok (pr_next (ps_cells s)),
     MkPromiseStore (ps_promises s)
       (MkPromises (S (pr_next (ps_cells s))) (pr_results (ps_cells s))
          ({[pr_next (ps_cells s)]} ∪ pr_broken (ps_cells s)))).
Proof.
  intros Ht. unfold PromiseStore_add, mbind, M_bind, zoom, gets, make_promise. cbn.
  rewrite Ht. by rewrite decide_True by by eexists.
Qed.

Lemma store_wf_add tag s : store_wf s → store_wf (PromiseStore_add tag s).2.
Proof.
  intros [Ho Hi Hf Hr Hb]. destruct (ps_promises s !! tag) as [p|] eqn:Ht.
  - rewrite (add_duplicate _ _ _ Ht). split; cbn; [|done|..].
    + intros t q Hq. destruct (Ho t q Hq). specialize (Hf t q Hq). split; [done|].
      rewrite elem_of_union, elem_of_singleton. intros [->|]; [lia|done].
    + intros t q Hq. specialize (Hf t q Hq). lia.
    + intros q Hq. apply Hr. lia.
    + intros q [->%elem_of_singleton|Hq]%elem_of_union; [lia|]. specialize (Hb q Hq). lia.
  - rewrite (add_new _ _ Ht). split; cbn.
    + intros t q [[<- <-]|[_ Hq]]%lookup_insert_Some; [|by eapply Ho].
      split; [by apply Hr|]. intros Hq. specialize (Hb _ Hq). lia.
    + intros t t' q [[<- <-]|[_ Hq]]%lookup_insert_Some [[<- Hq']|[_ Hq']]%lookup_insert_Some;
        [done| |by specialize (Hf _ _ Hq); subst; lia|by eapply Hi].
      specialize (Hf _ _ Hq'). lia.
    + intros t q [[<- <-]|[_ Hq]]%lookup_insert_Some; [lia|]. specialize (Hf _ _ Hq). lia.
    + intros q Hq. apply Hr. lia.
    + intros q Hq. specialize (Hb q Hq). lia.
Qed.

(** The first result for a waiting tag reaches its promise and only that one. *)
Lemma set_result_waiting tag p r s :
  store_wf s → ps_promises s !! tag = Some p →
  PromiseStore_set_result tag r s =
    (Ok false,
     MkPromiseStore (delete tag (ps_promises s))
       (MkPromises (pr_next (ps_cells s)) (<[p := r]> (pr_results (ps_cells s)))
          (pr_broken (ps_cells s)))).
Proof.
  intros Hwf Ht. unfold PromiseStore_set_result, mbind, M_bind, zoom, gets, modify. cbn.
  rewrite Ht. unfold satisfy. cbn. by destruct (st_open s Hwf tag p Ht) as [-> _].
Qed.

Lemma set_result_unknown tag r s :
  ps_promises s !! tag = None → PromiseStore_set_result tag r s = (Ok true, s).
Proof.
  intros Ht. unfold PromiseStore_set_result, mbind, M_bind, gets. by rewrite Ht.
Qed.

Lemma store_wf_set_result tag r s :
  store_wf s →
  (∃ b s', PromiseStore_set_result tag r s = (Ok b, s') ∧ store_wf s').
Proof.
  intros Hwf. destruct (ps_promises s !! tag) as [p|] eqn:Ht.
  - rewrite (set_result_waiting _ _ _ _ Hwf Ht). do 2 eexists. split; [done|].
    destruct Hwf as [Ho Hi Hf Hr Hb]. split; cbn.
    + intros t q [Hne Hq]%lookup_delete_Some. destruct (Ho _ _ Hq). split; [|done].
      rewrite lookup_insert_ne; [done|]. intros ->. by apply Hne, (Hi _ _ _ Ht Hq).
    + intros t t' q [_ Hq]%lookup_delete_Some [_ Hq']%lookup_delete_Some. by eapply Hi.
    + intros t q [_ Hq]%lookup_delete_Some. by eapply Hf.
    + intros q Hq. rewrite lookup_insert_ne; [by apply Hr|]. specialize (Hf _ _ Ht). lia.
    + done.
  - rewrite (set_result_unknown _ _ _ Ht). by do 2 eexists.
Qed.

(** A result for another tag leaves a waiting tag alone. *)
Lemma set_result_other tag tag' p r s :
  store_wf s → ps_promises s !! tag = Some p → tag' ≠ tag →
  ∃ b s', PromiseStore_set_result tag' r s = (Ok b, s') ∧ store_wf s' ∧
    ps_promises s' !! tag = Some p ∧ pr_results (ps_cells s') !! p = None.
Proof.
  intros Hwf Hp Hne. destruct (store_wf_set_result tag' r s Hwf) as (b & s' & Hrun & Hwf').
  exists b, s'. assert (ps_promises s' !! tag = Some p) as Hp'.
  { destruct (ps_promises s !! tag') as [q|] eqn:Hq.
    - rewrite (set_result_waiting _ _ _ _ Hwf Hq) in Hrun. injection Hrun as _ <-. cbn.
      by rewrite lookup_delete_ne.
    - rewrite (set_result_unknown _ _ _ Hq) in Hrun. by injection Hrun as _ <-. }
  split_and!; [done..|]. by apply (st_open s' Hwf' tag p).
Qed.

(** A promise no tag names, which waits for something else. *)
Record untagged s p : Prop := {
  un_named tag : ps_promises s !! tag ≠ Some p;
  un_open : pr_results (ps_cells s) !! p = None;
  un_made : (p < pr_next (ps_cells s))%nat }.

(** Results for tags leave it alone. *)
Lemma untagged_set_result tag r s b s' p :
  store_wf s → PromiseStore_set_result tag r s = (b, s') → untagged s p → untagged s' p.
Proof.
  intros Hwf Hrun [Hn Ho Hm]. destruct (ps_promises s !! tag) as [q|] eqn:Ht.
  - rewrite (set_result_waiting _ _ _ _ Hwf Ht) in Hrun. injection Hrun as _ <-.
    split; cbn; [|rewrite lookup_insert_ne; [done|]|done].
    + intros t [_ Htq]%lookup_delete_Some. by eapply Hn.
    + intros ->. by eapply Hn.
  - rewrite (set_result_unknown _ _ _ Ht) in Hrun. by injection Hrun as _ <-.
Qed.

(** A new promise is one, and those before it stay. *)
Lemma untagged_make s :
  store_wf s →
  let s' := (zoom ps_cellsL make_promise s).2 in
  store_wf s' ∧ untagged s' (pr_next (ps_cells s)) ∧ ∀ p, untagged s p → untagged s' p.
Proof.
  intros [Ho Hi Hf Hr Hb] s'. split_and!.
  - split; cbn; [done|done|..].
    + intros t q Hq. specialize (Hf t q Hq). lia.
    + intros q Hq. apply Hr. lia.
    + intros q Hq. specialize (Hb q Hq). lia.
  - split; cbn; [|by apply Hr|lia]. intros t Ht. specialize (Hf _ _ Ht). lia.
  - intros p [Hn Hp Hm]. split; cbn; [done|done|lia].
Qed.

(** Satisfying it leaves the tags alone. *)
Lemma store_wf_satisfy p r s :
  store_wf s → untagged s p →
  store_wf (MkPromiseStore (ps_promises s)
    (MkPromises (pr_next (ps_cells s)) (<[p := r]> (pr_results (ps_cells s)))
       (pr_broken (ps_cells s)))).
Proof.
  intros [Ho Hi Hf Hr Hb] [Hn Hp Hm]. split; cbn; [|done|done| |done].
  - intros t q Hq. destruct (Ho t q Hq). split; [|done].
    rewrite lookup_insert_ne; [done|]. intros ->. by eapply Hn.
  - intros q Hq. rewrite lookup_insert_ne; [by apply Hr|lia].
Qed.

Lemma store_wf_empty : store_wf (MkPromiseStore ∅ (MkPromises 0 ∅ ∅) : PromiseStore R).
Proof. by split; cbn; intros; rewrite ?lookup_empty in *; set_solver. Qed.
End PromiseLemmas.

Section SubmitLemmas.
Context `{JsonLib} `{EventppLib} {L : Type}.

(** submit puts the event into the queue, and its promise is new. *)
Lemma submit_spec (e : Event) (q : EventQueue (L:=L)) :
  submit e q =
    (Ok (pr_next (ps_cells (eq_store q))),
     lset eq_storeL (PromiseStore_add (event_tag e) (eq_store q)).2
       (lset eq_queueL (epp_enqueue (event_type e) e (eq_queue q)) q)).
Proof.
  unfold submit, mbind, M_bind, zoom, modify. cbn.
  destruct (ps_promises (eq_store q) !! event_tag e) as [p|] eqn:Ht.
  - by rewrite (add_duplicate _ p).
  - by rewrite add_new.
Qed.
End SubmitLemmas.

(** ** Lemmas: awaited events *)

Section AwaitLemmas.
Context `{JsonLib} `{EventppLib} {L : Type}.
Implicit Types (q : EventQueue (L:=L)) (c : Waiter).

(** Whether the lambda counts [e]. *)
Definition counts c (e : Event) : bool :=
  match w_predicate c with Some predicate => predicate e | None => true end.

Definition result_of q (p : nat) : option Event := pr_results (ps_cells (eq_store q)) !! p.

(** One event for a waiter whose promise is open. *)
Lemma on_awaited_spec w c e q :
  eq_waiters q !! w = Some c → result_of q (w_promise c) = None → 1 ≤ w_count c →
  let count := if counts c e then w_count c - 1 else w_count c in
  let c' := MkWaiter (w_type c) (w_handle c) count (w_predicate c) (w_promise c) in
  wp (on_awaited w e)
     (λ _ q', eq_waiters q' = <[w := c']> (eq_waiters q) ∧
        (∀ p, result_of q' p =
           if decide (count = 0 ∧ p = w_promise c) then Some e else result_of q p) ∧
        eq_queue q' = if decide (count = 0) then epp_remove (w_type c) (w_handle c) (eq_queue q)
                      else eq_queue q) q.
Proof.
  intros Hw Hr Hc count c'. unfold on_awaited. do 2 wp_step. rewrite Hw. fold (counts c e).
  fold count. fold c'. do 3 wp_step. cbn.
  assert (0 ≤ count) as Hcount by (unfold count; destruct (counts c e); lia).
  destruct (Z.leb_spec count 0) as [Hle|Hgt].
  - assert (count = 0) as Hz by lia. rewrite Hz. wp_step. unfold eq_cellsL. wp_step.
    unfold satisfy, wpx. cbn. unfold result_of in Hr. rewrite Hr. cbn.
    split_and!; [done| |done]. intros p. unfold result_of. cbn. case_decide as Hp.
    + destruct Hp as [_ ->]. by rewrite lookup_insert_eq.
    + rewrite lookup_insert_ne; [done|]. intros Heq. by apply Hp.
  - wp_step. split_and!; [done| |by rewrite decide_False by lia].
    intros p. rewrite decide_False by lia. done.
Qed.

(** Events before the one that is awaited only count. *)
Lemma await_counts w c es q :
  eq_waiters q !! w = Some c → result_of q (w_promise c) = None →
  Z.of_nat (length (List.filter (counts c) es)) < w_count c →
  wp (for_each es (on_awaited w))
     (λ _ q', result_of q' (w_promise c) = None ∧
        eq_waiters q' !! w = Some (MkWaiter (w_type c) (w_handle c)
          (w_count c - Z.of_nat (length (List.filter (counts c) es))) (w_predicate c)
          (w_promise c)) ∧ eq_queue q' = eq_queue q) q.
Proof.
  revert c q. induction es as [|e es IH]; intros c q Hw Hr Hc.
  - apply wpx_ret. split; [done|]. cbn. rewrite Z.sub_0_r. by destruct c.
  - cbn [for_each]. wp_step. cbn [List.filter] in *.
    eapply wp_mono; [apply (on_awaited_spec w c e q Hw Hr); destruct (counts c e); cbn in Hc; lia|].
    intros [] q1 (Hw1 & Hr1 & Hq1).
    set (count := if counts c e then w_count c - 1 else w_count c) in *.
    assert (1 ≤ count) as Hcount by (unfold count; destruct (counts c e); cbn in Hc; lia).
    rewrite decide_False in Hq1 by lia.
    eapply wp_mono; [eapply (IH (MkWaiter (w_type c) (w_handle c) count (w_predicate c)
      (w_promise c)))|].
    + by rewrite Hw1, lookup_insert_eq.
    + change (result_of q1 (w_promise c) = None). rewrite Hr1, decide_False by lia. done.
    + change (counts (MkWaiter _ _ _ _ _)) with (counts c). cbn. unfold count.
      destruct (counts c e); cbn in *; lia.
    + intros [] q2 (Hr2 & Hw2 & Hq2). split; [done|]. split; [|by rewrite Hq2]. rewrite Hw2. cbn.
      change (counts (MkWaiter _ _ _ _ _)) with (counts c). do 2 f_equal. unfold count.
      destruct (counts c e); cbn [length] in *; lia.
Qed.

(** The [n]-th event that counts ends the wait. *)
Lemma await_ends w c es e q :
  eq_waiters q !! w = Some c → result_of q (w_promise c) = None →
  Z.of_nat (length (List.filter (counts c) es)) + 1 = w_count c → counts c e = true →
  wp (for_each (es ++ [e]) (on_awaited w)) (λ _ q', result_of q' (w_promise c) = Some e ∧
     eq_queue q' = epp_remove (w_type c) (w_handle c) (eq_queue q)) q.
Proof.
  intros Hw Hr Hc He.
  apply wpx_for_each_app. eapply wpx_mono; [apply (await_counts w c es q Hw Hr); lia| |done].
  intros [] q1 (Hr1 & Hw1 & Hq1). cbn [for_each]. apply wpx_bind.
  eapply wpx_mono; [apply (on_awaited_spec w _ e q1 Hw1 Hr1); cbn; lia| |done].
  intros [] q2 (_ & Hr2 & Hq2). apply wpx_ret. rewrite Hr2, Hq2. cbn.
  change (counts (MkWaiter _ _ _ _ _)) with (counts c). rewrite He, Hq1.
  by rewrite !decide_True by (try split; first [lia|done]).
Qed.

(** What a call of event_of_type leaves behind. *)
Lemma event_of_type_registers type n predicate q :
  store_wf (eq_store q) →
  ∃ p q1 h w, event_of_type type n predicate q = (Ok p, q1) ∧
    (∀ k, epp_listeners (eq_queue q1) k =
       epp_listeners (eq_queue q) k ++ if decide (type = k) then [(h, Await w)] else []) ∧
    (∀ k l, (h, l) ∉ epp_listeners (eq_queue q) k) ∧
    ps_promises (eq_store q1) = ps_promises (eq_store q) ∧
    eq_waiters q1 !! w = Some (MkWaiter type h n predicate p) ∧ result_of q1 p = None.
Proof.
  intros Hwf. set (a := epp_append type (Await (eq_next_waiter q)) (eq_queue q)).
  exists (pr_next (ps_cells (eq_store q))). eexists. exists a.1, (eq_next_waiter q). split.
  { unfold event_of_type, mbind, M_bind, zoom, gets, writes, modify. cbn. fold a.
    rewrite (surjective_pairing a). reflexivity. }
  cbn. split_and!.
  - intros k. unfold a. by rewrite epp_append_listeners.
  - intros k l. apply epp_append_fresh.
  - done.
  - apply lookup_insert_eq.
  - by apply (st_results (eq_store q) Hwf).
Qed.

(** A handle that is not there. *)
Lemma filter_absent {B} (h : nat) (l : list (nat * B)) :
  (∀ b, (h, b) ∉ l) → filter (λ p, p.1 ≠ h) l = l.
Proof.
  intros Hno. induction l as [|[h' b] l IH]; [done|]. rewrite filter_cons_True.
  - f_equal. apply IH. intros b'. specialize (Hno b'). set_solver.
  - cbn. intros ->. apply (Hno b). by left.
Qed.
End AwaitLemmas.

(** ** Properties *)

Section Properties.
Context `{JsonLib} `{EventppLib} {L : Type}.

(** C30: a request and its answer meet. A new tag is stored with a promise that is open; as long as
    only results for other tags come, it stays open and the tag stays there; the first result for
    the tag reaches this promise and no other one, and the tag is free again. A later result for
    it does nothing. *)
Theorem promise_resolved_once (tag : string) (r : Event) (s : PromiseStore Event) :
  store_wf s → ps_promises s !! tag = None →
  ∃ p s1, PromiseStore_add tag s = (Ok p, s1) ∧ store_wf s1 ∧
    ps_promises s1 = <[tag := p]> (ps_promises s) ∧
    pr_results (ps_cells s1) = pr_results (ps_cells s) ∧
    pr_results (ps_cells s1) !! p = None ∧ pr_broken (ps_cells s1) = pr_broken (ps_cells s) ∧
    (∀ (s2 : PromiseStore Event) tag' r', store_wf s2 → ps_promises s2 !! tag = Some p →
     tag' ≠ tag →
     ∃ b s3, PromiseStore_set_result tag' r' s2 = (Ok b, s3) ∧ store_wf s3 ∧
       ps_promises s3 !! tag = Some p ∧ pr_results (ps_cells s3) !! p = None) ∧
    ∀ s2, store_wf s2 → ps_promises s2 !! tag = Some p →
    ∃ s3, PromiseStore_set_result tag r s2 = (Ok false, s3) ∧ store_wf s3 ∧
      pr_results (ps_cells s3) = <[p := r]> (pr_results (ps_cells s2)) ∧
      ps_promises s3 = delete tag (ps_promises s2) ∧
      ∀ r', PromiseStore_set_result tag r' s3 = (Ok true, s3).
Proof.
  intros Hwf Ht. pose proof (store_wf_add tag s Hwf) as Hwf1.
  exists (pr_next (ps_cells s)). eexists. rewrite (add_new tag s Ht) in Hwf1 |- *.
  split_and!; [done|exact Hwf1|done|done|by apply (st_results s Hwf)|done|..].
  - intros s2 tag' r' Hwf2 Hp Hne. by apply set_result_other.
  - intros s2 Hwf2 Hp. destruct (store_wf_set_result tag r s2 Hwf2) as (b & s3 & Hrun & Hwf3).
    rewrite (set_result_waiting tag _ r s2 Hwf2 Hp) in Hrun |- *. injection Hrun as <- <-.
    eexists. split; [done|]. split_and!; [done..|]. intros r'. apply set_result_unknown. cbn.
    apply lookup_delete_eq.
Qed.

(** A second request under a tag that is still waiting gets a promise that is broken at once
    and is never resolved; the first request keeps its own. *)
Theorem duplicate_tag_breaks_promise (tag : string) p (s : PromiseStore Event) :
  store_wf s → ps_promises s !! tag = Some p →
  ∃ p' s', PromiseStore_add tag s = (Ok p', s') ∧ store_wf s' ∧
    p' ≠ p ∧ p' ∈ pr_broken (ps_cells s') ∧ ps_promises s' = ps_promises s ∧
    ∀ tag', ps_promises s' !! tag' ≠ Some p'.
Proof.
  intros Hwf Ht. do 2 eexists. rewrite (add_duplicate tag p s Ht). split; [done|].
  pose proof (store_wf_add tag s Hwf) as Hwf'. rewrite (add_duplicate tag p s Ht) in Hwf'.
  pose proof (st_fresh s Hwf tag p Ht) as Hlt.
  split_and!; [done|lia|cbn; set_solver|done|]. intros tag' Htag'. cbn in Htag'.
  pose proof (st_fresh s Hwf tag' _ Htag'). lia.
Qed.

(** C31: [event_of_type(type, n, predicate)] registers one more listener for [type] and nothing
    else, and the promise it returns resolves with the [n]-th event this listener gets that
    satisfies the predicate (without a predicate, every event does): not before, however many
    events that do not count come in between, and then with that event, and the listener is
    gone. *)
Theorem event_of_type_resolves_nth type n predicate es e (q : EventQueue (L:=L)) :
  let accepts e := match predicate with Some f => f e | None => true end in
  store_wf (eq_store q) → accepts e = true →
  n = Z.of_nat (length (List.filter accepts es)) + 1 →
  ∃ p q1 h w, event_of_type type n predicate q = (Ok p, q1) ∧
    (∀ k, epp_listeners (eq_queue q1) k =
       epp_listeners (eq_queue q) k ++ if decide (type = k) then [(h, Await w)] else []) ∧
    ps_promises (eq_store q1) = ps_promises (eq_store q) ∧ result_of q1 p = None ∧
    (∃ q2, for_each es (on_awaited w) q1 = (Ok tt, q2) ∧ result_of q2 p = None ∧
       eq_queue q2 = eq_queue q1) ∧
    (∃ q3, for_each (es ++ [e]) (on_awaited w) q1 = (Ok tt, q3) ∧ result_of q3 p = Some e ∧
       ∀ k, epp_listeners (eq_queue q3) k = epp_listeners (eq_queue q) k).
Proof.
  intros accepts Hwf He ->. set (n := _ + 1).
  destruct (event_of_type_registers type n predicate q Hwf)
    as (p & q1 & h & w & Hrun & Hl & Hh & Hps & Hw & Hp).
  exists p, q1, h, w. split_and!; [done..| |].
  - assert (Z.of_nat (length (List.filter accepts es)) < n) as Hlt by (unfold n; lia).
    pose proof (await_counts w _ es q1 Hw Hp Hlt) as Hes.
    apply wp_run in Hes as ([] & q2 & Hes & ? & _ & ?). by exists q2.
  - pose proof (await_ends w _ es e q1 Hw Hp eq_refl He) as Hes.
    apply wp_run in Hes as ([] & q3 & Hes & Hr & Hq). exists q3. split_and!; [done..|].
    intros k. rewrite Hq. cbn. rewrite epp_remove_listeners, Hl.
    destruct (decide (type = k)) as [<-|Hne]; [|by rewrite app_nil_r].
    rewrite filter_app, filter_cons_False by (cbn; tauto). rewrite filter_nil, app_nil_r.
    by apply filter_absent.
Qed.
End Properties.
