(* ===== verification/Coroutine.v ===== *)
(** * Coroutines (concurrencpp::result, co_await)

    A coroutine runs until it waits for something, and then hands back what it waits for and
    the rest of itself. Between its segments the state belongs to whoever runs meanwhile. A
    finished coroutine needs no more answers; it awaits finitely often, since every loop the
    program awaits in is over a list or counts. *)

From stdpp Require Import base list gmap strings.
From Stdlib Require Import ZArith.
From S2P Require Import Prelude Json Fifo Models Event.

Open Scope Z_scope.

Section Coroutine.
Context `{JsonLib}.

(** What a [co_await] waits for: the promise of an event, the first of several promises if it
    comes within so many seconds, the identities of a wait_for_peers call, a timer of so many
    seconds (of none: its turn on the executor), or the block a search finds in some number of
    rounds, if it ever does. *)
Inductive Awaited :=
  | Answer (promise : nat)
  | FirstOf (promises : list nat) (seconds : Z)
  | Peers (wait : nat)
  | Delay (seconds : Z)
  | Mined (search : nat → option Block).

Definition answer (w : Awaited) : Type :=
  match w with
  | Answer _ => Event
  | FirstOf _ _ => option Event
  | Peers _ => list string
  | Delay _ => unit
  | Mined _ => Block
  end.

(** Whatever else is the case when the answer comes, this is. *)
Definition possible (w : Awaited) : answer w → Prop :=
  match w with
  | Mined search => λ block, ∃ fuel, search fuel = Some block
  | _ => λ _, True
  end.

Inductive Co (S A : Type) :=
  | Finished (a : A)
  | Suspended (w : Awaited) (resume : answer w → S → result (Co S A) * S).
Arguments Finished {S A} a.
Arguments Suspended {S A} w resume.

(** A coroutine before it runs. *)
Definition Coroutine (S A : Type) : Type := M S (Co S A).

Definition co_await {S} (w : Awaited) : Coroutine S (answer w) :=
  λ s, (Ok (Suspended w (λ x s, (Ok (Finished x), s))), s).

(** [co_await] of an event; [co_lift]: code without [co_await]. *)
Definition await {S} (promise : nat) : Coroutine S Event := co_await (Answer promise).

Definition co_lift {S A} (m : M S A) : Coroutine S A :=
  (a ← m; mret (Finished a)) : M S (Co S A).

(** The rest of a coroutine, followed by [f]. *)
Fixpoint co_then {S A B} (c : Co S A) (f : A → Coroutine S B) : Coroutine S B := λ s,
  match c with
  | Finished a => f a s
  | Suspended w resume =>
      (Ok (Suspended w (λ x s,
         match resume x s with
         | (Ok c, s) => co_then c f s
         | (Err e, s) => (Err e, s)
         end)), s)
  end.

#[global] Instance Coroutine_ret {S} : MRet (Coroutine S) := λ A a s, (Ok (Finished a), s).
#[global] Instance Coroutine_bind {S} : MBind (Coroutine S) := λ A B f m s,
  match m s with
  | (Ok c, s') => co_then c f s'
  | (Err e, s') => (Err e, s')
  end.

(** A coroutine of a component. *)
Fixpoint co_inside {S A B} (l : Lens S A) (c : Co A B) : Co S B :=
  match c with
  | Finished b => Finished b
  | Suspended w resume =>
      Suspended w (λ x s,
        match resume x (lget l s) with
        | (Ok c, a) => (Ok (co_inside l c), lset l a s)
        | (Err e, a) => (Err e, lset l a s)
        end)
  end.

Definition co_zoom {S A B} (l : Lens S A) (m : Coroutine A B) : Coroutine S B := λ s,
  match m (lget l s) with
  | (Ok c, a) => (Ok (co_inside l c), lset l a s)
  | (Err e, a) => (Err e, lset l a s)
  end.

(** [k] runs when the coroutine is left, however that happens. *)
Fixpoint co_last {S A} (c : Co S A) (k : M S unit) : Coroutine S A := λ s,
  match c with
  | Finished a => co_lift (_ ← k; mret a) s
  | Suspended w resume =>
      (Ok (Suspended w (λ x s,
         match resume x s with
         | (Ok c, s) => co_last c k s
         | (Err e, s) => co_lift (_ ← k; throw e) s
         end)), s)
  end.

Definition co_finally {S A} (m : Coroutine S A) (k : M S unit) : Coroutine S A := λ s,
  match m s with
  | (Ok c, s) => co_last c k s
  | (Err e, s) => co_lift (_ ← k; throw e) s
  end.

(** [for (x : l) body(x);] with awaits in the body. *)
Fixpoint co_for_each {S A} (l : list A) (body : A → Coroutine S unit) : Coroutine S unit :=
  match l with
  | [] => mret tt
  | x :: l => _ ← body x; co_for_each l body
  end.

(** The loop that builds a value on the way. *)
Fixpoint co_fold {S A B} (body : B → A → Coroutine S B) (l : list A) (b : B) : Coroutine S B :=
  match l with
  | [] => mret b
  | x :: l => b ← body b x; co_fold body l b
  end.

(** The whole run of a coroutine of the component [l], in a world that answers: [env w] is all
    that happens in the world while the coroutine waits for [w]. *)
Section Drive.
Context {W S : Type} (l : Lens W S) (env : ∀ w, M W (answer w)).

Fixpoint drive_rest {A} (c : Co S A) : M W A :=
  match c with
  | Finished a => mret a
  | Suspended w resume =>
      x ← env w;
      λ s, match resume x (lget l s) with
           | (Ok c, t) => drive_rest c (lset l t s)
           | (Err e, t) => (Err e, lset l t s)
           end
  end.

Definition drive {A} (m : Coroutine S A) : M W A := c ← zoom l m; drive_rest c.
End Drive.
(** An event answers only the wait for one. *)
Definition event_answer (w : Awaited) : Event → option (answer w) :=
  match w with Answer _ => λ e, Some e | _ => λ _, None end.

(** [co_run c es o]: with the answers [es], one for each wait for an event, and whatever else
    happens to the state in between, the rest [c] of a coroutine ends with [o]. *)
Fixpoint co_run {S A} (c : Co S A) (es : list Event) (o : result A) : Prop :=
  match c with
  | Finished a => es = [] ∧ o = Ok a
  | Suspended w resume =>
      ∃ e es' x s, es = e :: es' ∧ event_answer w e = Some x ∧
        match resume x s with
        | (Ok c, _) => co_run c es' o
        | (Err x, _) => es' = [] ∧ o = Err x
        end
  end.

Definition runs {S A} (m : Coroutine S A) (s : S) (es : list Event) (o : result A) : Prop :=
  match m s with
  | (Ok c, _) => co_run c es o
  | (Err x, _) => es = [] ∧ o = Err x
  end.
End Coroutine.
Arguments Finished {_ S A} a.
Arguments Suspended {_ S A} w resume.

(** ** Lemmas *)

Section Lemmas.
Context `{JsonLib}.

(** Induction over the segments of a coroutine. *)
Lemma co_induction {S A} (P : Co S A → Prop) :
  (∀ a, P (Finished a)) →
  (∀ w resume, (∀ x s c s', resume x s = (Ok c, s') → P c) → P (Suspended w resume)) →
  ∀ c, P c.
Proof.
  intros Hfin Hsus. fix IH 1. intros [a|w resume]; [apply Hfin|]. apply Hsus.
  intros x s. enough (match resume x s with (Ok c, _) => P c | (Err _, _) => True end) as Hc.
  { intros c s' Heq. by rewrite Heq in Hc. }
  destruct (resume x s) as [[c|e] s']; [apply IH|exact I].
Qed.

(** A segment that ends without waiting. *)
Lemma bind_finished {S A B} (m : Coroutine S A) (f : A → Coroutine S B) a s s' :
  m s = (Ok (Finished a), s') → (m ≫= f) s = f a s'.
Proof. unfold mbind, Coroutine_bind. by intros ->. Qed.

Lemma lift_finished {S A} (m : M S A) a s s' :
  m s = (Ok a, s') → co_lift m s = (Ok (Finished a), s').
Proof. unfold co_lift, mbind, M_bind. by intros ->. Qed.

Lemma runs_then {S A B} (c : Co S A) (f : A → Coroutine S B) s es o :
  runs (co_then c f) s es o →
  (∃ es1 es2 a s', es = es1 ++ es2 ∧ co_run c es1 (Ok a) ∧ runs (f a) s' es2 o) ∨
  (∃ x, co_run c es (Err x) ∧ o = Err x).
Proof.
  revert s es. induction c as [a|w resume IH] using co_induction; intros s es.
  { intros Hf. left. by exists [], es, a, s. }
  intros (e & es' & x & s1 & -> & Hx & Hrun). cbn in Hrun.
  destruct (resume x s1) as [[c|err] s2] eqn:Hr.
  - destruct (IH _ _ _ _ Hr s2 es') as [(es1 & es2 & a & s' & -> & Hc & Hf)|(err & Hc & ->)].
    { unfold runs. by destruct (co_then c f s2) as [[d|err] s3]. }
    + left. exists (e :: es1), es2, a, s'. split_and!; [done| |done].
      exists e, es1, x, s1. by rewrite Hr.
    + right. exists err. split; [|done]. exists e, es', x, s1. by rewrite Hr.
  - right. exists err. destruct Hrun as [-> ->]. split; [|done].
    exists e, [], x, s1. by rewrite Hr.
Qed.

(** The answers of a sequence are those of its first part and then those of its second. *)
Lemma runs_bind {S A B} (m : Coroutine S A) (f : A → Coroutine S B) s es o :
  runs (m ≫= f) s es o →
  (∃ es1 es2 a s', es = es1 ++ es2 ∧ runs m s es1 (Ok a) ∧ runs (f a) s' es2 o) ∨
  (∃ x, runs m s es (Err x) ∧ o = Err x).
Proof.
  unfold runs at 1 2 4, mbind, Coroutine_bind. destruct (m s) as [[c|x] s'].
  - intros Hrun. exact (runs_then c f s' es o Hrun).
  - intros [-> ->]. right. by exists x.
Qed.

(** The other direction: runs that can be put together. *)
Lemma runs_bind_intro {S A B} (m : Coroutine S A) (f : A → Coroutine S B) s es1 a es2 o :
  runs m s es1 (Ok a) → (∀ s', runs (f a) s' es2 o) → runs (m ≫= f) s (es1 ++ es2) o.
Proof.
  unfold runs at 1 3, mbind, Coroutine_bind. destruct (m s) as [[c|x] s0]; [|by intros [_ [=]]].
  intros Hc Hf. change (runs (co_then c f) s0 (es1 ++ es2) o). revert s0 es1 Hc.
  induction c as [a'|w resume IH] using co_induction; intros s0 es1.
  - intros [-> [= <-]]. apply Hf.
  - intros (e & es' & x & s1 & -> & Hx & Hrun). exists e, (es' ++ es2), x, s1.
    split_and!; [done|done|]. destruct (resume x s1) as [[c|err] s2] eqn:Hr; [|by destruct Hrun].
    pose proof (IH _ _ _ _ Hr s2 es' Hrun) as Hrest. unfold runs in Hrest.
    by destruct (co_then c f s2) as [[d|err] s3].
Qed.

Lemma runs_lift_intro {S A} (m : M S A) s o : (m s).1 = o → runs (co_lift m) s [] o.
Proof. unfold runs, co_lift, mbind, M_bind. by destruct (m s) as [[a|x] s']; cbn; intros <-. Qed.

Lemma runs_await_intro {S} p (s : S) e : runs (await p) s [e] (Ok e).
Proof. by exists e, [], e, s. Qed.

Lemma runs_lift {S A} (m : M S A) s es o : runs (co_lift m) s es o → es = [] ∧ o = (m s).1.
Proof.
  unfold runs, co_lift, mbind, M_bind. by destruct (m s) as [[a|x] s'].
Qed.

Lemma runs_await {S} p (s : S) es o : runs (await p) s es o → ∃ e, es = [e] ∧ o = Ok e.
Proof. intros (e & es' & x & s' & -> & [= <-] & -> & ->). by exists e. Qed.

(** A loop whose body waits for one event and makes of it what [step] says. *)
Fixpoint fold_result {A B} (step : B → A → result B) (l : list A) (b : B) : result B :=
  match l with
  | [] => Ok b
  | x :: l => b ← step b x; fold_result step l b
  end.

Lemma fold_traverse {A B C} (f : A → result B) (g : C → B → C) l b :
  fold_result (λ b x, y ← f x; Ok (g b y)) l b = (ys ← traverse f l; Ok (fold_left g ys b)).
Proof.
  revert b. induction l as [|x l IH]; intros b; cbn; [done|].
  destruct (f x) as [y|e]; cbn; [|done]. rewrite IH. by destruct (traverse f l).
Qed.

Lemma runs_fold {S A B} (body : B → A → Coroutine S B) (step : B → Event → result B) l b s es o :
  (∀ b x s es o, runs (body b x) s es o → ∃ e, es = [e] ∧ o = step b e) →
  runs (co_fold body l b) s es o →
  o = fold_result step es b ∧ ((∃ a, o = Ok a) → length es = length l).
Proof.
  intros Hbody. revert b s es. induction l as [|x l IH]; intros b s es; cbn [co_fold].
  { by intros [-> ->]. }
  intros [(es1 & es2 & a & s' & -> & H1 & H2)|(err & H1 & ->)]%runs_bind;
    destruct (Hbody _ _ _ _ _ H1) as (e & -> & Ho).
  - destruct (IH _ _ _ H2) as [-> Hlen]. cbn. rewrite <-Ho. split; [done|].
    intros Hok. cbn in Hok. by rewrite (Hlen Hok).
  - cbn. rewrite <-Ho. split; [done|]. by intros [a [=]].
Qed.

Section DriveLemmas.
Context {W S : Type} (l : Lens W S) `{!LensLaws l} (env : ∀ w, M W (answer w)).

Lemma drive_unfold {A} (m : Coroutine S A) ω :
  drive l env m ω =
    match m (lget l ω) with
    | (Ok c, t) => drive_rest l env c (lset l t ω)
    | (Err e, t) => (Err e, lset l t ω)
    end.
Proof. unfold drive, zoom, mbind, M_bind. by destruct (m (lget l ω)) as [[c|e] t]. Qed.

Lemma drive_then {A B} (c : Co S A) (f : A → Coroutine S B) ω :
  drive l env (co_then c f) ω = (a ← drive_rest l env c; drive l env (f a)) ω.
Proof.
  revert ω. induction c as [a|w resume IH] using co_induction; intros ω; [done|].
  rewrite drive_unfold. cbn. rewrite lset_lget. unfold mbind, M_bind.
  destruct (env w ω) as [[x|e] ω']; [|done].
  destruct (resume x (lget l ω')) as [[c|e] t] eqn:Hr; [|done].
  specialize (IH _ _ _ _ Hr (lset l t ω')).
  rewrite drive_unfold, lget_lset in IH. unfold mbind, M_bind in IH. rewrite <-IH.
  destruct (co_then c f t) as [[d|e] u]; by rewrite lset_lset.
Qed.

Lemma drive_bind {A B} (m : Coroutine S A) (f : A → Coroutine S B) ω :
  drive l env (m ≫= f) ω = (a ← drive l env m; drive l env (f a)) ω.
Proof.
  unfold mbind at 2, M_bind. rewrite !drive_unfold. unfold mbind, Coroutine_bind.
  destruct (m (lget l ω)) as [[c|e] t] eqn:Hm; [|done].
  pose proof (drive_then c f (lset l t ω)) as Hc.
  rewrite drive_unfold, lget_lset in Hc. unfold mbind, M_bind in Hc. rewrite <-Hc.
  destruct (co_then c f t) as [[d|e] u]; by rewrite lset_lset.
Qed.

Lemma drive_lift {A} (m : M S A) ω : drive l env (co_lift m) ω = zoom l m ω.
Proof.
  unfold drive, co_lift, zoom, mbind, M_bind. cbn.
  by destruct (m (lget l ω)) as [[a|e] t].
Qed.

Lemma drive_await w ω : drive l env (co_await w) ω = env w ω.
Proof.
  rewrite drive_unfold. cbn. rewrite lset_lget. unfold mbind, M_bind.
  destruct (env w ω) as [[x|e] ω']; [|done]. cbn. by rewrite lset_lget.
Qed.

Lemma drive_ret {A} (a : A) ω : drive l env (mret a) ω = (Ok a, ω).
Proof. unfold drive, zoom, mbind, M_bind. cbn. by rewrite lset_lget. Qed.

(** A coroutine of a component of the component. *)
Lemma drive_inside {A B} (k : Lens S A) (c : Co A B) ω :
  drive_rest l env (co_inside k c) ω = drive_rest (lens_comp l k) env c ω.
Proof.
  revert ω. induction c as [a|w resume IH] using co_induction; intros ω; [done|].
  cbn. unfold mbind, M_bind. destruct (env w ω) as [[x|e] ω']; [|done].
  destruct (resume x (lget k (lget l ω'))) as [[c|e] t] eqn:Hr; [|done].
  by apply (IH _ _ _ _ Hr).
Qed.

Lemma drive_zoom {A B} (k : Lens S A) (m : Coroutine A B) ω :
  drive l env (co_zoom k m) ω = drive (lens_comp l k) env m ω.
Proof.
  unfold drive, zoom, co_zoom, mbind, M_bind. cbn.
  destruct (m (lget k (lget l ω))) as [[c|e] t]; [|done]. apply drive_inside.
Qed.

(** The same as rules for [wpx]. *)
Lemma wpx_drive_bind {A B} (m : Coroutine S A) (f : A → Coroutine S B) Q E ω :
  wpx (drive l env (m ≫= f)) Q E ω ↔
  wpx (drive l env m) (λ a, wpx (drive l env (f a)) Q E) E ω.
Proof. unfold wpx at 1. rewrite drive_bind. apply wpx_bind. Qed.

Lemma wpx_drive_lift {A} (m : M S A) Q E ω :
  wpx (drive l env (co_lift m)) Q E ω ↔ wpx (zoom l m) Q E ω.
Proof. unfold wpx. by rewrite drive_lift. Qed.

Lemma wpx_drive_await w Q E ω :
  wpx (drive l env (co_await w)) Q E ω ↔ wpx (env w) Q E ω.
Proof. unfold wpx. by rewrite drive_await. Qed.

Lemma wpx_drive_ret {A} (a : A) (Q : A → W → Prop) E ω :
  wpx (drive l env (mret a)) Q E ω ↔ Q a ω.
Proof. unfold wpx. by rewrite drive_ret. Qed.

(** Code that only reads. *)
Lemma drive_reads {A B} (m : M S A) a (f : A → Coroutine S B) (Q : B → W → Prop) ω :
  m (lget l ω) = (Ok a, lget l ω) → wp (drive l env (f a)) Q ω →
  wp (drive l env (a ← co_lift m; f a)) Q ω.
Proof.
  intros Hm Hf. unfold wp. apply wpx_drive_bind, wpx_drive_lift, wpx_zoom.
  unfold wpx at 1. rewrite Hm. by rewrite lset_lget.
Qed.

(** A coroutine that is done at once, with what is to be done at its end. *)
Lemma drive_finally_finished {A} (m : Coroutine S A) a t (k : M S unit) (Q : A → W → Prop) ω :
  m (lget l ω) = (Ok (Finished a), t) → wp (zoom l k) (λ _, Q a) (lset l t ω) →
  wp (drive l env (co_finally m k)) Q ω.
Proof.
  intros Hm Hk. unfold wp, wpx in *. rewrite drive_unfold. unfold co_finally. rewrite Hm. cbn.
  unfold zoom, co_lift, mbind, M_bind in *. rewrite lget_lset in Hk.
  destruct (k t) as [[u|e] t']; [|done]. cbn. by rewrite lset_lset in Hk.
Qed.

Lemma wpx_drive_zoom {A B} (k : Lens S A) (m : Coroutine A B) Q E ω :
  wpx (drive l env (co_zoom k m)) Q E ω ↔ wpx (drive (lens_comp l k) env m) Q E ω.
Proof. unfold wpx. by rewrite drive_zoom. Qed.
End DriveLemmas.

(** ** Invariants

    [co_keeps I m]: every segment of [m] keeps [I], however it ends and whatever possible answers
    and changes that keep [I] come in between. *)
Fixpoint co_safe {S A} (I : S → Prop) (c : Co S A) : Prop :=
  match c with
  | Finished _ => True
  | Suspended w resume =>
      ∀ x s, possible w x → I s → match resume x s with
                   | (Ok c, s') => I s' ∧ co_safe I c
                   | (Err _, s') => I s'
                   end
  end.

Definition co_keeps {S A} (I : S → Prop) (m : Coroutine S A) : Prop :=
  ∀ s, I s → wpx m (λ c s', I s' ∧ co_safe I c) (λ _ s', I s') s.

Section Keeps.
Context {S : Type} (I : S → Prop).

Lemma co_keeps_ret {A} (a : A) : co_keeps I (mret a : Coroutine S A).
Proof. by intros s HI. Qed.

Lemma co_keeps_lift {A} (m : M S A) : preserves I m → co_keeps I (co_lift m).
Proof.
  intros Hm s HI. unfold co_lift. do 1 wp_step. eapply wpx_mono; [by apply Hm| |done].
  intros a s' HI'. by wp_step.
Qed.

Lemma co_keeps_await w : co_keeps I (co_await w).
Proof. by intros s HI. Qed.

(** What follows may use what is known of the value. *)
Lemma co_keeps_await_bind {A} w (f : answer w → Coroutine S A) :
  (∀ x, possible w x → co_keeps I (f x)) → co_keeps I (co_await w ≫= f).
Proof.
  intros Hf s HI. split; [done|]. cbn. intros x s' Hx HI'. specialize (Hf x Hx s' HI').
  unfold wpx in Hf. by destruct (f x s') as [[c|e] s''].
Qed.

Lemma co_keeps_lift_bind {A B} (φ : A → Prop) (m : M S A) (f : A → Coroutine S B) :
  (∀ s, I s → wpx m (λ a s', I s' ∧ φ a) (λ _, I) s) → (∀ a, φ a → co_keeps I (f a)) →
  co_keeps I (co_lift m ≫= f).
Proof.
  intros Hm Hf s HI. specialize (Hm s HI).
  unfold wpx, mbind, Coroutine_bind, co_lift, mbind, M_bind in *.
  destruct (m s) as [[a|e] s']; [|done]. destruct Hm as [HI' Ha]. exact (Hf a Ha s' HI').
Qed.

Lemma co_keeps_then {A B} (c : Co S A) (f : A → Coroutine S B) :
  co_safe I c → (∀ a, co_keeps I (f a)) → co_keeps I (co_then c f).
Proof.
  intros Hc Hf. induction c as [a|w resume IH] using co_induction; [by apply Hf|].
  intros s HI. split; [done|]. cbn. intros x s1 Hx HI1. specialize (Hc x s1 Hx HI1).
  destruct (resume x s1) as [[c|e] s2] eqn:Hr; [|done]. destruct Hc as [HI2 Hc].
  pose proof (IH _ _ _ _ Hr Hc s2 HI2) as Hrest. unfold wpx in Hrest.
  by destruct (co_then c f s2) as [[d|e] s3].
Qed.

Lemma co_keeps_bind {A B} (m : Coroutine S A) (f : A → Coroutine S B) :
  co_keeps I m → (∀ a, co_keeps I (f a)) → co_keeps I (m ≫= f).
Proof.
  intros Hm Hf s HI. specialize (Hm s HI). unfold wpx, mbind, Coroutine_bind in *.
  destruct (m s) as [[c|e] s']; [|done]. destruct Hm as [HI' Hc].
  exact (co_keeps_then c f Hc Hf s' HI').
Qed.

Lemma co_keeps_for_each {A} (l : list A) (body : A → Coroutine S unit) :
  (∀ x, co_keeps I (body x)) → co_keeps I (co_for_each l body).
Proof.
  intros Hbody. induction l as [|x l IH]; [apply co_keeps_ret|].
  by apply co_keeps_bind; [|intros _].
Qed.

Lemma co_keeps_fold {A B} (body : B → A → Coroutine S B) (l : list A) b :
  (∀ b x, co_keeps I (body b x)) → co_keeps I (co_fold body l b).
Proof.
  intros Hbody. revert b. induction l as [|x l IH]; intros b; [apply co_keeps_ret|].
  by apply co_keeps_bind.
Qed.

Lemma co_keeps_last {A} (c : Co S A) (k : M S unit) :
  co_safe I c → preserves I k → co_keeps I (co_last c k).
Proof.
  intros Hc Hk. induction c as [a|w resume IH] using co_induction.
  - apply co_keeps_lift. apply preserves_bind; [done|]. intros _. apply preserves_ret.
  - intros s HI. split; [done|]. cbn. intros x s1 Hx HI1. specialize (Hc x s1 Hx HI1).
    destruct (resume x s1) as [[c|e] s2] eqn:Hr.
    + destruct Hc as [HI2 Hc]. pose proof (IH _ _ _ _ Hr Hc s2 HI2) as Hrest.
      unfold wpx in Hrest. by destruct (co_last c k s2) as [[d|e] s3].
    + assert (co_keeps (A:=A) I (co_lift (_ ← k; throw e))) as Hlast.
      { apply co_keeps_lift, preserves_bind; [done|]. intros _. apply preserves_throw. }
      specialize (Hlast s2 Hc). unfold wpx in Hlast. by destruct (co_lift _ s2) as [[d|e'] s3].
Qed.

Lemma co_keeps_finally {A} (m : Coroutine S A) (k : M S unit) :
  co_keeps I m → preserves I k → co_keeps I (co_finally m k).
Proof.
  intros Hm Hk s HI. specialize (Hm s HI). unfold wpx, co_finally in *.
  destruct (m s) as [[c|e] s'].
  - destruct Hm as [HI' Hc]. exact (co_keeps_last c k Hc Hk s' HI').
  - assert (co_keeps (A:=A) I (co_lift (_ ← k; throw e))) as Hlast.
    { apply co_keeps_lift, preserves_bind; [done|]. intros _. apply preserves_throw. }
    exact (Hlast s' Hm).
Qed.

(** A coroutine of a component. *)
Lemma co_keeps_inside {C A} (J : C → Prop) (l : Lens S C) (c : Co C A) :
  (∀ s, I s → J (lget l s)) → (∀ s c, I s → J c → I (lset l c s)) →
  co_safe J c → co_safe I (co_inside l c).
Proof.
  intros Hget Hset. induction c as [a|w resume IH] using co_induction; [done|].
  cbn. intros Hc x s Hx HI. specialize (Hc x (lget l s) Hx (Hget s HI)).
  destruct (resume x (lget l s)) as [[c|e] t] eqn:Hr; [|by apply Hset].
  destruct Hc as [Ht Hc]. split; [by apply Hset|]. by eapply IH.
Qed.

Lemma co_keeps_zoom {C A} (J : C → Prop) (l : Lens S C) (m : Coroutine C A) :
  (∀ s, I s → J (lget l s)) → (∀ s c, I s → J c → I (lset l c s)) →
  co_keeps J m → co_keeps I (co_zoom l m).
Proof.
  intros Hget Hset Hm s HI. specialize (Hm _ (Hget s HI)). unfold wpx, co_zoom in *.
  destruct (m (lget l s)) as [[c|e] t]; [|by apply Hset]. destruct Hm as [Ht Hc].
  split; [by apply Hset|]. by eapply co_keeps_inside.
Qed.
End Keeps.
End Lemmas.

(** One step of a driven coroutine under [wpx] or [wp]. *)
Ltac co_step :=
  lazymatch goal with
  | |- wp _ _ _ => unfold wp; co_step
  | |- wpx (drive ?l ?env (mbind _ _)) _ _ _ => apply (proj2 (wpx_drive_bind l env _ _ _ _ _))
  | |- wpx (drive ?l ?env (co_lift _)) _ _ _ =>
      apply (proj2 (wpx_drive_lift l env _ _ _ _)), (proj2 (wpx_zoom _ _ _ _ _))
  | |- wpx (drive ?l ?env (await ?p)) _ _ _ =>
      apply (proj2 (wpx_drive_await l env (Answer p) _ _ _))
  | |- wpx (drive ?l ?env (co_await ?w)) _ _ _ =>
      apply (proj2 (wpx_drive_await l env w _ _ _))
  | |- wpx (drive ?l ?env (mret _)) _ _ _ => apply (proj2 (wpx_drive_ret l env _ _ _ _))
  | |- wpx (drive ?l ?env (co_zoom _ _)) _ _ _ =>
      apply (proj2 (wpx_drive_zoom l env _ _ _ _ _))
  end.
