(* ===== verification/Services.v ===== *)
(** * What the node's managers rely on of the rest of the process

    BlockchainManager and TransactionPoolManager share the three stores of the node and send
    through the PeerManager and the event loop. [Stores] is the shared state, and the class
    [Services] is the contract of everything else: which operations there are, and what each
    one does to what can be observed of the process ([View]). The managers are verified against
    this class; the node of Node.v is an instance. *)

From stdpp Require Import base sets list gmap strings.
From Stdlib Require Import ZArith Lia.
From S2P Require Import Prelude Json Crypto LevelDB Fifo Enums Models Messages DBInterface.
From S2P Require Import Stores Blockchain TransactionPool Event.

Open Scope Z_scope.

(** The stores the shared pointers of the node's managers point to. *)
Record Stores `{LevelDB} `{FifoLib} := MkStores {
  st_chain : db;
  st_spent : db;
  st_pool : TransactionPool }.

Section Lenses.
Context `{LevelDB} `{FifoLib}.

Definition chainL : Lens Stores db :=
  MkLens st_chain (λ d s, MkStores _ _ d (st_spent s) (st_pool s)).

Definition spentL : Lens Stores db :=
  MkLens st_spent (λ d s, MkStores _ _ (st_chain s) d (st_pool s)).

Definition poolL : Lens Stores TransactionPool :=
  MkLens st_pool (λ p s, MkStores _ _ (st_chain s) (st_spent s) p).

#[global] Instance chainL_laws : LensLaws chainL.
Proof. by split; intros; destruct s. Qed.

#[global] Instance spentL_laws : LensLaws spentL.
Proof. by split; intros; destruct s. Qed.

#[global] Instance poolL_laws : LensLaws poolL.
Proof. by split; intros; destruct s. Qed.
End Lenses.

(** Computes loads and stores through the lenses and nothing of the program. *)
Ltac st_cbn :=
  cbn [lget lset lens_comp chainL spentL poolL pool_dbL pool_queueL st_chain st_spent st_pool
       pool_db pool_queue fst snd].

Section Services.
Context `{JsonLib} `{LevelDB} `{FifoLib}.

(** The task broadcast_to_peers_of_type_and_forget posts for one connection, a shared pointer
    that may be null. *)
Record Task := MkTask {
  tk_sender : string;
  tk_peer_types : list PeerType.t;
  tk_receiver : string;
  tk_connection : option nat;
  tk_type : PeerMessageType.t;
  tk_content : json }.

#[global] Instance Task_eq_dec : EqDecision Task.
Proof. solve_decision. Defined.

(** What can be observed of the process beside the stores: its identity, the connections of
    the PeerManager, the tasks its executor was given and the pending events. *)
Record View := MkView {
  v_id : string;
  v_peers : list (string * option nat);
  v_posted : list Task;
  v_enqueued : list Event }.

Definition push_event (e : Event) (v : View) : View :=
  MkView (v_id v) (v_peers v) (v_posted v) (v_enqueued v ++ [e]).

Definition push_tasks (ts : list Task) (v : View) : View :=
  MkView (v_id v) (v_peers v) (v_posted v ++ ts) (v_enqueued v).

Definition push_events (es : list Event) (v : View) : View :=
  MkView (v_id v) (v_peers v) (v_posted v) (v_enqueued v ++ es).

(** The tasks of one broadcast. *)
Definition broadcast_tasks (types : list PeerType.t) (type : PeerMessageType.t)
    (content : json) (v : View) : list Task :=
  map (λ pc, MkTask (v_id v) types pc.1 pc.2 type content) (v_peers v).

(** [e] asks the PeerManager to send a message with these parts, stamped with some time. *)
Definition send_event (type : PeerMessageType.t) (sender receiver tag : string)
    (content : json) (e : Event) : Prop :=
  ∃ t t', u64 t ∧ e = EvInternalPeer (MkInternalMessage InternalMessageType.SendPeerMessage
                (MkPeerMessage type sender receiver tag content t) t' 0).

(** [e] is a notification without content. *)
Definition empty_notification (type : InternalNotificationType.t) (e : Event) : Prop :=
  ∃ tag, e = EvEmpty (MkInternalNotification type tt tag).

(** What a handler may assume of an event: its JSON came out of a parser and its block out of
    this process. *)
Definition event_ok `{CryptoLib} (e : Event) : Prop :=
  match e with
  | EvPeer m => wf_peer_message m
  | EvBlock n => wf_block (in_content n)
  | _ => True
  end.

Class Services (S : Type) := {
  svc_stores : Lens S Stores;
  svc_view : S → View;
  (** PeerMessage::create_tag() *)
  svc_create_tag : M S string;
  (** PeerManager::send_and_forget(type, sender, receiver, tag, content) *)
  svc_send : PeerMessageType.t → string → string → string → json → M S unit;
  (** PeerManager::broadcast_to_peers_of_type_and_forget, no peer excepted *)
  svc_broadcast : list PeerType.t → PeerMessageType.t → json → M S unit;
  (** enqueue<InternalNotification<void>> on the loop's queue *)
  svc_notify : InternalNotificationType.t → M S unit;
  (** enqueue<InternalNotification<Block>> on the loop's queue *)
  svc_notify_block : InternalNotificationType.t → Block → M S unit;
  (** EventQueue::event_of_type(type) and any_event_of_type(types): promises *)
  svc_event_of_type : EventType → M S nat;
  svc_any_event_of_type : list EventType → M S (list nat);

  svc_stores_laws :: LensLaws svc_stores;
  svc_view_stores st s : svc_view (lset svc_stores st s) = svc_view s;
  svc_create_tag_spec s :
    wp svc_create_tag (λ tag s', lget svc_stores s' = lget svc_stores s ∧
                                 svc_view s' = svc_view s ∧ text tag) s;
  svc_send_spec type sender receiver tag content s :
    wp (svc_send type sender receiver tag content)
       (λ _ s', lget svc_stores s' = lget svc_stores s ∧
          ∃ e, send_event type sender receiver tag content e ∧
               svc_view s' = push_event e (svc_view s)) s;
  svc_broadcast_spec types type content s :
    wp (svc_broadcast types type content)
       (λ _ s', lget svc_stores s' = lget svc_stores s ∧
          svc_view s' = push_tasks (broadcast_tasks types type content (svc_view s))
                                   (svc_view s)) s;
  svc_notify_spec type s :
    wp (svc_notify type)
       (λ _ s', lget svc_stores s' = lget svc_stores s ∧
          ∃ e, empty_notification type e ∧ svc_view s' = push_event e (svc_view s)) s;
  svc_notify_block_spec type block s :
    wp (svc_notify_block type block)
       (λ _ s', lget svc_stores s' = lget svc_stores s ∧
          ∃ tag, svc_view s' =
                 push_event (EvBlock (MkInternalNotification type block tag)) (svc_view s)) s;
  svc_event_of_type_spec type s :
    wp (svc_event_of_type type)
       (λ _ s', lget svc_stores s' = lget svc_stores s ∧ svc_view s' = svc_view s) s;
  svc_any_event_of_type_spec types s :
    wp (svc_any_event_of_type types)
       (λ _ s', lget svc_stores s' = lget svc_stores s ∧ svc_view s' = svc_view s) s }.

(** PeerManager::id() *)
Definition svc_id {P : Type} `{!Services P} (s : P) : string := v_id (svc_view s).
End Services.

(** ** Spending: how the pool and the spent transactions change with a block

    [R] says that no write fails. *)

Section Spending.
Implicit Types (p s : gmap string Transaction) (ts : list Transaction).

Record spend_rel (R : Prop) ts p s p' s' : Prop := {
  sr_pool k : p' !! k = p !! k ∨ (p' !! k = None ∧ k ∈ map tx_hash ts);
  sr_spent k t : s !! k = Some t → s' !! k = Some t;
  sr_new k t : s' !! k = Some t →
    s !! k = Some t ∨ (t ∈ ts ∧ tx_hash t = k ∧ is_Some (p !! k) ∧ p' !! k = None);
  sr_reliable k : R → k ∈ map tx_hash ts →
    p' !! k = None ∧ (is_Some (p !! k) → is_Some (s' !! k)) }.

Definition disjoint_maps p s : Prop := ∀ k, p !! k = None ∨ s !! k = None.

Lemma spend_rel_nil R p s : spend_rel R [] p s p s.
Proof. split; auto. intros k _ Hk. by apply elem_of_nil in Hk. Qed.

Lemma spend_rel_trans R ts1 ts2 p1 s1 p2 s2 p3 s3 :
  spend_rel R ts1 p1 s1 p2 s2 → spend_rel R ts2 p2 s2 p3 s3 →
  spend_rel R (ts1 ++ ts2) p1 s1 p3 s3.
Proof.
  intros [Hp1 Hs1 Hn1 Hr1] [Hp2 Hs2 Hn2 Hr2]. split.
  - intros k. rewrite map_app, elem_of_app.
    destruct (Hp1 k) as [E1|[E1 ?]], (Hp2 k) as [E2|[E2 ?]]; rewrite ?E2; auto.
  - eauto.
  - intros k t Hk. rewrite elem_of_app. apply Hn2 in Hk as [Hk|(? & ? & [u Hu] & ?)].
    + apply Hn1 in Hk as [?|(? & ? & ? & Hnone)]; [by left|right]. split_and!; auto.
      destruct (Hp2 k) as [->|[-> _]]; done.
    + right. split_and!; auto. destruct (Hp1 k) as [<-|[? _]]; [by eexists|congruence].
  - intros k HR. rewrite map_app, elem_of_app. intros Hk.
    assert (k ∈ map tx_hash ts1 → is_Some (p1 !! k) → is_Some (s3 !! k)) as Hfirst.
    { intros Hk1 Hsome. destruct (Hr1 k HR Hk1) as [_ Hs]. destruct (Hs Hsome). eauto. }
    split.
    + destruct Hk as [Hk|Hk]; [|by apply Hr2]. destruct (Hr1 k HR Hk) as [Hnone _].
      destruct (Hp2 k) as [->|[-> _]]; done.
    + intros Hsome. destruct Hk as [Hk|Hk]; [auto|].
      destruct (Hp1 k) as [Heq|[_ ?]]; [|auto]. apply Hr2; [done..|by rewrite Heq].
Qed.

(** One transaction: it is not pooled or its removal fails, or it is moved. *)
Lemma spend_rel_keep R t p s : (R → p !! tx_hash t = None) → spend_rel R [t] p s p s.
Proof.
  intros Hp. split; auto. intros k HR ->%list_elem_of_singleton. rewrite Hp by done.
  split; [done|]. by intros [? ?].
Qed.

Lemma spend_rel_move (R : Prop) t p s (ok : bool) :
  is_Some (p !! tx_hash t) → s !! tx_hash t = None → (R → ok = true) →
  spend_rel R [t] p s (delete (tx_hash t) p) (if ok then <[tx_hash t := t]> s else s).
Proof.
  intros Hp Hs Hok. split.
  - intros k. rewrite lookup_delete. case_decide as Heq; [|by left].
    right. split; [done|]. subst. apply list_elem_of_here.
  - intros k u Hk. destruct ok; [|done]. rewrite lookup_insert_ne; [done|congruence].
  - intros k u. destruct ok; [|by left]. intros [[<- <-]|[_ ?]]%lookup_insert_Some; [|by left].
    right. split_and!; [apply list_elem_of_here|done|done|apply lookup_delete_eq].
  - intros k HR ->%list_elem_of_singleton. rewrite Hok, lookup_delete_eq, lookup_insert_eq by done.
    split; [done|by eexists].
Qed.

Lemma spend_rel_disjoint R ts p s p' s' :
  spend_rel R ts p s p' s' → disjoint_maps p s → disjoint_maps p' s'.
Proof.
  intros [Hp _ Hn _] Hd k. destruct (p' !! k) as [u|] eqn:Hu; [right|by left].
  destruct (s' !! k) as [t|] eqn:Ht; [exfalso|done].
  apply Hn in Ht as [Ht|(_ & _ & _ & ?)]; [|congruence].
  destruct (Hp k) as [Heq|[? _]]; [|congruence]. destruct (Hd k); congruence.
Qed.
End Spending.

(** ** The invariant of the stores *)

Section StoresInvariant.
Context `{JsonLib} `{CryptoLib} `{LevelDB} `{FifoLib}.

Definition chain_map (st : Stores) : gmap string Block := db_abs (st_chain st).
Definition spent_map (st : Stores) : gmap string Transaction := db_abs (st_spent st).
Definition pool_map (st : Stores) : gmap string Transaction := db_abs (pool_db (st_pool st)).

(** Every database holds values of its type under their tags, no pooled transaction is spent,
    and every queued transaction is well formed. *)
Record stores_wf (st : Stores) : Prop := {
  sw_chain : db_wf (T:=Block) (st_chain st);
  sw_spent : db_wf (T:=Transaction) (st_spent st);
  sw_pool : db_wf (T:=Transaction) (pool_db (st_pool st));
  sw_disjoint : disjoint_maps (pool_map st) (spent_map st);
  sw_queue : ∀ t, ItemTransaction t ∈ fifo_view (pool_queue (st_pool st)) → wf_transaction t }.

(** The stores hold a chain that starts with [g]. *)
Definition stores_inv (g : Block) (st : Stores) : Prop :=
  stores_wf st ∧ ∃ bs, chain_of g bs (chain_map st).
End StoresInvariant.

