(* ===== verification/BlockchainManager.v ===== *)
(** * The blockchain manager (Servers/Node/Blockchain/BlockchainManager.{h,cpp})

    The four handlers the constructor registers, for a process with [Services]. *)

From stdpp Require Import base sets list gmap strings.
From Stdlib Require Import ZArith Lia.
From S2P Require Import Prelude Json Crypto LevelDB Fifo Enums Models Messages DBInterface.
From S2P Require Import Stores Blockchain Validator TransactionPool Event Services.

Open Scope Z_scope.

(** The callbacks of the manager. *)
Inductive BlockchainListener :=
  | OnBlockHeadersRequest
  | OnBlockRequest
  | OnAddBlock
  | OnBlockMined.

(** The event types the constructor appends them to, in order. *)
Definition BlockchainManager_listeners : list (EventType * BlockchainListener) :=
  [(PeerEvent PeerMessageType.BlockHeadersRequest, OnBlockHeadersRequest);
   (PeerEvent PeerMessageType.BlockRequest, OnBlockRequest);
   (PeerEvent PeerMessageType.AddBlock, OnAddBlock);
   (NotificationEvent InternalNotificationType.BlockMined, OnBlockMined)].

Section Handlers.
Context `{JsonLib} `{CryptoLib} `{LevelDB} `{FifoLib} {S : Type} `{!Services S}.

Definition on_chain {A} (m : M db A) : M S A := zoom (lens_comp svc_stores chainL) m.
Definition on_spent {A} (m : M db A) : M S A := zoom (lens_comp svc_stores spentL) m.
Definition on_pool {A} (m : M TransactionPool A) : M S A :=
  zoom (lens_comp svc_stores poolL) m.

Definition on_block_headers_request (e : Event) : M S unit :=
  peer_message ← lift_result (get_peer e);
  last_header ← lift_result (BlockHeader_from_json (pm_content peer_message));
  headers ← on_chain (reads (get_all_after last_header));
  svc_send PeerMessageType.BlockHeadersResponse (pm_receiver_identity peer_message)
    (pm_sender_identity peer_message) (pm_tag peer_message)
    (BlockHeadersResponseContent_to_json headers).

Definition on_block_request (e : Event) : M S unit :=
  peer_message ← lift_result (get_peer e);
  block_header ← lift_result (BlockHeader_from_json (pm_content peer_message));
  block ← on_chain (reads (get (T:=Block) (bh_hash block_header)));
  id ← gets svc_id;
  match block with
  | Some block =>
      svc_send PeerMessageType.BlockResponse id (pm_sender_identity peer_message)
        (pm_tag peer_message) (Block_to_json block)
  | None =>
      svc_send PeerMessageType.BlockNotFoundResponse id (pm_sender_identity peer_message)
        (pm_tag peer_message) jnull
  end.

(** [for (tx : transactions) if (pool->remove(tx)) spent->put(tx);] *)
Definition spend_transactions (transactions : list Transaction) : M S unit :=
  for_each transactions (λ transaction,
    removed ← on_pool (zoom pool_dbL (remove transaction));
    if (removed : bool) then
      _ ← on_spent (put transaction);
      mret tt
    else mret tt).

Definition validate (block : Block) : M S ValidationState.t :=
  st ← gets (lget svc_stores);
  lift_result (validate_block (st_chain st) (st_spent st) block).

Definition on_add_block (e : Event) : M S unit :=
  message ← lift_result (get_peer e);
  block ← lift_result (Block_from_json (pm_content message));
  validation_state ← validate block;
  if decide (validation_state ≠ ValidationState.Success) then
    tag ← svc_create_tag;
    id ← gets svc_id;
    svc_send PeerMessageType.BlockRejected id (pm_sender_identity message) tag
      (enum_to_json ValidationState.table validation_state)
  else
    let block := Block_set_transactions_status TransactionStatus.Verified block in
    _ ← on_chain (put block);
    _ ← spend_transactions (bl_transactions block);
    tag ← svc_create_tag;
    id ← gets svc_id;
    _ ← svc_send PeerMessageType.BlockAccepted id (pm_sender_identity message) tag
          (BlockHeader_to_json (bl_header block));
    svc_broadcast [PeerType.Observer] PeerMessageType.AddBlock (Block_to_json block).

(** The messages sent for one transaction of a mined block. *)
Definition announce_transaction (transaction : Transaction) : M S unit :=
  tag ← svc_create_tag;
  id ← gets svc_id;
  _ ← svc_send PeerMessageType.SetTransactionStatus id (tx_from transaction) tag
        (SetTransactionStatusContent_to_json
           (MkSetTransactionStatusContent TransactionStatus.Verified (tx_hash transaction)));
  tag ← svc_create_tag;
  svc_send PeerMessageType.AddTransaction id (tx_to transaction) tag
    (Transaction_to_json transaction).

Definition on_block_mined (e : Event) : M S unit :=
  notification ← lift_result (get_block_notification e);
  let block := in_content notification in
  validation_state ← validate block;
  if decide (validation_state ≠ ValidationState.Success) then
    svc_notify InternalNotificationType.MinedBlockValidated
  else
    let block := Block_set_transactions_status TransactionStatus.Verified block in
    _ ← on_chain (put block);
    _ ← spend_transactions (bl_transactions block);
    _ ← svc_notify InternalNotificationType.MinedBlockValidated;
    _ ← svc_broadcast [PeerType.Observer] PeerMessageType.AddBlock (Block_to_json block);
    for_each (bl_transactions block) announce_transaction.

Definition run_blockchain_listener (l : BlockchainListener) : Event → M S unit :=
  match l with
  | OnBlockHeadersRequest => on_block_headers_request
  | OnBlockRequest => on_block_request
  | OnAddBlock => on_add_block
  | OnBlockMined => on_block_mined
  end.
End Handlers.

(** ** Lemmas: what the handlers do to the stores *)

Section StoreLemmas.
Context `{JsonLib} `{CryptoLib} `{LevelDB} `{FifoLib} {S : Type} `{!Services S}.
Implicit Types (s : S) (st : Stores).

(** [st'] differs from [st] by spending [ts]. *)
Record spent_step (ts : list Transaction) st st' : Prop := {
  sp_wf : stores_wf st';
  sp_chain : st_chain st' = st_chain st;
  sp_queue : pool_queue (st_pool st') = pool_queue (st_pool st);
  sp_rel : spend_rel ReliableWrites ts (pool_map st) (spent_map st)
                     (pool_map st') (spent_map st') }.

Lemma spent_step_nil st : stores_wf st → spent_step [] st st.
Proof. intros Hwf. split; auto using spend_rel_nil. Qed.

Lemma spent_step_trans ts1 ts2 st1 st2 st3 :
  spent_step ts1 st1 st2 → spent_step ts2 st2 st3 → spent_step (ts1 ++ ts2) st1 st3.
Proof.
  intros [? Hc1 Hq1 ?] [? Hc2 Hq2 ?]. split; [done|congruence|congruence|].
  by eapply spend_rel_trans.
Qed.

(** Replacing the pool's and the spent database keeps the invariant when the maps do. *)
Lemma stores_wf_replace st p d :
  stores_wf st → db_wf (T:=Transaction) p → db_wf (T:=Transaction) d →
  disjoint_maps (db_abs p) (db_abs d) →
  stores_wf (MkStores _ _ (st_chain st) d (MkTransactionPool p (pool_queue (st_pool st)))).
Proof. intros [? ? ? ? ?] ? ? ?. by split. Qed.

Lemma spend_one st t Q E s :
  lget svc_stores s = st → stores_wf st → wf_transaction t →
  (∀ st', spent_step [t] st st' → Q tt (lset svc_stores st' s)) →
  wpx (removed ← on_pool (zoom pool_dbL (remove t));
       if (removed : bool) then _ ← on_spent (put t); mret tt else mret tt) Q E s.
Proof.
  intros Hst Hwf Ht HQ. unfold on_pool, on_spent. do 3 wp_step. st_cbn. rewrite Hst.
  apply wpx_remove; [apply Hwf|]. intros ok p' Hp' Hrm Hrel.
  change (data_tag t) with (tx_hash t) in *. fold (pool_map st) in *. unfold remove_spec in *.
  assert (spend_rel ReliableWrites [t] (pool_map st) (spent_map st) (db_abs p') (spent_map st) →
    Q tt (lset svc_stores (MkStores _ _ (st_chain st) (st_spent st)
      (MkTransactionPool p' (pool_queue (st_pool st)))) s)) as Hkeep.
  { intros Hsr. apply HQ. split; [|done..].
    apply stores_wf_replace; [done..|apply Hwf|]. eapply spend_rel_disjoint; [done|apply Hwf]. }
  destruct (pool_map st !! tx_hash t) as [u|] eqn:Hu; [destruct ok|].
  - assert (spent_map st !! tx_hash t = None) as Hnew.
    { destruct (sw_disjoint st Hwf (tx_hash t)); congruence. }
    st_cbn. do 2 wp_step. st_cbn. rewrite lget_lset. st_cbn.
    apply wpx_put; [apply Hwf|done|]. intros ok' d Hd Hput Hrel'. wp_step. st_cbn.
    rewrite lset_lset. apply HQ. unfold put_spec in Hput.
    change (data_tag t) with (tx_hash t) in Hput. fold (spent_map st) in Hput.
    rewrite Hnew in Hput. cbn in Hput, Hrm.
    assert (spend_rel ReliableWrites [t] (pool_map st) (spent_map st)
              (db_abs p') (db_abs d)) as Hsr.
    { rewrite Hrm, Hput. apply spend_rel_move; [by eexists|done|done]. }
    split; [|done..]. apply stores_wf_replace; [done..|].
    eapply spend_rel_disjoint; [done|apply Hwf].
  - st_cbn. wp_step. apply Hkeep. cbn in Hrm. rewrite Hrm. apply spend_rel_keep.
    intros HR. by specialize (Hrel HR).
  - st_cbn. wp_step. apply Hkeep. cbn in Hrm. rewrite Hrm. by apply spend_rel_keep.
Qed.

Lemma spend_transactions_spec ts st Q E s :
  lget svc_stores s = st → stores_wf st → Forall wf_transaction ts →
  (∀ st', spent_step ts st st' → Q tt (lset svc_stores st' s)) →
  wpx (spend_transactions ts) Q E s.
Proof.
  intros Hst Hwf Hts HQ. unfold spend_transactions.
  eapply (wpx_mono _ (λ _ s', ∃ st', s' = lset svc_stores st' s ∧ spent_step ts st st')).
  - apply (wpx_for_each (λ don s', ∃ st', s' = lset svc_stores st' s ∧ spent_step don st st')).
    + intros don t rest s' Hl (st' & -> & Hstep).
      apply (spend_one st'); [by rewrite lget_lset|apply Hstep| |].
      * subst ts. apply Forall_app in Hts as [_ Hts]. by inversion Hts.
      * intros st'' Hstep'. exists st''. rewrite lset_lset. split; [done|].
        by eapply spent_step_trans.
    + exists st. rewrite <-Hst, lset_lget. split; [done|]. apply spent_step_nil. by rewrite Hst.
  - intros [] s' (st' & -> & Hstep). by apply HQ.
  - done.
Qed.
End StoreLemmas.

Section HandlerLemmas.
Context `{JsonLib} `{CryptoLib} `{LevelDB} `{FifoLib} {S : Type} `{!Services S}.
Implicit Types (s : S) (st : Stores) (b g : Block) (bs : list Block).

Definition verified (b : Block) : Block :=
  Block_set_transactions_status TransactionStatus.Verified b.

(** What accepting [b] on top of the chain [g :: bs] makes of the stores. *)
Record accepted g bs b st st' : Prop := {
  ac_wf : stores_wf st';
  ac_queue : pool_queue (st_pool st') = pool_queue (st_pool st);
  ac_rel : spend_rel ReliableWrites (bl_transactions (verified b)) (pool_map st)
             (spent_map st) (pool_map st') (spent_map st');
  ac_chain :
    (chain_of g bs (chain_map st') ∧
     (ReliableWrites → is_Some (chain_map st !! Block_hash b))) ∨
    (chain_of g (bs ++ [verified b]) (chain_map st') ∧
     chain_map st !! Block_hash b = None) }.

Lemma wpx_accept g bs b st {A} (k : M S A) Q E s :
  lget svc_stores s = st → stores_wf st → chain_of g bs (chain_map st) → wf_block b →
  follows (tip g bs) b →
  (∀ st', accepted g bs b st st' → wpx k Q E (lset svc_stores st' s)) →
  wpx (_ ← on_chain (put (verified b));
       _ ← spend_transactions (bl_transactions (verified b)); k) Q E s.
Proof.
  intros Hst Hwf Hchain Hb Hf HQ. pose proof (wf_block_set_status TransactionStatus.Verified b Hb)
    as Hvb. unfold on_chain. do 2 wp_step. st_cbn. rewrite Hst.
  apply wpx_put; [apply Hwf|exact Hvb|]. intros ok d Hd Hput Hrel. wp_step.
  eapply (spend_transactions_spec _ (MkStores _ _ d (st_spent st) (st_pool st))).
  { by rewrite lget_lset. }
  { destruct Hwf. by split. }
  { apply Hvb. }
  intros st' [Hwf' Hc Hq Hsp]. rewrite lset_lset. apply HQ. split; [done..|].
  unfold chain_map at 1 3. rewrite Hc. cbn. rewrite Hput. unfold put_spec.
  change (data_tag (verified b)) with (Block_hash b). fold (chain_map st).
  destruct (chain_map st !! Block_hash b) as [c|] eqn:Hn; cbn; [left; by eauto|].
  destruct ok.
  - right. split; [|done]. by apply (chain_extend g bs _ (verified b)).
  - left. split; [done|]. intros HR. by specialize (Hrel HR).
Qed.

Lemma wpx_validate g bs st b (Q : ValidationState.t → S → Prop) E s :
  lget svc_stores s = st → stores_wf st → chain_of g bs (chain_map st) →
  Q (verdict (tip g bs) (st_spent st) b) s → wpx (validate b) Q E s.
Proof.
  intros Hst Hwf Hchain HQ. unfold validate. do 2 wp_step. rewrite Hst.
  eapply wpx_lift_ok; [|exact HQ]. by apply validate_block_chain; [apply Hwf| |apply Hwf].
Qed.

Lemma wpx_svc_send type sender receiver tag content (Q : unit → S → Prop) E s :
  (∀ s' e, lget svc_stores s' = lget svc_stores s →
     send_event type sender receiver tag content e →
     svc_view s' = push_event e (svc_view s) → Q tt s') →
  wpx (svc_send type sender receiver tag content) Q E s.
Proof.
  intros HQ. apply wp_wpx. eapply wp_mono; [apply svc_send_spec|].
  intros [] s' (? & e & ? & ?). by eapply HQ.
Qed.

Lemma wpx_svc_tag (Q : string → S → Prop) E s :
  (∀ s' tag, lget svc_stores s' = lget svc_stores s → svc_view s' = svc_view s →
     text tag → Q tag s') →
  wpx svc_create_tag Q E s.
Proof.
  intros HQ. apply wp_wpx. eapply wp_mono; [apply svc_create_tag_spec|].
  intros tag s' (? & ? & ?). by apply HQ.
Qed.

Lemma wpx_svc_broadcast types type content (Q : unit → S → Prop) E s :
  (∀ s', lget svc_stores s' = lget svc_stores s →
     svc_view s' = push_tasks (broadcast_tasks types type content (svc_view s)) (svc_view s) →
     Q tt s') →
  wpx (svc_broadcast types type content) Q E s.
Proof.
  intros HQ. apply wp_wpx. eapply wp_mono; [apply svc_broadcast_spec|].
  intros [] s' (? & ?). by apply HQ.
Qed.

Lemma wpx_svc_notify type (Q : unit → S → Prop) E s :
  (∀ s' e, lget svc_stores s' = lget svc_stores s → empty_notification type e →
     svc_view s' = push_event e (svc_view s) → Q tt s') →
  wpx (svc_notify type) Q E s.
Proof.
  intros HQ. apply wp_wpx. eapply wp_mono; [apply svc_notify_spec|].
  intros [] s' (? & e & ? & ?). by eapply HQ.
Qed.
End HandlerLemmas.

Section HandlerSpecs.
Context `{JsonLib} `{CryptoLib} `{LevelDB} `{FifoLib} {S : Type} `{!Services S}.
Implicit Types (s : S) (st : Stores) (b g : Block) (bs : list Block).

(** The decoded block decides everything: refused, or added. *)
Lemma on_add_block_refused g bs st m b s :
  lget svc_stores s = st → stores_wf st → chain_of g bs (chain_map st) →
  Block_from_json (pm_content m) = Ok b →
  verdict (tip g bs) (st_spent st) b ≠ ValidationState.Success →
  wp (on_add_block (EvPeer m))
     (λ _ s', lget svc_stores s' = st ∧
        ∃ tag e, text tag ∧
          send_event PeerMessageType.BlockRejected (svc_id s) (pm_sender_identity m) tag
            (enum_to_json ValidationState.table (verdict (tip g bs) (st_spent st) b)) e ∧
          svc_view s' = push_event e (svc_view s)) s.
Proof.
  intros Hst Hwf Hchain Hb Hv. unfold on_add_block. wp_step.
  eapply wpx_lift_ok; [done|]. wp_step. eapply wpx_lift_ok; [exact Hb|]. wp_step.
  eapply wpx_validate; [done..|]. rewrite decide_True by done.
  wp_step. apply wpx_svc_tag. intros s1 tag Hst1 Hview1 Htag. do 2 wp_step.
  apply wpx_svc_send. intros s2 e Hst2 He Hview2. split; [congruence|].
  exists tag, e. unfold svc_id in *. rewrite Hview2, Hview1. rewrite Hview1 in He. done.
Qed.

Lemma on_add_block_added g bs st m b s :
  lget svc_stores s = st → stores_wf st → chain_of g bs (chain_map st) →
  Block_from_json (pm_content m) = Ok b → canonical (pm_content m) →
  verdict (tip g bs) (st_spent st) b = ValidationState.Success →
  wp (on_add_block (EvPeer m))
     (λ _ s', accepted g bs b st (lget svc_stores s') ∧
        ∃ tag e, text tag ∧
          send_event PeerMessageType.BlockAccepted (svc_id s) (pm_sender_identity m) tag
            (BlockHeader_to_json (bl_header b)) e ∧
          svc_view s' =
            push_tasks (broadcast_tasks [PeerType.Observer] PeerMessageType.AddBlock
                          (Block_to_json (verified b)) (svc_view s))
              (push_event e (svc_view s))) s.
Proof.
  intros Hst Hwf Hchain Hb Hc Hv. pose proof (Block_from_json_wf _ _ Hc Hb) as Hwfb.
  unfold on_add_block. wp_step.
  eapply wpx_lift_ok; [done|]. wp_step. eapply wpx_lift_ok; [exact Hb|]. wp_step.
  eapply wpx_validate; [done..|]. rewrite decide_False by tauto.
  eapply (wpx_accept g bs b st); [done..|by apply verdict_success in Hv as [? _]|].
  intros st' Hacc. wp_step. apply wpx_svc_tag. intros s1 tag Hst1 Hview1 Htag. do 3 wp_step.
  apply wpx_svc_send. intros s2 e Hst2 He Hview2. apply wpx_svc_broadcast.
  intros s3 Hst3 Hview3. rewrite lget_lset in Hst1. rewrite svc_view_stores in Hview1. split.
  - by rewrite Hst3, Hst2, Hst1.
  - exists tag, e. unfold svc_id in *. rewrite Hview1 in He. rewrite Hview3, Hview2, Hview1.
    done.
Qed.

(** ** The events a mined block is announced with *)

Fixpoint announces (id : string) (txs : list Transaction) (es : list Event) : Prop :=
  match txs, es with
  | [], [] => True
  | t :: txs, e1 :: e2 :: es =>
      (∃ tag, send_event PeerMessageType.SetTransactionStatus id (tx_from t) tag
                (SetTransactionStatusContent_to_json
                   (MkSetTransactionStatusContent TransactionStatus.Verified (tx_hash t))) e1) ∧
      (∃ tag, send_event PeerMessageType.AddTransaction id (tx_to t) tag
                (Transaction_to_json t) e2) ∧
      announces id txs es
  | _, _ => False
  end.

Lemma announces_app id ts1 es1 ts2 es2 :
  announces id ts1 es1 → announces id ts2 es2 → announces id (ts1 ++ ts2) (es1 ++ es2).
Proof.
  revert es1. induction ts1 as [|t ts1 IH]; intros [|e1 [|e2 es1]]; cbn; try done.
  intros (? & ? & ?) ?. split_and!; auto.
Qed.

Lemma push_events_app es1 es2 v :
  push_events es2 (push_events es1 v) = push_events (es1 ++ es2) v.
Proof. unfold push_events. cbn. by rewrite app_assoc. Qed.

Lemma push_event_events e v : push_event e v = push_events [e] v.
Proof. done. Qed.

Lemma push_events_nil v : push_events [] v = v.
Proof. destruct v. unfold push_events. cbn. by rewrite app_nil_r. Qed.

Lemma announce_all txs (Q : unit → S → Prop) E s :
  (∀ s' es, lget svc_stores s' = lget svc_stores s → announces (svc_id s) txs es →
     svc_view s' = push_events es (svc_view s) → Q tt s') →
  wpx (for_each txs announce_transaction) Q E s.
Proof.
  intros HQ. pose (I := λ (don : list Transaction) s', lget svc_stores s' = lget svc_stores s ∧
    ∃ es, announces (svc_id s) don es ∧ svc_view s' = push_events es (svc_view s)).
  eapply (wpx_mono _ (λ _, I txs)); [|intros [] s' (? & es & ? & ?); by eapply HQ|done].
  apply wpx_for_each; [|split; [done|exists []; by rewrite push_events_nil]].
  intros don t rest s' _ (Hst & es & Hann & Hview). unfold announce_transaction.
  wp_step. apply wpx_svc_tag. intros s1 tag1 Hst1 Hview1 _. do 3 wp_step.
  apply wpx_svc_send. intros s2 e1 Hst2 He1 Hview2. wp_step.
  apply wpx_svc_tag. intros s3 tag2 Hst3 Hview3 _.
  apply wpx_svc_send. intros s4 e2 Hst4 He2 Hview4. split; [congruence|].
  assert (svc_id s1 = svc_id s) as Hid.
  { unfold svc_id. by rewrite Hview1, Hview. }
  rewrite Hid in He1, He2. exists (es ++ [e1; e2]). split.
  - apply announces_app; [done|]. cbn. eauto.
  - rewrite Hview4, Hview3, Hview2, Hview1, Hview, !push_event_events, !push_events_app.
    by rewrite <-?app_assoc.
Qed.

Lemma on_block_mined_refused g bs st n s :
  lget svc_stores s = st → stores_wf st → chain_of g bs (chain_map st) →
  verdict (tip g bs) (st_spent st) (in_content n) ≠ ValidationState.Success →
  wp (on_block_mined (EvBlock n))
     (λ _ s', lget svc_stores s' = st ∧
        ∃ e, empty_notification InternalNotificationType.MinedBlockValidated e ∧
             svc_view s' = push_event e (svc_view s)) s.
Proof.
  intros Hst Hwf Hchain Hv. unfold on_block_mined. wp_step.
  eapply wpx_lift_ok; [done|]. wp_step. eapply wpx_validate; [done..|].
  rewrite decide_True by done. apply wpx_svc_notify. intros s1 e Hst1 He Hview1.
  split; [congruence|]. by exists e.
Qed.

Lemma on_block_mined_added g bs st n s :
  lget svc_stores s = st → stores_wf st → chain_of g bs (chain_map st) →
  wf_block (in_content n) →
  verdict (tip g bs) (st_spent st) (in_content n) = ValidationState.Success →
  wp (on_block_mined (EvBlock n))
     (λ _ s', accepted g bs (in_content n) st (lget svc_stores s') ∧
        ∃ e es, empty_notification InternalNotificationType.MinedBlockValidated e ∧
          announces (svc_id s) (bl_transactions (verified (in_content n))) es ∧
          svc_view s' =
            push_tasks (broadcast_tasks [PeerType.Observer] PeerMessageType.AddBlock
                          (Block_to_json (verified (in_content n))) (svc_view s))
              (push_events (e :: es) (svc_view s))) s.
Proof.
  intros Hst Hwf Hchain Hwfb Hv. unfold on_block_mined. wp_step.
  eapply wpx_lift_ok; [done|]. wp_step. eapply wpx_validate; [done..|].
  rewrite decide_False by tauto.
  eapply (wpx_accept g bs (in_content n) st);
    [done..|by apply verdict_success in Hv as [? _]|].
  intros st' Hacc. wp_step. apply wpx_svc_notify. intros s1 e Hst1 He Hview1. wp_step.
  apply wpx_svc_broadcast. intros s2 Hst2 Hview2.
  apply announce_all. intros s3 es Hst3 Hann Hview3.
  rewrite lget_lset in Hst1. rewrite svc_view_stores in Hview1. split.
  - by rewrite Hst3, Hst2, Hst1.
  - exists e, es. assert (svc_id s2 = svc_id s) as Hid.
    { unfold svc_id. by rewrite Hview2, Hview1. }
    rewrite Hid in Hann. split_and!; [done..|]. rewrite Hview3, Hview2, Hview1.
    unfold push_tasks, push_event, push_events. cbn. by rewrite <-app_assoc.
Qed.

(** A peer's header request is answered with the headers after the given one. *)
Lemma on_block_headers_request_answer st m h hs s :
  lget svc_stores s = st → BlockHeader_from_json (pm_content m) = Ok h →
  get_all_after h (st_chain st) = Ok hs →
  wp (on_block_headers_request (EvPeer m))
     (λ _ s', lget svc_stores s' = st ∧
        ∃ e, send_event PeerMessageType.BlockHeadersResponse (pm_receiver_identity m)
               (pm_sender_identity m) (pm_tag m)
               (BlockHeadersResponseContent_to_json hs) e ∧
             svc_view s' = push_event e (svc_view s)) s.
Proof.
  intros Hst Hh Hhs. unfold on_block_headers_request. wp_step.
  eapply wpx_lift_ok; [done|]. wp_step. eapply wpx_lift_ok; [exact Hh|].
  unfold on_chain. do 2 wp_step. st_cbn. rewrite Hst. eapply wpx_reads_ok; [exact Hhs|].
  apply wpx_svc_send. intros s' e Hst' He Hview.
  assert (lset svc_stores (MkStores _ _ (st_chain st) (st_spent st) (st_pool st)) s = s) as Hs.
  { replace (MkStores _ _ _ _ _) with st by (by destruct st). rewrite <-Hst. apply lset_lget. }
  rewrite Hs in Hst', Hview. split; [congruence|]. by exists e.
Qed.

(** A peer's block request is answered with the stored block or with "not found". *)
Lemma on_block_request_answer st m h s :
  lget svc_stores s = st → stores_wf st → BlockHeader_from_json (pm_content m) = Ok h →
  wp (on_block_request (EvPeer m))
     (λ _ s', lget svc_stores s' = st ∧
        ∃ e, match chain_map st !! bh_hash h with
             | Some b => send_event PeerMessageType.BlockResponse (svc_id s)
                 (pm_sender_identity m) (pm_tag m) (Block_to_json b) e
             | None => send_event PeerMessageType.BlockNotFoundResponse (svc_id s)
                 (pm_sender_identity m) (pm_tag m) jnull e
             end ∧ svc_view s' = push_event e (svc_view s)) s.
Proof.
  intros Hst Hwf Hh. unfold on_block_request. wp_step.
  eapply wpx_lift_ok; [done|]. wp_step. eapply wpx_lift_ok; [exact Hh|].
  unfold on_chain. do 2 wp_step. st_cbn. rewrite Hst.
  eapply wpx_reads_ok; [apply get_abs, Hwf|]. do 2 wp_step.
  assert (lset svc_stores (MkStores _ _ (st_chain st) (st_spent st) (st_pool st)) s = s) as Hs.
  { replace (MkStores _ _ _ _ _) with st by (by destruct st). rewrite <-Hst. apply lset_lget. }
  rewrite Hs. fold (chain_map st). destruct (chain_map st !! bh_hash h) as [b|];
    apply wpx_svc_send; intros s' e Hst' He Hview; (split; [congruence|by exists e]).
Qed.
End HandlerSpecs.

(** ** Properties *)

Section Properties.
Context `{JsonLib} `{CryptoLib} `{LevelDB} `{FifoLib} {S : Type} `{!Services S}.
Implicit Types (s : S) (m : PeerMessage) (b g : Block) (bs : list Block).

(** C7: a block a peer proposes is decided by the validator alone. A refused one changes no store
    and is answered with BlockRejected and the reason. An accepted one extends the chain, unless
    its hash is stored already or the disk fails, moves its pooled transactions to the spent
    ones, is answered with BlockAccepted, and is broadcast to the observers as verified. *)
Theorem on_add_block_decides g bs m b s :
  stores_wf (lget svc_stores s) → chain_of g bs (chain_map (lget svc_stores s)) →
  Block_from_json (pm_content m) = Ok b → canonical (pm_content m) →
  ∃ s' tag e, on_add_block (EvPeer m) s = (Ok tt, s') ∧ text tag ∧
    if decide (verdict (tip g bs) (st_spent (lget svc_stores s)) b = ValidationState.Success)
    then accepted g bs b (lget svc_stores s) (lget svc_stores s') ∧
         send_event PeerMessageType.BlockAccepted (svc_id s) (pm_sender_identity m) tag
           (BlockHeader_to_json (bl_header b)) e ∧
         svc_view s' =
           push_tasks (broadcast_tasks [PeerType.Observer] PeerMessageType.AddBlock
                         (Block_to_json (verified b)) (svc_view s)) (push_event e (svc_view s))
    else lget svc_stores s' = lget svc_stores s ∧
         send_event PeerMessageType.BlockRejected (svc_id s) (pm_sender_identity m) tag
           (enum_to_json ValidationState.table
              (verdict (tip g bs) (st_spent (lget svc_stores s)) b)) e ∧
         svc_view s' = push_event e (svc_view s).
Proof.
  intros Hwf Hc Hb Hcan. case_decide as Hv.
  - pose proof (on_add_block_added g bs _ m b s eq_refl Hwf Hc Hb Hcan Hv) as Hrun.
    apply wp_run in Hrun as ([] & s' & Hrun & Hacc & tag & e & Htag & He & Hview).
    by exists s', tag, e.
  - pose proof (on_add_block_refused g bs _ m b s eq_refl Hwf Hc Hb Hv) as Hrun.
    apply wp_run in Hrun as ([] & s' & Hrun & Hst & tag & e & Htag & He & Hview).
    by exists s', tag, e.
Qed.

(** C8: a block of the own miner is decided in the same way. The miner always gets its
    notification, and for an accepted block every sender of a transaction is told the new status
    and every receiver the transaction, in the order of the block. *)
Theorem on_block_mined_decides g bs n s :
  stores_wf (lget svc_stores s) → chain_of g bs (chain_map (lget svc_stores s)) →
  wf_block (in_content n) →
  ∃ s' e es, on_block_mined (EvBlock n) s = (Ok tt, s') ∧
    empty_notification InternalNotificationType.MinedBlockValidated e ∧
    if decide (verdict (tip g bs) (st_spent (lget svc_stores s)) (in_content n) =
               ValidationState.Success)
    then accepted g bs (in_content n) (lget svc_stores s) (lget svc_stores s') ∧
         announces (svc_id s) (bl_transactions (verified (in_content n))) es ∧
         svc_view s' =
           push_tasks (broadcast_tasks [PeerType.Observer] PeerMessageType.AddBlock
                         (Block_to_json (verified (in_content n))) (svc_view s))
             (push_events (e :: es) (svc_view s))
    else lget svc_stores s' = lget svc_stores s ∧ svc_view s' = push_event e (svc_view s).
Proof.
  intros Hwf Hc Hb. case_decide as Hv.
  - pose proof (on_block_mined_added g bs _ n s eq_refl Hwf Hc Hb Hv) as Hrun.
    apply wp_run in Hrun as ([] & s' & Hrun & Hacc & e & es & He & Hann & Hview).
    by exists s', e, es.
  - pose proof (on_block_mined_refused g bs _ n s eq_refl Hwf Hc Hv) as Hrun.
    apply wp_run in Hrun as ([] & s' & Hrun & Hst & e & He & Hview). by exists s', e, [].
Qed.

(** A block request is answered with the stored block of that hash, or with "not found", to
    the peer that asked and under its tag. *)
Theorem on_block_request_answers m h s :
  stores_wf (lget svc_stores s) → BlockHeader_from_json (pm_content m) = Ok h →
  ∃ s' e, on_block_request (EvPeer m) s = (Ok tt, s') ∧
    lget svc_stores s' = lget svc_stores s ∧ svc_view s' = push_event e (svc_view s) ∧
    match chain_map (lget svc_stores s) !! bh_hash h with
    | Some b => send_event PeerMessageType.BlockResponse (svc_id s) (pm_sender_identity m)
                  (pm_tag m) (Block_to_json b) e
    | None => send_event PeerMessageType.BlockNotFoundResponse (svc_id s)
                (pm_sender_identity m) (pm_tag m) jnull e
    end.
Proof.
  intros Hwf Hh. pose proof (on_block_request_answer _ m h s eq_refl Hwf Hh) as Hrun.
  apply wp_run in Hrun as ([] & s' & Hrun & Hst & e & He & Hview). by exists s', e.
Qed.

(** A header request that names a block of the chain is answered with the headers of exactly
    the blocks after it, to the peer that asked and under its tag. *)
Theorem on_block_headers_request_answers g cs bs b bs' m s :
  stores_wf (lget svc_stores s) →
  chain_of g cs (chain_map (lget svc_stores s)) → g :: cs = bs ++ b :: bs' →
  BlockHeader_from_json (pm_content m) = Ok (bl_header b) →
  ∃ s' e hs, on_block_headers_request (EvPeer m) s = (Ok tt, s') ∧
    lget svc_stores s' = lget svc_stores s ∧ svc_view s' = push_event e (svc_view s) ∧
    send_event PeerMessageType.BlockHeadersResponse (pm_receiver_identity m)
      (pm_sender_identity m) (pm_tag m) (BlockHeadersResponseContent_to_json hs) e ∧
    ∀ x, x ∈ hs ↔ x ∈ map bl_header bs'.
Proof.
  intros Hwf Hc Heq Hh.
  destruct (get_all_after_chain g cs bs b bs' _ (sw_chain _ Hwf) Hc Heq) as (hs & Hhs & Hin).
  pose proof (on_block_headers_request_answer _ m _ hs s eq_refl Hh Hhs) as Hrun.
  apply wp_run in Hrun as ([] & s' & Hrun & Hst & e & He & Hview). by exists s', e, hs.
Qed.

(** C9: on a disk that works, a transaction that is in the pool when a peer's block with it is
    accepted cannot be spent again: it leaves the pool, and from then on the validator accepts
    no block that contains it, whatever the rest of that block and the chain are. *)
Theorem no_double_spend g bs m b t s :
  ReliableWrites → stores_wf (lget svc_stores s) →
  chain_of g bs (chain_map (lget svc_stores s)) →
  Block_from_json (pm_content m) = Ok b → canonical (pm_content m) →
  validate_block (st_chain (lget svc_stores s)) (st_spent (lget svc_stores s)) b =
    Ok ValidationState.Success →
  t ∈ bl_transactions b → is_Some (pool_map (lget svc_stores s) !! tx_hash t) →
  ∃ s', on_add_block (EvPeer m) s = (Ok tt, s') ∧
    pool_map (lget svc_stores s') !! tx_hash t = None ∧
    ∀ chain b', (∃ u, u ∈ bl_transactions b' ∧ tx_hash u = tx_hash t) →
      validate_block chain (st_spent (lget svc_stores s')) b' ≠ Ok ValidationState.Success.
Proof.
  intros HR Hwf Hc Hb Hcan Hval Ht Hpool.
  rewrite (validate_block_chain g bs) in Hval by (try done; apply Hwf). injection Hval as Hval.
  pose proof (on_add_block_added g bs _ m b s eq_refl Hwf Hc Hb Hcan Hval) as Hrun.
  apply wp_run in Hrun as ([] & s' & Hrun & [Hwf' _ Hsp _] & _). exists s'. split; [done|].
  assert (tx_hash t ∈ map tx_hash (bl_transactions (verified b))) as Hin.
  { cbn. rewrite map_map. cbn. by apply list_elem_of_fmap_2. }
  destruct (sr_reliable _ _ _ _ _ _ Hsp _ HR Hin) as [Hgone Hspent]. split; [done|].
  intros chain b' (u & Hu & Heq). apply spent_never_validates; [apply Hwf'|].
  apply Exists_exists. exists u. split; [done|]. unfold spent_in. rewrite Heq. by apply Hspent.
Qed.
End Properties.
