(* ===== verification/TransactionPoolManager.v ===== *)
(** * The transaction pool manager
    (Servers/Node/TransactionPool/TransactionPoolManager.{h,cpp}) *)

From stdpp Require Import base sets list gmap strings.
From Stdlib Require Import ZArith Lia.
From S2P Require Import Prelude Json Crypto LevelDB Fifo Enums Models Messages DBInterface.
From S2P Require Import Stores Blockchain Validator TransactionPool Event Services.
From S2P Require Import BlockchainManager.

Open Scope Z_scope.

(** The callbacks of the manager. *)
Inductive PoolListener :=
  | OnAddTransaction
  | OnSyncPoolRequest.

(** The event types the constructor appends them to, in order. *)
Definition TransactionPoolManager_listeners : list (EventType * PoolListener) :=
  [(PeerEvent PeerMessageType.AddTransaction, OnAddTransaction);
   (PeerEvent PeerMessageType.SyncPoolRequest, OnSyncPoolRequest)].

Section Handlers.
Context `{JsonLib} `{CryptoLib} `{LevelDB} `{FifoLib} {S : Type} `{!Services S}.

Definition on_add_transaction (e : Event) : M S unit :=
  peer_message ← lift_result (get_peer e);
  transaction ← lift_result (Transaction_from_json (pm_content peer_message));
  validation_state ← on_spent (reads (λ d, validate_transaction d transaction));
  if decide (validation_state ≠ ValidationState.Success) then mret tt
  else
    added ← on_pool (add transaction);
    mret tt.

Definition on_sync_pool_request (e : Event) : M S unit :=
  peer_message ← lift_result (get_peer e);
  st ← gets (lget svc_stores);
  for_data (pool_db (st_pool st)) (λ transaction : Transaction,
    id ← gets svc_id;
    svc_send PeerMessageType.AddTransaction id (pm_sender_identity peer_message)
      (pm_tag peer_message) (Transaction_to_json transaction)).

Definition run_pool_listener (l : PoolListener) : Event → M S unit :=
  match l with
  | OnAddTransaction => on_add_transaction
  | OnSyncPoolRequest => on_sync_pool_request
  end.
End Handlers.

(** ** Lemmas *)

Section HandlerSpecs.
Context `{JsonLib} `{CryptoLib} `{LevelDB} `{FifoLib} {S : Type} `{!Services S}.
Implicit Types (s : S) (st : Stores) (t : Transaction) (g : Block).

(** What offering [t] to the pool makes of the stores: nothing when it is spent or pooled,
    else it is stored, if the write succeeds, and queued, if there is room. *)
Definition offered t st st' : Prop :=
  if decide (is_Some (spent_map st !! tx_hash t)) then st' = st
  else
    st_chain st' = st_chain st ∧ st_spent st' = st_spent st ∧ stores_wf st' ∧
    ∃ ok, (ReliableWrites → ok = true) ∧
      pool_map st' = (put_spec t ok (pool_map st)).2 ∧
      queued_after (put_spec t ok (pool_map st)).1 t
        (pool_queue (st_pool st)) (pool_queue (st_pool st')).

(** Reading a store leaves the process as it is. *)
Lemma lset_same st s :
  lget svc_stores s = st →
  lset svc_stores (MkStores _ _ (st_chain st) (st_spent st) (st_pool st)) s = s.
Proof.
  intros <-. replace (MkStores _ _ _ _ _) with (lget svc_stores s).
  - apply lset_lget.
  - by destruct (lget svc_stores s).
Qed.

(** A transaction that is not spent may enter the pool. *)
Lemma stores_wf_offer t ok p' st :
  stores_wf st → wf_transaction t → spent_map st !! tx_hash t = None →
  db_wf (T:=Transaction) (pool_db p') → db_abs (pool_db p') = (put_spec t ok (pool_map st)).2 →
  queued_after (put_spec t ok (pool_map st)).1 t (pool_queue (st_pool st)) (pool_queue p') →
  stores_wf (MkStores _ _ (st_chain st) (st_spent st) p').
Proof.
  intros [Hc Hs Hp Hd Hq] Ht Hnew Hp' Habs Hq'. split; [done..| |].
  - intros k. unfold pool_map. cbn. rewrite Habs. unfold put_spec.
    change (data_tag t) with (tx_hash t). change (data_norm t) with t.
    destruct (pool_map st !! tx_hash t); cbn; [apply Hd|]. destruct ok; [|apply Hd].
    destruct (decide (tx_hash t = k)) as [<-|Hne]; [by right|].
    rewrite lookup_insert_ne by done. apply Hd.
  - intros u Hu. by destruct (queued_after_items _ _ _ _ _ Hq' Hu) as [?|[= ->]]; [apply Hq|].
Qed.

Lemma on_add_transaction_offers st m t s :
  lget svc_stores s = st → stores_wf st →
  Transaction_from_json (pm_content m) = Ok t → canonical (pm_content m) →
  wp (on_add_transaction (EvPeer m))
     (λ _ s', offered t st (lget svc_stores s') ∧ svc_view s' = svc_view s) s.
Proof.
  intros Hst Hwf Ht Hc. pose proof (Transaction_from_json_wf _ _ Hc Ht) as Hwft.
  unfold on_add_transaction. wp_step. eapply wpx_lift_ok; [done|]. wp_step.
  eapply wpx_lift_ok; [exact Ht|]. unfold on_spent, on_pool, offered. do 2 wp_step.
  st_cbn. rewrite Hst. eapply wpx_reads_ok; [apply validate_transaction_spec, Hwf|].
  rewrite lset_same by done. fold (spent_map st).
  destruct (decide (is_Some (spent_map st !! tx_hash t))) as [Hsp|Hsp].
  - rewrite decide_True by done. by wp_step.
  - rewrite decide_False by tauto. do 2 wp_step. st_cbn. rewrite Hst.
    apply wpx_add; [apply Hwf|done|]. intros ok p' Hp' Habs Hrel Hq. wp_step.
    rewrite lget_lset, svc_view_stores. split; [|done]. split_and!; [done..| |by exists ok].
    apply (stores_wf_offer t ok); try done. by apply eq_None_not_Some.
Qed.

(** The events that answer a sync request: one AddTransaction per pooled transaction. *)
Definition syncs (id : string) (m : PeerMessage) : list Transaction → list Event → Prop :=
  Forall2 (λ t e, send_event PeerMessageType.AddTransaction id (pm_sender_identity m)
                    (pm_tag m) (Transaction_to_json t) e).

Lemma on_sync_pool_request_answer st m s :
  lget svc_stores s = st → stores_wf st →
  wp (on_sync_pool_request (EvPeer m))
     (λ _ s', lget svc_stores s' = st ∧
        ∃ ts es, NoDup (map tx_hash ts) ∧
          (∀ t, t ∈ ts ↔ pool_map st !! tx_hash t = Some t) ∧
          syncs (svc_id s) m ts es ∧ svc_view s' = push_events es (svc_view s)) s.
Proof.
  intros Hst Hwf. unfold on_sync_pool_request. wp_step. eapply wpx_lift_ok; [done|].
  do 2 wp_step. rewrite Hst. unfold for_data.
  destruct (db_data_spec (T:=Transaction) (pool_db (st_pool st)) (sw_pool st Hwf))
    as (ts & Hts & _ & Hin & _).
  pose proof (db_data_tags (T:=Transaction) _ _ (sw_pool st Hwf) Hts) as [_ Hnd].
  enough (wp (for_each (db_iter (pool_db (st_pool st))).*2
    (λ slice, value ← lift_result (from_slice slice); id ← gets svc_id;
       svc_send PeerMessageType.AddTransaction id (pm_sender_identity m) (pm_tag m)
         (Transaction_to_json value)))
    (λ _ s', lget svc_stores s' = st ∧ ∃ es, syncs (svc_id s) m ts es ∧
       svc_view s' = push_events es (svc_view s)) s) as Hrun.
  { eapply wp_mono; [exact Hrun|]. intros [] s' (? & es & ? & ?). split; [done|].
    exists ts, es. done. }
  apply traverse_ok in Hts. clear Hin Hnd. revert s Hst.
  induction Hts as [|slice t slices ts Ht _ IH]; intros s Hst; cbn.
  - split; [done|]. exists []. by rewrite push_events_nil; split; [constructor|].
  - do 2 wp_step. eapply wpx_lift_ok; [exact Ht|]. do 2 wp_step. apply wpx_svc_send.
    intros s1 e Hst1 He Hview1. eapply wpx_mono; [apply (IH s1); congruence| |done].
    intros [] s' (? & es & Hes & Hview). split; [done|]. exists (e :: es). split.
    + constructor; [done|]. unfold svc_id in Hes. by rewrite Hview1 in Hes.
    + by rewrite Hview, Hview1, push_event_events, push_events_app.
Qed.

(** ** The invariant, for every handler and however it ends *)

Definition keeps g (m : M S unit) : Prop :=
  preserves (λ s, stores_inv g (lget svc_stores s)) m.

Lemma accepted_inv g bs b st st' : accepted g bs b st st' → stores_inv g st'.
Proof. intros [Hwf _ _ [[Hc _]|[Hc _]]]; (split; [done|by eexists]). Qed.

Lemma offered_inv g t st st' : stores_inv g st → offered t st st' → stores_inv g st'.
Proof.
  intros [Hwf [bs Hc]]. unfold offered. case_decide; [by intros ->; split; [|exists bs]|].
  intros (Hch & _ & Hwf' & _). split; [done|]. exists bs. unfold chain_map. by rewrite Hch.
Qed.

Lemma keeps_on_add_block g e : event_ok e → keeps g (on_add_block e).
Proof.
  intros He s Hinv. destruct e as [|m| | | | | | |]; try exact Hinv.
  pose proof Hinv as [Hwf [bs Hc]]. destruct He as (_ & _ & _ & Hcan & _).
  destruct (Block_from_json (pm_content m)) as [b|e] eqn:Hb.
  - apply wp_wpx.
    destruct (decide (verdict (tip g bs) (st_spent (lget svc_stores s)) b =
                      ValidationState.Success)) as [Hv|Hv].
    + eapply wp_mono; [by apply (on_add_block_added g bs (lget svc_stores s) m b s)|].
      intros [] s' [Hacc _]. by eapply accepted_inv.
    + eapply wp_mono; [by apply (on_add_block_refused g bs (lget svc_stores s) m b s)|].
      intros [] s' [-> _]. done.
  - unfold on_add_block. wp_step. eapply wpx_lift_ok; [done|]. rewrite Hb. exact Hinv.
Qed.

Lemma keeps_on_block_mined g e : event_ok e → keeps g (on_block_mined e).
Proof.
  intros He s Hinv. destruct e as [| | | | | | |n|]; try exact Hinv.
  pose proof Hinv as [Hwf [bs Hc]]. apply wp_wpx.
  destruct (decide (verdict (tip g bs) (st_spent (lget svc_stores s)) (in_content n) =
                    ValidationState.Success)) as [Hv|Hv].
  - eapply wp_mono; [by apply (on_block_mined_added g bs (lget svc_stores s) n s)|].
    intros [] s' [Hacc _]. by eapply accepted_inv.
  - eapply wp_mono; [by apply (on_block_mined_refused g bs (lget svc_stores s) n s)|].
    intros [] s' [-> _]. done.
Qed.

Lemma keeps_on_block_request g e : keeps g (on_block_request e).
Proof.
  intros s Hinv. destruct e as [|m| | | | | | |]; try exact Hinv.
  destruct (BlockHeader_from_json (pm_content m)) as [h|e] eqn:Hh.
  - apply wp_wpx. eapply wp_mono;
      [by apply (on_block_request_answer (lget svc_stores s) m h s); [|apply Hinv|]|].
    intros [] s' [-> _]. done.
  - unfold on_block_request. wp_step. eapply wpx_lift_ok; [done|]. rewrite Hh. exact Hinv.
Qed.

Lemma keeps_on_block_headers_request g e : keeps g (on_block_headers_request e).
Proof.
  intros s Hinv. destruct e as [|m| | | | | | |]; try exact Hinv.
  destruct (BlockHeader_from_json (pm_content m)) as [h|e] eqn:Hh.
  - destruct (db_data_spec (T:=Block) (st_chain (lget svc_stores s))) as (vs & Hvs & _);
      [apply Hinv|].
    apply wp_wpx. eapply wp_mono;
      [eapply (on_block_headers_request_answer (lget svc_stores s) m h); [done..|]|].
    { unfold get_all_after. by rewrite Hvs. }
    intros [] s' [-> _]. done.
  - unfold on_block_headers_request. wp_step. eapply wpx_lift_ok; [done|]. rewrite Hh.
    exact Hinv.
Qed.

Lemma keeps_on_add_transaction g e : event_ok e → keeps g (on_add_transaction e).
Proof.
  intros He s Hinv. destruct e as [|m| | | | | | |]; try exact Hinv.
  destruct He as (_ & _ & _ & Hcan & _).
  destruct (Transaction_from_json (pm_content m)) as [t|e] eqn:Ht.
  - apply wp_wpx. eapply wp_mono;
      [by apply (on_add_transaction_offers (lget svc_stores s) m t s); [|apply Hinv|..]|].
    intros [] s' [Hoff _]. by eapply offered_inv.
  - unfold on_add_transaction. wp_step. eapply wpx_lift_ok; [done|]. rewrite Ht. exact Hinv.
Qed.

Lemma keeps_on_sync_pool_request g e : keeps g (on_sync_pool_request e).
Proof.
  intros s Hinv. destruct e as [|m| | | | | | |]; try exact Hinv.
  apply wp_wpx. eapply wp_mono;
      [by apply (on_sync_pool_request_answer (lget svc_stores s) m s); [|apply Hinv]|].
  intros [] s' [-> _]. done.
Qed.
End HandlerSpecs.

(** ** Properties *)

Section Properties.
Context `{JsonLib} `{CryptoLib} `{LevelDB} `{FifoLib} {S : Type} `{!Services S}.
Implicit Types (s : S) (m : PeerMessage) (t : Transaction).

(** A transaction a peer sends is dropped when it is spent and otherwise offered to the pool:
    stored if it is new and the disk works, and then queued if the queue has room. Nothing is
    sent in return and the chain and the spent transactions stay as they are. *)
Theorem on_add_transaction_offers_to_pool m t s :
  stores_wf (lget svc_stores s) → Transaction_from_json (pm_content m) = Ok t →
  canonical (pm_content m) →
  ∃ s', on_add_transaction (EvPeer m) s = (Ok tt, s') ∧
    offered t (lget svc_stores s) (lget svc_stores s') ∧ svc_view s' = svc_view s.
Proof.
  intros Hwf Ht Hc. pose proof (on_add_transaction_offers _ m t s eq_refl Hwf Ht Hc) as Hrun.
  apply wp_run in Hrun as ([] & s' & Hrun & Hoff & Hview). by exists s'.
Qed.

(** A sync request is answered with one AddTransaction message for every transaction of the
    pool, to the peer that asked and under its tag; no store changes. *)
Theorem on_sync_pool_request_sends_pool m s :
  stores_wf (lget svc_stores s) →
  ∃ s' ts es, on_sync_pool_request (EvPeer m) s = (Ok tt, s') ∧
    lget svc_stores s' = lget svc_stores s ∧ svc_view s' = push_events es (svc_view s) ∧
    syncs (svc_id s) m ts es ∧ NoDup (map tx_hash ts) ∧
    ∀ t, t ∈ ts ↔ pool_map (lget svc_stores s) !! tx_hash t = Some t.
Proof.
  intros Hwf. pose proof (on_sync_pool_request_answer _ m s eq_refl Hwf) as Hrun.
  apply wp_run in Hrun as ([] & s' & Hrun & Hst & ts & es & Hnd & Hin & Hes & Hview).
  by exists s', ts, es.
Qed.
End Properties.
