(* ===== verification/Miner.v ===== *)
(** * The miner (Servers/Node/Miner.h)

    [hash_function] and [mining_function], the wait for transactions, and a round of
    [Miner::task] as a coroutine. The search runs over the values of a [uint64_t] that wraps
    around, so it either finds a nonce within 2^64 rounds or never ends. *)

From stdpp Require Import base sets list gmap strings.
From Stdlib Require Import ZArith Lia.
From S2P Require Import Prelude Json Crypto LevelDB Fifo Enums Models Messages DBInterface.
From S2P Require Import Stores Blockchain Validator TransactionPool Event Coroutine Services.
From S2P Require Import BlockchainManager.

Open Scope Z_scope.

Section Mining.
Context `{JsonLib} `{CryptoLib} `{LevelDB}.

(** The digest of the 32 bytes of both nodes, one after the other. *)
Definition hash_function (l r : list Z) : list Z := sha256_bytes (take 32 l ++ take 32 r).

(** The lambda get_merkle_root; the root of an empty tree throws. *)
Definition get_merkle_root (transactions : list Transaction) : result string :=
  merkle_root_string hash_function (map tx_hash transactions).

Definition nonce_hash (previous_hash merkle_root : string) (timestamp nonce : Z) : string :=
  hex_encode (sha256 (hash_input previous_hash merkle_root timestamp nonce)).

(** The condition of the [if] in the loop. *)
Definition nonce_ok (previous_hash merkle_root : string) (timestamp nonce : Z) : bool :=
  let block_hash := nonce_hash previous_hash merkle_root timestamp nonce in
  starts_with block_hash "0000" && String.ltb block_hash previous_hash.

(** [while (true)] for at most [fuel] rounds. *)
Fixpoint mining_loop (fuel : nat) (previous_hash identity merkle_root : string)
    (timestamp : Z) (transactions : list Transaction) (nonce : Z) : option Block :=
  match fuel with
  | O => None
  | S fuel =>
      if nonce_ok previous_hash merkle_root timestamp nonce then
        Some (MkBlock
                (BlockHeader_new (nonce_hash previous_hash merkle_root timestamp nonce)
                   previous_hash merkle_root identity timestamp nonce)
                transactions)
      else mining_loop fuel previous_hash identity merkle_root timestamp transactions
             (u64_wrap (nonce + 1))
  end.

(** The search is left to run: what it has found after so many rounds. *)
Definition mining_function (previous_hash identity : string) (transactions : list Transaction)
    `{HostLib} : M Host (nat → option Block) :=
  merkle_root ← lift_result (get_merkle_root transactions);
  timestamp ← get_krapi_timestamp;
  mret (λ fuel, mining_loop fuel previous_hash identity merkle_root timestamp transactions 0).

(** ** The search *)

(** The first [n] nonces do not fit and the next one does. *)
Definition first_nonce (prev root : string) (ts : Z) (n : Z) : Prop :=
  u64 n ∧ nonce_ok prev root ts n = true ∧
  ∀ m, 0 ≤ m < n → nonce_ok prev root ts m = false.

Definition mined_block (prev id root : string) (ts : Z) (txs : list Transaction) (n : Z)
    : Block :=
  MkBlock (BlockHeader_new (nonce_hash prev root ts n) prev root id ts n) txs.

Lemma mining_loop_some fuel prev id root ts txs n b :
  u64 n → mining_loop fuel prev id root ts txs n = Some b →
  ∃ k, u64 k ∧ nonce_ok prev root ts k = true ∧ b = mined_block prev id root ts txs k.
Proof.
  revert n. induction fuel as [|fuel IH]; intros n Hn; cbn; [done|].
  destruct (nonce_ok prev root ts n) eqn:Hok.
  - intros [= <-]. by exists n.
  - apply IH. unfold u64, u64_wrap. by apply Z.mod_pos_bound.
Qed.

(** From [n] on, the loop finds the first good nonce [k] when it has the rounds for it. *)
Lemma mining_loop_first fuel prev id root ts txs n k :
  0 ≤ n ≤ k → u64 k → nonce_ok prev root ts k = true →
  (∀ m, n ≤ m < k → nonce_ok prev root ts m = false) →
  k - n < Z.of_nat fuel →
  mining_loop fuel prev id root ts txs n = Some (mined_block prev id root ts txs k).
Proof.
  revert n. induction fuel as [|fuel IH]; intros n Hn Hk Hok Hno Hfuel; [lia|]. cbn.
  destruct (decide (n = k)) as [->|Hne]; [by rewrite Hok|].
  rewrite Hno by lia. unfold u64 in Hk. unfold u64_wrap. rewrite Z.mod_small by lia.
  apply IH; [lia|done|done| |lia]. intros m Hm. apply Hno. lia.
Qed.

(** More rounds do not change what is found. *)
Lemma mining_loop_more fuel more prev id root ts txs n b :
  mining_loop fuel prev id root ts txs n = Some b →
  mining_loop (fuel + more) prev id root ts txs n = Some b.
Proof.
  revert n. induction fuel as [|fuel IH]; intros n; cbn; [done|].
  destruct (nonce_ok prev root ts n); [done|]. apply IH.
Qed.

(** No good nonce among the values of the type: no number of rounds is enough. *)
Lemma mining_loop_never fuel prev id root ts txs n :
  u64 n → (∀ m, u64 m → nonce_ok prev root ts m = false) →
  mining_loop fuel prev id root ts txs n = None.
Proof.
  intros Hn Hno. revert n Hn. induction fuel as [|fuel IH]; intros n Hn; cbn; [done|].
  rewrite Hno by done. apply IH. unfold u64, u64_wrap. by apply Z.mod_pos_bound.
Qed.

(** The least good nonce exists when there is one. *)
Lemma least_nonce prev root ts k :
  u64 k → nonce_ok prev root ts k = true → ∃ n, first_nonce prev root ts n ∧ n ≤ k.
Proof.
  intros [Hk Hlt] Hok. revert Hlt Hok. pattern k. apply Zlt_0_ind; [|done]. clear k Hk.
  intros k IH Hk Hlt Hok.
  destruct (decide (Exists (λ m, nonce_ok prev root ts (Z.of_nat m) = true)
                           (seq 0 (Z.to_nat k)))) as [He|He].
  - apply Exists_exists in He as (m & Hm & Hmok). apply elem_of_seq in Hm.
    destruct (IH (Z.of_nat m)) as (n & Hn & Hle); [lia|lia|done|]. exists n. split; [done|lia].
  - exists k. split; [|done]. split_and!; [done|done|]. intros m Hm.
    destruct (nonce_ok prev root ts m) eqn:Hmok; [exfalso|done].
    apply He, Exists_exists. exists (Z.to_nat m). rewrite Z2Nat.id by lia.
    split; [apply elem_of_seq; lia|done].
Qed.

(** What is mined on top of [newest] passes the header checks once the clock has moved on. *)
Lemma mined_follows newest id root ts txs n :
  nonce_ok (Block_hash newest) root ts n = true → Block_timestamp newest < ts →
  follows newest (mined_block (Block_hash newest) id root ts txs n).
Proof.
  unfold nonce_ok. intros [Hpow _]%andb_prop Hts. by split_and!.
Qed.

(** A mined block can be stored and sent. *)
Lemma mined_wf `{HostLib} prev id root ts txs n :
  text prev → text id → ascii_only root = true → u64 ts → u64 n →
  Forall wf_transaction txs → wf_block (mined_block prev id root ts txs n).
Proof.
  intros ? ? ? ? ? ?. split; [|done]. split_and!; cbn; try done; apply text_ascii; [|done].
  apply hex_encode_ascii.
Qed.
End Mining.

(** ** Miner::task *)

Section Task.
Context `{JsonLib} `{CryptoLib} `{LevelDB} `{FifoLib} `{HostLib} {P : Type} `{!Services P}.
Context (hostL : Lens P Host).

(** [enqueue<InternalNotification<Block>>(BlockMined, block)] and the wait for the notification
    that it was validated. *)
Definition announce_mined (block : Block) : Coroutine P unit :=
  _ ← co_lift (svc_notify_block InternalNotificationType.BlockMined block);
  promise ← co_lift (svc_event_of_type
    (NotificationEvent InternalNotificationType.MinedBlockValidated));
  _ ← await promise;
  mret tt.

(** What comes of a round's broadcast: the first answer of another miner, or none in time. *)
Definition Miner_verdict (block : Block) (opt : option Event) : Coroutine P unit :=
  match opt with
  | Some event =>
      message ← co_lift (lift_result (get_peer event));
      if decide (pm_type message = PeerMessageType.BlockAccepted) then announce_mined block
      else mret tt
  | None => announce_mined block
  end.

(** The body of the loop after the wait for [transactions]. What is submitted to the executor
    listens for the answers, and starts when a thread takes it up. *)
Definition Miner_round (transactions : list Transaction) : Coroutine P unit :=
  newest ← co_lift (on_chain (reads (last Block_default)));
  id ← co_lift (gets svc_id);
  search ← co_lift (zoom hostL (mining_function (Block_hash newest) id transactions));
  block ← co_await (Mined search);
  _ ← co_lift (svc_broadcast [PeerType.Full] PeerMessageType.AddBlock (Block_to_json block));
  _ ← co_await (Delay 0);
  promises ← co_lift (svc_any_event_of_type
    [PeerEvent PeerMessageType.BlockAccepted; PeerEvent PeerMessageType.BlockRejected]);
  opt ← co_await (FirstOf promises 2);
  Miner_verdict block opt.

(** The task: it waits for five transactions and has some of them, a round runs, or it has
    ended. *)
Inductive MinerState :=
  | Collecting (transactions : list Transaction)
  | Round (c : Co P unit)
  | Stopped.

(** [while (true)]: the wait goes on until a fifth transaction is there, then a round starts. *)
Definition Miner_wait (transactions : list Transaction) : M P MinerState :=
  result ← on_pool (wait 5 transactions);
  match result with
  | Waiting transactions => mret (Collecting transactions)
  | Ended => mret Stopped
  | Collected transactions => c ← (Miner_round transactions : M P (Co P unit)); mret (Round c)
  end.
End Task.

Section TaskLemmas.
Context `{JsonLib} `{CryptoLib} `{LevelDB} `{FifoLib} `{HostLib} {P : Type} `{!Services P}.
Implicit Types (st : Stores) (ts : list Transaction).

(** What [wait] collects in one go was pooled. *)
Lemma wait_spec_collected pooled n acc items ts rest :
  wait_spec pooled n acc items = (Collected ts, rest) →
  ∃ new, ts = acc ++ new ∧ length ts = n ∧
         Forall (λ t, is_Some (pooled !! tx_hash t) ∧ ItemTransaction t ∈ items) new.
Proof.
  revert acc. induction items as [|[t|r] items IH]; intros acc; cbn.
  - destruct (decide (length acc = n)); [|done]. intros [= <- _]. exists [].
    by rewrite app_nil_r.
  - destruct (decide (length acc = n)).
    { intros [= <- _]. exists []. by rewrite app_nil_r. }
    assert (∀ new, Forall (λ t, is_Some (pooled !! tx_hash t) ∧ ItemTransaction t ∈ items) new →
      Forall (λ u, is_Some (pooled !! tx_hash u) ∧
                   ItemTransaction u ∈ ItemTransaction t :: items) new) as Hweak.
    { intros new Hnew. eapply Forall_impl; [exact Hnew|]. cbn. set_solver. }
    destruct (decide (is_Some (pooled !! tx_hash t))); intros Hw.
    + apply IH in Hw as (new & -> & Hlen & Hnew). exists (t :: new).
      rewrite <-app_assoc in *. split_and!; [done..|]. constructor; [|by apply Hweak].
      split; [done|by left].
    + apply IH in Hw as (new & -> & Hlen & Hnew). exists new. split_and!; [done..|].
      by apply Hweak.
  - destruct (decide (length acc = n)); [|done]. intros [= <- _]. exists [].
    by rewrite app_nil_r.
Qed.

(** A block mined on the tip with pooled transactions passes the own validator. *)
Lemma mined_verdict g bs st id root (ts : Z) n txs :
  stores_wf st → chain_of g bs (chain_map st) →
  Forall (λ t, is_Some (pool_map st !! tx_hash t)) txs →
  nonce_ok (Block_hash (tip g bs)) root ts n = true → Block_timestamp (tip g bs) < ts →
  verdict (tip g bs) (st_spent st) (mined_block (Block_hash (tip g bs)) id root ts txs n) =
    ValidationState.Success.
Proof.
  intros Hwf Hc Htxs Hok Hts. apply verdict_success. split; [by apply mined_follows|].
  cbn. eapply Forall_impl; [exact Htxs|]. intros t [u Hu] [v Hv]. cbn in *.
  destruct (sw_disjoint st Hwf (tx_hash t)) as [Hn|Hn]; unfold pool_map, spent_map in *;
    congruence.
Qed.
End TaskLemmas.

(** ** Properties *)

Section Properties.
Context `{JsonLib} `{CryptoLib} `{LevelDB} `{FifoLib}.

(** C11: the search ends exactly when some 64-bit nonce gives a hash with four leading zeros that
    is below the previous hash; it then returns the block with the least such nonce. *)
Theorem mining_finds_least_nonce prev id root ts txs :
  (∀ fuel b, mining_loop fuel prev id root ts txs 0 = Some b →
     ∃ n, first_nonce prev root ts n ∧ b = mined_block prev id root ts txs n) ∧
  (∀ n, u64 n → nonce_ok prev root ts n = true →
     ∃ fuel b, mining_loop fuel prev id root ts txs 0 = Some b).
Proof.
  assert (∀ n fuel, first_nonce prev root ts n → n < Z.of_nat fuel →
    mining_loop fuel prev id root ts txs 0 = Some (mined_block prev id root ts txs n)) as Hrun.
  { intros n fuel ([? ?] & Hok & Hno) Hfuel.
    apply mining_loop_first; [lia|done|done|done|lia]. }
  split.
  - intros fuel b Hb. destruct (mining_loop_some fuel prev id root ts txs 0 b) as (k & Hk & Hok & _);
      [done|done|]. destruct (least_nonce prev root ts k Hk Hok) as (n & Hn & _).
    exists n. split; [done|]. pose proof Hn as ([Hn0 _] & _ & _).
    pose proof (Hrun n (fuel + S (Z.to_nat n))%nat Hn ltac:(lia)) as Hlong.
    rewrite (mining_loop_more fuel _ _ _ _ _ _ _ b Hb) in Hlong. congruence.
  - intros k Hk Hok. destruct (least_nonce prev root ts k Hk Hok) as (n & Hn & _).
    exists (S (Z.to_nat n)), (mined_block prev id root ts txs n). apply Hrun; [done|].
    destruct Hn as ([? ?] & _). lia.
Qed.

(** C10: what the miner makes of the transactions it collects from the pool is a block its own
    validator accepts, provided the stores have not changed since and the clock is past the
    newest block's timestamp. *)
Theorem mined_block_validates `{HostLib} g bs st n txs p' newest search fuel id h b h' :
  stores_wf st → chain_of g bs (chain_map st) →
  wait n [] (st_pool st) = (Ok (Collected txs), p') →
  last Block_default (st_chain st) = Ok newest → Block_timestamp newest < clock_at (clock_ix h) →
  mining_function (Block_hash newest) id txs h = (Ok search, h') → search fuel = Some b →
  length (bl_transactions b) = n ∧ bl_transactions b = txs ∧
  validate_block (st_chain st) (st_spent st) b = Ok ValidationState.Success.
Proof.
  intros Hwf Hc Hwait Hlast Hts Hm Hb.
  rewrite (chain_last g bs) in Hlast by (try done; apply Hwf). injection Hlast as <-.
  assert (wpx (wait n []) (λ r _, r = Collected txs → length txs = n ∧
    Forall (λ t, is_Some (pool_map st !! tx_hash t)) txs) (λ _ _, True) (st_pool st)) as Hcol.
  { apply wpx_wait; [apply Hwf|]. intros q _ Hr.
    destruct (wait_spec _ n [] _) as [r rest] eqn:Hspec. cbn in Hr. subst r.
    apply wait_spec_collected in Hspec as (new & -> & Hlen & Hnew). split; [done|].
    eapply Forall_impl; [exact Hnew|]. by intros t [? _]. }
  unfold wpx in Hcol. rewrite Hwait in Hcol. destruct (Hcol eq_refl) as [Hlen Hpool].
  unfold mining_function, mbind, M_bind, lift_result in Hm.
  destruct (get_merkle_root txs) as [root|e]; [|done]. cbn in Hm. injection Hm as <- _.
  destruct (mining_loop_some _ _ _ _ _ _ _ _ ltac:(done) Hb) as (k & _ & Hok & ->).
  split_and!; [done..|]. erewrite validate_block_chain; [|apply Hwf|exact Hc|apply Hwf].
  f_equal. by apply (mined_verdict g bs st id root (clock_at (clock_ix h)) k).
Qed.

(** Without transactions there is no merkle root: the mining function throws before it looks
    at the clock, for any amount of work. *)
Lemma mining_without_transactions_throws prev id `{HostLib} h :
  mining_function prev id [] h = (Err LibraryError, h).
Proof.
  unfold mining_function, get_merkle_root, mbind, M_bind, lift_result. cbn.
  by rewrite merkle_root_empty.
Qed.
End Properties.
