(* ===== verification/Peer.v ===== *)
(** * The state of a peer process

    The objects the three programs with a PeerManager share: the event loop and its queue, the
    retry handler's database, the PeerManager, its connections and the calls of wait_for_peers,
    and the tasks of the thread executor. [A] is the type of the callbacks the program itself
    registers. *)

From stdpp Require Import base sets list gmap strings.
From Stdlib Require Import ZArith Lia.
From S2P Require Import Prelude Json Crypto LevelDB Fifo Rtc Enums Models Messages DBInterface.
From S2P Require Import Stores TransactionPool Event Services.

Open Scope Z_scope.

(** The callbacks of the shared components; connections and the calls of wait_for_peers are
    numbered. *)
Inductive PeerCallback (A : Type) :=
  | Program (a : A)
  | RetryOnDatachannelOpen
  | OnRtcSetup
  | OnPeerTypeRequest
  | OnPeerStateRequest
  | OnSendPeerMessage
  | OnDatachannelOpened
  | OnDatachannelClosed
  | OnPeerClosed
  | ConnectToPeer
  | OnPeerStateUpdate (connection : nat)
  | OnRtcCandidate (connection : nat)
  | OnWaitEvent (wait : nat)
  | SendSignaling.
Arguments Program {A} a.
Arguments RetryOnDatachannelOpen {A}.
Arguments OnRtcSetup {A}.
Arguments OnPeerTypeRequest {A}.
Arguments OnPeerStateRequest {A}.
Arguments OnSendPeerMessage {A}.
Arguments OnDatachannelOpened {A}.
Arguments OnDatachannelClosed {A}.
Arguments OnPeerClosed {A}.
Arguments ConnectToPeer {A}.
Arguments OnPeerStateUpdate {A} connection.
Arguments OnRtcCandidate {A} connection.
Arguments OnWaitEvent {A} wait.
Arguments SendSignaling {A}.

(** class PeerConnection; the channel is null until one is made or received. *)
Record PeerConnection := MkPeerConnection {
  pc_identity : string;
  pc_rtc : nat;
  pc_channel : option nat;
  pc_type : PeerType.t;
  pc_state : PeerState.t;
  pc_handles : list (EventType * nat) }.

(** class PeerManager: the map holds shared pointers, which may be null. The identity is the
    signaling client's. *)
Record PeerManager := MkPeerManager {
  mg_identity : string;
  mg_connections : gmap string (option nat);
  mg_state : PeerState.t;
  mg_type : PeerType.t }.

(** What the lambdas of one wait_for_peers call share: its arguments, the identities found so
    far, the handles of its two listeners once they are set, and the promise, which is resolved
    at most once. *)
Record PeersWait := MkPeersWait {
  pw_count : Z;
  pw_types : list PeerType.t;
  pw_states : list PeerState.t;
  pw_identities : list string;
  pw_handle1 : option nat;
  pw_handle2 : option nat;
  pw_result : option (list string) }.

Section Peer.
Context `{JsonLib} `{LevelDB} `{FifoLib} `{EventppLib} `{RtcLib} {A : Type}.

(** What is posted to the thread executor: a broadcast, the resending of stored messages, or
    the lambda of a wait_for_peers call. *)
Inductive PostedTask :=
  | BroadcastTask (task : Task)
  | RetryTask (peer_id : string)
  | WaitTask (wait : nat) (e : Event).

#[global] Instance PostedTask_eq_dec : EqDecision PostedTask.
Proof. solve_decision. Defined.

Record Peer := MkPeer {
  pr_host : Host;
  pr_rtc : rtc;
  pr_queue : EventQueue (L:=PeerCallback A);
  pr_retry : db;
  pr_manager : PeerManager;
  pr_heap : gmap nat PeerConnection;
  pr_posted : list PostedTask;
  pr_running : list PostedTask;
  pr_waits : gmap nat PeersWait;
  pr_end : bool }.

(** A process whose main has not registered anything yet. *)
Definition Peer_new (host : Host) (network : rtc) (d : db) : Peer :=
  MkPeer host network EventQueue_new d (MkPeerManager "" ∅ PeerState.Closed PeerType.Unknown)
    ∅ [] [] ∅ false.

Definition hostL : Lens Peer Host :=
  MkLens pr_host (λ x p, MkPeer x (pr_rtc p) (pr_queue p) (pr_retry p) (pr_manager p)
    (pr_heap p) (pr_posted p) (pr_running p) (pr_waits p) (pr_end p)).
Definition rtcL : Lens Peer rtc :=
  MkLens pr_rtc (λ x p, MkPeer (pr_host p) x (pr_queue p) (pr_retry p) (pr_manager p)
    (pr_heap p) (pr_posted p) (pr_running p) (pr_waits p) (pr_end p)).
Definition queueL : Lens Peer (EventQueue (L:=PeerCallback A)) :=
  MkLens pr_queue (λ x p, MkPeer (pr_host p) (pr_rtc p) x (pr_retry p) (pr_manager p)
    (pr_heap p) (pr_posted p) (pr_running p) (pr_waits p) (pr_end p)).
Definition retryL : Lens Peer db :=
  MkLens pr_retry (λ x p, MkPeer (pr_host p) (pr_rtc p) (pr_queue p) x (pr_manager p)
    (pr_heap p) (pr_posted p) (pr_running p) (pr_waits p) (pr_end p)).
Definition managerL : Lens Peer PeerManager :=
  MkLens pr_manager (λ x p, MkPeer (pr_host p) (pr_rtc p) (pr_queue p) (pr_retry p) x
    (pr_heap p) (pr_posted p) (pr_running p) (pr_waits p) (pr_end p)).
Definition heapL : Lens Peer (gmap nat PeerConnection) :=
  MkLens pr_heap (λ x p, MkPeer (pr_host p) (pr_rtc p) (pr_queue p) (pr_retry p) (pr_manager p)
    x (pr_posted p) (pr_running p) (pr_waits p) (pr_end p)).
Definition postedL : Lens Peer (list PostedTask) :=
  MkLens pr_posted (λ x p, MkPeer (pr_host p) (pr_rtc p) (pr_queue p) (pr_retry p) (pr_manager p)
    (pr_heap p) x (pr_running p) (pr_waits p) (pr_end p)).
Definition runningL : Lens Peer (list PostedTask) :=
  MkLens pr_running (λ x p, MkPeer (pr_host p) (pr_rtc p) (pr_queue p) (pr_retry p) (pr_manager p)
    (pr_heap p) (pr_posted p) x (pr_waits p) (pr_end p)).
Definition waitsL : Lens Peer (gmap nat PeersWait) :=
  MkLens pr_waits (λ x p, MkPeer (pr_host p) (pr_rtc p) (pr_queue p) (pr_retry p) (pr_manager p)
    (pr_heap p) (pr_posted p) (pr_running p) x (pr_end p)).
Definition endL : Lens Peer bool :=
  MkLens pr_end (λ x p, MkPeer (pr_host p) (pr_rtc p) (pr_queue p) (pr_retry p) (pr_manager p)
    (pr_heap p) (pr_posted p) (pr_running p) (pr_waits p) x).

#[global] Instance hostL_laws : LensLaws hostL.
Proof. by split; intros; destruct s. Qed.

#[global] Instance rtcL_laws : LensLaws rtcL.
Proof. by split; intros; destruct s. Qed.

#[global] Instance queueL_laws : LensLaws queueL.
Proof. by split; intros; destruct s. Qed.

#[global] Instance retryL_laws : LensLaws retryL.
Proof. by split; intros; destruct s. Qed.

#[global] Instance managerL_laws : LensLaws managerL.
Proof. by split; intros; destruct s. Qed.

#[global] Instance heapL_laws : LensLaws heapL.
Proof. by split; intros; destruct s. Qed.

#[global] Instance postedL_laws : LensLaws postedL.
Proof. by split; intros; destruct s. Qed.

#[global] Instance runningL_laws : LensLaws runningL.
Proof. by split; intros; destruct s. Qed.

#[global] Instance waitsL_laws : LensLaws waitsL.
Proof. by split; intros; destruct s. Qed.

#[global] Instance endL_laws : LensLaws endL.
Proof. by split; intros; destruct s. Qed.

(** [executor->post(task)] *)
Definition post (task : PostedTask) : M Peer unit := zoom postedL (modify (λ l, l ++ [task])).

(** A worker takes a posted task; it runs until it is done, with the shared pointers it holds. *)
Definition task_start (task : PostedTask) : M Peer unit :=
  _ ← zoom postedL (modify (remove_first task));
  zoom runningL (modify (λ l, l ++ [task])).

Definition task_done (task : PostedTask) : M Peer unit :=
  zoom runningL (modify (remove_first task)).

(** EventQueue::enqueue on the loop's queue. *)
Definition enqueue_event (event : Event) : M Peer unit := zoom queueL (enqueue event).

(** The events that wait in the queue. *)
Definition pending (p : Peer) : list Event := (epp_pending (eq_queue (pr_queue p))).*2.

(** SignalingClient::identity() *)
Definition identity (p : Peer) : string := mg_identity (pr_manager p).

(** [appendListener] of a component; the handle is kept for its ScopedRemover. *)
Definition listen (type : EventType) (callback : PeerCallback A) : M Peer nat :=
  zoom queueL (append_listener type callback).

(** enqueue<InternalMessage<PeerMessage>>(SendPeerMessage, PeerMessage::create(...)) *)
Definition send_and_forget (type : PeerMessageType.t) (sender receiver tag : string)
    (content : json) `{HostLib} : M Peer unit :=
  message ← zoom hostL (PeerMessage_create type sender receiver tag content);
  internal ← zoom hostL (InternalMessage_create InternalMessageType.SendPeerMessage message);
  enqueue_event (EvInternalPeer internal).

(** submit<InternalMessage<PeerMessage>>(SendPeerMessage, PeerMessage::create(...)): the number
    of the promise of the answer. *)
Definition send (type : PeerMessageType.t) (sender receiver tag : string) (content : json)
    `{HostLib} : M Peer nat :=
  message ← zoom hostL (PeerMessage_create type sender receiver tag content);
  internal ← zoom hostL (InternalMessage_create InternalMessageType.SendPeerMessage message);
  zoom queueL (submit (EvInternalPeer internal)).

(** enqueue<InternalMessage<SignalingMessage>>(SendSignalingMessage, ...) *)
Definition send_signaling (type : SignalingMessageType.t) (sender receiver tag : string)
    (content : json) `{HostLib} : M Peer unit :=
  internal ← zoom hostL (InternalMessage_create InternalMessageType.SendSignalingMessage
    (MkSignalingMessage type sender receiver tag content));
  enqueue_event (EvInternalSignaling internal).

(** What [send] does: the message, stamped twice, goes to the queue under a new promise. *)
Lemma send_spec `{HostLib} type sender receiver tag content p :
  let h := pr_host p in
  let m := MkPeerMessage type sender receiver tag content (clock_at (clock_ix h)) in
  let e := EvInternalPeer (MkInternalMessage InternalMessageType.SendPeerMessage m
             (clock_at (S (clock_ix h))) 0) in
  send type sender receiver tag content p =
    (Ok (pr_next (ps_cells (eq_store (pr_queue p)))),
     lset hostL (MkHost (S (S (clock_ix h))) (uuid_ix h))
       (lset queueL (submit e (pr_queue p)).2 p)).
Proof.
  intros h m e. unfold send, PeerMessage_create, InternalMessage_create, get_krapi_timestamp.
  unfold mbind, M_bind, zoom.
  cbn. fold h. fold m. fold e. by rewrite submit_spec.
Qed.

Lemma send_and_forget_spec `{HostLib} type sender receiver tag content p :
  let h := pr_host p in
  let m := MkPeerMessage type sender receiver tag content (clock_at (clock_ix h)) in
  let e := EvInternalPeer (MkInternalMessage InternalMessageType.SendPeerMessage m
             (clock_at (S (clock_ix h))) 0) in
  send_and_forget type sender receiver tag content p =
    (Ok tt, lset hostL (MkHost (S (S (clock_ix h))) (uuid_ix h))
              (lset queueL (enqueue e (pr_queue p)).2 p)).
Proof.
  intros h m e. unfold send_and_forget, PeerMessage_create, InternalMessage_create,
    get_krapi_timestamp. by unfold mbind, M_bind, zoom.
Qed.

Lemma pending_enqueue e q :
  epp_pending (eq_queue (enqueue (L:=PeerCallback A) e q).2) =
    epp_pending (eq_queue q) ++ [(event_type e, e)].
Proof. unfold enqueue, zoom, modify. cbn. apply epp_enqueue_pending. Qed.

Lemma wpx_enqueue_event e (Q : unit → Peer → Prop) E p :
  (∀ q, (epp_pending (eq_queue q)) = epp_pending (eq_queue (pr_queue p)) ++ [(event_type e, e)] →
        eq_store q = eq_store (pr_queue p) → Q tt (lset queueL q p)) →
  wpx (enqueue_event e) Q E p.
Proof. intros HQ. unfold enqueue_event. wp_step. apply HQ; [apply pending_enqueue|done]. Qed.
End Peer.
