(* ===== verification/RetryHandler.v ===== *)
(** * The retry handler (PeerManager/RetryHandler.{h,cpp})

    A database of the messages that could not be sent. *)

From stdpp Require Import base sets list gmap strings.
From Stdlib Require Import ZArith Lia.
From S2P Require Import Prelude Json Crypto LevelDB Fifo Rtc Enums Models Messages DBInterface.
From S2P Require Import Stores TransactionPool Event Services Peer.

Open Scope Z_scope.

Section RetryHandler.
Context `{JsonLib} `{CryptoLib} `{LevelDB} `{FifoLib} `{EventppLib} `{RtcLib} {A : Type}.
Abbreviation Peer := (Peer (A:=A)).

(** RetryHandler(executor, path, queue): [None] is [exit(1)]; otherwise the database, and the
    callback is registered. *)
Definition RetryHandler_new (exists_ created : bool) (opened : option db)
    : option (M Peer nat) :=
  d ← initialize exists_ created opened;
  Some
    (_ ← zoom retryL (modify (λ _, d));
     listen (NotificationEvent InternalNotificationType.DataChannelOpened)
       RetryOnDatachannelOpen).

Definition retry (message : InternalMessage PeerMessage) : M Peer unit :=
  if 3 <=? im_retry_count message then
    _ ← zoom retryL (remove message);
    let message := reset_retry_count message in
    _ ← zoom retryL (put message);
    mret tt
  else enqueue_event (EvInternalPeer (increament_retry_count message)).

(** The body of the loop of the task on_datachannel_open posts. *)
Definition retry_one (peer_id : string) (internal_message : InternalMessage PeerMessage)
    : M Peer unit :=
  let content := im_content internal_message in
  if decide (pm_receiver_identity content = peer_id) then
    let internal_message := increament_retry_count internal_message in
    _ ← enqueue_event (EvInternalPeer internal_message);
    _ ← zoom retryL (remove internal_message);
    mret tt
  else mret tt.

(** The task: it iterates over a snapshot. *)
Definition retry_task (peer_id : string) : M Peer unit :=
  d ← gets pr_retry;
  for_data d (retry_one peer_id).

Definition on_datachannel_open (e : Event) : M Peer unit :=
  notification ← lift_result (get_string_notification e);
  post (RetryTask (in_content notification)).
End RetryHandler.

Section Lemmas.
Context `{JsonLib} `{CryptoLib} `{LevelDB} `{FifoLib} `{EventppLib} `{RtcLib} {A : Type}.
Abbreviation Peer := (Peer (A:=A)).
Implicit Types (p : Peer) (m : InternalMessage PeerMessage).

(** The messages that wait in the database, by tag. *)
Definition stored (p : Peer) : gmap string (InternalMessage PeerMessage) :=
  db_abs (pr_retry p).

Lemma retry_requeues m p :
  im_retry_count m < 3 →
  wp (retry m) (λ _ p', pr_rtc p' = pr_rtc p ∧ pr_retry p' = pr_retry p ∧
     pending p' = pending p ++ [EvInternalPeer (increament_retry_count m)]) p.
Proof.
  intros Hc. unfold retry. destruct (Z.leb_spec 3 (im_retry_count m)); [lia|].
  apply wpx_enqueue_event. intros q Hq _. split_and!; [done..|]. unfold pending. cbn.
  by rewrite Hq, fmap_app.
Qed.

Lemma retry_stores m p :
  db_wf (T:=InternalMessage PeerMessage) (pr_retry p) → wf_internal_message m →
  3 ≤ im_retry_count m →
  wp (retry m) (λ _ p', db_wf (T:=InternalMessage PeerMessage) (pr_retry p') ∧
     pr_rtc p' = pr_rtc p ∧ pending p' = pending p ∧
     (ReliableWrites → stored p' = <[InternalMessage_tag m := stored_message m]> (stored p))) p.
Proof.
  intros Hwf Hm Hc. unfold retry. destruct (Z.leb_spec 3 (im_retry_count m)); [|lia].
  do 2 wp_step. apply wpx_remove; [done|]. intros ok d Hd Habs Hrel. do 2 wp_step.
  cbn [lget lset retryL pr_retry]. apply wpx_put; [done|by destruct Hm|].
  intros ok' d' Hd' Habs' Hrel'. wp_step. cbn. split_and!; [done..|]. intros HR.
  unfold stored. cbn. rewrite Habs', Hrel', Habs, Hrel by done.
  exact (put_remove_spec (reset_retry_count m) (stored p)).
Qed.

(** What opening a channel to [peer_id] takes out of the database. *)
Definition for_peer (peer_id : string) (ms : list (InternalMessage PeerMessage))
    : list (InternalMessage PeerMessage) :=
  filter (λ m, pm_receiver_identity (im_content m) = peer_id) ms.

Definition resent (peer_id : string) (ms : list (InternalMessage PeerMessage)) : list Event :=
  map (λ m, EvInternalPeer (increament_retry_count m)) (for_peer peer_id ms).

Lemma retry_loop (peer_id : string) slices ms p :
  ReliableWrites → Forall2 (λ s m, from_slice s = Ok m) slices ms →
  db_wf (T:=InternalMessage PeerMessage) (pr_retry p) →
  wp (for_each slices (λ slice, internal_message ← lift_result (from_slice slice);
        retry_one peer_id internal_message))
     (λ _ p', db_wf (T:=InternalMessage PeerMessage) (pr_retry p') ∧
        pending p' = pending p ++ resent peer_id ms ∧
        ∀ k, stored p' !! k =
          if decide (k ∈ map InternalMessage_tag (for_peer peer_id ms)) then None
          else stored p !! k) p.
Proof.
  intros HR Hms. revert p. induction Hms as [|s m slices ms Hm _ IH]; intros p Hwf;
    cbn [for_each].
  { wp_step. unfold resent. cbn. rewrite app_nil_r. by split_and!. }
  do 2 wp_step. eapply wpx_lift_ok; [exact Hm|].
  unfold resent, for_peer. rewrite filter_cons. fold (for_peer peer_id ms).
  unfold retry_one. destruct (decide (pm_receiver_identity (im_content m) = peer_id)) as [Hid|Hid].
  2:{ wp_step. by apply IH. }
  wp_step. apply wpx_enqueue_event. intros q Hq _. do 2 wp_step.
  cbn [lget lset retryL queueL pr_retry].
  apply wpx_remove; [done|]. intros ok d Hd Habs Hrel. wp_step. rewrite Hrel in Habs by done.
  eapply wp_mono; [apply IH; exact Hd|]. intros [] p' (Hwf' & Hpend & Hst).
  split_and!; [done| |].
  - rewrite Hpend. unfold pending. cbn. by rewrite Hq, fmap_app, <-app_assoc.
  - intros k. rewrite Hst. unfold stored. cbn [lget lset retryL pr_retry]. rewrite Habs.
    rewrite remove_spec_lookup.
    change (data_tag (increament_retry_count m)) with (InternalMessage_tag m). cbn [map].
    repeat case_decide; try done; set_solver.
Qed.

Lemma retry_task_spec peer_id p :
  ReliableWrites → db_wf (T:=InternalMessage PeerMessage) (pr_retry p) →
  wp (retry_task peer_id) (λ _ p',
     db_wf (T:=InternalMessage PeerMessage) (pr_retry p') ∧
     stored p' = filter (λ km, pm_receiver_identity (im_content km.2) ≠ peer_id) (stored p) ∧
     ∃ ms, db_data (pr_retry p) = Ok ms ∧ pending p' = pending p ++ resent peer_id ms) p.
Proof.
  intros HR Hwf. unfold retry_task, for_data. do 2 wp_step.
  destruct (db_data_spec (T:=InternalMessage PeerMessage) (pr_retry p) Hwf)
    as (ms & Hms & _ & Hin & _).
  eapply wp_mono; [apply (retry_loop peer_id _ ms); [done|by apply traverse_ok|done]|].
  intros [] p' (Hwf' & Hpend & Hst). split_and!; [done| |by exists ms].
  apply map_eq. intros k. rewrite Hst.
  assert (∀ m, stored p !! k = Some m → m ∈ ms ∧ InternalMessage_tag m = k) as Hk.
  { intros m Hm. pose proof (db_abs_inv (pr_retry p) k m Hwf Hm) as (<- & _).
    split; [by apply Hin|done]. }
  case_decide as Hd.
  - symmetry. apply map_lookup_filter_None. right. intros m Hm Hne. cbn in Hne.
    apply list_elem_of_fmap in Hd as (u & -> & Hu). apply list_elem_of_filter in Hu as [Hid Hu].
    apply Hin in Hu. unfold stored in Hm. change (data_tag u) with (InternalMessage_tag u) in Hu.
    congruence.
  - destruct (stored p !! k) as [m|] eqn:Hm; symmetry.
    + apply map_lookup_filter_Some. split; [done|]. cbn. intros Hid. apply Hd.
      destruct (Hk m eq_refl) as [Hmin <-]. apply list_elem_of_fmap. exists m.
      split; [done|]. by apply list_elem_of_filter.
    + apply map_lookup_filter_None. by left.
Qed.

(** The database [d] has no message for [peer_id]. *)
Definition no_mail (peer_id : string) (d : db) : Prop :=
  db_wf (T:=InternalMessage PeerMessage) d ∧
  ∀ k m, db_abs d !! k = Some m → pm_receiver_identity (im_content m) ≠ peer_id.

Lemma retry_task_no_mail peer_id p :
  no_mail peer_id (pr_retry p) → wp (retry_task peer_id) (λ _ p', p' = p) p.
Proof.
  intros [Hwf Hno]. unfold retry_task, for_data. do 2 wp_step.
  destruct (db_data_spec (T:=InternalMessage PeerMessage) (pr_retry p) Hwf)
    as (ms & Hms & _ & Hin & _). apply traverse_ok in Hms.
  assert (∀ m, m ∈ ms → pm_receiver_identity (im_content m) ≠ peer_id) as Hall.
  { intros m Hm. by eapply Hno, Hin. }
  clear Hin. induction Hms as [|s m slices ms Hm _ IH]; cbn [for_each]; [by wp_step|].
  do 2 wp_step. eapply wpx_lift_ok; [exact Hm|]. unfold retry_one.
  rewrite decide_False by (apply Hall; set_solver). wp_step. apply IH. set_solver.
Qed.
End Lemmas.

(** ** Properties *)

Section Properties.
Context `{JsonLib} `{CryptoLib} `{LevelDB} `{FifoLib} `{EventppLib} `{RtcLib} {A : Type}.
Abbreviation Peer := (Peer (A:=A)).

(** C17: a message that cannot be sent is tried again three times and then put aside: the first
    three failures of a fresh message put it back at the end of the queue with its count
    increased, the fourth stores it under its tag with no retries, instead of any older message
    with that tag. *)
Theorem retry_is_bounded m n (p : Peer) :
  ReliableWrites → db_wf (T:=InternalMessage PeerMessage) (pr_retry p) →
  wf_internal_message m → im_retry_count m = 0 →
  let m' := Nat.iter n increament_retry_count m in
  ∃ p', retry m' p = (Ok tt, p') ∧
    ((n < 3)%nat → pr_retry p' = pr_retry p ∧
       pending p' = pending p ++ [EvInternalPeer (Nat.iter (S n) increament_retry_count m)]) ∧
    (n = 3%nat → pending p' = pending p ∧
       stored p' = <[InternalMessage_tag m := stored_message m]> (stored p)).
Proof.
  intros HR Hwf Hm Hzero m'.
  assert (im_retry_count m' = Z.of_nat n ∧ im_content m' = im_content m ∧
    im_timestamp m' = im_timestamp m ∧ im_type m' = im_type m) as (Hc & Hcon & Hts & Hty).
  { unfold m'. clear m'. induction n as [|n (IHc & IHcon & IHts & IHty)]; [done|].
    rewrite Nat.iter_succ. cbn -[Nat.iter]. rewrite IHc. split_and!; [lia|done..]. }
  destruct (decide (n < 3)%nat) as [Hn|Hn].
  - pose proof (retry_requeues m' p ltac:(lia)) as Hrun.
    apply wp_run in Hrun as ([] & p' & Hrun & _ & Hdb & Hp). exists p'. split_and!; [done..|lia].
  - assert (wf_internal_message m') as Hm' by (destruct Hm; split; congruence).
    pose proof (retry_stores m' p Hwf Hm' ltac:(lia)) as Hrun.
    apply wp_run in Hrun as ([] & p' & Hrun & _ & _ & Hp & Hst). exists p'.
    split_and!; [done|lia|]. intros _. split; [done|]. rewrite Hst by done.
    unfold InternalMessage_tag, stored_message. by rewrite Hcon, Hts, Hty.
Qed.

(** C18: when a channel to a peer opens, exactly the stored messages for that peer leave the
    database and are queued again behind the pending events, each of them once and with one more
    retry, in the order of the database; the others stay. *)
Theorem retry_task_resends peer_id (p : Peer) :
  ReliableWrites → db_wf (T:=InternalMessage PeerMessage) (pr_retry p) →
  ∃ p' ms, retry_task peer_id p = (Ok tt, p') ∧
    NoDup (map InternalMessage_tag ms) ∧ map InternalMessage_tag ms = (db_iter (pr_retry p)).*1 ∧
    (∀ m, m ∈ ms ↔ stored p !! InternalMessage_tag m = Some m) ∧
    stored p' = filter (λ km, pm_receiver_identity (im_content km.2) ≠ peer_id) (stored p) ∧
    pending p' = pending p ++ map (λ m, EvInternalPeer (increament_retry_count m))
      (filter (λ m, pm_receiver_identity (im_content m) = peer_id) ms).
Proof.
  intros HR Hwf. pose proof (retry_task_spec peer_id p HR Hwf) as Hrun.
  apply wp_run in Hrun as ([] & p' & Hrun & _ & Hst & ms & Hms & Hp). exists p', ms.
  destruct (db_data_spec (T:=InternalMessage PeerMessage) _ Hwf) as (ms' & Hms' & Htags & Hin & _).
  assert (ms' = ms) as -> by congruence.
  split_and!; [done| |exact Htags|exact Hin|done..].
  exact (proj2 (db_data_tags (T:=InternalMessage PeerMessage) _ _ Hwf Hms)).
Qed.
End Properties.
