(* ===== verification/PeerConnection.v ===== *)
(** * A connection to a peer (PeerManager/PeerConnection.{h,cpp})

    The object, the callbacks it gives to libdatachannel, its event listeners, and the coroutines
    [state] and [type]. *)

From stdpp Require Import base sets list gmap strings.
From Stdlib Require Import ZArith Lia.
From S2P Require Import Prelude Json Crypto LevelDB Fifo Rtc Enums Models Messages DBInterface.
From S2P Require Import Stores TransactionPool Event Coroutine Services Peer.

Open Scope Z_scope.

Section PeerConnection.
Context `{JsonLib} `{LevelDB} `{FifoLib} `{EventppLib} `{RtcLib} `{HostLib} {A : Type}.
Abbreviation Peer := (Peer (A:=A)).

(** [*connection]: a dangling pointer has no meaning. *)
Definition connection (c : nat) : M Peer PeerConnection :=
  heap ← gets pr_heap;
  match heap !! c with
  | Some pc => mret pc
  | None => throw UndefinedBehaviour
  end.

Definition update_connection (c : nat) (pc : PeerConnection) : M Peer unit :=
  zoom heapL (modify (insert c pc)).

(** Both constructors append the same two listeners. *)
Definition append_connection_listeners (c : nat) : M Peer unit :=
  h1 ← listen (PeerEvent PeerMessageType.PeerStateUpdate) (OnPeerStateUpdate c);
  h2 ← listen (SignalingEvent SignalingMessageType.RTCCandidate) (OnRtcCandidate c);
  pc ← connection c;
  update_connection c
    (MkPeerConnection (pc_identity pc) (pc_rtc pc) (pc_channel pc) (pc_type pc) (pc_state pc)
       [(PeerEvent PeerMessageType.PeerStateUpdate, h1);
        (SignalingEvent SignalingMessageType.RTCCandidate, h2)]).

(** The members before the body of a constructor runs. *)
Definition allocate_connection (identity : string) : M Peer nat :=
  c ← gets (λ p, fresh (dom (pr_heap p)));
  r ← zoom rtcL (writes rtc_connect);
  _ ← update_connection c
        (MkPeerConnection identity r None PeerType.Unknown PeerState.Unknown []);
  mret c.

(** initialize_channel: the first channel is kept; its callbacks are [on_message], [on_open]
    and [on_closed] below. *)
Definition initialize_channel (c datachannel : nat) : M Peer unit :=
  pc ← connection c;
  match pc_channel pc with
  | Some _ => mret tt
  | None =>
      update_connection c
        (MkPeerConnection (pc_identity pc) (pc_rtc pc) (Some datachannel) (pc_type pc)
           (pc_state pc) (pc_handles pc))
  end.

(** PeerConnection(event_queue, signaling_client, identity): the offering side. *)
Definition PeerConnection_offer (identity : string) : M Peer nat :=
  c ← allocate_connection identity;
  pc ← connection c;
  datachannel ← zoom rtcL (writes (rtc_create_channel (pc_rtc pc) "krapi"));
  _ ← update_connection c
        (MkPeerConnection (pc_identity pc) (pc_rtc pc) (Some datachannel) (pc_type pc)
           (pc_state pc) (pc_handles pc));
  _ ← initialize_channel c datachannel;
  _ ← append_connection_listeners c;
  mret c.

Definition set_remote_description (c : nat) (sdp type_string : string) : M Peer unit :=
  pc ← connection c;
  zoom rtcL (rtc_set_remote (pc_rtc pc) sdp type_string).

(** PeerConnection(event_queue, signaling_client, identity, sdp, type): the answering side. *)
Definition PeerConnection_answer (identity sdp type : string) : M Peer nat :=
  c ← allocate_connection identity;
  _ ← set_remote_description c sdp type;
  _ ← append_connection_listeners c;
  mret c.

(** The callbacks of the data channel. *)
Definition on_message (message : RtcMessage) : M Peer unit :=
  message_str ← lift_result (rtc_text message);
  message_json ← lift_result (parse message_str);
  peer_message ← lift_result (PeerMessage_from_json message_json);
  enqueue_event (EvPeer peer_message).

Definition notify_string (type : InternalNotificationType.t) (content : string)
    : M Peer unit :=
  notification ← zoom hostL (InternalNotification_create type content);
  enqueue_event (EvString notification).

Definition on_open (c : nat) : M Peer unit :=
  pc ← connection c;
  notify_string InternalNotificationType.DataChannelOpened (pc_identity pc).

Definition on_closed (c : nat) : M Peer unit :=
  pc ← connection c;
  notify_string InternalNotificationType.DataChannelClosed (pc_identity pc).

(** send_and_forget: [false] when there is no open channel. *)
Definition connection_send (c : nat) (message : PeerMessage) : M Peer bool :=
  pc ← connection c;
  match pc_channel pc with
  | None => mret false
  | Some datachannel =>
      is_open ← gets (λ p, ch_is_open (pr_rtc p) datachannel &&
                           negb (ch_is_closed (pr_rtc p) datachannel));
      if (is_open : bool) then
        message_str ← lift_result (PeerMessage_to_string message);
        _ ← zoom rtcL (ch_send datachannel message_str);
        mret true
      else mret false
  end.

Definition on_local_candidate (c : nat) (candidate mid : string) : M Peer unit :=
  pc ← connection c;
  id ← gets identity;
  tag ← zoom hostL create_tag;
  send_signaling SignalingMessageType.RTCCandidate id (pc_identity pc) tag
    (jobject [("candidate", jstring candidate); ("mid", jstring mid)]).

Definition on_local_description (c : nat) (sdp type : string) : M Peer unit :=
  pc ← connection c;
  id ← gets identity;
  tag ← zoom hostL create_tag;
  send_signaling SignalingMessageType.RTCSetup id (pc_identity pc) tag
    (jobject [("sdp", jstring sdp); ("type", jstring type)]).

(** What state() and type() ask the peer for: the promise of the answer. *)
Definition ask_peer (type : PeerMessageType.t) (pc : PeerConnection) : M Peer nat :=
  id ← gets identity;
  tag ← zoom hostL create_tag;
  send type id (pc_identity pc) tag jnull.

(** state(): a member that is not known yet is asked for. *)
Definition store_state (c : nat) (result : Event) : M Peer PeerState.t :=
  message ← lift_result (get_peer result);
  pc ← connection c;
  let state := enum_from_json PeerState.table (pm_content message) in
  _ ← update_connection c
        (MkPeerConnection (pc_identity pc) (pc_rtc pc) (pc_channel pc) (pc_type pc) state
           (pc_handles pc));
  mret state.

Definition connection_state (c : nat) : Coroutine Peer PeerState.t :=
  pc ← co_lift (connection c);
  if decide (pc_state pc = PeerState.Unknown) then
    promise ← co_lift (ask_peer PeerMessageType.PeerStateRequest pc);
    result ← await promise;
    co_lift (store_state c result)
  else mret (pc_state pc).

(** type(), in the same way. *)
Definition store_type (c : nat) (result : Event) : M Peer PeerType.t :=
  message ← lift_result (get_peer result);
  pc ← connection c;
  let type := enum_from_json PeerType.table (pm_content message) in
  _ ← update_connection c
        (MkPeerConnection (pc_identity pc) (pc_rtc pc) (pc_channel pc) type (pc_state pc)
           (pc_handles pc));
  mret type.

Definition connection_type (c : nat) : Coroutine Peer PeerType.t :=
  pc ← co_lift (connection c);
  if decide (pc_type pc = PeerType.Unknown) then
    promise ← co_lift (ask_peer PeerMessageType.PeerTypeRequest pc);
    result ← await promise;
    co_lift (store_type c result)
  else mret (pc_type pc).

(** on_peer_state_update decodes the new state for a log line; the member stays as it is. *)
Definition on_peer_state_update (c : nat) (event : Event) : M Peer unit :=
  message ← lift_result (get_peer event);
  pc ← connection c;
  mret tt.

Definition on_rtc_candidate (c : nat) (event : Event) : M Peer unit :=
  message ← lift_result (get_signaling event);
  pc ← connection c;
  if decide (pc_identity pc = sm_sender_identity message) then
    let candidate_sdp := sm_content message in
    candidate ← lift_result (v ← index_mut candidate_sdp "candidate"; get_string v);
    mid ← lift_result (v ← index_mut candidate_sdp "mid"; get_string v);
    zoom rtcL (rtc_add_candidate (pc_rtc pc) candidate mid)
  else mret tt.

(** ~PeerConnection closes the channel without looking whether there is one; the remover's
    destructor takes the listeners off the queue. *)
Definition destroy_connection (c : nat) : M Peer unit :=
  pc ← connection c;
  match pc_channel pc with
  | None => throw UndefinedBehaviour
  | Some datachannel =>
      _ ← zoom rtcL (modify (ch_close datachannel));
      _ ← zoom queueL (zoom eq_queueL (modify (λ q,
            fold_left (λ q th, epp_remove th.1 th.2 q) (pc_handles pc) q)));
      zoom heapL (modify (delete c))
  end.
End PeerConnection.

Section Lemmas.
Context `{JsonLib} `{CryptoLib} `{LevelDB} `{FifoLib} `{EventppLib} `{RtcLib} `{HostLib}.
Context {A : Type}.
Abbreviation Peer := (Peer (A:=A)).
Implicit Types (p : Peer).

(** The message a peer sees when [m] is sent to it. *)
Definition on_the_wire (m : PeerMessage) : PeerMessage :=
  MkPeerMessage (peer_wire_type (pm_type m)) (pm_sender_identity m) (pm_receiver_identity m)
    (pm_tag m) (pm_content m) (pm_timestamp m).

Lemma to_string_parse m :
  wf_peer_message m →
  ∃ s, PeerMessage_to_string m = Ok s ∧ parse s = Ok (PeerMessage_to_json m).
Proof. intros Hm. by apply parse_dump, PeerMessage_to_json_canonical. Qed.

(** What [send_and_forget] puts on a channel, [on_message] enqueues at the other end. *)
Lemma on_message_spec m s p :
  wf_peer_message m → PeerMessage_to_string m = Ok s →
  wp (on_message (RtcText s))
     (λ _ p', pending p' = pending p ++ [EvPeer (on_the_wire m)]) p.
Proof.
  intros Hm Hs. destruct (to_string_parse m Hm) as (s' & Hs' & Hp).
  rewrite Hs in Hs'. injection Hs' as <-. unfold on_message.
  wp_step. eapply wpx_lift_ok; [done|]. wp_step. eapply wpx_lift_ok; [exact Hp|].
  wp_step. eapply wpx_lift_ok; [by apply PeerMessage_from_to_json, Hm|].
  apply wpx_enqueue_event. intros q Hq _. unfold pending. cbn. by rewrite Hq, fmap_app.
Qed.

(** send_and_forget: the text goes to the channel once, or nothing is sent. *)
Lemma wpx_connection_send c m (Q : bool → Peer → Prop) E p :
  (∀ e p', E e p') → Q false p →
  (∀ pc ch s r, pr_heap p !! c = Some pc → pc_channel pc = Some ch →
     PeerMessage_to_string m = Ok s →
     rtc_sent r = rtc_sent (pr_rtc p) ++ [(Channel ch, s)] → Q true (lset rtcL r p)) →
  wpx (connection_send c m) Q E p.
Proof.
  intros HE Hno Hyes. unfold connection_send, connection. do 3 wp_step.
  destruct (pr_heap p !! c) as [pc|] eqn:Hpc; wp_step; [|done].
  destruct (pc_channel pc) as [ch|] eqn:Hch; [|by wp_step]. do 2 wp_step.
  case_match; [|by wp_step]. wp_step. apply wpx_lift; [|done]. intros s Hs. do 2 wp_step.
  eapply wpx_mono; [apply ch_send_sent| |done]. intros [] r Hr. wp_step. by eapply Hyes.
Qed.

(** Over an open channel, the text goes out unless the library throws. *)
Lemma connection_send_open c pc ch m p :
  pr_heap p !! c = Some pc → pc_channel pc = Some ch →
  ch_is_open (pr_rtc p) ch && negb (ch_is_closed (pr_rtc p) ch) = true → wf_peer_message m →
  wpx (connection_send c m)
    (λ b p', b = true ∧ ∃ s r, p' = lset rtcL r p ∧ PeerMessage_to_string m = Ok s ∧
       rtc_sent r = rtc_sent (pr_rtc p) ++ [(Channel ch, s)])
    (λ _ p', ∃ r, p' = lset rtcL r p ∧ ¬ ReliableChannels ∧ rtc_sent r = rtc_sent (pr_rtc p)) p.
Proof.
  intros Hpc Hch Hopen Hm. destruct (to_string_parse m Hm) as (s & Hs & _).
  unfold connection_send, connection. do 3 wp_step. rewrite Hpc. wp_step. rewrite Hch.
  do 2 wp_step. rewrite Hopen. wp_step. eapply wpx_lift_ok; [exact Hs|]. do 2 wp_step.
  eapply wpx_mono; [apply (ch_send_fails ch s _ Hopen)| |].
  - intros [] r Hr. wp_step. split; [done|]. by exists s, r.
  - intros e r [Hno Hr]. by exists r.
Qed.

(** Without one, nothing is done. *)
Lemma connection_send_closed c pc m p :
  pr_heap p !! c = Some pc →
  (∀ ch, pc_channel pc = Some ch →
     ch_is_open (pr_rtc p) ch && negb (ch_is_closed (pr_rtc p) ch) = false) →
  connection_send c m p = (Ok false, p).
Proof.
  intros Hpc Hno. unfold connection_send, connection, mbind, M_bind, gets. cbn. rewrite Hpc. cbn.
  destruct (pc_channel pc) as [ch|]; cbn; [by rewrite (Hno ch eq_refl)|done].
Qed.
End Lemmas.

(** ** Properties *)

Section Properties.
Context `{JsonLib} `{CryptoLib} `{LevelDB} `{FifoLib} `{EventppLib} `{RtcLib} `{HostLib}.
Context {A B : Type}.

(** C19: what one peer hands to a channel is what the other one enqueues: when send_and_forget of a
    well-formed message returns [true], one text was added to the channel's output, and a peer
    that receives this text enqueues the message, with the type its JSON name stands for. *)
Theorem message_is_delivered c m (p p' : Peer (A:=A)) (q : Peer (A:=B)) :
  wf_peer_message m → connection_send c m p = (Ok true, p') →
  ∃ pc ch s q', pr_heap p !! c = Some pc ∧ pc_channel pc = Some ch ∧
    rtc_sent (pr_rtc p') = rtc_sent (pr_rtc p) ++ [(Channel ch, s)] ∧
    on_message (RtcText s) q = (Ok tt, q') ∧
    pending q' = pending q ++ [EvPeer (on_the_wire m)].
Proof.
  intros Hm Hsend.
  assert (wpx (connection_send c m) (λ b p', b = true → ∃ pc ch s, pr_heap p !! c = Some pc ∧
    pc_channel pc = Some ch ∧ PeerMessage_to_string m = Ok s ∧
    rtc_sent (pr_rtc p') = rtc_sent (pr_rtc p) ++ [(Channel ch, s)]) (λ _ _, True) p) as Hrun.
  { apply wpx_connection_send; [done..|]. intros pc ch s r ? ? ? ? _. by exists pc, ch, s. }
  unfold wpx in Hrun. rewrite Hsend in Hrun.
  destruct (Hrun eq_refl) as (pc & ch & s & Hpc & Hch & Hs & Hsent).
  pose proof (on_message_spec m s q Hm Hs) as Hq. apply wp_run in Hq as ([] & q' & Hq & Hpend).
  by exists pc, ch, s, q'.
Qed.
End Properties.
