(* ===== verification/PeerManager.v ===== *)
(** * The peer manager (PeerManager/PeerManager.{h,cpp})

    The map of connections, the handlers and the ways to send. [m_lock] is never contended here:
    both places take it and release it at once. wait_for_peers and peers_of_type are in
    WaitForPeers.v. *)

From stdpp Require Import base sets list gmap strings.
From Stdlib Require Import ZArith Lia.
From S2P Require Import Prelude Json Crypto LevelDB Fifo Rtc Enums Models Messages DBInterface.
From S2P Require Import Stores TransactionPool Event Coroutine Services Peer RetryHandler.
From S2P Require Import PeerConnection.

Open Scope Z_scope.

Section PeerManager.
Context `{JsonLib} `{CryptoLib} `{LevelDB} `{FifoLib} `{EventppLib} `{RtcLib} `{HostLib}.
Context `{HashOrder} {A : Type}.
Abbreviation Peer := (Peer (A:=A)).

Definition connectionsL : Lens Peer (gmap string (option nat)) :=
  lens_comp managerL
    (MkLens mg_connections (λ m s, MkPeerManager (mg_identity s) m (mg_state s) (mg_type s))).

(** The constructor's listeners, in order. *)
Definition PeerManager_listeners : list (EventType * PeerCallback A) :=
  [(SignalingEvent SignalingMessageType.RTCSetup, OnRtcSetup);
   (PeerEvent PeerMessageType.PeerTypeRequest, OnPeerTypeRequest);
   (PeerEvent PeerMessageType.PeerStateRequest, OnPeerStateRequest);
   (InternalEvent InternalMessageType.SendPeerMessage, OnSendPeerMessage);
   (NotificationEvent InternalNotificationType.DataChannelOpened, OnDatachannelOpened);
   (NotificationEvent InternalNotificationType.DataChannelClosed, OnDatachannelClosed);
   (SignalingEvent SignalingMessageType.PeerClosed, OnPeerClosed);
   (SignalingEvent SignalingMessageType.PeerAvailable, ConnectToPeer)].

(** PeerManager(worker, queue, retry_handler, signaling_client, pt, ps) *)
Definition PeerManager_new (identity : string) (pt : PeerType.t) (ps : PeerState.t)
    : M Peer unit :=
  _ ← zoom managerL (modify (λ _, MkPeerManager identity ∅ ps pt));
  for_each PeerManager_listeners (λ tc, _ ← listen tc.1 tc.2; mret tt).

(** [m_connection_map[id]->...] on an entry that is there. *)
Definition deref (pointer : option nat) : M Peer nat :=
  match pointer with
  | Some c => mret c
  | None => throw UndefinedBehaviour
  end.

(** The last owner of a connection destroys it: the map and the tasks that are not done own it. *)
Definition task_uses (c : nat) (t : PostedTask) : bool :=
  match t with
  | BroadcastTask task => bool_decide (tk_connection task = Some c)
  | RetryTask _ | WaitTask _ _ => false
  end.

Definition release_connection (pointer : option nat) : M Peer unit :=
  match pointer with
  | None => mret tt
  | Some c =>
      tasks ← gets (λ p, pr_posted p ++ pr_running p);
      connections ← gets (lget connectionsL);
      if existsb (task_uses c) tasks ||
         existsb (λ pc, bool_decide (pc.2 = Some c)) (hash_order connections)
      then mret tt else destroy_connection c
  end.

(** The [null_result] coroutine; what follows its last [co_await] is empty. [emplace] does
    nothing when the key is there, and the new connection is then destroyed. *)
Definition connect_to_peer (event : Event) : M Peer unit :=
  message ← lift_result (get_signaling event);
  peer ← lift_result (get_string (sm_content message));
  connections ← gets (lget connectionsL);
  if decide (is_Some (connections !! peer)) then mret tt
  else
    awaitable ← zoom queueL (create_awaitable peer);
    peer_connection ← PeerConnection_offer peer;
    connections ← gets (lget connectionsL);
    if decide (is_Some (connections !! peer)) then release_connection (Some peer_connection)
    else zoom connectionsL (modify (insert peer (Some peer_connection))).

Definition on_rtc_setup (event : Event) : M Peer unit :=
  message ← lift_result (get_signaling event);
  let description := sm_content message in
  sdp ← lift_result (v ← index_mut description "sdp"; get_string v);
  type ← lift_result (v ← index_mut description "type"; get_string v);
  connections ← gets (lget connectionsL);
  match connections !! sm_sender_identity message with
  | Some pointer =>
      c ← deref pointer;
      set_remote_description c sdp type
  | None =>
      c ← PeerConnection_answer (sm_sender_identity message) sdp type;
      zoom connectionsL (modify (insert (sm_sender_identity message) (Some c)))
  end.

Definition on_peer_state_request (event : Event) : M Peer unit :=
  message ← lift_result (get_peer event);
  id ← gets identity;
  state ← gets (λ p, mg_state (pr_manager p));
  send_and_forget PeerMessageType.PeerStateResponse id (pm_sender_identity message)
    (pm_tag message) (enum_to_json PeerState.table state).

Definition on_peer_type_request (event : Event) : M Peer unit :=
  message ← lift_result (get_peer event);
  id ← gets identity;
  type ← gets (λ p, mg_type (pr_manager p));
  send_and_forget PeerMessageType.PeerTypeResponse id (pm_sender_identity message)
    (pm_tag message) (enum_to_json PeerType.table type).

Definition on_send_peer_message (event : Event) : M Peer unit :=
  internal_message ← lift_result (get_internal_peer event);
  let message := im_content internal_message in
  connections ← gets (lget connectionsL);
  match connections !! pm_receiver_identity message with
  | None => retry internal_message
  | Some pointer =>
      c ← deref pointer;
      sent ← connection_send c message;
      if (sent : bool) then mret tt else retry internal_message
  end.

(** broadcast: the promises of the answers. *)
Definition broadcast (type : PeerMessageType.t) (content : json) : M Peer (list nat) :=
  connections ← gets (lget connectionsL);
  id ← gets identity;
  (fix go (peers : list (string * option nat)) : M Peer (list nat) :=
     match peers with
     | [] => mret []
     | (peer, _) :: peers =>
         tag ← zoom hostL create_tag;
         result ← send type id peer tag content;
         results ← go peers;
         mret (result :: results)
     end) (hash_order connections).

Definition broadcast_and_forget (type : PeerMessageType.t) (content : json) : M Peer unit :=
  connections ← gets (lget connectionsL);
  id ← gets identity;
  for_each (hash_order connections) (λ pc,
    tag ← zoom hostL create_tag;
    send_and_forget type id pc.1 tag content).

(** [m_connection_map[id]] inserts a null pointer when [id] is not there. *)
Definition on_datachannel_opened (event : Event) : M Peer unit :=
  notification ← lift_result (get_string_notification event);
  let id := in_content notification in
  connections ← gets (lget connectionsL);
  if decide (is_Some (connections !! id)) then mret tt
  else zoom connectionsL (modify (insert id None)).

Definition on_datachannel_closed (event : Event) : M Peer unit :=
  notification ← lift_result (get_string_notification event);
  mret tt.

(** [m_connection_map.erase(id)] *)
Definition on_peer_closed (event : Event) : M Peer unit :=
  message ← lift_result (get_signaling event);
  id ← lift_result (get_string (sm_content message));
  connections ← gets (lget connectionsL);
  match connections !! id with
  | None => mret tt
  | Some pointer =>
      _ ← zoom connectionsL (modify (delete id));
      release_connection pointer
  end.

Definition set_state (state : PeerState.t) : M Peer unit :=
  _ ← zoom managerL (modify (λ s, MkPeerManager (mg_identity s) (mg_connections s) state
                                    (mg_type s)));
  broadcast_and_forget PeerMessageType.PeerStateUpdate (enum_to_json PeerState.table state).

Definition state_of (peer_id : string) : Coroutine Peer PeerState.t :=
  connections ← co_lift (gets (lget connectionsL));
  match connections !! peer_id with
  | Some pointer => c ← co_lift (deref pointer); connection_state c
  | None => mret PeerState.Unknown
  end.

Definition type_of (peer_id : string) : Coroutine Peer PeerType.t :=
  connections ← co_lift (gets (lget connectionsL));
  match connections !! peer_id with
  | Some pointer => c ← co_lift (deref pointer); connection_type c
  | None => mret PeerType.Unknown
  end.

(** broadcast_to_peers_of_type_and_forget: one task per connection. *)
Definition broadcast_to_peers_of_type_and_forget (peer_types : list PeerType.t)
    (message_type : PeerMessageType.t) (content : json) (except : gset string)
    : M Peer unit :=
  connections ← gets (lget connectionsL);
  my_id ← gets identity;
  for_each (hash_order connections) (λ pc,
    if decide (pc.1 ∈ except) then mret tt
    else post (BroadcastTask (MkTask my_id peer_types pc.1 pc.2 message_type content))).

(** The coroutine [sender], and what follows its [co_await]. *)
Definition broadcast_task_send (task : Task) (type : PeerType.t) : M Peer unit :=
  if decide (type ∈ tk_peer_types task) then
    c ← deref (tk_connection task);
    tag ← zoom hostL create_tag;
    message ← zoom hostL (PeerMessage_create (tk_type task) (tk_sender task)
                            (tk_receiver task) tag (tk_content task));
    _ ← connection_send c message;
    mret tt
  else mret tt.

Definition broadcast_task (task : Task) : Coroutine Peer unit :=
  c ← co_lift (deref (tk_connection task));
  type ← connection_type c;
  co_lift (broadcast_task_send task type).

(** What the callbacks of the shared components do. *)
Definition run_peer_callback (send_signaling_message : Event → M Peer unit)
    (program : A → Event → M Peer unit) (l : PeerCallback A) : Event → M Peer unit :=
  match l with
  | Program a => program a
  | RetryOnDatachannelOpen => on_datachannel_open
  | OnRtcSetup => on_rtc_setup
  | OnPeerTypeRequest => on_peer_type_request
  | OnPeerStateRequest => on_peer_state_request
  | OnSendPeerMessage => on_send_peer_message
  | OnDatachannelOpened => on_datachannel_opened
  | OnDatachannelClosed => on_datachannel_closed
  | OnPeerClosed => on_peer_closed
  | ConnectToPeer => connect_to_peer
  | OnPeerStateUpdate c => on_peer_state_update c
  | OnRtcCandidate c => on_rtc_candidate c
  | OnWaitEvent w => λ e, post (WaitTask w e)
  | SendSignaling => send_signaling_message
  end.
End PeerManager.

Section Lemmas.
Context `{JsonLib} `{CryptoLib} `{LevelDB} `{FifoLib} `{EventppLib} `{RtcLib} `{HostLib}.
Context `{HashOrder} {A : Type}.
Abbreviation Peer := (Peer (A:=A)).
Implicit Types (p : Peer) (m : InternalMessage PeerMessage).

(** A message that is sent goes to the channel [ch], as the text of its JSON. *)
Definition handed_over (ch : nat) m p p' : Prop :=
  ∃ s, PeerMessage_to_string (im_content m) = Ok s ∧
    rtc_sent (pr_rtc p') = rtc_sent (pr_rtc p) ++ [(Channel ch, s)].

(** What the retry handler makes of a message that is not sent: three times it goes back to the
    end of the queue, then it is stored. *)
Definition retried m p p' : Prop :=
  pr_rtc p' = pr_rtc p ∧
  if decide (im_retry_count m < 3)
  then pr_retry p' = pr_retry p ∧
       pending p' = pending p ++ [EvInternalPeer (increament_retry_count m)]
  else pending p' = pending p ∧
       stored p' = <[InternalMessage_tag m := stored_message m]> (stored p).

(** The open channel over which a message to [receiver] goes, if there is one; an entry of the
    connection map that points to no object is undefined behaviour. *)
Definition open_channel_to (receiver : string) p : result (option nat) :=
  match mg_connections (pr_manager p) !! receiver with
  | None => Ok None
  | Some pointer =>
      match pointer ≫= λ c, pr_heap p !! c with
      | None => Err UndefinedBehaviour
      | Some pc =>
          Ok (ch ← pc_channel pc;
              if ch_is_open (pr_rtc p) ch && negb (ch_is_closed (pr_rtc p) ch)
              then Some ch else None)
      end
  end.

Lemma retry_retries m p :
  ReliableWrites → db_wf (T:=InternalMessage PeerMessage) (pr_retry p) →
  wf_internal_message m → wp (retry m) (λ _ p', retried m p p') p.
Proof.
  intros HR Hwf Hm. unfold retried. case_decide as Hc.
  - eapply wp_mono; [by apply retry_requeues|]. by intros [] p' (? & ? & ?).
  - eapply wp_mono; [apply retry_stores; [done|done|lia]|]. intros [] p' (_ & ? & ? & Hst).
    split_and!; [done..|]. by apply Hst.
Qed.

Lemma on_send_peer_message_spec m p :
  ReliableWrites → db_wf (T:=InternalMessage PeerMessage) (pr_retry p) →
  wf_internal_message m →
  match open_channel_to (pm_receiver_identity (im_content m)) p with
  | Err e => on_send_peer_message (EvInternalPeer m) p = (Err e, p)
  | Ok None => wp (on_send_peer_message (EvInternalPeer m)) (λ _ p', retried m p p') p
  | Ok (Some ch) =>
      wpx (on_send_peer_message (EvInternalPeer m))
        (λ _ p', (∃ r, p' = lset rtcL r p) ∧ handed_over ch m p p')
        (λ _ p', (∃ r, p' = lset rtcL r p) ∧ ¬ ReliableChannels ∧
           rtc_sent (pr_rtc p') = rtc_sent (pr_rtc p)) p
  end.
Proof.
  intros HR Hwf Hm. unfold open_channel_to.
  destruct (mg_connections (pr_manager p) !! pm_receiver_identity (im_content m))
    as [pointer|] eqn:Hc.
  2:{ unfold on_send_peer_message. wp_step. eapply wpx_lift_ok; [done|]. do 2 wp_step.
      cbn [lget connectionsL lens_comp managerL]. rewrite Hc. by apply retry_retries. }
  destruct (pointer ≫= λ c, pr_heap p !! c) as [pc|] eqn:Hpc.
  2:{ unfold on_send_peer_message, mbind, M_bind. cbn. rewrite Hc.
      destruct pointer as [c|]; cbn in *; [|done].
      unfold connection_send, connection, mbind, M_bind, gets. cbn. by rewrite Hpc. }
  destruct pointer as [c|]; [|done]. cbn in Hpc.
  assert (∀ Q E, wpx (sent ← connection_send c (im_content m);
      if (sent : bool) then mret tt else retry m) Q E p →
    wpx (on_send_peer_message (EvInternalPeer m)) Q E p) as Hcall.
  { intros Q E Hrun. unfold on_send_peer_message. wp_step. eapply wpx_lift_ok; [done|].
    do 2 wp_step. cbn [lget connectionsL lens_comp managerL]. rewrite Hc. cbn [deref].
    do 2 wp_step. exact Hrun. }
  assert ((∀ ch, pc_channel pc = Some ch →
     ch_is_open (pr_rtc p) ch && negb (ch_is_closed (pr_rtc p) ch) = false) →
    wp (on_send_peer_message (EvInternalPeer m)) (λ _ p', retried m p p') p) as Hclosed.
  { intros Hno. apply Hcall. wp_step.
    eapply wpx_returns; [exact (connection_send_closed c pc _ p Hpc Hno)|]. by apply retry_retries. }
  destruct (pc_channel pc) as [ch|] eqn:Hch; cbn; [|by apply Hclosed].
  destruct (_ && _) eqn:Hopen; [|by apply Hclosed; intros ch' [= <-]].
  apply Hcall. wp_step. destruct Hm as [Hm _].
  eapply wpx_mono; [by eapply connection_send_open| |].
  - intros b p' (-> & s & r & -> & Hs & Hr). wp_step. split; [by exists r|]. by exists s.
  - intros e p' (r & -> & Hno & Hr). split; [by exists r|]. by split.
Qed.

(** A broadcast posts one task per connection and does nothing else. *)
Definition posted_broadcast (types : list PeerType.t) (type : PeerMessageType.t)
    (content : json) p : list PostedTask :=
  map (λ pc, BroadcastTask (MkTask (identity p) types pc.1 pc.2 type content))
    (hash_order (mg_connections (pr_manager p))).

(** A broadcast to a peer of a wanted type: the message is stamped and handed to its channel. *)
Lemma broadcast_task_send_spec task type c p :
  type ∈ tk_peer_types task → tk_connection task = Some c →
  let h := pr_host p in
  let m := MkPeerMessage (tk_type task) (tk_sender task) (tk_receiver task)
             (uuid_at (uuid_ix h)) (tk_content task) (clock_at (clock_ix h)) in
  broadcast_task_send task type p =
    match connection_send c m
            (lset hostL (MkHost (S (clock_ix h)) (S (uuid_ix h))) p) with
    | (Ok _, p') => (Ok tt, p')
    | (Err e, p') => (Err e, p')
    end.
Proof.
  intros Ht Hc h m. unfold broadcast_task_send. rewrite decide_True by done. rewrite Hc. cbn.
  unfold PeerMessage_create, get_krapi_timestamp, mbind, M_bind, zoom. cbn. fold h. fold m.
  by destruct (connection_send _ _ _) as [[sent|e] p'].
Qed.

(** The task of a peer whose type is known is done at once. *)
Lemma broadcast_task_known task c pc p :
  tk_connection task = Some c → pr_heap p !! c = Some pc → pc_type pc ≠ PeerType.Unknown →
  broadcast_task task p = co_lift (broadcast_task_send task (pc_type pc)) p.
Proof.
  intros Hc Hpc Ht. unfold broadcast_task. rewrite Hc.
  rewrite (bind_finished _ _ c p p) by by apply lift_finished.
  assert (connection_type c p = (Ok (Finished (pc_type pc)), p)) as Htype.
  { unfold connection_type, connection. rewrite (bind_finished _ _ pc p p).
    - by rewrite decide_False.
    - apply lift_finished. unfold mbind, M_bind, gets. cbn. by rewrite Hpc. }
  by rewrite (bind_finished _ _ _ _ _ Htype).
Qed.

Lemma broadcast_posts types type content p :
  broadcast_to_peers_of_type_and_forget types type content ∅ p =
    (Ok tt, lset postedL (pr_posted p ++ posted_broadcast types type content p) p).
Proof.
  unfold broadcast_to_peers_of_type_and_forget, posted_broadcast, mbind, M_bind, gets.
  cbn [fst snd lget lset connectionsL lens_comp managerL].
  generalize (identity p) as id. intros id.
  generalize (hash_order (mg_connections (pr_manager p))) as l. intros l. revert p.
  induction l as [|pc l IH]; intros p; cbn [for_each map].
  - rewrite app_nil_r. by destruct p.
  - unfold mbind, M_bind. rewrite decide_False by set_solver. unfold post, zoom, modify. cbn.
    rewrite IH. cbn. by rewrite <-app_assoc.
Qed.

(** A request for the type or the state is answered with the same tag. *)
Lemma send_and_forget_enqueues type sender receiver tag content p :
  wp (send_and_forget type sender receiver tag content)
     (λ _ p', ∃ e, send_event type sender receiver tag content e ∧
                   pending p' = pending p ++ [e]) p.
Proof.
  unfold send_and_forget, PeerMessage_create, InternalMessage_create. repeat wp_step.
  apply wpx_timestamp. intros t h Ht. repeat wp_step. apply wpx_timestamp. intros t' h' _.
  repeat wp_step. apply wpx_enqueue_event. intros q Hq _. eexists.
  split; [by exists t, t'|]. unfold pending. cbn. by rewrite Hq, fmap_app.
Qed.
End Lemmas.

(** ** Properties *)

Section Properties.
Context `{JsonLib} `{CryptoLib} `{LevelDB} `{FifoLib} `{EventppLib} `{RtcLib} `{HostLib}.
Context `{HashOrder} {A : Type}.
Abbreviation Peer := (Peer (A:=A)).

(** C16: no message is dropped silently. On a disk that works, processing SendPeerMessage looks for
    an open channel to the receiver. When there is one, the message's text goes to this channel
    and nothing else changes; the handler throws only when the library does on an open channel.
    When there is none - no connection, a connection without a channel, a channel that is not
    open - the message is queued again with one more retry, or, after three of them, stored
    under its tag, and nothing is sent. *)
Theorem on_send_peer_message_keeps_message m (p : Peer) :
  ReliableWrites → db_wf (T:=InternalMessage PeerMessage) (pr_retry p) →
  wf_internal_message m →
  match open_channel_to (pm_receiver_identity (im_content m)) p with
  | Ok (Some ch) =>
      ∃ r rt, on_send_peer_message (EvInternalPeer m) p = (r, lset rtcL rt p) ∧
        match r with
        | Ok _ => handed_over ch m p (lset rtcL rt p)
        | Err _ => ¬ ReliableChannels ∧ rtc_sent rt = rtc_sent (pr_rtc p)
        end
  | Ok None => ∃ p', on_send_peer_message (EvInternalPeer m) p = (Ok tt, p') ∧ retried m p p'
  | Err e => on_send_peer_message (EvInternalPeer m) p = (Err e, p)
  end.
Proof.
  intros HR Hwf Hm. pose proof (on_send_peer_message_spec m p HR Hwf Hm) as Hrun.
  destruct (open_channel_to _ p) as [[ch|]|e]; [|by apply wp_unit|done].
  unfold wpx in Hrun. destruct (on_send_peer_message _ p) as [[[]|e] p'];
    destruct Hrun as [[rt ->] Hrun]; by do 2 eexists.
Qed.

(** on_datachannel_opened looks the peer up with [operator\[\]], so for a peer that is not in
    the map it leaves a null pointer there, and the next message to that peer is undefined
    behaviour instead of a retry. *)
Theorem datachannel_opened_inserts_null n m (p : Peer) :
  mg_connections (pr_manager p) !! in_content n = None →
  pm_receiver_identity (im_content m) = in_content n →
  ∃ p' p'', on_datachannel_opened (EvString n) p = (Ok tt, p') ∧
    mg_connections (pr_manager p') !! in_content n = Some None ∧
    on_send_peer_message (EvInternalPeer m) p' = (Err UndefinedBehaviour, p'').
Proof.
  intros Hn Hid. unfold on_datachannel_opened, mbind, M_bind, lift_result, gets. cbn.
  rewrite Hn, decide_False by by intros [? ?]. do 2 eexists. split; [done|]. cbn.
  split; [apply lookup_insert_eq|]. unfold on_send_peer_message, mbind, M_bind. cbn.
  by rewrite Hid, lookup_insert_eq.
Qed.
End Properties.
