(* ===== verification/WaitForPeers.v ===== *)
(** * Waiting for peers (PeerManager::wait_for_peers, peers_of_type), and the executor's tasks

    A wait_for_peers call asks the connected peers for their type and state, one after the
    other, and when too few of them match it registers two listeners and waits for a promise
    that the tasks the listeners post resolve. The loops over the map go over the connections
    that are there when the loop starts, and what the lambdas capture is taken to live as long
    as they run. *)

From stdpp Require Import base sets list gmap strings.
From Stdlib Require Import ZArith Lia.
From S2P Require Import Prelude Json Crypto LevelDB Fifo Rtc Enums Models Messages DBInterface.
From S2P Require Import Stores TransactionPool Event Coroutine Services Peer RetryHandler.
From S2P Require Import PeerConnection PeerManager.

Open Scope Z_scope.

Section WaitForPeers.
Context `{JsonLib} `{CryptoLib} `{LevelDB} `{FifoLib} `{EventppLib} `{RtcLib} `{HostLib}.
Context `{HashOrder} {A : Type}.
Abbreviation Peer := (Peer (A:=A)).

(** [details_getter]; the order of the two calls is not specified. *)
Definition details_getter (peer : string) : Coroutine Peer (PeerType.t * PeerState.t) :=
  type ← type_of peer;
  state ← state_of peer;
  mret (type, state).

(** [types.contains(type) && states.contains(state)] *)
Definition wanted (types : list PeerType.t) (states : list PeerState.t)
    (details : PeerType.t * PeerState.t) : bool :=
  bool_decide (details.1 ∈ types) && bool_decide (details.2 ∈ states).

(** [identities->size() >= count]: the [int] is converted to [size_t]. *)
Definition enough (identities : list string) (count : Z) : bool :=
  u64_wrap count <=? Z.of_nat (length identities).

Definition push_wanted (types : list PeerType.t) (states : list PeerState.t) (peer : string)
    (details : PeerType.t * PeerState.t) (identities : list string) : list string :=
  if wanted types states details then identities ++ [peer] else identities.

(** The shared variables of call [w]. *)
Definition the_wait (w : nat) : M Peer PeersWait :=
  waits ← gets pr_waits;
  match waits !! w with
  | Some wait => mret wait
  | None => throw UndefinedBehaviour
  end.

Definition set_wait (w : nat) (wait : PeersWait) : M Peer unit :=
  zoom waitsL (modify (insert w wait)).

Definition set_identities (identities : list string) (wait : PeersWait) : PeersWait :=
  MkPeersWait (pw_count wait) (pw_types wait) (pw_states wait) identities (pw_handle1 wait)
    (pw_handle2 wait) (pw_result wait).

Definition set_handles (h1 h2 : option nat) (wait : PeersWait) : PeersWait :=
  MkPeersWait (pw_count wait) (pw_types wait) (pw_states wait) (pw_identities wait) h1 h2
    (pw_result wait).

(** [set_result] of the promise: a second one throws. *)
Definition resolve_wait (w : nat) : M Peer unit :=
  wait ← the_wait w;
  match pw_result wait with
  | Some _ => throw LibraryError
  | None =>
      set_wait w (MkPeersWait (pw_count wait) (pw_types wait) (pw_states wait)
                    (pw_identities wait) (pw_handle1 wait) (pw_handle2 wait)
                    (Some (pw_identities wait)))
  end.

(** [removeListener] with a handle of the call; a handle that is not set removes nothing. *)
Definition remove_listener (type : EventType) (handle : option nat) : M Peer unit :=
  match handle with
  | Some h => zoom queueL (zoom eq_queueL (modify (epp_remove type h)))
  | None => mret tt
  end.

(** The end of both lambdas, once the peer's type and state are known. *)
Definition wait_progress (w : nat) (peer : string) (details : PeerType.t * PeerState.t)
    : M Peer unit :=
  wait ← the_wait w;
  let identities :=
    push_wanted (pw_types wait) (pw_states wait) peer details (pw_identities wait) in
  _ ← set_wait w (set_identities identities wait);
  if enough identities (pw_count wait) then
    _ ← resolve_wait w;
    _ ← remove_listener (NotificationEvent InternalNotificationType.DataChannelOpened)
          (pw_handle1 wait);
    remove_listener (PeerEvent PeerMessageType.PeerStateUpdate) (pw_handle2 wait)
  else mret tt.

Definition on_datachannel_task (w : nat) (e : Event) : Coroutine Peer unit :=
  notification ← co_lift (lift_result (get_string_notification e));
  let peer_id := in_content notification in
  details ← details_getter peer_id;
  co_lift (wait_progress w peer_id details).

(** Nothing posts this one: both listeners post [on_datachannel_task]. *)
Definition on_peer_state_update_task (w : nat) (e : Event) : Coroutine Peer unit :=
  peer_message ← co_lift (lift_result (get_peer e));
  let peer_id := pm_sender_identity peer_message in
  details ← details_getter peer_id;
  co_lift (wait_progress w peer_id details).

(** The variables and the two listeners of a call that has to wait. *)
Definition start_waiting (count : Z) (types : list PeerType.t) (states : list PeerState.t)
    (identities : list string) : M Peer nat :=
  w ← gets (λ p, fresh (dom (pr_waits p)));
  let wait := MkPeersWait count types states identities None None None in
  _ ← set_wait w wait;
  h1 ← listen (NotificationEvent InternalNotificationType.DataChannelOpened) (OnWaitEvent w);
  _ ← set_wait w (set_handles (Some h1) None wait);
  h2 ← listen (PeerEvent PeerMessageType.PeerStateUpdate) (OnWaitEvent w);
  _ ← set_wait w (set_handles (Some h1) (Some h2) wait);
  mret w.

(** One round of the loop over the connections. *)
Definition collect_wanted (types : list PeerType.t) (states : list PeerState.t)
    (identities : list string) (pc : string * option nat) : Coroutine Peer (list string) :=
  details ← details_getter pc.1;
  mret (push_wanted types states pc.1 details identities).

Definition wait_for_peers (count : Z) (types : list PeerType.t) (states : list PeerState.t)
    : Coroutine Peer (list string) :=
  connections ← co_lift (gets (lget connectionsL));
  identities ← co_fold (collect_wanted types states) (hash_order connections) [];
  if enough identities count then mret identities
  else
    w ← co_lift (start_waiting count types states identities);
    co_await (Peers w).

Definition collect_of_type (type : PeerType.t) (ids : list string)
    (pc : string * option nat) : Coroutine Peer (list string) :=
  c ← co_lift (deref pc.2);
  type' ← connection_type c;
  mret (if decide (type' = type) then ids ++ [pc.1] else ids).

Definition peers_of_type (type : PeerType.t) : Coroutine Peer (list string) :=
  connections ← co_lift (gets (lget connectionsL));
  co_fold (collect_of_type type) (hash_order connections) [].

(** ** What a worker of the executor does with a posted task *)

Definition task_body (task : PostedTask) : Coroutine Peer unit :=
  match task with
  | BroadcastTask task => broadcast_task task
  | RetryTask peer_id => co_lift (retry_task peer_id)
  | WaitTask w e => on_datachannel_task w e
  end.

(** The end of a task, however it ends: its shared pointers go. *)
Definition task_end (task : PostedTask) : M Peer unit :=
  _ ← task_done task;
  match task with
  | BroadcastTask task => release_connection (tk_connection task)
  | RetryTask _ | WaitTask _ _ => mret tt
  end.

Definition run_task (task : PostedTask) : Coroutine Peer unit :=
  _ ← co_lift (task_start task);
  co_finally (task_body task) (task_end task).
End WaitForPeers.

(** ** Lemmas *)

Section Lemmas.
Context `{JsonLib} `{CryptoLib} `{LevelDB} `{FifoLib} `{EventppLib} `{RtcLib} `{HostLib}.
Context `{HashOrder} {A : Type}.
Abbreviation Peer := (Peer (A:=A)).
Implicit Types (p : Peer) (w : nat) (details : string → PeerType.t * PeerState.t).

(** The connection [pointer] to a peer whose type and state have been asked for. *)
Definition answered_by (pointer : option nat) (d : PeerType.t * PeerState.t) p : Prop :=
  ∃ c pc, pointer = Some c ∧ pr_heap p !! c = Some pc ∧
    pc_type pc = d.1 ∧ pc_state pc = d.2 ∧ d.1 ≠ PeerType.Unknown ∧ d.2 ≠ PeerState.Unknown.

Definition known (peer : string) (d : PeerType.t * PeerState.t) p : Prop :=
  ∃ pointer, mg_connections (pr_manager p) !! peer = Some pointer ∧ answered_by pointer d p.

Lemma connection_type_known c d p :
  answered_by (Some c) d p → connection_type c p = (Ok (Finished d.1), p).
Proof.
  intros (c' & pc & [= <-] & Hpc & <- & _ & Ht & _).
  unfold connection_type, connection, mbind, Coroutine_bind, co_lift, mbind, M_bind. cbn.
  rewrite Hpc. cbn. by rewrite decide_False.
Qed.

Lemma connection_state_known c d p :
  answered_by (Some c) d p → connection_state c p = (Ok (Finished d.2), p).
Proof.
  intros (c' & pc & [= <-] & Hpc & _ & <- & _ & Hs).
  unfold connection_state, connection, mbind, Coroutine_bind, co_lift, mbind, M_bind. cbn.
  rewrite Hpc. cbn. by rewrite decide_False.
Qed.

(** Nothing is asked of a peer that has answered. *)
Lemma details_getter_known peer d p :
  known peer d p → details_getter peer p = (Ok (Finished d), p).
Proof.
  intros (pointer & Hp & Hd). pose proof Hd as (c & _ & -> & _).
  assert (type_of peer p = (Ok (Finished d.1), p)) as Htype.
  { unfold type_of. erewrite bind_finished by by apply lift_finished. cbn. rewrite Hp.
    erewrite bind_finished by by apply lift_finished. by apply connection_type_known. }
  assert (state_of peer p = (Ok (Finished d.2), p)) as Hstate.
  { unfold state_of. erewrite bind_finished by by apply lift_finished. cbn. rewrite Hp.
    erewrite bind_finished by by apply lift_finished. by apply connection_state_known. }
  unfold details_getter. rewrite (bind_finished _ _ _ _ _ Htype).
  rewrite (bind_finished _ _ _ _ _ Hstate). by destruct d.
Qed.

(** The peers of a list that match. *)
Definition matching types states details (l : list string) : list string :=
  List.filter (λ peer, wanted types states (details peer)) l.

Lemma push_wanted_matching types states details peer ids :
  push_wanted types states peer (details peer) ids = ids ++ matching types states details [peer].
Proof. unfold push_wanted, matching. cbn. case_match; by rewrite ?app_nil_r. Qed.

Lemma matching_app types states details l1 l2 :
  matching types states details (l1 ++ l2) =
    matching types states details l1 ++ matching types states details l2.
Proof. apply List.filter_app. Qed.

Lemma matching_cons types states details x l :
  matching types states details (x :: l) =
    matching types states details [x] ++ matching types states details l.
Proof. apply (matching_app _ _ _ [x]). Qed.

Lemma collect_known types states details (l : list (string * option nat)) ids p :
  Forall (λ pc, known pc.1 (details pc.1) p) l →
  co_fold (collect_wanted types states) l ids p =
    (Ok (Finished (ids ++ matching types states details l.*1)), p).
Proof.
  intros Hl. revert ids. induction Hl as [|pc l Hpc _ IH]; intros ids; cbn [co_fold].
  { cbn. by rewrite app_nil_r. }
  assert (collect_wanted types states ids pc p =
    (Ok (Finished (ids ++ matching types states details [pc.1])), p)) as Hone.
  { unfold collect_wanted. rewrite (bind_finished _ _ _ _ _ (details_getter_known _ _ _ Hpc)).
    by rewrite push_wanted_matching. }
  rewrite (bind_finished _ _ _ _ _ Hone), IH, <-app_assoc, <-matching_cons. done.
Qed.

Lemma of_type_known type details (l : list (string * option nat)) ids p :
  Forall (λ pc, answered_by pc.2 (details pc.1) p) l →
  co_fold (collect_of_type type) l ids p =
    (Ok (Finished (ids ++ List.filter (λ peer, bool_decide ((details peer).1 = type)) l.*1)), p).
Proof.
  intros Hl. revert ids. induction Hl as [|[peer pointer] l Hpc _ IH]; intros ids; cbn [co_fold].
  { cbn. by rewrite app_nil_r. }
  cbn in Hpc. pose proof Hpc as (c & _ & -> & _).
  assert (collect_of_type type ids (peer, Some c) p = (Ok (Finished
    (if decide ((details peer).1 = type) then ids ++ [peer] else ids)), p)) as Hone.
  { unfold collect_of_type. erewrite bind_finished by by apply lift_finished.
    by rewrite (bind_finished _ _ _ _ _ (connection_type_known c _ p Hpc)). }
  rewrite (bind_finished _ _ _ _ _ Hone), IH. cbn [fmap list_fmap List.filter fst].
  destruct (decide ((details peer).1 = type)) as [Heq|Hne].
  - rewrite bool_decide_true by done. by rewrite <-app_assoc.
  - by rewrite bool_decide_false by done.
Qed.

Lemma peers_of_type_known type details p :
  Forall (λ pc, answered_by pc.2 (details pc.1) p) (hash_order (mg_connections (pr_manager p))) →
  peers_of_type type p =
    (Ok (Finished (List.filter (λ peer, bool_decide ((details peer).1 = type))
           (hash_order (mg_connections (pr_manager p))).*1)), p).
Proof.
  intros Hl. unfold peers_of_type. rewrite (bind_finished _ _ _ p p) by by apply lift_finished.
  exact (of_type_known type details _ [] p Hl).
Qed.

(** The task of an opened channel, for a peer that has answered, up to its promise. *)
Lemma task_known w n d p :
  known (in_content n) d p →
  on_datachannel_task w (EvString n) p = co_lift (wait_progress w (in_content n) d) p.
Proof.
  intros Hk. unfold on_datachannel_task. erewrite bind_finished by by apply lift_finished.
  by rewrite (bind_finished _ _ _ _ _ (details_getter_known _ _ _ Hk)).
Qed.

(** Setting a wait's variables touches nothing a peer is known by. *)
Lemma known_waits peer d m p : known peer d (lset waitsL m p) ↔ known peer d p.
Proof. done. Qed.

Lemma progress_below w wait peer d p :
  pr_waits p !! w = Some wait →
  enough (push_wanted (pw_types wait) (pw_states wait) peer d (pw_identities wait))
    (pw_count wait) = false →
  wait_progress w peer d p =
    (Ok tt, lset waitsL (<[w := set_identities (push_wanted (pw_types wait) (pw_states wait) peer d
                                  (pw_identities wait)) wait]> (pr_waits p)) p).
Proof.
  intros Hw He. unfold wait_progress, the_wait, set_wait, mbind, M_bind, zoom, modify, gets. cbn.
  rewrite Hw. cbn. by rewrite He.
Qed.

Lemma progress_enough w wait peer d p :
  pr_waits p !! w = Some wait → pw_result wait = None →
  let ids := push_wanted (pw_types wait) (pw_states wait) peer d (pw_identities wait) in
  enough ids (pw_count wait) = true →
  ∃ p', wait_progress w peer d p = (Ok tt, p') ∧
    (∃ wait', pr_waits p' !! w = Some wait' ∧ pw_result wait' = Some ids) ∧
    (∀ h c, pw_handle1 wait = Some h →
       (h, c) ∉ epp_listeners (eq_queue (pr_queue p'))
                  (NotificationEvent InternalNotificationType.DataChannelOpened)) ∧
    (∀ h c, pw_handle2 wait = Some h →
       (h, c) ∉ epp_listeners (eq_queue (pr_queue p'))
                  (PeerEvent PeerMessageType.PeerStateUpdate)).
Proof.
  intros Hw Hr ids He.
  unfold wait_progress, resolve_wait, the_wait, set_wait, mbind, M_bind, zoom, modify, gets. cbn.
  rewrite Hw. cbn. fold ids. rewrite He. cbn. rewrite lookup_insert_eq. cbn. rewrite Hr. cbn.
  destruct (pw_handle1 wait) as [h1|], (pw_handle2 wait) as [h2|]; cbn;
    (eexists; split; [reflexivity|]; cbn; rewrite lookup_insert_eq; split_and!;
     [by eexists|..]); try done; intros h c [= <-];
    rewrite !epp_remove_listeners;
    try (rewrite ?(decide_True (P := NotificationEvent _ = _)) by done;
         rewrite ?(decide_True (P := PeerEvent _ = _)) by done;
         rewrite ?decide_False by done);
    intros [Hne _]%list_elem_of_filter; by apply Hne.
Qed.
End Lemmas.

Section MoreLemmas.
Context `{JsonLib} `{CryptoLib} `{LevelDB} `{FifoLib} `{EventppLib} `{RtcLib} `{HostLib}.
Context `{HashOrder} {A : Type}.
Abbreviation Peer := (Peer (A:=A)).
Implicit Types (p : Peer) (w : nat) (details : string → PeerType.t * PeerState.t).

(** Opened channels before the last one that is needed only collect. *)
Lemma tasks_collect w wait details (ns : list (InternalNotification string)) p :
  pr_waits p !! w = Some wait →
  Forall (λ n, known (in_content n) (details (in_content n)) p) ns →
  let ids := pw_identities wait ++
    matching (pw_types wait) (pw_states wait) details (map in_content ns) in
  Z.of_nat (length ids) < u64_wrap (pw_count wait) →
  co_for_each ns (λ n, on_datachannel_task w (EvString n)) p =
    (Ok (Finished tt), match ns with
                       | [] => p
                       | _ => lset waitsL (<[w := set_identities ids wait]> (pr_waits p)) p
                       end).
Proof.
  revert wait p. induction ns as [|n ns IH]; intros wait p Hw Hall ids Hids; [done|].
  apply Forall_cons in Hall as [Hn Hall]. cbn [co_for_each].
  assert (on_datachannel_task w (EvString n) p = (Ok (Finished tt),
    lset waitsL (<[w := set_identities (pw_identities wait ++ matching (pw_types wait)
      (pw_states wait) details [in_content n]) wait]> (pr_waits p)) p)) as Hone.
  { rewrite (task_known _ _ _ _ Hn). apply lift_finished.
    rewrite <-push_wanted_matching. apply progress_below; [done|].
    unfold enough. apply Z.leb_gt. rewrite push_wanted_matching.
    eapply Z.le_lt_trans; [|exact Hids]. unfold ids. cbn [map].
    rewrite (matching_cons _ _ _ _ (map in_content ns)), !length_app. lia. }
  rewrite (bind_finished _ _ _ _ _ Hone).
  destruct ns as [|n' ns]; [done|].
  set (p1 := lset waitsL _ p).
  rewrite (IH (set_identities (pw_identities wait ++ matching (pw_types wait)
      (pw_states wait) details [in_content n]) wait) p1).
  - cbn [pw_types pw_states pw_identities set_identities]. rewrite <-app_assoc, <-matching_cons.
    unfold p1. cbn [lset waitsL pr_waits]. by rewrite insert_insert_eq.
  - unfold p1. cbn. by rewrite lookup_insert_eq.
  - exact Hall.
  - cbn [pw_types pw_states pw_identities pw_count set_identities].
    rewrite <-app_assoc, <-matching_cons. exact Hids.
Qed.
End MoreLemmas.

(** ** Properties *)

Section Properties.
Context `{JsonLib} `{CryptoLib} `{LevelDB} `{FifoLib} `{EventppLib} `{RtcLib} `{HostLib}.
Context `{HashOrder} {A : Type}.
Abbreviation Peer := (Peer (A:=A)).
Implicit Types (p : Peer) (details : string → PeerType.t * PeerState.t).

(** C25: when every connected peer has told its type and state, wait_for_peers returns at once with
    exactly the peers that match, in the order of the map, if there are at least [count] of
    them, and nothing has changed; otherwise it waits, and its two listeners are registered. *)
Theorem wait_for_peers_returns_known count types states details p :
  Forall (λ pc, known pc.1 (details pc.1) p) (hash_order (mg_connections (pr_manager p))) →
  let ids := matching types states details (hash_order (mg_connections (pr_manager p))).*1 in
  if enough ids count
  then wait_for_peers count types states p = (Ok (Finished ids), p)
  else ∃ w h1 h2 resume p', wait_for_peers count types states p =
         (Ok (Suspended (Peers w) resume), p') ∧
       pr_waits p !! w = None ∧
       pr_waits p' = <[w := MkPeersWait count types states ids (Some h1) (Some h2) None]>
                       (pr_waits p) ∧
       (h1, App (OnWaitEvent w)) ∈ epp_listeners (eq_queue (pr_queue p'))
          (NotificationEvent InternalNotificationType.DataChannelOpened) ∧
       (h2, App (OnWaitEvent w)) ∈ epp_listeners (eq_queue (pr_queue p'))
          (PeerEvent PeerMessageType.PeerStateUpdate) ∧
       ∀ found p'', resume found p'' = (Ok (Finished found), p'').
Proof.
  intros Hk ids. pose proof (collect_known types states details _ [] p Hk) as Hcol.
  cbn [app] in Hcol. fold ids in Hcol.
  unfold wait_for_peers. rewrite (bind_finished _ _ _ p p) by by apply lift_finished.
  rewrite (bind_finished _ _ _ _ _ Hcol). destruct (enough ids count); [done|].
  set (w := fresh (dom (pr_waits p))).
  destruct (start_waiting count types states ids p) as [r p'] eqn:Hrun.
  pose proof Hrun as Hrun'.
  unfold start_waiting, listen, append_listener, set_wait, mbind, M_bind, zoom, modify, gets, writes
    in Hrun. cbn in Hrun.
  destruct (epp_append _ _ (eq_queue (pr_queue p))) as [h1 q1] eqn:Ha1. cbn in Hrun.
  destruct (epp_append _ _ q1) as [h2 q2] eqn:Ha2. cbn in Hrun. injection Hrun as <- <-.
  fold w in Hrun', Ha1, Ha2.
  exists w, h1, h2. do 2 eexists. split.
  { by rewrite (bind_finished _ _ _ _ _ (lift_finished _ _ _ _ Hrun')). }
  split_and!.
  - apply not_elem_of_dom. apply is_fresh.
  - cbn. by rewrite !insert_insert_eq.
  - cbn. replace q2 with (epp_append (PeerEvent PeerMessageType.PeerStateUpdate)
      (App (OnWaitEvent w)) q1).2 by by rewrite Ha2.
    rewrite epp_append_listeners, decide_False, app_nil_r by done.
    replace q1 with (epp_append (NotificationEvent InternalNotificationType.DataChannelOpened)
      (App (OnWaitEvent w)) (eq_queue (pr_queue p))).2 by by rewrite Ha1.
    rewrite epp_append_listeners, decide_True, Ha1 by done. set_solver.
  - cbn. replace q2 with (epp_append (PeerEvent PeerMessageType.PeerStateUpdate)
      (App (OnWaitEvent w)) q1).2 by by rewrite Ha2.
    rewrite epp_append_listeners, decide_True, Ha2 by done. set_solver.
  - done.
Qed.

(** C26: a call that waits is resolved by the opened channel that makes the count full and by none
    before: with the matching peers found so far, then those of the opened channels, in order.
    Both listeners are off the queue then. *)
Theorem wait_resolves_at_count w wait details (ns : list (InternalNotification string)) n p :
  pr_waits p !! w = Some wait → pw_result wait = None →
  Forall (λ n, known (in_content n) (details (in_content n)) p) (ns ++ [n]) →
  wanted (pw_types wait) (pw_states wait) (details (in_content n)) = true →
  let ids := pw_identities wait ++
    matching (pw_types wait) (pw_states wait) details (map in_content ns) in
  Z.of_nat (length ids) + 1 = u64_wrap (pw_count wait) →
  ∃ p1 p2 wait1 wait2,
    co_for_each ns (λ n, on_datachannel_task w (EvString n)) p = (Ok (Finished tt), p1) ∧
    pr_waits p1 !! w = Some wait1 ∧ pw_result wait1 = None ∧
    on_datachannel_task w (EvString n) p1 = (Ok (Finished tt), p2) ∧
    pr_waits p2 !! w = Some wait2 ∧ pw_result wait2 = Some (ids ++ [in_content n]) ∧
    (∀ h c, pw_handle1 wait = Some h →
       (h, c) ∉ epp_listeners (eq_queue (pr_queue p2))
                  (NotificationEvent InternalNotificationType.DataChannelOpened)) ∧
    (∀ h c, pw_handle2 wait = Some h →
       (h, c) ∉ epp_listeners (eq_queue (pr_queue p2))
                  (PeerEvent PeerMessageType.PeerStateUpdate)).
Proof.
  intros Hw Hr Hall Hn ids Hcount. apply Forall_app in Hall as [Hns Hlast].
  apply Forall_cons in Hlast as [Hlast _].
  pose proof (tasks_collect w wait details ns p Hw Hns ltac:(unfold ids in Hcount; lia)) as Hrun.
  set (p1 := match ns with [] => p | _ => _ end) in Hrun.
  assert (∃ wait1, pr_waits p1 !! w = Some wait1 ∧ set_identities ids wait1 =
    set_identities ids wait ∧ pw_identities wait1 = ids) as (wait1 & Hw1 & Heq & Hids).
  { unfold p1. destruct ns as [|n' ns]; [|by eexists; split; [apply lookup_insert_eq|]].
    exists wait. unfold ids. by rewrite app_nil_r. }
  injection Heq as Hc Ht Hs Hh1 Hh2 Hres.
  assert (known (in_content n) (details (in_content n)) p1) as Hlast1.
  { unfold p1. destruct ns; exact Hlast. }
  assert (push_wanted (pw_types wait1) (pw_states wait1) (in_content n) (details (in_content n))
    (pw_identities wait1) = ids ++ [in_content n]) as Hpush.
  { unfold push_wanted. by rewrite Ht, Hs, Hn, Hids. }
  destruct (progress_enough w wait1 (in_content n) (details (in_content n)) p1 Hw1
    ltac:(congruence)) as (p2 & Hp2 & (wait2 & Hw2 & Hr2) & Hl1 & Hl2).
  { rewrite Hpush. unfold enough. apply Z.leb_le. rewrite length_app, Hc. cbn. lia. }
  exists p1, p2, wait1, wait2. rewrite Hpush in Hr2. rewrite Hh1 in Hl1. rewrite Hh2 in Hl2.
  split_and!; try done; [congruence|].
  rewrite (task_known _ _ _ _ Hlast1). by apply lift_finished.
Qed.

(** C27: a PeerStateUpdate never resolves a wait: the listener for it posts the task for opened
    channels, which throws on it whoever sent it, and the wait stays as it was, also where the
    task that was written for these messages would have resolved it. *)
Theorem state_update_does_not_resolve w wait m d p :
  pr_waits p !! w = Some wait → pw_result wait = None →
  known (pm_sender_identity m) d p → wanted (pw_types wait) (pw_states wait) d = true →
  Z.of_nat (length (pw_identities wait)) + 1 = u64_wrap (pw_count wait) →
  (∃ p', run_task (WaitTask w (EvPeer m)) p = (Err BadVariantAccess, p') ∧
     pr_waits p' = pr_waits p) ∧
  (∃ p' wait', on_peer_state_update_task w (EvPeer m) p = (Ok (Finished tt), p') ∧
     pr_waits p' !! w = Some wait' ∧
     pw_result wait' = Some (pw_identities wait ++ [pm_sender_identity m])).
Proof.
  intros Hw Hr Hk Hm Hcount. split; [by eexists|].
  assert (push_wanted (pw_types wait) (pw_states wait) (pm_sender_identity m) d
    (pw_identities wait) = pw_identities wait ++ [pm_sender_identity m]) as Hpush.
  { unfold push_wanted. by rewrite Hm. }
  destruct (progress_enough w wait (pm_sender_identity m) d p Hw Hr)
    as (p' & Hp' & (wait' & Hw' & Hr') & _).
  { rewrite Hpush. unfold enough. apply Z.leb_le. rewrite length_app. cbn. lia. }
  exists p', wait'. rewrite Hpush in Hr'. split_and!; [|done..].
  unfold on_peer_state_update_task. erewrite bind_finished by by apply lift_finished.
  rewrite (bind_finished _ _ _ _ _ (details_getter_known _ _ _ Hk)). by apply lift_finished.
Qed.
End Properties.
