(* ===== verification/SignalingClient.v ===== *)
(** * The signaling client (Servers/SignalingClient/SignalingClient.{h,cpp})

    The web socket of a peer process to the signaling server. *)

From stdpp Require Import base sets list gmap strings.
From Stdlib Require Import ZArith Lia.
From S2P Require Import Prelude Json Crypto LevelDB Fifo Rtc Enums Models Messages DBInterface.
From S2P Require Import Stores TransactionPool Event Coroutine Services Peer.

Open Scope Z_scope.

Section SignalingClient.
Context `{JsonLib} `{LevelDB} `{FifoLib} `{EventppLib} `{RtcLib} `{HostLib} {A : Type}.
Abbreviation Peer := (Peer (A:=A)).

(** The socket [m_ws]. *)
Context (ws : nat).

(** The callbacks of the socket. *)
Definition on_ws_notification (type : InternalNotificationType.t) : M Peer unit :=
  notification ← zoom hostL (InternalNotification_create type tt);
  enqueue_event (EvEmpty notification).

Definition on_ws_open : M Peer unit :=
  on_ws_notification InternalNotificationType.SignalingServerOpened.

Definition on_ws_closed : M Peer unit :=
  on_ws_notification InternalNotificationType.SignalingServerClosed.

Definition on_ws_message (message : RtcMessage) : M Peer unit :=
  message_str ← lift_result (rtc_text message);
  message_json ← lift_result (parse message_str);
  signaling_message ← lift_result (SignalingMessage_from_json message_json);
  enqueue_event (EvSignaling signaling_message).

(** The listener of SendSignalingMessage. *)
Definition send_signaling_message (event : Event) : M Peer unit :=
  internal_message ← lift_result (get_internal_signaling event);
  id ← gets identity;
  let content := SignalingMessage_set_sender_identity id (im_content internal_message) in
  message_str ← lift_result (SignalingMessage_to_string content);
  zoom rtcL (ws_send ws message_str).

(** initialize(): up to the opening of the socket, up to the server's answer, and the whole. *)
Definition initialize_client : M Peer nat :=
  _ ← listen (InternalEvent InternalMessageType.SendSignalingMessage) SendSignaling;
  zoom queueL (event_of_type
    (NotificationEvent InternalNotificationType.SignalingServerOpened) 1 None).

Definition initialize_opened : M Peer nat :=
  id ← gets identity;
  tag ← zoom hostL create_tag;
  internal ← zoom hostL (InternalMessage_create InternalMessageType.SendSignalingMessage
    (MkSignalingMessage SignalingMessageType.SetIdentityRequest id "signaling_server" tag
       (jstring id)));
  zoom queueL (submit (EvInternalSignaling internal)).

Definition initialize : Coroutine Peer unit :=
  opened ← co_lift initialize_client;
  _ ← await opened;
  answered ← co_lift initialize_opened;
  _ ← await answered;
  mret tt.
End SignalingClient.
