(* ===== verification/SignalingServer.v ===== *)
(** * The signaling server (Servers/Signaling/SignalingServer.{h,cpp})

    The server knows its sockets and the identity each of them announced, and passes messages
    between them. Its handlers hold one mutex, so they run one after the other. *)

From stdpp Require Import base sets list gmap strings.
From Stdlib Require Import ZArith Lia.
From S2P Require Import Prelude Json Crypto Rtc Enums Models Messages.

Open Scope Z_scope.

Section SignalingServer.
Context `{JsonLib} `{RtcLib} `{HostLib} `{HashOrder}.

Record SignalingServer := MkSignalingServer {
  sv_sockets : gset nat;
  sv_identities : gmap nat string;
  sv_rtc : rtc;
  sv_host : Host }.

Definition sv_socketsL : Lens SignalingServer (gset nat) :=
  MkLens sv_sockets (λ x s, MkSignalingServer x (sv_identities s) (sv_rtc s) (sv_host s)).
Definition sv_identitiesL : Lens SignalingServer (gmap nat string) :=
  MkLens sv_identities (λ x s, MkSignalingServer (sv_sockets s) x (sv_rtc s) (sv_host s)).
Definition sv_rtcL : Lens SignalingServer rtc :=
  MkLens sv_rtc (λ x s, MkSignalingServer (sv_sockets s) (sv_identities s) x (sv_host s)).
Definition sv_hostL : Lens SignalingServer Host :=
  MkLens sv_host (λ x s, MkSignalingServer (sv_sockets s) (sv_identities s) (sv_rtc s) x).

(** [m_socket_identity_map[ws]] makes an empty entry when there is none. *)
Definition identity_of (ws : nat) : M SignalingServer string :=
  identities ← gets sv_identities;
  match identities !! ws with
  | Some identity => mret identity
  | None =>
      _ ← zoom sv_identitiesL (modify (insert ws ""));
      mret ""
  end.

(** [socket->send(message.to_string())] *)
Definition send_to (ws : nat) (message : SignalingMessage) : M SignalingServer unit :=
  message_str ← lift_result (SignalingMessage_to_string message);
  zoom sv_rtcL (ws_send ws message_str).

Definition from_server (type : SignalingMessageType.t) (receiver tag : string)
    (content : json) : SignalingMessage :=
  MkSignalingMessage type "signaling_server" receiver tag content.

(** [for (socket : m_sockets) body(socket.get());] *)
Definition for_sockets (body : nat → M SignalingServer unit) : M SignalingServer unit :=
  sockets ← gets sv_sockets;
  for_each (hash_elements sockets) body.

(** The lambda of onClient. *)
Definition on_client (ws : nat) : M SignalingServer unit :=
  _ ← zoom sv_socketsL (modify (λ s, {[ws]} ∪ s));
  zoom sv_identitiesL (modify (λ m, if decide (is_Some (m !! ws)) then m else <[ws := ""]> m)).

(** The three branches of on_client_message. *)
Definition on_set_identity (ws : nat) (message : SignalingMessage) : M SignalingServer unit :=
  identity ← lift_result (get_string (sm_content message));
  _ ← zoom sv_identitiesL (modify (insert ws identity));
  _ ← send_to ws (from_server SignalingMessageType.SetIdentityResponse identity
                    (sm_tag message) jnull);
  for_sockets (λ socket,
    if decide (socket ≠ ws) then
      receiver ← identity_of socket;
      send_to socket (from_server SignalingMessageType.PeerAvailable receiver
                        (sm_tag message) (jstring identity))
    else mret tt).

(** The loop that collects the identities. *)
Fixpoint other_identities (my_identity : string) (sockets : list nat) (identities : list string)
    : M SignalingServer (list string) :=
  match sockets with
  | [] => mret identities
  | socket :: sockets =>
      identity ← identity_of socket;
      if decide (identity ≠ my_identity)
      then other_identities my_identity sockets (identities ++ [identity])
      else other_identities my_identity sockets identities
  end.

Definition on_available_peers (ws : nat) (my_identity : string) (message : SignalingMessage)
    : M SignalingServer unit :=
  sockets ← gets sv_sockets;
  identities ← other_identities my_identity (hash_elements sockets) [];
  send_to ws (from_server SignalingMessageType.AvailablePeersResponse
                (sm_sender_identity message) (sm_tag message) (jarray (map jstring identities))).

Definition on_rtc_message (message : SignalingMessage) : M SignalingServer unit :=
  let receiver_identity := sm_receiver_identity message in
  for_sockets (λ socket,
    identity ← identity_of socket;
    if decide (identity = receiver_identity) then send_to socket message else mret tt).

Definition on_client_message (ws : nat) (rtc_message : RtcMessage) : M SignalingServer unit :=
  message_str ← lift_result (rtc_text rtc_message);
  message_json ← lift_result (parse message_str);
  message ← lift_result (SignalingMessage_from_json message_json);
  my_identity ← identity_of ws;
  match sm_type message with
  | SignalingMessageType.SetIdentityRequest => on_set_identity ws message
  | SignalingMessageType.AvailablePeersRequest => on_available_peers ws my_identity message
  | SignalingMessageType.RTCSetup | SignalingMessageType.RTCCandidate => on_rtc_message message
  | _ => mret tt
  end.

(** [erase_if(...) == 1 && m_socket_identity_map.erase(ws)] *)
Definition on_client_closed (ws : nat) : M SignalingServer unit :=
  identity ← identity_of ws;
  sockets ← gets sv_sockets;
  if decide (ws ∈ sockets) then
    _ ← zoom sv_socketsL (modify (λ s, s ∖ {[ws]}));
    _ ← zoom sv_identitiesL (modify (delete ws));
    for_sockets (λ socket,
      receiver ← identity_of socket;
      tag ← zoom sv_hostL create_tag;
      send_to socket (from_server SignalingMessageType.PeerClosed receiver tag
                        (jstring identity)))
  else mret tt.
End SignalingServer.

(** ** Lemmas *)

Section Lemmas.
Context `{JsonLib} `{RtcLib} `{HostLib} `{HashOrder}.
Implicit Types (s : SignalingServer) (m : SignalingMessage).

(** Every connected socket has an entry in the identity map. *)
Definition server_wf s : Prop := ∀ ws, ws ∈ sv_sockets s → is_Some (sv_identities s !! ws).

Lemma server_wf_identity_of ws : preserves server_wf (identity_of ws).
Proof.
  intros s Hs. unfold identity_of. do 2 wp_step. destruct (sv_identities s !! ws); [by wp_step|].
  repeat wp_step. intros w Hw. cbn. destruct (decide (w = ws)) as [->|Hne].
  - by rewrite lookup_insert_eq.
  - rewrite lookup_insert_ne by done. by apply Hs.
Qed.

Lemma server_wf_send ws m : preserves server_wf (send_to ws m).
Proof.
  unfold send_to. apply preserves_bind; [apply preserves_lift|]. intros t.
  by apply preserves_zoom_other.
Qed.

Lemma server_wf_insert ws i : preserves server_wf (zoom sv_identitiesL (modify (insert ws i))).
Proof.
  intros s Hs. do 2 wp_step. intros w Hw. cbn. destruct (decide (w = ws)) as [->|Hne].
  - by rewrite lookup_insert_eq.
  - rewrite lookup_insert_ne by done. by apply Hs.
Qed.

Lemma server_wf_for_sockets body :
  (∀ ws, preserves server_wf (body ws)) → preserves server_wf (for_sockets body).
Proof.
  intros Hb. unfold for_sockets. apply preserves_bind; [apply preserves_gets|]. intros ss.
  by apply preserves_for_each.
Qed.

#[local] Hint Resolve server_wf_identity_of server_wf_send server_wf_insert : krapi.

Lemma server_wf_other_identities i ss l : preserves server_wf (other_identities i ss l).
Proof.
  revert l. induction ss as [|w ss IH]; intros l; [apply preserves_ret|]. cbn.
  apply preserves_bind; [auto with krapi|]. intros j. by case_decide.
Qed.

Lemma server_wf_set_identity ws m : preserves server_wf (on_set_identity ws m).
Proof.
  unfold on_set_identity. apply preserves_bind; [apply preserves_lift|]. intros i.
  apply preserves_bind; [auto with krapi|]. intros _.
  apply preserves_bind; [auto with krapi|]. intros _. apply server_wf_for_sockets. intros w.
  case_decide; [|apply preserves_ret]. apply preserves_bind; auto with krapi.
Qed.

Lemma server_wf_available ws i m : preserves server_wf (on_available_peers ws i m).
Proof.
  unfold on_available_peers. apply preserves_bind; [apply preserves_gets|]. intros ss.
  apply preserves_bind; [apply server_wf_other_identities|]. auto with krapi.
Qed.

Lemma server_wf_rtc m : preserves server_wf (on_rtc_message m).
Proof.
  apply server_wf_for_sockets. intros w. apply preserves_bind; [auto with krapi|]. intros i.
  case_decide; auto with krapi.
Qed.

#[local] Hint Resolve server_wf_set_identity server_wf_available server_wf_rtc : krapi.

Lemma server_wf_message ws message : preserves server_wf (on_client_message ws message).
Proof.
  unfold on_client_message. do 3 (apply preserves_bind; [apply preserves_lift|]; intros ?).
  apply preserves_bind; [auto with krapi|]. intros my. destruct (sm_type _); auto with krapi.
Qed.

Lemma server_wf_client ws : preserves server_wf (on_client ws).
Proof.
  intros s Hs. unfold on_client. repeat wp_step. intros w. cbn.
  rewrite elem_of_union, elem_of_singleton. intros [->|Hw]; case_decide as Hd; try done.
  - by rewrite lookup_insert_eq.
  - by apply Hs.
  - destruct (decide (w = ws)) as [->|Hne]; [by rewrite lookup_insert_eq|].
    rewrite lookup_insert_ne by done. by apply Hs.
Qed.

Lemma server_wf_closed ws : preserves server_wf (on_client_closed ws).
Proof.
  unfold on_client_closed. apply preserves_bind; [auto with krapi|]. intros i.
  intros s Hs. do 2 wp_step. case_decide; [|by wp_step]. do 6 wp_step.
  apply (server_wf_for_sockets).
  - intros w. apply preserves_bind; [auto with krapi|]. intros r.
    apply preserves_bind; [by apply preserves_zoom_other|]. intros t. auto with krapi.
  - intros w. cbn. rewrite elem_of_difference, elem_of_singleton. intros [Hw Hne].
    rewrite lookup_delete_ne by done. by apply Hs.
Qed.

(** ** Routing *)

(** The sockets of [l] that announced [identity]. *)
Definition announced (s : SignalingServer) (identity : string) (l : list nat) : list nat :=
  filter (λ ws, sv_identities s !! ws = Some identity) l.

(** Only the network's state differs, and [sent] was sent. *)
Definition sent_only (sent : list (Target * string)) s s' : Prop :=
  ∃ r, s' = lset sv_rtcL r s ∧ rtc_sent r = rtc_sent (sv_rtc s) ++ sent.

Lemma sent_nothing s : sent_only [] s s.
Proof. exists (sv_rtc s). split; [by destruct s|]. by rewrite app_nil_r. Qed.

Lemma sent_only_trans sent sent' s1 s2 s3 :
  sent_only sent s1 s2 → sent_only sent' s2 s3 → sent_only (sent ++ sent') s1 s3.
Proof.
  intros (r & -> & Hr) (r' & -> & Hr'). exists r'. split; [done|]. rewrite Hr'. cbn.
  by rewrite Hr, app_assoc.
Qed.

(** One text to one socket, or nothing when the socket throws. *)
Lemma wpx_send_to ws m text_ s :
  SignalingMessage_to_string m = Ok text_ →
  wpx (send_to ws m) (λ _ s', sent_only [(Socket ws, text_)] s s')
      (λ _ s', ¬ ReliableSockets ∧ sent_only [] s s') s.
Proof.
  intros Ht. unfold send_to. wp_step. eapply wpx_lift_ok; [exact Ht|]. wp_step.
  eapply wpx_mono; [apply ws_send_fails|intros [] r Hr|intros e r [? Hr]; split; [done|]];
    exists r; by rewrite ?app_nil_r.
Qed.

(** A loop that sends [out ws] for the socket [ws] and reads only the identities. *)
Lemma send_loop (out : nat → list (Target * string)) (body : nat → M SignalingServer unit) l s :
  (∀ ws s', ws ∈ l → sv_identities s' = sv_identities s →
     wpx (body ws) (λ _ s'', sent_only (out ws) s' s'')
         (λ _ s'', ¬ ReliableSockets ∧ sent_only [] s' s'') s') →
  wpx (for_each l body)
      (λ _ s', sent_only (concat (map out l)) s s')
      (λ _ s', ¬ ReliableSockets ∧ ∃ done_, done_ `prefix_of` concat (map out l) ∧ sent_only done_ s s') s.
Proof.
  revert s. induction l as [|ws l IH]; intros s Hbody; cbn [for_each map concat].
  { wp_step. apply sent_nothing. }
  wp_step. eapply wpx_mono; [apply Hbody; [by left|done]|intros [] s1 Hs1|intros e s1 Hs1].
  - pose proof Hs1 as (r & Heq & _). eapply wpx_mono; [apply IH|..].
    + intros w s' Hw Hs'. apply Hbody; [by right|]. by rewrite Hs', Heq.
    + intros [] s2 Hs2. by eapply sent_only_trans.
    + intros e s2 (HR & done_ & Hpre & Hs2). split; [done|]. exists (out ws ++ done_).
      split; [by apply prefix_app|]. by eapply sent_only_trans.
  - destruct Hs1 as [? Hs1]. split; [done|]. exists []. split; [apply prefix_nil|done].
Qed.

Lemma wpx_identity_of ws identity (Q : string → SignalingServer → Prop) E s :
  sv_identities s !! ws = Some identity → Q identity s → wpx (identity_of ws) Q E s.
Proof. intros Hi HQ. unfold identity_of. do 2 wp_step. by rewrite Hi. Qed.

Lemma route_loop m text_ l s :
  SignalingMessage_to_string m = Ok text_ → (∀ ws, ws ∈ l → is_Some (sv_identities s !! ws)) →
  wpx (for_each l (λ socket,
         identity ← identity_of socket;
         if decide (identity = sm_receiver_identity m) then send_to socket m else mret tt))
      (λ _ s', sent_only (map (λ ws, (Socket ws, text_))
                            (announced s (sm_receiver_identity m) l)) s s')
      (λ _ s', ¬ ReliableSockets ∧ ∃ l', l' `prefix_of` map (λ ws, (Socket ws, text_))
                              (announced s (sm_receiver_identity m) l) ∧ sent_only l' s s') s.
Proof.
  intros Ht Hl.
  assert (map (λ ws, (Socket ws, text_)) (announced s (sm_receiver_identity m) l) =
    concat (map (λ ws, if decide (sv_identities s !! ws = Some (sm_receiver_identity m))
                       then [(Socket ws, text_)] else []) l)) as ->.
  { clear Hl. unfold announced. induction l as [|ws l IH]; [done|]. rewrite filter_cons. cbn.
    case_decide; cbn; by rewrite IH. }
  apply send_loop. intros ws s' Hws Hs'. destruct (Hl ws Hws) as [i Hi]. wp_step.
  eapply wpx_identity_of; [by rewrite Hs'|]. rewrite Hi.
  destruct (decide (i = sm_receiver_identity m)) as [->|Hne].
  - rewrite decide_True by done. by apply wpx_send_to.
  - rewrite decide_False by congruence. wp_step. apply sent_nothing.
Qed.
End Lemmas.

(** ** Properties *)

Section Properties.
Context `{JsonLib} `{RtcLib} `{HostLib} `{HashOrder}.

(** C32: an offer, answer or candidate goes, unchanged, to exactly the connected sockets that
    announced the receiver's identity; nothing else of the server changes. Only a socket
    that fails makes it throw; then some of these sockets got it and no other socket did. *)
Theorem rtc_message_is_routed m text_ (s : SignalingServer) :
  server_wf s → SignalingMessage_to_string m = Ok text_ →
  let targets := announced s (sm_receiver_identity m) (hash_elements (sv_sockets s)) in
  match on_rtc_message m s with
  | (Ok _, s') => sent_only (map (λ ws, (Socket ws, text_)) targets) s s'
  | (Err _, s') => ¬ ReliableSockets ∧ ∃ done_, done_ `prefix_of` map (λ ws, (Socket ws, text_)) targets ∧
                     sent_only done_ s s'
  end.
Proof.
  intros Hwf Ht. unfold on_rtc_message, for_sockets.
  apply (wpx_bind (gets sv_sockets)), wpx_gets. apply route_loop; [done|].
  intros ws. rewrite hash_elements_perm, elem_of_elements. apply Hwf.
Qed.

(** C33: every connected socket has an entry in the identity map, whatever the clients send and
    even when a handler throws in the middle. *)
Theorem sockets_have_identities ws message (s : SignalingServer) :
  server_wf s →
  server_wf (on_client ws s).2 ∧ server_wf (on_client_message ws message s).2 ∧
  server_wf (on_client_closed ws s).2.
Proof.
  intros Hs. split_and!; apply (preserves_final server_wf); try done;
    [apply server_wf_client|apply server_wf_message|apply server_wf_closed].
Qed.

(** The announcement of a new client to another one. *)
Definition peer_available (receiver tag identity : string) : SignalingMessage :=
  from_server SignalingMessageType.PeerAvailable receiver tag (jstring identity).

(** What the server sends when the client of [ws] says that it is [identity]: an answer, and an
    announcement to every other socket, under the tag of the request. *)
Definition introduction (texts : string → string) (answer : string) (ws : nat)
    (s : SignalingServer) : list (Target * string) :=
  (Socket ws, answer) ::
  concat (map (λ socket, if decide (socket ≠ ws)
                         then [(Socket socket, texts (default "" (sv_identities s !! socket)))]
                         else []) (hash_elements (sv_sockets s))).

Lemma set_identity_spec texts answer ws sender receiver tag identity s :
  server_wf s →
  SignalingMessage_to_string
    (from_server SignalingMessageType.SetIdentityResponse identity tag jnull) = Ok answer →
  (∀ socket other, sv_identities s !! socket = Some other →
     SignalingMessage_to_string (peer_available other tag identity) = Ok (texts other)) →
  let s1 := lset sv_identitiesL (<[ws := identity]> (sv_identities s)) s in
  let sent := introduction texts answer ws s in
  wpx (on_set_identity ws (MkSignalingMessage SignalingMessageType.SetIdentityRequest sender
         receiver tag (jstring identity)))
      (λ _ s', sent_only sent s1 s')
      (λ _ s', ¬ ReliableSockets ∧ ∃ done_, done_ `prefix_of` sent ∧ sent_only done_ s1 s') s.
Proof.
  intros Hwf Ha Hts s1 sent. unfold on_set_identity. wp_step.
  eapply wpx_lift_ok; [apply get_string_string|]. do 3 wp_step.
  change (lset sv_identitiesL _ s) with s1. wp_step.
  eapply wpx_mono; [by apply wpx_send_to|intros [] s2 Hs2|].
  2:{ intros e s2 [? Hs2]. split; [done|]. exists []. split; [apply prefix_nil|exact Hs2]. }
  pose proof Hs2 as (r & Heq & _). unfold for_sockets. do 2 wp_step.
  replace (sv_sockets s2) with (sv_sockets s) by by rewrite Heq.
  eapply wpx_mono; [apply (send_loop (λ socket, if decide (socket ≠ ws)
    then [(Socket socket, texts (default "" (sv_identities s !! socket)))] else []))|..].
  - intros socket s' Hin Hs'. case_decide as Hne; [|wp_step; apply sent_nothing]. wp_step.
    rewrite hash_elements_perm, elem_of_elements in Hin.
    destruct (Hwf socket Hin) as [other Hother].
    eapply wpx_identity_of; [rewrite Hs', Heq; cbn; by rewrite lookup_insert_ne|].
    rewrite Hother. cbn. eapply wpx_send_to, Hts, Hother.
  - intros [] s3 Hs3. exact (sent_only_trans [_] _ _ _ _ Hs2 Hs3).
  - intros e s3 (HR & done_ & Hpre & Hs3). split; [done|]. exists ((Socket ws, answer) :: done_).
    split; [by apply prefix_cons|]. exact (sent_only_trans [_] _ _ _ _ Hs2 Hs3).
Qed.

(** C40: a client that says who it is, is known under this identity from then on, gets an answer
    under the tag of its request, and every other client is told of it, in the order the server
    keeps its sockets. Only a socket that fails makes the handler throw; then the identity is
    known all the same, and what was sent is the beginning of that. *)
Theorem identity_is_announced ws sender receiver tag identity text_ s :
  server_wf s → ws ∈ sv_sockets s →
  let m := MkSignalingMessage SignalingMessageType.SetIdentityRequest sender receiver tag
             (jstring identity) in
  wf_signaling_message m → SignalingMessage_to_string m = Ok text_ → text identity →
  (∀ socket other, sv_identities s !! socket = Some other → text other) →
  ∃ texts answer,
    SignalingMessage_to_string
      (from_server SignalingMessageType.SetIdentityResponse identity tag jnull) = Ok answer ∧
    (∀ other, text other →
       SignalingMessage_to_string (peer_available other tag identity) = Ok (texts other)) ∧
    let s1 := lset sv_identitiesL (<[ws := identity]> (sv_identities s)) s in
    match on_client_message ws (RtcText text_) s with
    | (Ok _, s') => sent_only (introduction texts answer ws s) s1 s'
    | (Err _, s') => ¬ ReliableSockets ∧ ∃ done_, done_ `prefix_of` introduction texts answer ws s ∧
                              sent_only done_ s1 s'
    end.
Proof.
  intros Hwf Hws m Hm Htext Hid Hids. pose proof Hm as (_ & _ & Htag & _).
  assert (∀ type r c, text r → canonical c → ∃ t,
    SignalingMessage_to_string (from_server type r tag c) = Ok t) as Hser.
  { intros type r c Hr Hc. destruct (parse_dump (SignalingMessage_to_json
      (from_server type r tag c))) as (t & Ht & _); [|by exists t].
    apply SignalingMessage_to_json_canonical. split_and!; try done. by apply text_ascii. }
  destruct (Hser SignalingMessageType.SetIdentityResponse identity jnull Hid canonical_null)
    as (answer & Ha).
  set (texts := λ other,
    match SignalingMessage_to_string (peer_available other tag identity) with
    | Ok t => t
    | Err _ => ""
    end).
  assert (∀ other, text other →
    SignalingMessage_to_string (peer_available other tag identity) = Ok (texts other)) as Hts.
  { intros other Hother. destruct (Hser SignalingMessageType.PeerAvailable other
      (jstring identity) Hother (canonical_string _ Hid)) as (t & Ht).
    unfold texts, peer_available. by rewrite Ht. }
  exists texts, answer. split; [exact Ha|]. split; [exact Hts|].
  destruct (parse_dump _ (SignalingMessage_to_json_canonical m Hm)) as (t & Ht & Hp).
  unfold SignalingMessage_to_string in Htext. rewrite Ht in Htext. injection Htext as ->.
  destruct (Hwf ws Hws) as [mine Hmine].
  set (s1 := lset sv_identitiesL _ s). cbn [lset]. fold s1.
  change (wpx (on_client_message ws (RtcText text_))
    (λ _ s', sent_only (introduction texts answer ws s) s1 s')
    (λ _ s', ¬ ReliableSockets ∧ ∃ done_, done_ `prefix_of` introduction texts answer ws s ∧ sent_only done_ s1 s') s).
  unfold on_client_message. wp_step. eapply wpx_lift_ok; [done|]. wp_step.
  eapply wpx_lift_ok; [exact Hp|]. wp_step.
  eapply wpx_lift_ok; [apply SignalingMessage_from_to_json|]. wp_step.
  eapply wpx_identity_of; [exact Hmine|]. apply set_identity_spec; [done..|].
  intros socket other Hother. apply Hts. by eapply Hids.
Qed.
End Properties.
