(* ===== verification/Wallet.v ===== *)
(** * The wallet (Servers/LightNode/Wallet.{h,cpp})

    A light node's database of the transactions it sent or received. *)

From stdpp Require Import base sets list gmap strings.
From Stdlib Require Import ZArith Lia.
From S2P Require Import Prelude Json Crypto LevelDB Fifo Enums Models Messages DBInterface.
From S2P Require Import Stores TransactionPool Event.

Open Scope Z_scope.

Section Wallet.
Context `{JsonLib} `{CryptoLib} `{LevelDB} `{HostLib} {P : Type}.
Context (walletL : Lens P db) (hostL : Lens P Host).

(** Wallet(path, queue): [None] is [exit(1)]; LightNode.v has its listeners. *)
Definition Wallet_new (exists_ created : bool) (opened : option db) : option db :=
  initialize exists_ created opened.

(** Wallet::on_add_transaction; both branches only log. *)
Definition wallet_on_add_transaction (e : Event) : M P unit :=
  message ← lift_result (get_peer e);
  transaction ← lift_result (Transaction_from_json (pm_content message));
  added ← zoom walletL (put transaction);
  mret tt.

Definition on_transactions_status_changed (e : Event) : M P unit :=
  message ← lift_result (get_peer e);
  content ← lift_result (SetTransactionStatusContent_from_json (pm_content message));
  transaction ← zoom walletL (reads (get (T:=Transaction) (sts_hash content)));
  match transaction with
  | Some transaction =>
      removed ← zoom walletL (remove_tag (T:=Transaction) (tx_hash transaction));
      added ← zoom walletL
        (put (Transaction_new (tx_type transaction) (sts_status content) (sts_hash content)
                (tx_timestamp transaction) (tx_from transaction) (tx_to transaction)));
      mret tt
  | None => mret tt
  end.

(** The text whose digest is a transaction's hash. *)
Definition transaction_input (timestamp : Z) (my_id receiver_id : string) : string :=
  "send_tx" +:+ fmt_uint64 timestamp +:+ my_id +:+ receiver_id.

Definition create_transaction (my_id receiver_id : string) : M P Transaction :=
  timestamp ← zoom hostL get_krapi_timestamp;
  let tx_hash := hex_encode (sha256 (transaction_input timestamp my_id receiver_id)) in
  let tx := Transaction_new TransactionType.Send TransactionStatus.Pending tx_hash timestamp
              my_id receiver_id in
  added ← zoom walletL (put tx);
  mret tx.
End Wallet.

Section Lemmas.
Context `{JsonLib} `{CryptoLib} `{LevelDB} `{HostLib} {P : Type}.
Context (walletL : Lens P db) `{!LensLaws walletL} (hostL : Lens P Host).

Definition wallet_map (p : P) : gmap string Transaction := db_abs (lget walletL p).

Lemma wf_set_status s t : wf_transaction t → wf_transaction (Transaction_set_status s t).
Proof. done. Qed.

(** A status message changes the status of the transaction it names and nothing else. *)
Lemma status_changed_spec m c p :
  ReliableWrites → db_wf (T:=Transaction) (lget walletL p) →
  SetTransactionStatusContent_from_json (pm_content m) = Ok c →
  wp (on_transactions_status_changed walletL (EvPeer m))
     (λ _ p', ∃ d', p' = lset walletL d' p ∧ db_wf (T:=Transaction) d' ∧
        db_abs (T:=Transaction) d' =
          alter (Transaction_set_status (sts_status c)) (sts_hash c) (wallet_map p)) p.
Proof.
  intros HR Hwf Hc. unfold on_transactions_status_changed. wp_step.
  eapply wpx_lift_ok; [done|]. wp_step. eapply wpx_lift_ok; [exact Hc|]. do 2 wp_step.
  eapply wpx_reads_ok; [by apply get_abs|]. unfold wallet_map.
  destruct (db_abs (lget walletL p) !! sts_hash c) as [t|] eqn:Ht.
  - destruct (spent_lookup _ _ _ Hwf Ht) as [Hh Hwft].
    assert (Transaction_new (tx_type t) (sts_status c) (sts_hash c) (tx_timestamp t) (tx_from t)
      (tx_to t) = Transaction_set_status (sts_status c) t) as ->.
    { unfold Transaction_new, Transaction_set_status. rewrite <-Hh.
      by destruct Hwft as (_ & _ & _ & _ & <-). }
    do 2 wp_step. rewrite lset_lget. apply wpx_remove_tag; [done|]. intros ok d1 Hd1 Habs1 Hok1.
    do 2 wp_step. rewrite lget_lset. apply wpx_put; [done|by apply wf_set_status|].
    intros ok2 d2 Hd2 Habs2 Hok2. wp_step. exists d2. rewrite lset_lset.
    split_and!; [done..|]. rewrite Habs2, Hok2, Habs1, Hok1 by done.
    etrans; [exact (put_remove_spec (Transaction_set_status (sts_status c) t) _)|].
    change (data_tag _) with (tx_hash t). rewrite Hh. apply map_eq. intros k.
    rewrite lookup_alter, lookup_insert. case_decide; [|done]. subst. by rewrite Ht.
  - wp_step. exists (lget walletL p). split_and!; [done..|]. apply map_eq. intros k.
    rewrite lookup_alter. case_decide; [|done]. subst. by rewrite Ht.
Qed.
End Lemmas.

(** ** Properties *)

Section Properties.
Context `{JsonLib} `{CryptoLib} `{LevelDB} {P : Type}.
Context (walletL : Lens P db) `{!LensLaws walletL}.

(** C34: on a disk that works, a SetTransactionStatus message changes the status of the one
    transaction it names and nothing else of the wallet; an unknown hash changes nothing. *)
Theorem status_message_sets_status m c (p : P) :
  ReliableWrites → db_wf (T:=Transaction) (lget walletL p) →
  SetTransactionStatusContent_from_json (pm_content m) = Ok c →
  ∃ d', on_transactions_status_changed walletL (EvPeer m) p = (Ok tt, lset walletL d' p) ∧
    db_wf (T:=Transaction) d' ∧
    db_abs (T:=Transaction) d' =
      alter (Transaction_set_status (sts_status c)) (sts_hash c) (db_abs (lget walletL p)).
Proof.
  intros HR Hwf Hc. pose proof (status_changed_spec walletL m c p HR Hwf Hc) as Hrun.
  apply wp_run in Hrun as ([] & p' & Hrun & d' & -> & Hd & Habs). by exists d'.
Qed.
End Properties.
