(* ===== verification/Node.v ===== *)
(** * The full node (Servers/Node/main.cpp)

    The process that joins the shared components of a peer with the three stores, the handlers
    main registers, the initial block download, and main itself. The node is an instance of
    [Services]: the managers' theorems hold of it. *)

From stdpp Require Import base sets list gmap strings.
From Stdlib Require Import ZArith Lia.
From S2P Require Import Prelude Json Crypto LevelDB Fifo Rtc Enums Models Messages DBInterface.
From S2P Require Import Stores Blockchain Validator TransactionPool Event Coroutine Services.
From S2P Require Import BlockchainManager TransactionPoolManager Miner Peer RetryHandler.
From S2P Require Import PeerConnection PeerManager WaitForPeers SignalingClient.

Open Scope Z_scope.

(** The callbacks the node's program registers. *)
Inductive NodeCallback :=
  | ChainCallback (l : BlockchainListener)
  | PoolCallback (l : PoolListener)
  | OnSignalingServerClosed
  | OnControlOperateBetween
  | OnTransactionsInRequest
  | OnTransactionsOutRequest.

Section Node.
Context `{JsonLib} `{CryptoLib} `{LevelDB} `{FifoLib} `{EventppLib} `{RtcLib} `{HostLib}.
Context `{HashOrder}.

Record Node := MkNode {
  nd_peer : Peer (A:=NodeCallback);
  nd_stores : Stores }.

Definition peerL : Lens Node Peer := MkLens nd_peer (λ p n, MkNode p (nd_stores n)).
Definition storesL : Lens Node Stores := MkLens nd_stores (λ s n, MkNode (nd_peer n) s).

#[global] Instance peerL_laws : LensLaws peerL.
Proof. by split; intros; destruct s. Qed.

#[global] Instance storesL_laws : LensLaws storesL.
Proof. by split; intros; destruct s. Qed.

Definition on_peer {B} (m : M Peer B) : M Node B := zoom peerL m.

Definition broadcast_of (t : PostedTask) : option Task :=
  match t with BroadcastTask task => Some task | RetryTask _ | WaitTask _ _ => None end.

Definition node_view (n : Node) : View :=
  MkView (identity (nd_peer n)) (hash_order (mg_connections (pr_manager (nd_peer n))))
    (omap broadcast_of (pr_posted (nd_peer n))) (pending (nd_peer n)).

(** ** The handlers of main *)

(** [transaction_pool->end(SignalingClosed); event_loop->end();] *)
Definition on_signaling_server_closed (e : Event) : M Node unit :=
  _ ← zoom (lens_comp storesL poolL) (pool_end SignalingClosed);
  on_peer (zoom endL (modify (λ _, true))).

(** [results[transaction.to()]++] for the transactions of a block in the interval. *)
Definition tally_block (begin_ end_ : Z) (results : gmap string Z) (block : Block)
    : gmap string Z :=
  fold_left
    (λ results transaction,
       if (begin_ <=? tx_timestamp transaction) && (tx_timestamp transaction <=? end_)
       then <[tx_to transaction := default 0 (results !! tx_to transaction) + 1]> results
       else results)
    (bl_transactions block) results.

Definition on_control_operate_between (e : Event) : M Node unit :=
  peer_message ← lift_result (get_peer e);
  begin_ ← lift_result (v ← index_mut (pm_content peer_message) "begin"; get_uint64 v);
  end_ ← lift_result (v ← index_mut (pm_content peer_message) "end"; get_uint64 v);
  blocks ← zoom (lens_comp storesL chainL) (reads (db_data (T:=Block)));
  let results := fold_left (tally_block begin_ end_) blocks ∅ in
  on_peer (broadcast_to_peers_of_type_and_forget [PeerType.Light]
    PeerMessageType.ControlResult
    (jobject (map (λ kv, (kv.1, jint kv.2)) (hash_order results))) ∅).

(** [for (auto transaction : data()) if (...) counter++;] *)
Definition count_if (f : Transaction → bool) (ts : list Transaction) : Z :=
  fold_left (λ counter t, if f t then counter + 1 else counter) ts 0.

Definition answer_count (type : PeerMessageType.t) (m : PeerMessage) (counter : Z)
    : M Node unit :=
  on_peer (send_and_forget type (pm_receiver_identity m) (pm_sender_identity m) (pm_tag m)
             (jint counter)).

Definition on_transactions_in_request (e : Event) : M Node unit :=
  peer_message ← lift_result (get_peer e);
  id ← lift_result (get_string (pm_content peer_message));
  pooled ← zoom (lens_comp storesL poolL) (zoom pool_dbL (reads (db_data (T:=Transaction))));
  spent ← zoom (lens_comp storesL spentL) (reads (db_data (T:=Transaction)));
  answer_count PeerMessageType.TransactionsInResponse peer_message
    (count_if (λ t, String.eqb (tx_to t) id) pooled +
     count_if (λ t, String.eqb (tx_to t) id) spent).

Definition on_transactions_out_request (e : Event) : M Node unit :=
  peer_message ← lift_result (get_peer e);
  id ← lift_result (get_string (pm_content peer_message));
  pooled ← zoom (lens_comp storesL poolL) (zoom pool_dbL (reads (db_data (T:=Transaction))));
  answer_count PeerMessageType.TransactionsOutResponse peer_message
    (count_if (λ t, String.eqb (tx_from t) id) pooled).

(** ** Initial block download *)

(** The requests of request_headers and download_blocks: the promise of the answer. *)
Definition request (type : PeerMessageType.t) (id : string) (header : BlockHeader)
    : M Node nat :=
  my_id ← on_peer (gets identity);
  tag ← on_peer (zoom hostL create_tag);
  on_peer (send type my_id id tag (BlockHeader_to_json header)).

(** [std::map<Headers, std::string, SizeSorter>::emplace]: the longest list first, and nothing
    is inserted when there is a list of the same length. *)
Fixpoint header_map_emplace (headers : list BlockHeader) (peer : string)
    (m : list (list BlockHeader * string)) : list (list BlockHeader * string) :=
  match m with
  | [] => [(headers, peer)]
  | (h, p) :: m' =>
      if (length h <? length headers)%nat then (headers, peer) :: m
      else if (length headers <? length h)%nat then (h, p) :: header_map_emplace headers peer m'
      else m
  end.

(** What is read off an answer. *)
Definition headers_of_response (reason : Event) : result (list BlockHeader * string) :=
  message ← get_peer reason;
  headers ← BlockHeadersResponseContent_from_json (pm_content message);
  Ok (headers, pm_sender_identity message).

(** One round of the loop of request_headers. *)
Definition request_headers_of (last_known_header : BlockHeader)
    (header_peer_map : list (list BlockHeader * string)) (identity : string)
    : Coroutine Node (list (list BlockHeader * string)) :=
  promise ← co_lift (request PeerMessageType.BlockHeadersRequest identity last_known_header);
  reason ← await promise;
  entry ← co_lift (lift_result (headers_of_response reason));
  mret (header_map_emplace entry.1 entry.2 header_peer_map).

(** request_headers; the end dereferences [begin()]. *)
Definition request_headers (identities : list string) (last_known_header : BlockHeader)
    : Coroutine Node (list BlockHeader * string) :=
  header_peer_map ← co_fold (request_headers_of last_known_header) identities [];
  co_lift (match header_peer_map with
           | best :: _ => mret best
           | [] => throw UndefinedBehaviour
           end).

(** One round of the loop of download_blocks, after the answer and as a whole. *)
Definition collect_block (blocks : list Block) (event : Event) : result (list Block) :=
  response ← get_peer event;
  if decide (pm_type response = PeerMessageType.BlockResponse) then
    block ← Block_from_json (pm_content response);
    Ok (blocks ++ [block])
  else Ok blocks.

Definition download_block (peer_id : string) (blocks : list Block) (header : BlockHeader)
    : Coroutine Node (list Block) :=
  promise ← co_lift (request PeerMessageType.BlockRequest peer_id header);
  event ← await promise;
  co_lift (lift_result (collect_block blocks event)).

Definition download_blocks (peer_id : string) (block_headers : list BlockHeader)
    : Coroutine Node (list Block) :=
  co_fold (download_block peer_id) block_headers [].

(** initial_block_download between the connection to the signaling server and the storing. *)
Definition find_blocks : Coroutine Node (list Block) :=
  newest ← co_lift (zoom (lens_comp storesL chainL) (reads (last Block_default)));
  peers ← co_zoom peerL (wait_for_peers 1 [PeerType.Full] [PeerState.Open]);
  best ← request_headers peers (bl_header newest);
  match best.1 with
  | [] => mret []
  | headers => download_blocks best.2 headers
  end.

Definition download : Coroutine Node (list Block) :=
  _ ← co_zoom peerL initialize;
  find_blocks.

(** initial_block_download after the download: the blocks are stored as they came. *)
Definition store_blocks (blocks : list Block) : M Node unit :=
  for_each blocks (λ block, _ ← zoom (lens_comp storesL chainL) (put block); mret tt).

Definition initial_block_download_end (blocks : list Block) : M Node unit :=
  _ ← store_blocks blocks;
  _ ← zoom (lens_comp storesL poolL) enqueue_stored;
  on_peer (broadcast_to_peers_of_type_and_forget [PeerType.Full]
             PeerMessageType.SyncPoolRequest jnull ∅).

Definition initial_block_download : Coroutine Node unit :=
  blocks ← download;
  co_lift (initial_block_download_end blocks).

(** ** The node offers what its managers need *)

Definition node_notify {T} (event : InternalNotification T → Event)
    (type : InternalNotificationType.t) (content : T) : M Node unit :=
  notification ← on_peer (zoom hostL (InternalNotification_create type content));
  on_peer (enqueue_event (event notification)).

Lemma wpx_node_notify {T} (event : InternalNotification T → Event) type (content : T) n :
  wp (node_notify event type content)
     (λ _ n', nd_stores n' = nd_stores n ∧
        ∃ tag, node_view n' = push_event (event (MkInternalNotification type content tag))
                                (node_view n)) n.
Proof.
  unfold node_notify, on_peer. repeat wp_step. unfold InternalNotification_create.
  repeat wp_step. apply wpx_create_tag. intros tag h _. repeat wp_step.
  apply wpx_enqueue_event. intros q Hq _. cbn. split; [done|].
  eexists. unfold node_view, push_event, pending. cbn. by rewrite Hq, fmap_app.
Qed.

Lemma wpx_node_send type sender receiver tag content n :
  wp (on_peer (send_and_forget type sender receiver tag content))
     (λ _ n', nd_stores n' = nd_stores n ∧
        ∃ e, send_event type sender receiver tag content e ∧
             node_view n' = push_event e (node_view n)) n.
Proof.
  unfold on_peer, send_and_forget, PeerMessage_create, InternalMessage_create.
  repeat wp_step. apply wpx_timestamp. intros t h Ht. repeat wp_step.
  apply wpx_timestamp. intros t' h' _. repeat wp_step.
  apply wpx_enqueue_event. intros q Hq _. cbn. split; [done|].
  eexists. split; [by eexists t, _|].
  unfold node_view, push_event, pending. cbn. by rewrite Hq, fmap_app.
Qed.

Lemma wpx_node_broadcast types type content n :
  wp (on_peer (broadcast_to_peers_of_type_and_forget types type content ∅))
     (λ _ n', nd_stores n' = nd_stores n ∧
        node_view n' = push_tasks (broadcast_tasks types type content (node_view n))
                                  (node_view n)) n.
Proof.
  unfold on_peer. wp_step. unfold wpx. rewrite broadcast_posts. cbn. split; [done|].
  unfold node_view, push_tasks, broadcast_tasks, posted_broadcast. cbn. f_equal.
  rewrite omap_app. f_equal. induction (hash_order _) as [|pc l IH]; [done|]. cbn.
  by rewrite IH.
Qed.

(** Waiting for an event registers a callback. *)
Lemma wpx_node_event_of_type type n :
  wp (on_peer (zoom queueL (event_of_type type 1 None)))
     (λ _ n', nd_stores n' = nd_stores n ∧ node_view n' = node_view n) n.
Proof.
  unfold wp, wpx, on_peer, event_of_type, mbind, M_bind, zoom, make_promise, gets, writes, modify.
  cbn. pose proof (epp_append_pending type (Await (L:=PeerCallback NodeCallback)
    (eq_next_waiter (pr_queue (nd_peer n)))) (eq_queue (pr_queue (nd_peer n)))) as Hq.
  destruct (epp_append type _ _) as [h q]. cbn. split; [done|].
  unfold node_view, pending. cbn in *. by rewrite Hq.
Qed.

Lemma wpx_node_any_event types n :
  wp (on_peer (zoom queueL (any_event_of_type types)))
     (λ _ n', nd_stores n' = nd_stores n ∧ node_view n' = node_view n) n.
Proof.
  revert n. induction types as [|type types IH]; intros n; [by destruct n as [[] ?]|].
  unfold on_peer in *. cbn [any_event_of_type]. do 3 wp_step.
  pose proof (wpx_node_event_of_type type n) as Hone. unfold on_peer, wp in Hone.
  rewrite !wpx_zoom in Hone. eapply wpx_mono; [exact Hone| |done].
  intros promise q [Hst Hv]. wp_step.
  pose proof (IH (lset peerL (lset queueL q (lget peerL n)) n)) as Hrest.
  unfold wp in Hrest. rewrite !wpx_zoom in Hrest. eapply wpx_mono; [exact Hrest| |done].
  intros promises q' [Hst' Hv']. wp_step. split; [by etrans|by etrans].
Qed.

#[global] Instance node_services : Services Node.
Proof.
  refine {|
    svc_stores := storesL;
    svc_view := node_view;
    svc_create_tag := on_peer (zoom hostL create_tag);
    svc_send type sender receiver tag content :=
      on_peer (send_and_forget type sender receiver tag content);
    svc_broadcast types type content :=
      on_peer (broadcast_to_peers_of_type_and_forget types type content ∅);
    svc_notify type := node_notify EvEmpty type tt;
    svc_notify_block := node_notify EvBlock;
    svc_event_of_type type := on_peer (zoom queueL (event_of_type type 1 None));
    svc_any_event_of_type types := on_peer (zoom queueL (any_event_of_type types)) |}.
  - done.
  - intros n. unfold on_peer. repeat wp_step. apply wpx_create_tag. intros tag h Htag.
    split_and!; [done..|]. by apply text_ascii.
  - intros. apply wpx_node_send.
  - intros. apply wpx_node_broadcast.
  - intros type n. eapply wp_mono; [apply wpx_node_notify|]. intros [] n' (? & tag & ?).
    split; [done|]. eexists. split; [by eexists|done].
  - intros type block n. apply wpx_node_notify.
  - intros type n. apply wpx_node_event_of_type.
  - intros types n. apply wpx_node_any_event.
Defined.

(** ** The node's event loop *)

Definition run_node_callback (a : NodeCallback) (e : Event) : M Node unit :=
  match a with
  | ChainCallback l => run_blockchain_listener l e
  | PoolCallback l => run_pool_listener l e
  | OnSignalingServerClosed => on_signaling_server_closed e
  | OnControlOperateBetween => on_control_operate_between e
  | OnTransactionsInRequest => on_transactions_in_request e
  | OnTransactionsOutRequest => on_transactions_out_request e
  end.

(** [ws] is the socket of the signaling client. *)
Definition run_callback (ws : nat) (l : PeerCallback NodeCallback) (e : Event) : M Node unit :=
  match l with
  | Program a => run_node_callback a e
  | _ => on_peer (run_peer_callback (send_signaling_message ws) (λ _ _, mret tt) l e)
  end.

Definition node_queueL : Lens Node (EventQueue (L:=PeerCallback NodeCallback)) :=
  lens_comp peerL queueL.

Definition node_process_one (ws : nat) : M Node bool :=
  process_one node_queueL (run_callback ws).

Definition node_run (ws : nat) (rounds : nat) : M Node unit :=
  EventLoop_run node_queueL (lens_comp peerL endL) (run_callback ws) rounds.

(** What main registers, in order, after the components. *)
Definition main_listeners : list (EventType * PeerCallback NodeCallback) :=
  map (λ tl, (tl.1, Program (ChainCallback tl.2))) BlockchainManager_listeners ++
  map (λ tl, (tl.1, Program (PoolCallback tl.2))) TransactionPoolManager_listeners ++
  [(NotificationEvent InternalNotificationType.SignalingServerClosed,
    Program OnSignalingServerClosed);
   (PeerEvent PeerMessageType.ControlOperateBetween, Program OnControlOperateBetween);
   (PeerEvent PeerMessageType.TransactionsInRequest, Program OnTransactionsInRequest);
   (PeerEvent PeerMessageType.TransactionsOutRequest, Program OnTransactionsOutRequest)].

(** The components main creates register their callbacks, then main its own. *)
Definition main_register (id : string) (retry_handler : M Peer nat) : M Node unit :=
  _ ← on_peer retry_handler;
  _ ← on_peer (PeerManager_new id PeerType.Full PeerState.Closed);
  for_each main_listeners (λ tl, _ ← on_peer (listen tl.1 tl.2); mret tt).

(** main up to the initial block download: the three databases are open, [None] is an
    [exit(1)]. The miner's task starts beside it. *)
Definition main_setup (id : string) (pool spent chain retrydb : option db)
    : option (M Node unit) :=
  pool ← TransactionPool_new true true pool;
  spent ← SpentTransactionsStore_new true true spent;
  chain ← Blockchain_new true true chain;
  retries ← RetryHandler_new true true retrydb;
  match chain with
  | (Err _, _) => None
  | (Ok _, chain) =>
      Some
        (_ ← zoom storesL (modify (λ _, MkStores _ _ chain spent pool));
         main_register id retries)
  end.

(** The rest of main; what it leaves running on the executor is the download. *)
Definition main (id : string) (pool spent chain retrydb : option db)
    : option (M Node (Coroutine Node unit)) :=
  setup ← main_setup id pool spent chain retrydb;
  Some
    (_ ← setup;
     _ ← on_peer (set_state PeerState.Open);
     mret initial_block_download).
End Node.

(** ** Lemmas and properties *)

Section HeaderMap.
Context `{JsonLib}.
Implicit Types (hs : list BlockHeader) (m : list (list BlockHeader * string)).

(** The better of two answers: the longer one, the earlier one when they are equally long. *)
Definition better (best : list BlockHeader * string) (next : list BlockHeader * string) :=
  if (length best.1 <? length next.1)%nat then next else best.

Lemma header_map_head hs p m :
  head (header_map_emplace hs p m) =
    Some (match m with [] => (hs, p) | b :: _ => better b (hs, p) end).
Proof.
  destruct m as [|[h q] m]; cbn [header_map_emplace]; [done|]. unfold better. cbn [fst snd].
  destruct (length h <? length hs)%nat; [done|]. by destruct (length hs <? length h)%nat.
Qed.

Lemma header_map_fold l m b :
  head m = Some b →
  head (fold_left (λ m hp, header_map_emplace hp.1 hp.2 m) l m) = Some (fold_left better l b).
Proof.
  revert m b. induction l as [|[hs p] l IH]; intros m b Hm; cbn; [done|].
  apply IH. rewrite header_map_head. destruct m as [|b' m]; [done|]. cbn in Hm.
  by injection Hm as ->.
Qed.

(** The first of the longest. *)
Lemma better_fold l b :
  ∃ pre post, b :: l = pre ++ fold_left better l b :: post ∧
    Forall (λ x, (length x.1 < length (fold_left better l b).1)%nat) pre ∧
    Forall (λ x, (length x.1 ≤ length (fold_left better l b).1)%nat) post.
Proof.
  revert b. induction l as [|c l IH]; intros b; cbn; [by exists [], []|].
  destruct (decide (length b.1 < length c.1)%nat) as [Hlt|Hge].
  - assert (better b c = c) as -> by (unfold better; by apply Nat.ltb_lt in Hlt as ->).
    destruct (IH c) as (pre & post & Heq & Hpre & Hpost). exists (b :: pre), post.
    split_and!; [by rewrite Heq| |done]. constructor; [|done].
    destruct pre as [|x pre]; cbn in Heq; injection Heq as Hc _; [by rewrite <-Hc|].
    rewrite Hc in Hlt. apply Forall_cons in Hpre as [? _]. lia.
  - assert (better b c = b) as -> by (unfold better; by apply Nat.ltb_nlt in Hge as ->).
    destruct (IH b) as (pre & post & Heq & Hpre & Hpost).
    destruct pre as [|x pre]; cbn in Heq; injection Heq as Hb Hl.
    + exists [], (c :: post). split_and!; [cbn; congruence|done|].
      constructor; [rewrite <-Hb; lia|done].
    + exists (b :: c :: pre), post. split_and!; [cbn; congruence| |done].
      apply Forall_cons in Hpre as [Hx Hpre]. subst x. repeat constructor; [done|lia|done].
Qed.
End HeaderMap.

Section RequestLemmas.
Context `{JsonLib} `{CryptoLib} `{LevelDB} `{FifoLib} `{EventppLib} `{RtcLib} `{HostLib}.
Context `{HashOrder}.

(** A request only puts a message into the queue and a promise into the store. *)
Lemma request_returns type id h (n : Node) : ∃ p n', request type id h n = (Ok p, n').
Proof.
  unfold request, on_peer, mbind, M_bind, zoom. cbn. rewrite send_spec. by do 2 eexists.
Qed.

(** A coroutine that sends a request and computes with the answer. *)
Lemma runs_request {B} type id h (f : Event → Coroutine Node B) (n : Node) es o :
  runs (promise ← co_lift (request type id h); e ← await promise; f e) n es o →
  ∃ e es' n', es = e :: es' ∧ runs (f e) n' es' o.
Proof.
  destruct (request_returns type id h n) as (p & n' & Hreq).
  unfold runs at 1. rewrite (bind_finished _ _ _ _ _ (lift_finished _ _ _ _ Hreq)).
  intros [(es1 & es2 & e & n2 & -> & Hr1 & Hr2)|(err & Hr1 & _)]%(runs_bind (await p) f n');
    apply runs_await in Hr1 as (e' & -> & [=]). subst e'. by exists e, es2, n2.
Qed.

Lemma runs_request_headers_of h m id (n : Node) es o :
  runs (request_headers_of h m id) n es o →
  ∃ e, es = [e] ∧ o = (entry ← headers_of_response e; Ok (header_map_emplace entry.1 entry.2 m)).
Proof.
  intros (e & es' & n' & -> & Hrun)%runs_request.
  apply runs_bind in Hrun as [(es1 & es2 & a & n2 & -> & Hr1 & Hr2)|(x & Hr1 & ->)];
    apply runs_lift in Hr1 as [-> Ho]; cbn in Ho.
  - destruct Hr2 as [-> ->]. exists e. by rewrite <-Ho.
  - exists e. by rewrite <-Ho.
Qed.

(** The answers to request_headers make a run when each of them is a list of headers. *)
Lemma request_headers_of_runs h m id (n : Node) e entry :
  headers_of_response e = Ok entry →
  runs (request_headers_of h m id) n [e] (Ok (header_map_emplace entry.1 entry.2 m)).
Proof.
  intros He. destruct (request_returns PeerMessageType.BlockHeadersRequest id h n) as (p & n' & Hreq).
  unfold request_headers_of. apply (runs_bind_intro _ _ _ [] p [e]).
  { apply runs_lift_intro. by rewrite Hreq. }
  intros n1. apply (runs_bind_intro (await p) _ n1 [e] e []); [apply runs_await_intro|]. intros n2.
  apply (runs_bind_intro _ _ _ [] entry []); [by apply runs_lift_intro|]. by intros n3.
Qed.

Lemma request_headers_runs identities h (n : Node) es entries :
  traverse headers_of_response es = Ok entries → length es = length identities → entries ≠ [] →
  ∃ best, runs (request_headers identities h) n es (Ok best).
Proof.
  intros He Hlen Hne. apply traverse_ok in He.
  assert (∀ m n, runs (co_fold (request_headers_of h) identities m) n es
    (Ok (fold_left (λ m hp, header_map_emplace hp.1 hp.2 m) entries m))) as Hfold.
  { clear n Hne. revert identities Hlen.
    induction He as [|e entry es entries He _ IH]; intros [|id identities] Hlen m n; try done.
    apply (runs_bind_intro _ _ _ [e] _ es _ (request_headers_of_runs h m id n e entry He)).
    intros n'. apply IH. by injection Hlen. }
  assert (∃ best m', fold_left (λ m hp, header_map_emplace hp.1 hp.2 m) entries [] = best :: m')
    as (best & m' & Hm).
  { destruct entries as [|[hs p] entries]; [done|].
    pose proof (header_map_fold entries [(hs, p)] (hs, p) eq_refl) as Hhead. cbn.
    destruct (fold_left _ entries _) as [|b m']; [done|]. by exists b, m'. }
  exists best. unfold request_headers. rewrite <-(app_nil_r es).
  apply (runs_bind_intro _ _ _ es (best :: m') []); [rewrite <-Hm; apply Hfold|].
  intros n'. by apply runs_lift_intro.
Qed.

Lemma runs_download_block peer_id blocks h (n : Node) es o :
  runs (download_block peer_id blocks h) n es o →
  ∃ e, es = [e] ∧ o = collect_block blocks e.
Proof.
  intros (e & es' & n' & -> & Hrun)%runs_request. apply runs_lift in Hrun as [-> ->].
  by exists e.
Qed.
End RequestLemmas.

Section Properties.
Context `{JsonLib} `{CryptoLib} `{LevelDB} `{FifoLib} `{EventppLib} `{RtcLib} `{HostLib}.
Context `{HashOrder}.

(** C22: whatever happens while it waits, request_headers asks the peers one after the other and
    returns the longest list of headers among the answers, the first one of several that are
    equally long, with the name of its sender. An answer that is no list of headers ends it;
    asked of no peer, it reads past the end of an empty map. *)
Theorem request_headers_longest identities h (n : Node) es o :
  runs (request_headers identities h) n es o →
  match traverse headers_of_response es with
  | Err x => o = Err x
  | Ok entries =>
      length es = length identities ∧
      match entries with
      | [] => o = Err UndefinedBehaviour
      | _ => ∃ pre best post, o = Ok best ∧ entries = pre ++ best :: post ∧
               Forall (λ x, (length x.1 < length best.1)%nat) pre ∧
               Forall (λ x, (length x.1 ≤ length best.1)%nat) post
      end
  end.
Proof.
  intros [(es1 & es2 & m & n' & -> & Hr1 & Hr2)|(x & Hr1 & ->)]%runs_bind;
    destruct (runs_fold _ _ _ _ _ _ _ (runs_request_headers_of h) Hr1) as [Ho Hlen];
    rewrite (fold_traverse headers_of_response) in Ho.
  2:{ by destruct (traverse headers_of_response es); cbn in Ho; congruence. }
  apply runs_lift in Hr2 as [-> ->]. rewrite app_nil_r.
  destruct (traverse headers_of_response es1) as [entries|x] eqn:He; [|done].
  split; [apply Hlen; by eexists|]. cbn in Ho. injection Ho as ->.
  destruct entries as [|b l]; [done|].
  destruct (better_fold l b) as (pre & post & Heq & Hpre & Hpost).
  exists pre, (fold_left better l b), post. split_and!; [|done..].
  assert (head (fold_left (λ m hp, header_map_emplace hp.1 hp.2 m) (b :: l) []) =
    Some (fold_left better l b)) as Hhead.
  { destruct b as [hs p]. exact (header_map_fold l [(hs, p)] (hs, p) eq_refl). }
  destruct (fold_left _ (b :: l) []) as [|y m]; [done|]. cbn in Hhead. by injection Hhead as ->.
Qed.
End Properties.

(** ** Who is called for an event *)

Section Registration.
Context `{JsonLib} `{CryptoLib} `{LevelDB} `{FifoLib} `{EventppLib} `{RtcLib} `{HostLib}.
Context `{HashOrder}.

Abbreviation Peer := (Peer (A:=NodeCallback)).
Implicit Types (p : Peer) (l : list (EventType * PeerCallback NodeCallback)).

(** The callbacks registered for a type, in the order they are called. *)
Definition listeners_of p (type : EventType) : list (Listener (L:=PeerCallback NodeCallback)) :=
  (epp_listeners (eq_queue (pr_queue p)) type).*2.

Definition registered l (type : EventType) : list (Listener (L:=PeerCallback NodeCallback)) :=
  map (λ tl, App tl.2) (List.filter (λ tl, bool_decide (tl.1 = type)) l).

(** [p'] has the callbacks [l] more than [p]. *)
Definition registers l p p' : Prop :=
  ∀ type, listeners_of p' type = listeners_of p type ++ registered l type.

Lemma listeners_new host network d type : listeners_of (Peer_new host network d) type = [].
Proof. unfold listeners_of. cbn. by rewrite epp_empty_listeners. Qed.

Lemma registers_nil p p' : pr_queue p' = pr_queue p → registers [] p p'.
Proof. intros Hq type. unfold listeners_of. by rewrite Hq, app_nil_r. Qed.

Lemma registers_trans l l' p1 p2 p3 :
  registers l p1 p2 → registers l' p2 p3 → registers (l ++ l') p1 p3.
Proof.
  intros Hr1 Hr2 type. rewrite Hr2, Hr1, <-app_assoc. f_equal.
  unfold registered. by rewrite List.filter_app, map_app.
Qed.

Lemma listen_registers type callback p :
  wp (listen type callback) (λ _ p', registers [(type, callback)] p p') p.
Proof.
  unfold listen, append_listener. do 2 wp_step. apply wpx_writes.
  intros type'. unfold listeners_of, registered. cbn. rewrite epp_append_listeners, fmap_app.
  case_decide as Heq; [rewrite bool_decide_true|rewrite bool_decide_false]; done.
Qed.

(** A loop that registers one callback after the other. *)
Lemma for_each_registers {S} (peer : S → Peer) (body : EventType * PeerCallback NodeCallback → M S unit)
    l s :
  (∀ tl s, wp (body tl) (λ _ s', registers [tl] (peer s) (peer s')) s) →
  wp (for_each l body) (λ _ s', registers l (peer s) (peer s')) s.
Proof.
  intros Hbody. revert s. induction l as [|tl l IH]; intros s; cbn [for_each].
  - wp_step. by apply registers_nil.
  - wp_step. eapply wp_mono; [apply Hbody|]. intros [] s1 Hr1.
    eapply wp_mono; [apply IH|]. intros [] s2 Hr2.
    exact (registers_trans [tl] l _ _ _ Hr1 Hr2).
Qed.

(** Everything the components of main and main itself register, in order. *)
Definition node_listeners : list (EventType * PeerCallback NodeCallback) :=
  (NotificationEvent InternalNotificationType.DataChannelOpened, RetryOnDatachannelOpen)
    :: PeerManager_listeners ++ main_listeners.

Lemma main_register_registers id retries n :
  (∀ p, wp retries (λ _ p', registers
     [(NotificationEvent InternalNotificationType.DataChannelOpened, RetryOnDatachannelOpen)]
     p p') p) →
  wp (main_register id retries)
     (λ _ n', registers node_listeners (nd_peer n) (nd_peer n')) n.
Proof.
  intros Hretry. unfold main_register, on_peer. do 2 wp_step.
  eapply wp_mono; [apply Hretry|]. intros h p1 Hr1. do 2 wp_step. unfold PeerManager_new.
  do 3 wp_step. cbn [lget lset peerL nd_peer].
  eapply wp_mono; [apply (for_each_registers (λ p, p))|].
  { intros [type callback] p. wp_step. eapply wp_mono; [apply listen_registers|].
    intros h' p' Hr. by wp_step. }
  intros [] p2 Hr2. eapply wp_mono; [apply (for_each_registers nd_peer)|].
  { intros [type callback] n2. do 2 wp_step. eapply wp_mono; [apply listen_registers|].
    intros h' p' Hr. by wp_step. }
  intros [] n3 Hr3. cbn in Hr2, Hr3. unfold node_listeners.
  apply (registers_trans [_] _ _ _ _ Hr1). by apply (registers_trans _ _ _ _ _ Hr2).
Qed.

(** C23: main wires the node: an event of a type is handed to the callbacks the components of main
    registered for it and to no others, in the order the components were made. A type a peer
    may ask with has exactly one callback, so every request is answered once, and nothing but
    the promise of the question takes an answer. *)
Theorem main_registers_once id pool spent chain chain' d host network st :
  Blockchain_new true true (Some chain) = Some (Ok tt, chain') →
  ∃ m n, main_setup id (Some pool) (Some spent) (Some chain) (Some d) = Some m ∧
    m (MkNode (Peer_new host network d) st) = (Ok tt, n) ∧
    (∀ type, listeners_of (nd_peer n) type = registered node_listeners type) ∧
    (∀ request, request ∈ [PeerMessageType.PeerTypeRequest; PeerMessageType.PeerStateRequest;
         PeerMessageType.BlockHeadersRequest; PeerMessageType.BlockRequest;
         PeerMessageType.SyncPoolRequest; PeerMessageType.AddBlock;
         PeerMessageType.AddTransaction; PeerMessageType.TransactionsInRequest;
         PeerMessageType.TransactionsOutRequest; PeerMessageType.ControlOperateBetween] →
       length (listeners_of (nd_peer n) (PeerEvent request)) = 1%nat) ∧
    (∀ answer, answer ∈ [PeerMessageType.PeerTypeResponse; PeerMessageType.PeerStateResponse;
         PeerMessageType.BlockHeadersResponse; PeerMessageType.BlockResponse;
         PeerMessageType.BlockNotFoundResponse; PeerMessageType.BlockAccepted;
         PeerMessageType.BlockRejected] →
       listeners_of (nd_peer n) (PeerEvent answer) = []).
Proof.
  intros Hnew. set (n0 := MkNode _ st).
  set (retries := (_ ← zoom retryL (modify (λ _, d));
    listen (NotificationEvent InternalNotificationType.DataChannelOpened)
      RetryOnDatachannelOpen) : M Peer nat).
  set (m := (_ ← zoom storesL (modify (λ _, MkStores _ _ chain' spent
      (MkTransactionPool pool fifo_empty))); main_register id retries) : M Node unit).
  exists m. assert (wp m (λ _ n, ∀ type, listeners_of (nd_peer n) type =
    registered node_listeners type) n0) as Hm.
  { unfold m. do 3 wp_step. eapply wp_mono; [apply main_register_registers|].
    - intros p. unfold retries. do 3 wp_step. eapply wp_mono; [apply listen_registers|]. by intros h p' Hr.
    - intros [] n Hr type. rewrite Hr. exact (f_equal (.++ _) (listeners_new _ _ _ _)). }
  apply wp_run in Hm as ([] & n & Hrun & Hr). exists n. unfold main_setup. rewrite Hnew.
  split_and!; [done..| |].
  - intros request Hin. rewrite Hr. repeat (apply elem_of_cons in Hin as [->|Hin]; [done|]).
    by apply elem_of_nil in Hin.
  - intros answer Hin. rewrite Hr. repeat (apply elem_of_cons in Hin as [->|Hin]; [done|]).
    by apply elem_of_nil in Hin.
Qed.
End Registration.

Section Tally.
Context `{JsonLib} `{CryptoLib} `{LevelDB} `{FifoLib} `{EventppLib} `{RtcLib} `{HostLib}.
Context `{HashOrder}.

Definition received (begin_ end_ : Z) (k : string) (ts : list Transaction) : list Transaction :=
  List.filter (λ t, (begin_ <=? tx_timestamp t) && (tx_timestamp t <=? end_) &&
                    String.eqb (tx_to t) k) ts.

Lemma tally_block_lookup begin_ end_ results b k :
  default 0 (tally_block begin_ end_ results b !! k) =
    default 0 (results !! k) + Z.of_nat (length (received begin_ end_ k (bl_transactions b))).
Proof.
  unfold tally_block, received. generalize (bl_transactions b) as ts. intros ts. revert results.
  induction ts as [|t ts IH]; intros results; cbn; [lia|]. rewrite IH.
  destruct ((begin_ <=? tx_timestamp t) && (tx_timestamp t <=? end_)); cbn; [|done].
  destruct (String.eqb_spec (tx_to t) k) as [<-|Hne]; cbn [length].
  - rewrite lookup_insert_eq. cbn. lia.
  - by rewrite lookup_insert_ne by done.
Qed.

Lemma tally_lookup begin_ end_ blocks results k :
  default 0 (fold_left (tally_block begin_ end_) blocks results !! k) =
    default 0 (results !! k) +
    Z.of_nat (length (received begin_ end_ k (concat (map bl_transactions blocks)))).
Proof.
  revert results. induction blocks as [|b blocks IH]; intros results; cbn; [lia|].
  rewrite IH, tally_block_lookup. unfold received. rewrite List.filter_app, length_app. lia.
Qed.

(** The order of the blocks does not matter. *)
Lemma received_perm begin_ end_ k blocks blocks' :
  blocks ≡ₚ blocks' →
  length (received begin_ end_ k (concat (map bl_transactions blocks))) =
    length (received begin_ end_ k (concat (map bl_transactions blocks'))).
Proof.
  unfold received. induction 1; cbn; rewrite ?List.filter_app, ?length_app; [done|lia..].
Qed.

(** Only receivers are named. *)
Lemma tally_block_positive begin_ end_ results b :
  map_Forall (λ _ n, 0 < n) results → map_Forall (λ _ n, 0 < n) (tally_block begin_ end_ results b).
Proof.
  unfold tally_block. generalize (bl_transactions b) as ts. intros ts. revert results.
  induction ts as [|t ts IH]; intros results Hpos; cbn; [done|]. apply IH. case_match; [|done].
  apply map_Forall_insert_2; [|done].
  destruct (results !! tx_to t) as [n|] eqn:Hn; cbn; [specialize (Hpos _ _ Hn); cbn in Hpos|]; lia.
Qed.

Lemma tally_positive begin_ end_ blocks results :
  map_Forall (λ _ n, 0 < n) results →
  map_Forall (λ _ n, 0 < n) (fold_left (tally_block begin_ end_) blocks results).
Proof.
  revert results. induction blocks as [|b blocks IH]; intros results Hpos; cbn; [done|].
  by apply IH, tally_block_positive.
Qed.

(** C24: asked to operate between two timestamps, the node tells the light peers, for every
    receiver, how many transactions in the blocks of its chain, each block taken once, have a
    timestamp in the interval, both ends included; who received none is not named; its stores
    stay as they are. *)
Theorem control_operate_counts m begin_ end_ (n : Node) :
  db_wf (T:=Block) (st_chain (nd_stores n)) →
  (v ← index_mut (pm_content m) "begin"; get_uint64 v) = Ok begin_ →
  (v ← index_mut (pm_content m) "end"; get_uint64 v) = Ok end_ →
  ∃ n' results blocks, on_control_operate_between (EvPeer m) n = (Ok tt, n') ∧
    nd_stores n' = nd_stores n ∧
    node_view n' = push_tasks (broadcast_tasks [PeerType.Light] PeerMessageType.ControlResult
      (jobject (map (λ kv, (kv.1, jint kv.2)) (hash_order results))) (node_view n)) (node_view n) ∧
    NoDup (map Block_hash blocks) ∧
    (∀ b, b ∈ blocks ↔ db_abs (st_chain (nd_stores n)) !! Block_hash b = Some b) ∧
    ∀ k, results !! k =
      let count := length (received begin_ end_ k (concat (map bl_transactions blocks))) in
      if decide (count = 0%nat) then None else Some (Z.of_nat count).
Proof.
  intros Hwf Hb He.
  destruct (db_data_spec (T:=Block) _ Hwf) as (blocks & Hblocks & _ & Hin & _).
  set (results := fold_left (tally_block begin_ end_) blocks ∅).
  assert (wp (on_control_operate_between (EvPeer m)) (λ _ n', nd_stores n' = nd_stores n ∧
    node_view n' = push_tasks (broadcast_tasks [PeerType.Light] PeerMessageType.ControlResult
      (jobject (map (λ kv, (kv.1, jint kv.2)) (hash_order results))) (node_view n))
      (node_view n)) n) as Hrun.
  { unfold on_control_operate_between. wp_step. eapply wpx_lift_ok; [done|]. wp_step.
    eapply wpx_lift_ok; [exact Hb|]. wp_step. eapply wpx_lift_ok; [exact He|]. do 2 wp_step.
    eapply wpx_reads_ok; [exact Hblocks|].
    replace (lset (lens_comp storesL chainL) _ n) with n by (by destruct n as [p []]).
    apply wpx_node_broadcast. }
  apply wp_run in Hrun as ([] & n' & Hrun & Hst & Hview). exists n', results, blocks.
  split_and!; [done..|exact (proj2 (db_data_tags (T:=Block) _ _ Hwf Hblocks))|exact Hin|].
  intros k. pose proof (tally_lookup begin_ end_ blocks ∅ k) as Hk. fold results in Hk.
  rewrite lookup_empty in Hk. cbn [default] in Hk. cbn zeta.
  pose proof (tally_positive begin_ end_ blocks ∅ (map_Forall_empty _)) as Hpos.
  fold results in Hpos. destruct (results !! k) as [r|] eqn:Hr; cbn in Hk.
  - specialize (Hpos _ _ Hr). cbn in Hpos. rewrite decide_False by lia. by rewrite Hk.
  - by rewrite decide_True by lia.
Qed.
End Tally.
