(* ===== verification/NodeInvariant.v ===== *)
(** * The invariant of a running node

    [node_step] lists the ways a node's process moves: an event of the queue is processed, one
    of the callbacks of libdatachannel runs, a worker takes a posted task, a suspended coroutine
    gets its answer, the initial download stores what it has found, or the miner takes its next
    step. Every one of them keeps [node_inv], whatever libdatachannel, LevelDB and the peers do
    and however the step ends. *)

From stdpp Require Import base sets list gmap strings relations.
From Stdlib Require Import ZArith Lia.
From S2P Require Import Prelude Json Crypto LevelDB Fifo Rtc Enums Models Messages DBInterface.
From S2P Require Import Stores Blockchain Validator TransactionPool Event Coroutine Services.
From S2P Require Import BlockchainManager TransactionPoolManager Miner Peer RetryHandler.
From S2P Require Import PeerConnection PeerManager WaitForPeers SignalingClient Node.

Open Scope Z_scope.

(** ** The shared components keep the pending events well formed *)

Section PeerEvents.
Context `{JsonLib} `{CryptoLib} `{LevelDB} `{FifoLib} `{EventppLib} `{RtcLib} `{HostLib}.
Context `{HashOrder} {A : Type}.
Abbreviation Peer := (Peer (A:=A)).

(** Every event that waits in the queue is [event_ok], and the peer's name is printable. *)
Definition peer_ok (p : Peer) : Prop := queue_ok event_ok (pr_queue p) ∧ text (identity p).

Lemma peer_ok_queue {B} (m : M EventQueue B) :
  preserves (queue_ok event_ok) m → preserves peer_ok (zoom queueL m).
Proof.
  intros Hm. apply (preserves_zoom peer_ok (queue_ok event_ok)); [by intros p []| |done].
  by intros p q [] ?.
Qed.

Lemma peer_ok_enqueue e : event_ok e → preserves peer_ok (enqueue_event e).
Proof. intros He. by apply peer_ok_queue, queue_ok_enqueue. Qed.

Lemma peer_ok_listen type l : preserves peer_ok (listen type l).
Proof. apply peer_ok_queue, queue_ok_append. Qed.

Lemma peer_ok_host {B} (m : M Host B) : preserves peer_ok (zoom hostL m).
Proof. by apply preserves_zoom_other. Qed.

Lemma peer_ok_rtc {B} (m : M rtc B) : preserves peer_ok (zoom rtcL m).
Proof. by apply preserves_zoom_other. Qed.

Lemma peer_ok_retry {B} (m : M db B) : preserves peer_ok (zoom retryL m).
Proof. by apply preserves_zoom_other. Qed.

Lemma peer_ok_heap {B} (m : M (gmap nat PeerConnection) B) :
  preserves peer_ok (zoom heapL m).
Proof. by apply preserves_zoom_other. Qed.

Lemma peer_ok_connections {B} (m : M (gmap string (option nat)) B) :
  preserves peer_ok (zoom connectionsL m).
Proof. by apply preserves_zoom_other. Qed.

Lemma peer_ok_manager (f : PeerManager → PeerManager) :
  (∀ s, mg_identity (f s) = mg_identity s) → preserves peer_ok (zoom managerL (modify f)).
Proof.
  intros Hf p [Hq Ht]. do 2 wp_step. split; [done|]. unfold identity. cbn. by rewrite Hf.
Qed.

Lemma peer_ok_posted {B} (m : M (list PostedTask) B) : preserves peer_ok (zoom postedL m).
Proof. by apply preserves_zoom_other. Qed.

Lemma peer_ok_running {B} (m : M (list PostedTask) B) : preserves peer_ok (zoom runningL m).
Proof. by apply preserves_zoom_other. Qed.

Lemma peer_ok_waits {B} (m : M (gmap nat PeersWait) B) : preserves peer_ok (zoom waitsL m).
Proof. by apply preserves_zoom_other. Qed.

Lemma peer_ok_end {B} (m : M bool B) : preserves peer_ok (zoom endL m).
Proof. by apply preserves_zoom_other. Qed.
End PeerEvents.

#[export] Hint Resolve peer_ok_listen peer_ok_host peer_ok_rtc peer_ok_retry peer_ok_heap
  peer_ok_connections peer_ok_manager peer_ok_posted peer_ok_running peer_ok_waits
  peer_ok_end : krapi.

(** Decomposes a program under [preserves] or [co_keeps] into calls the hints know. *)
Ltac preserve_step :=
  lazymatch goal with
  | |- ∀ _, _ => intro
  | |- preserves _ (mbind _ (lift_result _)) => apply preserves_lift_bind
  | |- preserves _ (mbind _ _) => apply preserves_bind
  | |- preserves _ (for_each _ _) => apply preserves_for_each
  | |- preserves _ (finally _ _) => apply preserves_finally
  | |- preserves _ (enqueue_event _) => apply peer_ok_enqueue; exact I
  | |- co_keeps _ (mbind _ _) => apply co_keeps_bind
  | |- co_keeps _ (co_lift _) => apply co_keeps_lift
  | |- co_keeps _ (await _) => apply co_keeps_await
  | |- co_keeps _ (co_await _) => apply co_keeps_await
  | |- co_keeps _ (mret _) => apply co_keeps_ret
  | |- co_keeps _ (co_for_each _ _) => apply co_keeps_for_each
  | |- co_keeps _ (co_fold _ _ _) => apply co_keeps_fold
  | |- co_keeps _ (co_finally _ _) => apply co_keeps_finally
  | |- preserves _ _ => first [solve [auto with krapi] | case_match]
  | |- co_keeps _ _ => first [solve [auto with krapi] | case_match]
  end.
Ltac preserve := repeat preserve_step.

Section PeerCallbacks.
Context `{JsonLib} `{CryptoLib} `{LevelDB} `{FifoLib} `{EventppLib} `{RtcLib} `{HostLib}.
Context `{HashOrder} {A : Type}.
Abbreviation Peer := (Peer (A:=A)).
Abbreviation safe := (preserves (peer_ok (A:=A))).
Abbreviation safe_co := (co_keeps (peer_ok (A:=A))).

Lemma safe_send_and_forget t s r tag c : safe (send_and_forget t s r tag c).
Proof. unfold send_and_forget. preserve. Qed.

Lemma safe_send t s r tag c : safe (send t s r tag c).
Proof.
  unfold send. preserve. by apply peer_ok_queue, queue_ok_submit.
Qed.

Lemma safe_send_signaling t s r tag c : safe (send_signaling t s r tag c).
Proof. unfold send_signaling. preserve. Qed.

Lemma safe_connection c : safe (connection c).
Proof. unfold connection. preserve. Qed.

Lemma safe_update_connection c pc : safe (update_connection c pc).
Proof. unfold update_connection. preserve. Qed.

Lemma safe_post t : safe (post t).
Proof. unfold post. preserve. Qed.

Lemma safe_task_start t : safe (task_start t).
Proof. unfold task_start. preserve. Qed.

Lemma safe_task_done t : safe (task_done t).
Proof. unfold task_done. preserve. Qed.

Lemma safe_deref p : safe (deref p).
Proof. unfold deref. preserve. Qed.

#[local] Hint Resolve safe_send_and_forget safe_send safe_send_signaling safe_connection
  safe_update_connection safe_post safe_task_start safe_task_done safe_deref : krapi.

Lemma safe_retry m : safe (retry m).
Proof. unfold retry. preserve. Qed.

Lemma safe_retry_task id : safe (retry_task id).
Proof. unfold retry_task, for_data, retry_one. preserve. Qed.

Lemma safe_connection_send c m : safe (connection_send c m).
Proof. unfold connection_send. preserve. Qed.

Lemma safe_set_remote c s t : safe (set_remote_description c s t).
Proof. unfold set_remote_description. preserve. Qed.

Lemma safe_initialize_channel c d : safe (initialize_channel c d).
Proof. unfold initialize_channel. preserve. Qed.

Lemma safe_allocate id : safe (allocate_connection id).
Proof. unfold allocate_connection. preserve. Qed.

Lemma safe_append_listeners c : safe (append_connection_listeners c).
Proof. unfold append_connection_listeners. preserve. Qed.

#[local] Hint Resolve safe_retry safe_retry_task safe_connection_send safe_set_remote
  safe_initialize_channel safe_allocate safe_append_listeners : krapi.

Lemma safe_offer id : safe (PeerConnection_offer id).
Proof. unfold PeerConnection_offer. preserve. Qed.

Lemma safe_answer id s t : safe (PeerConnection_answer id s t).
Proof. unfold PeerConnection_answer. preserve. Qed.

Lemma queue_ok_unlisten hs (q : EventQueue (L:=PeerCallback A)) :
  queue_ok event_ok q →
  queue_ok event_ok (lset eq_queueL
    (fold_left (λ q th, epp_remove th.1 th.2 q) hs (eq_queue q)) q).
Proof.
  unfold queue_ok. cbn. generalize (eq_queue q). induction hs as [|[t h] hs IH]; intros e;
    cbn; [done|]. intros He. apply IH. by rewrite epp_remove_pending.
Qed.

Lemma safe_destroy c : safe (destroy_connection c).
Proof.
  unfold destroy_connection. preserve. apply peer_ok_queue. intros q Hq. do 2 wp_step.
  by apply queue_ok_unlisten.
Qed.

Lemma safe_release p : safe (release_connection p).
Proof. unfold release_connection. preserve. by apply safe_destroy. Qed.

#[local] Hint Resolve safe_offer safe_answer safe_release safe_destroy : krapi.

Lemma safe_awaitable tag : safe (zoom queueL (create_awaitable tag)).
Proof. apply peer_ok_queue, queue_ok_store. Qed.

Lemma safe_ask type pc : safe (ask_peer type pc).
Proof. unfold ask_peer. preserve. Qed.

Lemma safe_store_state c e : safe (store_state c e).
Proof. unfold store_state. preserve. Qed.

Lemma safe_store_type c e : safe (store_type c e).
Proof. unfold store_type. preserve. Qed.

#[local] Hint Resolve safe_ask safe_store_state safe_store_type : krapi.

Lemma safe_type c : safe_co (connection_type c).
Proof. unfold connection_type. preserve. Qed.

Lemma safe_state c : safe_co (connection_state c).
Proof. unfold connection_state. preserve. Qed.

#[local] Hint Resolve safe_awaitable safe_type safe_state : krapi.

Lemma safe_broadcast types type content except :
  safe (broadcast_to_peers_of_type_and_forget types type content except).
Proof. unfold broadcast_to_peers_of_type_and_forget. preserve. Qed.

Lemma safe_set_state state : safe (set_state state).
Proof.
  unfold set_state, broadcast_and_forget. apply preserves_bind; [by apply peer_ok_manager|].
  preserve.
Qed.

(** The callbacks of libdatachannel: a received text is parsed before it is enqueued. *)
Lemma safe_on_message m : safe (on_message m).
Proof.
  unfold on_message. apply preserves_bind; [auto with krapi|]. intros s.
  apply preserves_lift_bind. intros j Hj. apply preserves_lift_bind. intros pm Hpm.
  apply peer_ok_enqueue. eapply PeerMessage_from_json_wf, Hpm. by eapply parse_canonical.
Qed.

Lemma safe_on_ws_message m : safe (on_ws_message m).
Proof. unfold on_ws_message. preserve. Qed.

Lemma safe_on_ws_notification t : safe (on_ws_notification t).
Proof. unfold on_ws_notification. preserve. Qed.

Lemma safe_notify_string t s : safe (notify_string t s).
Proof. unfold notify_string. preserve. Qed.

#[local] Hint Resolve safe_notify_string safe_on_ws_notification : krapi.

Lemma safe_on_open c : safe (on_open c).
Proof. unfold on_open. preserve. Qed.

Lemma safe_on_closed c : safe (on_closed c).
Proof. unfold on_closed. preserve. Qed.

Lemma safe_on_local_candidate c s m : safe (on_local_candidate c s m).
Proof. unfold on_local_candidate. preserve. Qed.

Lemma safe_on_local_description c s t : safe (on_local_description c s t).
Proof. unfold on_local_description. preserve. Qed.

Lemma safe_broadcast_task_send t ty : safe (broadcast_task_send t ty).
Proof. unfold broadcast_task_send. preserve. Qed.

Lemma safe_set_wait w wait : safe (set_wait w wait).
Proof. unfold set_wait. preserve. Qed.

Lemma safe_the_wait w : safe (the_wait w).
Proof. unfold the_wait. preserve. Qed.

Lemma safe_remove_listener type h : safe (remove_listener type h).
Proof.
  unfold remove_listener. preserve. by apply peer_ok_queue, queue_ok_remove.
Qed.

#[local] Hint Resolve safe_broadcast_task_send safe_set_wait safe_the_wait
  safe_remove_listener : krapi.

Lemma safe_wait_progress w peer d : safe (wait_progress w peer d).
Proof. unfold wait_progress, resolve_wait. preserve. Qed.

Lemma safe_start_waiting count types states ids : safe (start_waiting count types states ids).
Proof. unfold start_waiting. preserve. Qed.

Lemma safe_details_getter peer : safe_co (details_getter peer).
Proof. unfold details_getter, type_of, state_of. preserve. Qed.

#[local] Hint Resolve safe_wait_progress safe_start_waiting safe_details_getter : krapi.

Lemma safe_wait_for_peers count types states : safe_co (wait_for_peers count types states).
Proof. unfold wait_for_peers, collect_wanted. preserve. Qed.

Lemma safe_run_task task : safe_co (run_task task).
Proof.
  unfold run_task, task_body, task_end, broadcast_task, on_datachannel_task. preserve.
Qed.

Lemma safe_initialize : safe_co initialize.
Proof.
  unfold initialize, initialize_client, initialize_opened. preserve;
    apply peer_ok_queue; [apply queue_ok_event_of_type|by apply queue_ok_submit].
Qed.

Lemma safe_run_peer_callback ws l e :
  safe (run_peer_callback (send_signaling_message ws) (λ _ _, mret tt) l e).
Proof.
  destruct l; cbn; unfold on_datachannel_open, on_rtc_setup, on_peer_type_request,
    on_peer_state_request, on_send_peer_message, on_datachannel_opened, on_datachannel_closed,
    on_peer_closed, connect_to_peer, on_peer_state_update, on_rtc_candidate,
    send_signaling_message; preserve.
Qed.
End PeerCallbacks.

(** ** What the managers keep

    Any property of the process that the services keep and that is not about the stores. *)

Section ManagersKeep.
Context `{JsonLib} `{CryptoLib} `{LevelDB} `{FifoLib} {P : Type} `{!Services P}.
Context (I : P → Prop) (I_stores : ∀ s st, I s → I (lset svc_stores st s)).
Context (I_tag : preserves I svc_create_tag).
Context (I_send : ∀ type sender receiver tag content,
  preserves I (svc_send type sender receiver tag content)).
Context (I_broadcast : ∀ types type content, preserves I (svc_broadcast types type content)).
Context (I_notify : ∀ type, preserves I (svc_notify type)).

Lemma stores_keep {C A} (k : Lens Stores C) (m : M C A) :
  preserves I (zoom (lens_comp svc_stores k) m).
Proof. apply preserves_zoom_other. intros s c. apply I_stores. Qed.

Lemma chain_keeps {A} (m : M db A) : preserves I (on_chain m).
Proof. apply stores_keep. Qed.

Lemma spent_keeps {A} (m : M db A) : preserves I (on_spent m).
Proof. apply stores_keep. Qed.

Lemma pool_keeps {A} (m : M TransactionPool A) : preserves I (on_pool m).
Proof. apply stores_keep. Qed.

#[local] Hint Resolve I_tag I_send I_broadcast I_notify chain_keeps spent_keeps pool_keeps
  : krapi.

Lemma blockchain_keeps l e : preserves I (run_blockchain_listener l e).
Proof.
  destruct l; cbn; unfold on_block_headers_request, on_block_request, on_add_block,
    on_block_mined, validate, spend_transactions, announce_transaction; preserve.
Qed.

Lemma pool_listener_keeps l e : preserves I (run_pool_listener l e).
Proof.
  destruct l; cbn; unfold on_add_transaction, on_sync_pool_request, for_data; preserve.
Qed.
End ManagersKeep.

(** The managers enqueue only well-formed events. *)
Section ManagerEvents.
Context `{JsonLib} `{CryptoLib} `{LevelDB} `{FifoLib} {P : Type} `{!Services P}.

Definition view_ok (s : P) : Prop :=
  Forall event_ok (v_enqueued (svc_view s)) ∧ text (svc_id s).

Lemma view_ok_push e s s' :
  svc_view s' = push_event e (svc_view s) → event_ok e → view_ok s → view_ok s'.
Proof.
  unfold view_ok, svc_id. intros -> He [Hv Ht]. cbn. split; [|done]. apply Forall_app.
  split; [done|by constructor].
Qed.

Lemma view_ok_eq s s' : svc_view s' = svc_view s → view_ok s → view_ok s'.
Proof. unfold view_ok, svc_id. by intros ->. Qed.

Lemma view_ok_stores s st : view_ok s → view_ok (lset svc_stores st s).
Proof. apply view_ok_eq, svc_view_stores. Qed.

Lemma view_ok_tag : preserves view_ok svc_create_tag.
Proof.
  intros s Hs. apply wpx_svc_tag. intros s' tag _ Hview _. by eapply view_ok_eq.
Qed.

Lemma view_ok_send type sender receiver tag content :
  preserves view_ok (svc_send type sender receiver tag content).
Proof.
  intros s Hs. apply wpx_svc_send. intros s' e _ (t & t' & _ & ->) Hview.
  by eapply view_ok_push.
Qed.

Lemma view_ok_broadcast types type content :
  preserves view_ok (svc_broadcast types type content).
Proof.
  intros s Hs. apply wpx_svc_broadcast. intros s' _ Hview. unfold view_ok, svc_id in *.
  by rewrite Hview.
Qed.

Lemma view_ok_notify type : preserves view_ok (svc_notify type).
Proof.
  intros s Hs. apply wpx_svc_notify. intros s' e _ (tag & ->) Hview. by eapply view_ok_push.
Qed.

#[local] Hint Resolve view_ok_stores view_ok_tag view_ok_send view_ok_broadcast view_ok_notify
  : krapi.

Lemma zoom_comp_view {C A} (k : Lens Stores C) (m : M C A) :
  preserves view_ok (zoom (lens_comp svc_stores k) m).
Proof. apply stores_keep. auto with krapi. Qed.

Lemma view_ok_blockchain l e : preserves view_ok (run_blockchain_listener l e).
Proof. apply blockchain_keeps; auto with krapi. Qed.

Lemma view_ok_pool_listener l e : preserves view_ok (run_pool_listener l e).
Proof. apply pool_listener_keeps; auto with krapi. Qed.

(** The miner's notification carries the block it mined. *)
Lemma view_ok_notify_block type b :
  wf_block b → preserves view_ok (svc_notify_block type b).
Proof.
  intros Hb s Hs. apply wp_wpx. eapply wp_mono; [apply svc_notify_block_spec|].
  intros [] s' (_ & tag & Hview). by eapply view_ok_push.
Qed.
End ManagerEvents.

(** ** The node *)

Section NodeInvariant.
Context `{JsonLib} `{CryptoLib} `{LevelDB} `{FifoLib} `{EventppLib} `{RtcLib} `{HostLib}.
Context `{HashOrder}.
Implicit Types (n : Node) (g : Block).

(** The stores hold a chain that starts with [g] and agree with each other; every pending event
    is one the handlers can trust. *)
Definition node_inv g n : Prop := stores_inv g (nd_stores n) ∧ peer_ok (nd_peer n).

Lemma node_inv_peer g {B} (m : M Peer B) : preserves peer_ok m → preserves (node_inv g) (on_peer m).
Proof.
  intros Hm. apply (preserves_zoom (node_inv g) peer_ok); [by intros n []|by intros n p []|done].
Qed.

Lemma node_inv_intro g {B} (m : M Node B) :
  preserves (λ n, stores_inv g (nd_stores n)) m → preserves (view_ok (P:=Node)) m →
  preserves (node_inv g) m.
Proof. apply preserves_and. Qed.

(** A read of the stores. *)
Lemma stores_inv_reads g {C B} (k : Lens Stores C) (f : C → result B) :
  LensLaws k →
  preserves (λ n, stores_inv g (nd_stores n)) (zoom (lens_comp storesL k) (reads f)).
Proof.
  intros Hk n Hn. wp_step. unfold wpx, reads. destruct (f _); cbn; by rewrite lset_lget.
Qed.

(** Ending the pool puts an item into its queue that is no transaction. *)
Lemma stores_inv_end g r :
  preserves (λ n, stores_inv g (nd_stores n)) (zoom (lens_comp storesL poolL) (pool_end r)).
Proof.
  intros n [[Hc Hs Hp Hd Hq] Hchain]. unfold pool_end. do 3 wp_step. cbn. split; [|done].
  split; try done. cbn. intros t. rewrite fifo_enqueue_view, elem_of_app.
  intros [?|Ht]; [by apply Hq|]. by apply list_elem_of_singleton in Ht.
Qed.

Lemma node_inv_chain g {B} (f : db → result B) :
  preserves (node_inv g) (zoom (lens_comp storesL chainL) (reads f)).
Proof.
  apply node_inv_intro; [apply stores_inv_reads, _|exact (zoom_comp_view (P:=Node) chainL _)].
Qed.

Lemma node_inv_spent g {B} (f : db → result B) :
  preserves (node_inv g) (zoom (lens_comp storesL spentL) (reads f)).
Proof.
  apply node_inv_intro; [apply stores_inv_reads, _|exact (zoom_comp_view (P:=Node) spentL _)].
Qed.

Lemma node_inv_pool g {B} (f : db → result B) :
  preserves (node_inv g) (zoom (lens_comp storesL poolL) (zoom pool_dbL (reads f))).
Proof.
  apply node_inv_intro; [|exact (zoom_comp_view (P:=Node) poolL _)].
  intros n Hn. do 2 wp_step. unfold wpx, reads.
  destruct (f _); cbn; by destruct n as [p [c sp [d q]]].
Qed.

Lemma keeps_blockchain g l e : event_ok e → keeps (S:=Node) g (run_blockchain_listener l e).
Proof.
  intros He. destruct l; cbn; [apply keeps_on_block_headers_request|
    apply keeps_on_block_request|by apply keeps_on_add_block|by apply keeps_on_block_mined].
Qed.

Lemma keeps_pool g l e : event_ok e → keeps (S:=Node) g (run_pool_listener l e).
Proof.
  intros He. destruct l; cbn; [by apply keeps_on_add_transaction|
    apply keeps_on_sync_pool_request].
Qed.

#[local] Hint Resolve node_inv_chain node_inv_spent node_inv_pool safe_send_and_forget
  safe_broadcast : krapi.

Lemma node_inv_callback g ws l e : event_ok e → preserves (node_inv g) (run_callback ws l e).
Proof.
  intros He. destruct l as [a| | | | | | | | | | | | | ]; cbn [run_callback];
    try (apply node_inv_peer, safe_run_peer_callback).
  destruct a as [l|l| | | | ]; cbn [run_node_callback].
  - apply node_inv_intro; [by apply keeps_blockchain|apply view_ok_blockchain].
  - apply node_inv_intro; [by apply keeps_pool|apply view_ok_pool_listener].
  - unfold on_signaling_server_closed. apply preserves_bind.
    + apply node_inv_intro; [apply stores_inv_end|exact (zoom_comp_view (P:=Node) poolL _)].
    + intros _. apply node_inv_peer, peer_ok_end.
  - unfold on_control_operate_between. preserve. apply node_inv_peer. auto with krapi.
  - unfold on_transactions_in_request, answer_count. preserve. apply node_inv_peer.
    auto with krapi.
  - unfold on_transactions_out_request, answer_count. preserve. apply node_inv_peer.
    auto with krapi.
Qed.

Lemma node_inv_process_one g ws : preserves (node_inv g) (node_process_one ws).
Proof.
  unfold node_process_one. apply (preserves_process_one event_ok).
  - by intros n [_ []].
  - by intros n q [? []] ?.
  - intros l e He. by apply node_inv_callback.
Qed.

(** ** The miner's steps *)

(** A round is safe to go on with. *)
Definition miner_ok g (m : MinerState (P:=Node)) : Prop :=
  match m with
  | Collecting ts => Forall wf_transaction ts
  | Round c => co_safe (node_inv g) c
  | Stopped => True
  end.

Lemma node_inv_notify_block g type b :
  wf_block b → preserves (node_inv g) (svc_notify_block (S:=Node) type b).
Proof.
  intros Hb. apply node_inv_intro; [|by apply (view_ok_notify_block (P:=Node))].
  intros n Hn. apply wp_wpx. eapply wp_mono; [apply svc_notify_block_spec|].
  intros [] n' [Heq _]. change (nd_stores n' = nd_stores n) in Heq. by rewrite Heq.
Qed.

Lemma node_inv_event_of_type g type : preserves (node_inv g) (svc_event_of_type (S:=Node) type).
Proof. apply node_inv_peer, peer_ok_queue, queue_ok_event_of_type. Qed.

Lemma node_inv_any_event g types : preserves (node_inv g) (svc_any_event_of_type (S:=Node) types).
Proof. apply node_inv_peer, peer_ok_queue, queue_ok_any_event. Qed.

#[local] Hint Resolve node_inv_notify_block node_inv_event_of_type node_inv_any_event : krapi.

(** The hash a round starts from, and what its search finds. *)
Lemma round_newest g n :
  node_inv g n →
  wpx (on_chain (S:=Node) (reads (last Block_default)))
      (λ b n', node_inv g n' ∧ text (Block_hash b)) (λ _, node_inv g) n.
Proof.
  destruct n as [p [c sp pool]]. intros [[Hwf [bs Hc]] Hp]. cbn in Hwf, Hc. unfold on_chain. wp_step.
  unfold wpx, reads. cbn.
  rewrite (chain_last g bs) by first [apply Hwf|done].
  split; [split; [split; [done|by exists bs]|done]|]. destruct Hc as (_ & _ & Hm).
  destruct (chain_lookup c (Block_hash (tip g bs)) (tip g bs)) as [_ [Hh _]]; [apply Hwf| |apply Hh]. apply Hm. split; [done|apply tip_in].
Qed.

Lemma round_search g hash id ts n :
  text hash → text id → Forall wf_transaction ts → node_inv g n →
  wpx (zoom (lens_comp peerL hostL) (mining_function hash id ts))
      (λ search n', node_inv g n' ∧ ∀ fuel b, search fuel = Some b → wf_block b)
      (λ _, node_inv g) n.
Proof.
  intros Hh Hid Hts Hn. unfold mining_function. do 2 wp_step.
  apply wpx_lift; [|by intros]. intros root Hroot. wp_step. apply wpx_timestamp.
  intros t h Ht. wp_step. split; [exact Hn|]. intros fuel b Hb.
  apply mining_loop_some in Hb as (k & Hk & Hok & ->); [|done].
  apply mined_wf; [done|done|by eapply merkle_root_ascii|done..].
Qed.

Lemma node_inv_announce g b : wf_block b → co_keeps (node_inv g) (announce_mined (P:=Node) b).
Proof.
  intros Hb. unfold announce_mined. apply co_keeps_bind; [by apply co_keeps_lift; auto with krapi|].
  intros _. preserve.
Qed.

Lemma node_inv_round g ts :
  Forall wf_transaction ts → co_keeps (node_inv g) (Miner_round (lens_comp peerL hostL) ts).
Proof.
  intros Hts. unfold Miner_round.
  apply (co_keeps_lift_bind _ (λ b, text (Block_hash b))); [apply round_newest|].
  intros newest Hnewest. apply (co_keeps_lift_bind _ text).
  { intros n Hn. wp_step. split; [done|]. apply Hn. }
  intros id Hid. apply (co_keeps_lift_bind _ (λ f, ∀ fuel b, f fuel = Some b → wf_block b)).
  { intros n Hn. by apply round_search. }
  intros search Hsearch. apply co_keeps_await_bind. intros block [fuel Hb].
  specialize (Hsearch fuel block Hb).
  apply co_keeps_bind; [apply co_keeps_lift, node_inv_peer, safe_broadcast|]. intros _.
  apply co_keeps_bind; [apply co_keeps_await|]. intros _.
  apply co_keeps_bind; [by apply co_keeps_lift; auto with krapi|]. intros promises.
  apply co_keeps_bind; [apply co_keeps_await|]. intros [event|]; cbn [Miner_verdict];
    [|by apply node_inv_announce]. apply co_keeps_bind; [apply co_keeps_lift, preserves_lift|].
  intros message. case_decide; [by apply node_inv_announce|apply co_keeps_ret].
Qed.

Lemma miner_safe_wait g ts n :
  Forall wf_transaction ts → node_inv g n →
  wpx (Miner_wait (lens_comp peerL hostL) ts) (λ m n', node_inv g n' ∧ miner_ok g m)
      (λ _ n', node_inv g n') n.
Proof.
  intros Hts [[Hwf [bs Hc]] Hp]. unfold Miner_wait, on_pool. do 2 wp_step.
  apply wpx_wait; [apply Hwf|]. intros q Hq. cbn [lget lens_comp].
  destruct (wait_spec_sound (db_abs (pool_db (st_pool (nd_stores n)))) 5 ts
              (fifo_view (pool_queue (st_pool (nd_stores n))))) as [Hrest Hcoll].
  set (n' := lset _ _ n).
  assert (node_inv g n') as Hn'.
  { split; [|done]. split; [|by exists bs]. destruct Hwf as [? ? ? ? Hqueue]. split; try done.
    cbn. rewrite Hq. intros t Ht. by apply Hqueue, Hrest. }
  assert (∀ new, (wait_spec (db_abs (pool_db (st_pool (nd_stores n)))) 5 ts
      (fifo_view (pool_queue (st_pool (nd_stores n))))).1 = Waiting new ∨
    (wait_spec (db_abs (pool_db (st_pool (nd_stores n)))) 5 ts
      (fifo_view (pool_queue (st_pool (nd_stores n))))).1 = Collected new →
    Forall wf_transaction new) as Hnew.
  { intros new Hor. rewrite Forall_forall in *. intros t Ht.
    destruct (Hcoll new Hor t Ht) as [?|?]; [by apply Hts|by apply (sw_queue _ Hwf)]. }
  change (lget poolL (lget svc_stores n)) with (st_pool (nd_stores n)).
  destruct (wait_spec _ _ _ _).1 as [new| |new].
  - wp_step. split; [done|apply Hnew; by left].
  - by wp_step.
  - wp_step. eapply wpx_mono; [apply (node_inv_round g new); [apply Hnew; by right|done]| |done].
    intros c n2 [Hn2 Hc2]. by wp_step.
Qed.

(** ** Every way the process moves *)

Inductive Action :=
  | ProcessOne
  | ChannelMessage (m : RtcMessage)
  | ChannelOpen (c : nat)
  | ChannelClosed (c : nat)
  | ChannelReceived (c datachannel : nat)
  | LocalCandidate (c : nat) (candidate mid : string)
  | LocalDescription (c : nat) (sdp type : string)
  | SocketOpen
  | SocketClosed
  | SocketMessage (m : RtcMessage).

Definition run_action (ws : nat) (a : Action) : M Node unit :=
  match a with
  | ProcessOne => _ ← node_process_one ws; mret tt
  | ChannelMessage m => on_peer (on_message m)
  | ChannelOpen c => on_peer (on_open c)
  | ChannelClosed c => on_peer (on_closed c)
  | ChannelReceived c datachannel => on_peer (initialize_channel c datachannel)
  | LocalCandidate c candidate mid => on_peer (on_local_candidate c candidate mid)
  | LocalDescription c sdp type => on_peer (on_local_description c sdp type)
  | SocketOpen => on_peer on_ws_open
  | SocketClosed => on_peer on_ws_closed
  | SocketMessage m => on_peer (on_ws_message m)
  end.

(** The blocks of an initial download that continue the node's chain, in any order, on a disk
    that works. The code stores what it downloads as it comes, so this is what the peer it
    syncs from has to provide. *)
Definition honest_download (g : Block) (n : Node) (blocks : list Block) : Prop :=
  blocks = [] ∨
  ReliableWrites ∧ Forall wf_block blocks ∧
  ∃ bs new, chain_of g bs (chain_map (nd_stores n)) ∧ linked (tip g bs) new ∧
    blocks ≡ₚ new ∧ NoDup (map Block_hash (g :: bs ++ new)).

(** What a coroutine waits for has come; the two seconds of a [FirstOf] may end at any time. *)
Definition answered (n : Node) (w : Awaited) : answer w → Prop :=
  match w with
  | Answer p => λ e, result_of (pr_queue (nd_peer n)) p = Some e
  | FirstOf ps _ => λ opt, opt = any_event_result ps (pr_queue (nd_peer n))
  | Peers k => λ ids, ∃ wait, pr_waits (nd_peer n) !! k = Some wait ∧ pw_result wait = Some ids
  | Delay _ => λ _, True
  | Mined search => λ block, ∃ fuel, search fuel = Some block
  end.

Lemma answered_possible n w x : answered n w x → possible w x.
Proof. by destruct w. Qed.

(** The coroutine of the initial download: not started, running, or over. *)
Inductive Download :=
  | NotStarted
  | Running (c : Co Node (list Block))
  | Over.

(** The node, its miner, its download, and the tasks that wait for an answer. *)
Record NodeProcess := MkNodeProcess {
  np_node : Node;
  np_miner : MinerState (P:=Node);
  np_download : Download;
  np_tasks : list (Co Node unit) }.

(** What is left of a coroutine after a segment; one that throws is gone. *)
Definition rest {A} (r : result (Co Node A)) : list (Co Node A) :=
  match r with Ok c => [c] | Err _ => [] end.

Definition download_rest (r : result (Co Node (list Block))) : Download :=
  match r with Ok c => Running c | Err _ => Over end.

(** An exception ends the miner's task. *)
Definition miner_rest (r : result (MinerState (P:=Node))) : MinerState (P:=Node) :=
  match r with Ok m => m | Err _ => Stopped end.

Inductive node_step (g : Block) (ws : nat) : NodeProcess → NodeProcess → Prop :=
  | step_action a n m d ts :
      node_step g ws (MkNodeProcess n m d ts) (MkNodeProcess (run_action ws a n).2 m d ts)
  | step_task task n m d ts r n' :
      task ∈ pr_posted (nd_peer n) → co_zoom peerL (run_task task) n = (r, n') →
      node_step g ws (MkNodeProcess n m d ts) (MkNodeProcess n' m d (ts ++ rest r))
  | step_task_answer w resume x n m d ts ts' r n' :
      answered n w x → resume x n = (r, n') →
      node_step g ws (MkNodeProcess n m d (ts ++ Suspended w resume :: ts'))
                     (MkNodeProcess n' m d (ts ++ rest r ++ ts'))
  | step_download n m ts r n' :
      download n = (r, n') →
      node_step g ws (MkNodeProcess n m NotStarted ts) (MkNodeProcess n' m (download_rest r) ts)
  | step_download_answer w resume x n m ts r n' :
      answered n w x → resume x n = (r, n') →
      node_step g ws (MkNodeProcess n m (Running (Suspended w resume)) ts)
                     (MkNodeProcess n' m (download_rest r) ts)
  | step_download_end blocks n m ts :
      honest_download g n blocks →
      node_step g ws (MkNodeProcess n m (Running (Finished blocks)) ts)
                     (MkNodeProcess (initial_block_download_end blocks n).2 m Over ts)
  | step_miner_wait collected n d ts r n' :
      Miner_wait (lens_comp peerL hostL) collected n = (r, n') →
      node_step g ws (MkNodeProcess n (Collecting collected) d ts)
                     (MkNodeProcess n' (miner_rest r) d ts)
  | step_miner_answer w resume x n d ts r n' :
      answered n w x → resume x n = (r, n') →
      node_step g ws (MkNodeProcess n (Round (Suspended w resume)) d ts)
                     (MkNodeProcess n' (miner_rest (c ← r; mret (Round c))) d ts)
  | step_miner_again n d ts :
      node_step g ws (MkNodeProcess n (Round (Finished tt)) d ts)
                     (MkNodeProcess n (Collecting []) d ts).

(** Every part of the process is safe to go on with. *)
Definition download_ok g (d : Download) : Prop :=
  match d with Running c => co_safe (node_inv g) c | NotStarted | Over => True end.

Record process_inv g (p : NodeProcess) : Prop := {
  pi_node : node_inv g (np_node p);
  pi_miner : miner_ok g (np_miner p);
  pi_download : download_ok g (np_download p);
  pi_tasks : Forall (co_safe (node_inv g)) (np_tasks p) }.

(** The queue with the stored transactions behind what was there. *)
Lemma stores_wf_enqueued st q vs :
  stores_wf st → db_data (pool_db (st_pool st)) = Ok vs →
  fifo_view q = fifo_view (pool_queue (st_pool st)) ++ map ItemTransaction vs →
  stores_wf (MkStores _ _ (st_chain st) (st_spent st)
               (MkTransactionPool (pool_db (st_pool st)) q)).
Proof.
  intros [Hc Hs Hp Hd Hq] Hvs Hview. split; try done. cbn. intros t.
  rewrite Hview, elem_of_app. intros [?|Ht]; [by apply Hq|].
  apply list_elem_of_fmap in Ht as (u & [= ->] & Hu).
  apply (db_data_elem (T:=Transaction) _ _ _ Hp Hvs) in Hu.
  by apply (spent_lookup _ _ _ Hp) in Hu as [_ ?].
Qed.

Lemma stores_inv_enqueue_stored g :
  preserves (λ n, stores_inv g (nd_stores n))
    (zoom (lens_comp storesL poolL) enqueue_stored).
Proof.
  intros n [Hwf Hchain]. wp_step. apply wpx_enqueue_stored; [apply Hwf|].
  intros q vs Hvs Hview. split; [by eapply stores_wf_enqueued|done].
Qed.

#[local] Hint Resolve safe_on_message safe_on_open safe_on_closed safe_initialize_channel
  safe_on_local_candidate safe_on_local_description safe_on_ws_notification safe_on_ws_message
  safe_set_state safe_broadcast safe_initialize safe_wait_for_peers safe_run_task
  node_inv_process_one : krapi.

Lemma node_inv_action g ws a : preserves (node_inv g) (run_action ws a).
Proof.
  destruct a; cbn [run_action]; unfold on_ws_open, on_ws_closed;
    try (apply node_inv_peer; solve [auto with krapi]).
  apply preserves_bind; [apply node_inv_process_one|]. intros b. apply preserves_ret.
Qed.

(** ** The initial download *)

Lemma node_inv_peer_co g {B} (m : Coroutine Peer B) :
  co_keeps peer_ok m → co_keeps (node_inv g) (co_zoom peerL m).
Proof.
  apply co_keeps_zoom; [by intros n []|by intros n p []].
Qed.

(** Both kinds of request read the own name, make a tag and send. *)
Lemma node_inv_request g type id h : preserves (node_inv g) (request type id h).
Proof.
  unfold request. apply preserves_bind; [apply node_inv_peer, preserves_gets|]. intros my_id.
  apply preserves_bind; [apply node_inv_peer, peer_ok_host|]. intros tag.
  apply node_inv_peer, safe_send.
Qed.

#[local] Hint Resolve node_inv_peer_co node_inv_request : krapi.

Lemma node_inv_download g : co_keeps (node_inv g) download.
Proof.
  unfold download, find_blocks, request_headers, request_headers_of, download_blocks,
    download_block. preserve.
Qed.

(** The blocks are stored one after the other, each under its own hash. *)
Lemma store_blocks_spec g blocks n :
  ReliableWrites → stores_wf (nd_stores n) → Forall wf_block blocks →
  NoDup (map Block_hash blocks) →
  (∀ b, b ∈ blocks → chain_map (nd_stores n) !! Block_hash b = None) →
  wp (store_blocks blocks)
     (λ _ n', stores_wf (nd_stores n') ∧ nd_peer n' = nd_peer n ∧
        st_spent (nd_stores n') = st_spent (nd_stores n) ∧
        st_pool (nd_stores n') = st_pool (nd_stores n) ∧
        ∀ k b, chain_map (nd_stores n') !! k = Some b ↔
          chain_map (nd_stores n) !! k = Some b ∨ (k = Block_hash b ∧ b ∈ blocks)) n.
Proof.
  intros HR. revert n. induction blocks as [|b blocks IH]; intros n Hst Hwf Hnd Hnew.
  { apply wpx_ret. split_and!; try done. set_solver. }
  apply Forall_cons in Hwf as [Hb Hwf]. cbn in Hnd. apply NoDup_cons in Hnd as [Hfresh Hnd].
  destruct Hst as [Hwc Hws Hwp Hd Hq]. unfold store_blocks. cbn [for_each]. do 3 wp_step.
  apply wpx_put; [done|done|]. intros ok d Hd' Habs Hok. wp_step. rewrite Hok in Habs by done.
  assert (db_abs d = <[Block_hash b := b]> (chain_map (nd_stores n))) as Habs'.
  { rewrite Habs. unfold put_spec.
    pose proof (Hnew b (list_elem_of_here _ _) :
      db_abs (lget (lens_comp storesL chainL) n) !! data_tag b = None) as Hb'.
    by rewrite Hb'. }
  eapply wp_mono; [apply IH; [by split|done|done|]|].
  - intros c Hc1. unfold chain_map at 1. cbn. rewrite Habs', lookup_insert_ne.
    + apply Hnew. by right.
    + intros Heq. apply Hfresh. rewrite Heq. by apply list_elem_of_fmap_2.
  - intros [] n' (Hst' & Hpeer & Hsp & Hpool & Hmap). split_and!; [done..|]. intros k c.
    rewrite Hmap. unfold chain_map at 1. cbn. rewrite Habs', lookup_insert_Some, elem_of_cons.
    split.
    + intros [[[<- <-]|[_ Hk]]|[-> Hc]]; auto.
    + intros [Hk|[-> [->|Hc]]]; [|by left; left|by right; split].
      left. destruct (decide (Block_hash b = k)) as [<-|Hne]; [|by right].
      by rewrite (Hnew b (list_elem_of_here _ _)) in Hk.
Qed.

(** Blocks that continue the chain, in any order: the chain is continued. *)
Lemma store_blocks_extends g bs new blocks n :
  ReliableWrites → stores_wf (nd_stores n) → chain_of g bs (chain_map (nd_stores n)) →
  linked (tip g bs) new → NoDup (map Block_hash (g :: bs ++ new)) → Forall wf_block blocks →
  blocks ≡ₚ new →
  wp (store_blocks blocks)
     (λ _ n', stores_wf (nd_stores n') ∧ nd_peer n' = nd_peer n ∧
        st_spent (nd_stores n') = st_spent (nd_stores n) ∧
        st_pool (nd_stores n') = st_pool (nd_stores n) ∧
        chain_of g (bs ++ new) (chain_map (nd_stores n'))) n.
Proof.
  intros HR Hst (Hg & Hlg & Hm) Hl Hnd Hwf Hperm.
  rewrite app_comm_cons, map_app in Hnd. apply NoDup_app in Hnd as (_ & Hdisj & Hnd).
  eapply wp_mono; [apply (store_blocks_spec g blocks); try done|].
  - by rewrite Hperm.
  - intros b Hb. destruct (chain_map (nd_stores n) !! Block_hash b) as [c|] eqn:Hlook; [|done].
    apply Hm in Hlook as [Heq Hc']. exfalso. apply (Hdisj (Block_hash b)).
    + rewrite Heq. by apply (list_elem_of_fmap_2 Block_hash).
    + apply (list_elem_of_fmap_2 Block_hash). by rewrite <-Hperm.
  - intros [] n' (Hst' & Hpeer & Hspent & Hpool & Hmap). split_and!; [done..|].
    split_and!; [done|by apply linked_app|].
    intros k b. rewrite Hmap, Hm, Hperm, app_comm_cons, elem_of_app. tauto.
Qed.

Lemma node_inv_download_end g blocks n :
  honest_download g n blocks → node_inv g n → node_inv g (initial_block_download_end blocks n).2.
Proof.
  intros Hdl Hn.
  assert (wp (store_blocks blocks) (λ _ n', node_inv g n') n) as Hstore.
  { destruct Hdl as [->|(HR & Hwf & bs & new & Hc & Hl & Hperm & Hnd)]; [by apply wpx_ret|].
    destruct Hn as [[Hst _] Hp].
    eapply wp_mono; [by apply (store_blocks_extends g bs new blocks)|].
    intros [] n' (Hst' & Hpeer & _ & _ & Hc'). split; [|by rewrite Hpeer].
    split; [done|]. by eexists. }
  apply wp_run in Hstore as ([] & n' & Hrun & Hn'). unfold initial_block_download_end.
  unfold mbind at 1, M_bind. rewrite Hrun.
  apply (preserves_final (node_inv g)); [|done].
  apply preserves_bind; [|intros _; apply node_inv_peer, safe_broadcast].
  apply node_inv_intro; [apply stores_inv_enqueue_stored|exact (zoom_comp_view (P:=Node) poolL _)].
Qed.

(** ** Every step keeps the invariant *)

Lemma rest_safe g {A} (m : Coroutine Node A) n r n' :
  co_keeps (node_inv g) m → node_inv g n → m n = (r, n') →
  node_inv g n' ∧ Forall (co_safe (node_inv g)) (rest r).
Proof.
  intros Hm Hn Hrun. specialize (Hm n Hn). unfold wpx in Hm. rewrite Hrun in Hm.
  destruct r as [c|e]; cbn; [|done]. destruct Hm. split; [done|]. by constructor.
Qed.

Lemma resume_safe g {A} w (resume : answer w → Coroutine Node A) x n r n' :
  co_safe (node_inv g) (Suspended w resume) → node_inv g n → answered n w x →
  resume x n = (r, n') → node_inv g n' ∧ Forall (co_safe (node_inv g)) (rest r).
Proof.
  intros Hc Hn Hx Hrun. specialize (Hc x n (answered_possible n w x Hx) Hn). rewrite Hrun in Hc.
  destruct r as [c|e]; cbn; [|done]. destruct Hc. split; [done|]. by constructor.
Qed.

Lemma download_rest_ok g r : Forall (co_safe (node_inv g)) (rest r) → download_ok g (download_rest r).
Proof. destruct r as [c|e]; [|done]. cbn [rest]. intros Hc. by apply Forall_cons in Hc as [Hc _]. Qed.

Lemma process_inv_step g ws p p' :
  node_step g ws p p' → process_inv g p → process_inv g p'.
Proof.
  intros Hstep [Hn Hm Hd Hts].
  destruct Hstep as [a n m d ts|task n m d ts r n' _ Hr|w resume x n m d ts ts' r n' Hx Hr
    |n m ts r n' Hr|w resume x n m ts r n' Hx Hr|blocks n m ts Hdl|collected n d ts r n' Hr
    |w resume x n d ts r n' Hx Hr|n d ts]; cbn in *.
  - split; cbn; [|done..]. by apply (preserves_final (node_inv g)), Hn; apply node_inv_action.
  - destruct (rest_safe g _ _ _ _ (node_inv_peer_co g _ (safe_run_task task)) Hn Hr).
    split; cbn; [done..|]. by apply Forall_app.
  - apply Forall_app in Hts as [Hts [Hc Hts']%Forall_cons].
    destruct (resume_safe g _ _ _ _ _ _ Hc Hn Hx Hr). split; cbn; [done..|].
    by rewrite !Forall_app.
  - destruct (rest_safe g _ _ _ _ (node_inv_download g) Hn Hr).
    split; cbn; [done|done|by apply download_rest_ok|done].
  - destruct (resume_safe g _ _ _ _ _ _ Hd Hn Hx Hr).
    split; cbn; [done|done|by apply download_rest_ok|done].
  - split; cbn; [by apply node_inv_download_end|done..].
  - pose proof (miner_safe_wait g collected n Hm Hn) as Hsafe. unfold wpx in Hsafe.
    rewrite Hr in Hsafe. destruct r; [destruct Hsafe|]; by split.
  - destruct (resume_safe g _ _ _ _ _ _ Hm Hn Hx Hr) as [? Hrest]. split; [done| |done..].
    destruct r as [c|e]; [|done]. cbn in Hrest. by apply Forall_cons in Hrest as [? _].
  - split; [done| |done..]. by apply Forall_nil.
Qed.

Lemma process_inv_steps g ws p p' :
  relations.rtc (node_step g ws) p p' → process_inv g p → process_inv g p'.
Proof. induction 1; eauto using process_inv_step. Qed.

(** ** The invariant holds when the node starts *)

Lemma peer_ok_new host network d : peer_ok (Peer_new (A:=NodeCallback) host network d).
Proof.
  split; [|by apply text_ascii]. unfold queue_ok. cbn. rewrite epp_empty_pending. constructor.
Qed.

Lemma safe_manager_new id pt ps :
  text id → preserves (peer_ok (A:=NodeCallback)) (PeerManager_new id pt ps).
Proof.
  intros Hid. unfold PeerManager_new. apply preserves_bind.
  - intros p [Hq _]. by do 2 wp_step.
  - preserve.
Qed.

Lemma node_inv_register g id d :
  text id →
  preserves (node_inv g)
    (main_register id (_ ← zoom retryL (modify (λ _, d));
       listen (NotificationEvent InternalNotificationType.DataChannelOpened)
         RetryOnDatachannelOpen)).
Proof.
  intros Hid. unfold main_register. apply preserves_bind; [apply node_inv_peer; preserve|].
  intros _. apply preserves_bind; [by apply node_inv_peer, safe_manager_new|]. intros _.
  apply preserves_for_each. intros tl. apply preserves_bind; [apply node_inv_peer; preserve|].
  intros _. apply preserves_ret.
Qed.

Lemma node_inv_start g bs id pool spent chain chain' d host network st :
  text id → db_wf (T:=Transaction) pool → db_wf (T:=Transaction) spent →
  disjoint_maps (db_abs pool) (db_abs spent) →
  Blockchain_new true true (Some chain) = Some (Ok tt, chain') →
  db_wf (T:=Block) chain' → chain_of g bs (db_abs chain') →
  ∃ m, main_setup id (Some pool) (Some spent) (Some chain) (Some d) = Some m ∧
       node_inv g (m (MkNode (Peer_new host network d) st)).2.
Proof.
  intros Hid Hp Hs Hd Hnew Hwf Hc. unfold main_setup. rewrite Hnew. eexists.
  split; [done|]. apply (preserves_final (node_inv g) (main_register id _)
    (MkNode (Peer_new host network d) (MkStores _ _ chain' spent
       (MkTransactionPool pool fifo_empty)))); [by apply node_inv_register|].
  split; [|apply peer_ok_new]. split; [|by exists bs]. split; try done. cbn.
  intros t. by rewrite fifo_empty_view, elem_of_nil.
Qed.
Lemma node_inv_main g bs id pool spent chain chain' d host network st :
  text id → db_wf (T:=Transaction) pool → db_wf (T:=Transaction) spent →
  disjoint_maps (db_abs pool) (db_abs spent) →
  Blockchain_new true true (Some chain) = Some (Ok tt, chain') →
  db_wf (T:=Block) chain' → chain_of g bs (db_abs chain') →
  ∃ m, main id (Some pool) (Some spent) (Some chain) (Some d) = Some m ∧
       node_inv g (m (MkNode (Peer_new host network d) st)).2.
Proof.
  intros Hid Hp Hs Hd Hnew Hwf Hc.
  destruct (node_inv_start g bs id pool spent chain chain' d host network st)
    as (m & Hm & Hinv); [done..|]. unfold main. rewrite Hm. eexists. split; [reflexivity|].
  unfold mbind at 1, M_bind. destruct (m _) as [[[]|e] n]; [|done].
  apply (preserves_final (node_inv g)); [|done].
  apply preserves_bind; [apply node_inv_peer, safe_set_state|]. intros _. apply preserves_ret.
Qed.
End NodeInvariant.

(** ** Properties *)

Section Properties.
Context `{JsonLib} `{CryptoLib} `{LevelDB} `{FifoLib} `{EventppLib} `{RtcLib} `{HostLib}.
Context `{HashOrder}.

(** C1: a node whose main starts on databases that hold a chain, spent transactions and disjoint
    pooled ones keeps them so for as long as it runs: in every state it can reach, whatever
    arrives on its channels and from the signaling server, in whatever order its loop, its
    tasks, its initial download and its miner take their steps, and whichever of them throw, the
    chain database holds one linked chain from the genesis block [g], every stored value sits
    under its own tag, no pooled transaction is spent, and the pending events are well formed.
    The initial download validates nothing: its blocks are assumed to continue the chain
    ([honest_download]). *)
Theorem node_stays_consistent g bs id pool spent chain chain' d host network st ws :
  text id → db_wf (T:=Transaction) pool → db_wf (T:=Transaction) spent →
  disjoint_maps (db_abs pool) (db_abs spent) →
  Blockchain_new true true (Some chain) = Some (Ok tt, chain') →
  db_wf (T:=Block) chain' → chain_of g bs (db_abs chain') →
  ∃ m, main id (Some pool) (Some spent) (Some chain) (Some d) = Some m ∧
    ∀ p, relations.rtc (node_step g ws)
           (MkNodeProcess (m (MkNode (Peer_new host network d) st)).2 (Collecting [])
              NotStarted []) p →
         stores_inv g (nd_stores (np_node p)) ∧ Forall event_ok (pending (nd_peer (np_node p))).
Proof.
  intros Hid Hp Hs Hd Hnew Hwf Hc.
  destruct (node_inv_main g bs id pool spent chain chain' d host network st)
    as (m & Hm & Hinv); [done..|]. exists m. split; [done|]. intros p Hsteps.
  assert (process_inv g p) as [[Hst [Hev _]] _ _ _]; [|done].
  eapply process_inv_steps; [exact Hsteps|]. split; cbn; [done|by apply Forall_nil|done|].
  by apply Forall_nil.
Qed.

(** Every callback the node registers, for every well-formed event and from every consistent
    state, leaves a consistent state, also when it throws. *)
Lemma callbacks_keep_stores g ws l e n :
  event_ok e → node_inv g n →
  stores_inv g (nd_stores (run_callback ws l e n).2).
Proof.
  intros He Hn. pose proof (preserves_final _ _ n (node_inv_callback g ws l e He) Hn) as [? _].
  done.
Qed.
End Properties.
