(* ===== verification/Loop.v ===== *)
(** * A node and its event loop

    What a node is between two events, as far as the loop is concerned, and what the loop makes
    of the next event. The network and the connection objects are left to a predicate: the loop
    itself does not look at them. *)

From stdpp Require Import base sets list gmap strings.
From Stdlib Require Import ZArith Lia.
From S2P Require Import Prelude Json Crypto LevelDB Fifo Rtc Enums Models Messages DBInterface.
From S2P Require Import Stores Blockchain Validator TransactionPool Event Coroutine Services.
From S2P Require Import BlockchainManager TransactionPoolManager Miner Peer RetryHandler.
From S2P Require Import PeerConnection PeerManager WaitForPeers SignalingClient Node.

Open Scope Z_scope.

(** The order of one entry. *)
Lemma hash_order_singleton `{HashOrder} {B} (k : string) (v : B) : hash_order {[k := v]} = [(k, v)].
Proof.
  pose proof (hash_order_perm {[k := v]}) as Hp. rewrite map_to_list_singleton in Hp.
  by apply Permutation_singleton_r in Hp.
Qed.

Section Loop.
Context `{JsonLib} `{CryptoLib} `{LevelDB} `{FifoLib} `{EventppLib} `{RtcLib} `{HostLib}.
Context `{HashOrder}.

(** The parts of a node's state that an exchange leaves alone: the PeerManager, the number of a
    connection, its channel, what is registered for every type of event, the variables of the
    calls of event_of_type, and, unless the node may post more, what is posted to the executor. *)
Record Side := MkSide {
  sd_manager : PeerManager;
  sd_connection : nat;
  sd_channel : nat;
  sd_listeners : EventType → list (Listener (L:=PeerCallback NodeCallback));
  sd_waiters : gmap nat Waiter;
  sd_posted : option (list PostedTask) }.

(** The same side of a node that may post tasks. *)
Definition busy (x : Side) : Side :=
  MkSide (sd_manager x) (sd_connection x) (sd_channel x) (sd_listeners x) (sd_waiters x) None.

(** The node of side [x]: its stores are [st], its promises [ps], [evs] wait in its queue, and
    [F] holds of the library, the connection objects and the retry handler's database. *)
Record live (x : Side) (F : rtc → gmap nat PeerConnection → db → Prop) (st : Stores)
    (ps : PromiseStore Event) (evs : list Event) (n : Node) : Prop := {
  rd_manager : pr_manager (nd_peer n) = sd_manager x;
  rd_end : pr_end (nd_peer n) = false;
  rd_events :
    epp_pending (eq_queue (pr_queue (nd_peer n))) = map (λ e, (event_type e, e)) evs;
  rd_listeners type :
    (epp_listeners (eq_queue (pr_queue (nd_peer n))) type).*2 = sd_listeners x type;
  rd_waiters : eq_waiters (pr_queue (nd_peer n)) = sd_waiters x;
  rd_promises : eq_store (pr_queue (nd_peer n)) = ps;
  rd_store : store_wf ps;
  rd_tags k : (uuid_ix (pr_host (nd_peer n)) ≤ k)%nat → ps_promises ps !! uuid_at k = None;
  rd_stores : nd_stores n = st;
  rd_posted l : sd_posted x = Some l → pr_posted (nd_peer n) = l;
  rd_frame : F (pr_rtc (nd_peer n)) (pr_heap (nd_peer n)) (pr_retry (nd_peer n)) }.

Lemma live_busy x F st ps evs n : live x F st ps evs n → live (busy x) F st ps evs n.
Proof. intros []. by split. Qed.

Section Steps.
Context (x : Side) (F : rtc → gmap nat PeerConnection → db → Prop) (st : Stores).
Implicit Types (n : Node) (evs : list Event) (ps : PromiseStore Event).
Abbreviation queue n := (eq_queue (pr_queue (nd_peer n))).

Lemma live_enqueue ps evs e n :
  live x F st ps evs n →
  wp (on_peer (enqueue_event e)) (λ _ n', live x F st ps (evs ++ [e]) n') n.
Proof.
  intros Hn. unfold on_peer, enqueue_event, enqueue. do 4 wp_step. destruct Hn. split; try done.
  - cbn. by rewrite epp_enqueue_pending, rd_events0, map_app.
  - intros type. cbn. rewrite epp_enqueue_listeners. apply rd_listeners0.
Qed.

(** A message put into the queue, stamped with some times. *)
Definition queued (type : PeerMessageType.t) (sender receiver tag : string) (content : json)
    (t t' : Z) : Event :=
  EvInternalPeer (MkInternalMessage InternalMessageType.SendPeerMessage
    (MkPeerMessage type sender receiver tag content t) t' 0).

Lemma live_send ps evs type sender receiver tag content n :
  live x F st ps evs n →
  wp (on_peer (send_and_forget type sender receiver tag content))
     (λ _ n', ∃ t t', u64 t ∧
        live x F st ps (evs ++ [queued type sender receiver tag content t t']) n') n.
Proof.
  intros Hn. unfold on_peer. wp_step. unfold wpx. rewrite send_and_forget_spec.
  do 2 eexists. split; [apply clock_u64|].
  pose proof (live_enqueue ps evs (queued type sender receiver tag content
    (clock_at (clock_ix (pr_host (nd_peer n)))) (clock_at (S (clock_ix (pr_host (nd_peer n))))))
    n Hn) as Hq. unfold wp, wpx in Hq. cbn in Hq. destruct Hq. by split.
Qed.

(** A question under a new tag: its promise is the one the tag waits with. *)
Lemma live_ask ps type receiver content n :
  live x F st ps [] n →
  wp (my_id ← on_peer (gets identity); tag ← on_peer (zoom hostL create_tag);
      on_peer (send type my_id receiver tag content))
     (λ p n', ∃ tag t t' ps', u64 t ∧ text tag ∧ ps_promises ps' !! tag = Some p ∧
        live x F st ps'
          [queued type (mg_identity (sd_manager x)) receiver tag content t t'] n') n.
Proof.
  intros Hn. unfold on_peer. do 5 wp_step. unfold wpx at 1, create_tag. cbn.
  wp_step. unfold wpx. rewrite send_spec. cbn. destruct Hn. subst ps.
  set (tag := uuid_at (uuid_ix (pr_host (nd_peer n)))).
  set (ps := eq_store (pr_queue (nd_peer n))) in *.
  assert (ps_promises ps !! tag = None) as Htag by by apply rd_tags0.
  pose proof (store_wf_add tag ps rd_store0) as Hwf.
  exists tag. do 2 eexists. exists (PromiseStore_add tag ps).2. rewrite (add_new tag) in Hwf |- * by done.
  split; [apply clock_u64|]. split; [apply text_ascii, uuid_ascii|]. cbn.
  split; [apply lookup_insert_eq|].
  split; try done; cbn; rewrite ?submit_spec; cbn.
  - by rewrite epp_enqueue_pending, rd_events0, <-rd_manager0.
  - intros ty. rewrite epp_enqueue_listeners. apply rd_listeners0.
  - exact rd_waiters0.
  - by rewrite (add_new tag).
  - intros k Hk. rewrite lookup_insert_ne; [apply rd_tags0; lia|].
    intros Heq%uuid_unique. lia.
Qed.

(** ** Tags, listeners and submitted events *)

(** A drawn tag. *)
Lemma live_create_tag ps evs n :
  live x F st ps evs n →
  wp (on_peer (zoom hostL create_tag))
     (λ tag n', text tag ∧ ps_promises ps !! tag = None ∧
        (∀ k, (uuid_ix (pr_host (nd_peer n')) ≤ k)%nat → uuid_at k ≠ tag) ∧
        live x F st ps evs n') n.
Proof.
  intros []. unfold on_peer. do 2 wp_step. unfold wpx, create_tag. cbn.
  split; [apply text_ascii, uuid_ascii|]. split; [by apply rd_tags0|].
  split; [intros k Hk Heq%uuid_unique; cbn in Hk; lia|].
  split; try done. intros k Hk. cbn in Hk. apply rd_tags0. lia.
Qed.

(** One more callback. *)
Definition heeding y (type : EventType) (callback : PeerCallback NodeCallback) : Side :=
  MkSide (sd_manager y) (sd_connection y) (sd_channel y)
    (λ type', sd_listeners y type' ++ if decide (type = type') then [App callback] else [])
    (sd_waiters y) (sd_posted y).

Lemma live_listen ps evs type callback n :
  live x F st ps evs n →
  wp (on_peer (listen type callback)) (λ _ n', live (heeding x type callback) F st ps evs n') n.
Proof.
  intros []. unfold wp, wpx, on_peer, listen, append_listener, zoom, writes. cbn.
  destruct (epp_append type (App callback) (eq_queue (pr_queue (nd_peer n)))) as [h q] eqn:Hq.
  cbn. split; try done; cbn.
  - pose proof (epp_append_pending type (App callback) (eq_queue (pr_queue (nd_peer n)))) as Hp.
    rewrite Hq in Hp. cbn in Hp. by rewrite Hp.
  - intros type'. pose proof (epp_append_listeners type (App callback)
      (eq_queue (pr_queue (nd_peer n))) type') as Hl.
    rewrite Hq in Hl. cbn in Hl. rewrite Hl, fmap_app, rd_listeners0. by destruct (decide _).
Qed.

(** An event under a new tag, and its promise. *)
Lemma live_submit ps evs e n :
  live x F st ps evs n → ps_promises ps !! event_tag e = None →
  (∀ k, (uuid_ix (pr_host (nd_peer n)) ≤ k)%nat → uuid_at k ≠ event_tag e) →
  wp (on_peer (zoom queueL (submit e)))
     (λ p n', ∃ ps', ps_promises ps' !! event_tag e = Some p ∧ live x F st ps' (evs ++ [e]) n') n.
Proof.
  intros [] Hnew Hk. subst ps. unfold on_peer. do 2 wp_step. unfold wpx. rewrite submit_spec.
  set (ps := eq_store (pr_queue (nd_peer n))) in *.
  pose proof (store_wf_add (event_tag e) ps rd_store0) as Hwf. cbn.
  exists (PromiseStore_add (event_tag e) ps).2. fold ps.
  rewrite (add_new (event_tag e)) in Hwf |- * by done. cbn.
  split; [apply lookup_insert_eq|]. split; try done; cbn.
  - by rewrite epp_enqueue_pending, rd_events0, map_app.
  - intros ty. rewrite epp_enqueue_listeners. apply rd_listeners0.
  - intros k Hle. rewrite lookup_insert_ne; [by apply rd_tags0|].
    intros Heq. by apply (Hk k Hle).
Qed.

(** The event taken off the queue. *)
Lemma live_take ps e evs n :
  live x F st ps (e :: evs) n →
  ∃ q', epp_take (queue n) = Some (event_type e, e, q') ∧
    live x F st ps evs
      (lset node_queueL (lset eq_queueL q' (pr_queue (nd_peer n))) n).
Proof.
  intros Hn. pose proof (rd_events _ _ _ _ _ _ Hn) as He. cbn [map] in He.
  pose proof (epp_take_pending (queue n)) as Htake.
  destruct (epp_take (queue n)) as [[[k e'] q']|] eqn:Hq; rewrite He in Htake; [|done].
  injection Htake as <- <- Hrest. exists q'. split; [done|]. destruct Hn. split; try done.
  intros type. cbn. rewrite (epp_take_listeners _ _ _ _ _ Hq). apply rd_listeners0.
Qed.

(** An event nobody listens to, and one with a single listener. *)
Lemma dispatch_none ws ps evs type e n :
  live x F st ps evs n → sd_listeners x type = [] →
  wp (dispatch node_queueL (run_callback ws) type e) (λ _ n', n' = n) n.
Proof.
  intros Hn Hl. unfold dispatch. do 2 wp_step.
  pose proof (rd_listeners _ _ _ _ _ _ Hn type) as Hls. rewrite Hl in Hls.
  apply fmap_nil_inv in Hls. rewrite (Hls : epp_listeners (eq_queue (lget node_queueL n)) type = []).
  by apply wpx_ret.
Qed.

Lemma dispatch_one ws ps evs type e callback (Q : Node → Prop) n :
  live x F st ps evs n → sd_listeners x type = [App callback] →
  wp (run_callback ws callback e) (λ _, Q) n →
  wp (dispatch node_queueL (run_callback ws) type e) (λ _, Q) n.
Proof.
  intros Hn Hl Hrun. unfold dispatch. do 2 wp_step.
  pose proof (rd_listeners _ _ _ _ _ _ Hn type) as Hls. rewrite Hl in Hls.
  destruct (epp_listeners (queue n) type) as [|[h l] [|]] eqn:Heq; try done.
  injection Hls as ->.
  rewrite (Heq : epp_listeners (eq_queue (lget node_queueL n)) type = _). cbn [for_each].
  do 3 wp_step. cbn. rewrite Heq, decide_True by set_solver.
  eapply wp_mono; [exact Hrun|]. intros [] n' Hn'. by wp_step.
Qed.

(** Two listeners; the first one leaves the registrations alone. *)
Lemma dispatch_two ws type e callback1 callback2 (P Q : Node → Prop) ps evs n :
  live x F st ps evs n → sd_listeners x type = [App callback1; App callback2] →
  wp (run_callback ws callback1 e) (λ _ n', P n' ∧ epp_listeners (queue n') type =
                                              epp_listeners (queue n) type) n →
  (∀ n', P n' → wp (run_callback ws callback2 e) (λ _, Q) n') →
  wp (dispatch node_queueL (run_callback ws) type e) (λ _, Q) n.
Proof.
  intros Hn Hl Hrun1 Hrun2. unfold dispatch. do 2 wp_step.
  pose proof (rd_listeners _ _ _ _ _ _ Hn type) as Hls. rewrite Hl in Hls.
  destruct (epp_listeners (queue n) type) as [|[h1 l1] [|[h2 l2] [|]]] eqn:Heq; try done.
  injection Hls as -> ->.
  rewrite (Heq : epp_listeners (eq_queue (lget node_queueL n)) type = _). cbn [for_each].
  do 3 wp_step. cbn. rewrite Heq, decide_True by set_solver.
  eapply wp_mono; [exact Hrun1|]. intros [] n1 [Hn1 Hsame]. do 3 wp_step. cbn.
  rewrite Hsame, decide_True by set_solver. 
  eapply wp_mono; [exact (Hrun2 n1 Hn1)|]. intros [] n2 Hn2. by wp_step.
Qed.

(** Any number of listeners, none of which changes what [live] says. *)
Lemma dispatch_all ws ps evs type e callbacks n :
  live x F st ps evs n → sd_listeners x type = map App callbacks →
  (∀ callback n, callback ∈ callbacks → live x F st ps evs n →
     wp (run_callback ws callback e) (λ _ n', live x F st ps evs n') n) →
  wp (dispatch node_queueL (run_callback ws) type e) (λ _ n', live x F st ps evs n') n.
Proof.
  intros Hn Hl Hrun. unfold dispatch. do 2 wp_step.
  pose proof (rd_listeners _ _ _ _ _ _ Hn type) as Hls. rewrite Hl in Hls.
  change (lget node_queueL n) with (pr_queue (nd_peer n)).
  assert (∀ hl, hl ∈ epp_listeners (queue n) type → ∃ callback, hl.2 = App callback ∧
    callback ∈ callbacks) as Hin.
  { intros hl Hhl. apply (list_elem_of_fmap_2 snd) in Hhl. rewrite Hls in Hhl.
    by apply list_elem_of_fmap in Hhl. }
  clear Hls. revert Hin. generalize (epp_listeners (queue n) type) as hls.
  intros hls Hin. revert n Hn.
  induction hls as [|hl hls IH]; intros n Hn; cbn [for_each]; [by wp_step|].
  do 3 wp_step. eapply (wpx_mono _ (λ _ n', live x F st ps evs n') _ (λ _ _, False)); [| |done].
  { case_decide; [|by wp_step]. destruct (Hin hl) as (callback & -> & Hcb); [set_solver|].
    exact (Hrun _ _ Hcb Hn). }
  intros [] n' Hn'. apply IH; [set_solver|done].
Qed.

(** A result for a tag changes the promises and nothing else. *)
Lemma live_resolve ps evs tag e n :
  live x F st ps evs n →
  wp (zoom node_queueL (zoom eq_storeL (PromiseStore_set_result tag e)))
     (λ _ n', ∃ ps', live x F st ps' evs n' ∧
        (∀ p, ps_promises ps !! tag = Some p → pr_results (ps_cells ps') !! p = Some e) ∧
        ∀ p, untagged ps p → untagged ps' p) n.
Proof.
  intros Hn. do 2 wp_step. destruct Hn. cbn. subst ps.
  set (ps := eq_store (pr_queue (nd_peer n))) in *. unfold wpx.
  destruct (store_wf_set_result tag e ps rd_store0) as (b & ps' & Hrun & Hwf). rewrite Hrun.
  exists ps'. split_and!; [|
    |intros p; exact (untagged_set_result tag e ps _ ps' p rd_store0 Hrun)].
  - split; try done. intros k Hk. cbn in Hk. specialize (rd_tags0 k Hk).
    destruct (ps_promises ps !! tag) as [p|] eqn:Ht.
    + rewrite (set_result_waiting _ _ _ _ rd_store0 Ht) in Hrun. injection Hrun as _ <-. cbn.
      rewrite lookup_delete. by case_decide.
    + rewrite (set_result_unknown _ _ _ Ht) in Hrun. by injection Hrun as _ <-.
  - intros p Ht. rewrite (set_result_waiting _ _ _ _ rd_store0 Ht) in Hrun.
    injection Hrun as _ <-. cbn. apply lookup_insert_eq.
Qed.

(** ** The event loop *)

(** The tag an event is looked up with among the promises, if it is. *)
Definition promise_tag (e : Event) : string :=
  match e with EvString notif => in_content notif | _ => event_tag e end.

Definition resolving (e : Event) : Prop :=
  match e with EvInternalSignaling _ | EvInternalPeer _ => False | _ => True end.

Lemma process_event ws ps evs e (Q : Node → Prop) n :
  resolving e → live x F st ps (e :: evs) n →
  (∀ ps' n', live x F st ps' evs n' →
     (∀ p, ps_promises ps !! promise_tag e = Some p → pr_results (ps_cells ps') !! p = Some e) →
     (∀ p, untagged ps p → untagged ps' p) →
     wp (dispatch node_queueL (run_callback ws) (event_type e) e) (λ _, Q) n') →
  wp (node_process_one ws) (λ b n', b = true ∧ Q n') n.
Proof.
  intros He Hn Hrest. unfold node_process_one, process_one. do 2 wp_step.
  destruct (live_take _ _ _ _ Hn) as (q' & Htake & Hn1). cbn [lget node_queueL lens_comp].
  cbn in Htake |- *. rewrite Htake. do 4 wp_step. cbn in Hn1 |- *.
  assert (wp (_ ← zoom node_queueL (zoom eq_storeL (PromiseStore_set_result (promise_tag e) e));
              dispatch node_queueL (run_callback ws) (event_type e) e) (λ _, Q)
    (lset node_queueL (lset eq_queueL q' (pr_queue (nd_peer n))) n)) as Hone.
  { wp_step. eapply wpx_mono; [apply (live_resolve _ _ _ _ _ Hn1)| |done].
    intros b n' (ps' & Hn' & Hp & Hu). by apply (Hrest ps'). }
  destruct e; try done;
    (apply wpx_bind; eapply wpx_mono; [exact Hone| |done]; intros [] n2 Hn2; by wp_step).
Qed.

(** The other events are handed to their listeners at once. *)
Lemma process_plain ws ps evs e (Q : Node → Prop) n :
  ¬ resolving e → live x F st ps (e :: evs) n →
  (∀ n', live x F st ps evs n' →
     wp (dispatch node_queueL (run_callback ws) (event_type e) e) (λ _, Q) n') →
  wp (node_process_one ws) (λ b n', b = true ∧ Q n') n.
Proof.
  intros He Hn Hrest. unfold node_process_one, process_one. do 2 wp_step.
  destruct (live_take _ _ _ _ Hn) as (q' & Htake & Hn1). cbn in Htake |- *.
  rewrite Htake. destruct e; try (by destruct He); do 5 wp_step;
    (eapply wp_mono; [exact (Hrest _ Hn1)|]; intros [] n2 Hn2; by wp_step).
Qed.

(** Running the loop: nothing to do, and one event. *)
Lemma run_idle ws rounds ps (Q : unit → Node → Prop) n :
  live x F st ps [] n → Q tt n → wp (node_run ws rounds) Q n.
Proof.
  intros Hn HQ. destruct rounds as [|rounds]; [exact HQ|]. unfold node_run. cbn [EventLoop_run].
  do 2 wp_step. cbn. rewrite (rd_end _ _ _ _ _ _ Hn). wp_step. unfold process_one.
  do 2 wp_step. pose proof (rd_events _ _ _ _ _ _ Hn) as He. cbn in He |- *.
  pose proof (epp_take_pending (queue n)) as Htake.
  destruct (epp_take (queue n)) as [[[k e'] q']|]; [by rewrite He in Htake|]. by do 2 wp_step.
Qed.

Lemma run_next ws rounds ps e evs (Q : unit → Node → Prop) n :
  live x F st ps (e :: evs) n →
  wp (node_process_one ws) (λ b n', b = true ∧ wp (node_run ws rounds) Q n') n →
  wp (node_run ws (S rounds)) Q n.
Proof.
  intros Hn Hone. unfold node_run. cbn [EventLoop_run]. do 2 wp_step. cbn.
  rewrite (rd_end _ _ _ _ _ _ Hn). wp_step. eapply wp_mono; [exact Hone|].
  intros b n' [-> Hrest]. exact Hrest.
Qed.

End Steps.

(** ** Awaited events *)

Section Listening.
Context (F : rtc → gmap nat PeerConnection → db → Prop) (st : Stores).
Implicit Types (n : Node) (x : Side) (ps : PromiseStore Event) .
Implicit Types (evs : list Event) (type : EventType) (c : Waiter).

(** The side with other callbacks for [type] and other waiting calls. *)
Definition listening x type (callbacks : list (Listener (L:=PeerCallback NodeCallback)))
    (waiters : gmap nat Waiter) : Side :=
  MkSide (sd_manager x) (sd_connection x) (sd_channel x)
    (λ type', if decide (type' = type) then callbacks else sd_listeners x type') waiters
    (sd_posted x).

(** A call of event_of_type in a node. *)
Lemma live_event_of_type x ps evs type n :
  live x F st ps evs n →
  wp (on_peer (zoom queueL (event_of_type type 1 None)))
     (λ p n', ∃ h ps', let w := eq_next_waiter (pr_queue (nd_peer n)) in
        let c := MkWaiter type h 1 None p in
        live (listening x type (sd_listeners x type ++ [Await w]) (<[w := c]> (sd_waiters x)))
          F st ps' evs n' ∧
        eq_next_waiter (pr_queue (nd_peer n')) = S w ∧ node_view n' = node_view n ∧
        untagged ps' p ∧ (∀ q, untagged ps q → q ≠ p ∧ untagged ps' q)) n.
Proof.
  intros []. unfold wp, wpx, on_peer, event_of_type, mbind, M_bind, zoom, make_promise, gets,
    writes, modify. cbn.
  destruct (epp_append type _ _) as [h q] eqn:Hq. cbn.
  subst ps. set (ps := eq_store (pr_queue (nd_peer n))) in *.
  destruct (untagged_make ps rd_store0) as (Hwf & Hnew & Hold).
  set (w := Await (eq_next_waiter (pr_queue (nd_peer n)))) in *.
  assert (epp_pending q = epp_pending (eq_queue (pr_queue (nd_peer n)))) as Hpend.
  { by rewrite <-(epp_append_pending type w (eq_queue (pr_queue (nd_peer n)))), Hq. }
  exists h, (zoom ps_cellsL make_promise ps).2. split_and!; [|done| |exact Hnew|].
  - split; try done; cbn.
    + by rewrite Hpend.
    + intros type'. pose proof (epp_append_listeners type w (eq_queue (pr_queue (nd_peer n))) type')
        as Hl. rewrite Hq in Hl. cbn in Hl. rewrite Hl, fmap_app, rd_listeners0.
      destruct (decide (type = type')) as [->|Hne]; [by rewrite decide_True by done|].
      rewrite decide_False by congruence. by rewrite app_nil_r.
    + by rewrite rd_waiters0.
  - unfold node_view, pending. cbn. by rewrite Hpend.
  - intros r Hr. split; [|by apply Hold]. intros ->. pose proof (un_made _ _ Hr). lia.
Qed.

(** The promise store once the promise [p] of such a call is satisfied. *)
Definition satisfied (p : nat) (e : Event) ps : PromiseStore Event :=
  MkPromiseStore (ps_promises ps)
    (MkPromises (pr_next (ps_cells ps)) (<[p := e]> (pr_results (ps_cells ps)))
       (pr_broken (ps_cells ps))).

(** The event comes: its promise is satisfied, and the other callbacks stay as they are. *)
Lemma dispatch_awaited ws x ps evs type e w h p n :
  live x F st ps evs n → sd_listeners x type = [Await w] →
  sd_waiters x !! w = Some (MkWaiter type h 1 None p) → untagged ps p →
  wp (dispatch node_queueL (run_callback ws) type e)
     (λ _ n', ∃ callbacks waiters,
        live (listening x type callbacks waiters) F st (satisfied p e ps) evs n') n.
Proof.
  intros Hn Hl Hw Hp. unfold dispatch. do 2 wp_step.
  pose proof (rd_listeners _ _ _ _ _ _ Hn type) as Hls. rewrite Hl in Hls.
  destruct (epp_listeners (eq_queue (pr_queue (nd_peer n))) type) as [|[h' l] [|]] eqn:Heq;
    try done. injection Hls as ->.
  rewrite (Heq : epp_listeners (eq_queue (lget node_queueL n)) type = _). cbn [for_each].
  do 3 wp_step. cbn. rewrite Heq, decide_True by set_solver.
  destruct Hn. subst ps. set (ps := eq_store (pr_queue (nd_peer n))) in *.
  unfold wpx, zoom, on_awaited, mbind, M_bind, gets, modify. cbn. rewrite rd_waiters0, Hw. cbn.
  unfold zoom, satisfy. cbn. fold ps. change (1 - 1 <=? 0) with true. cbn.
  rewrite (un_open _ _ Hp). cbn.
  exists (filter (λ p, p.1 ≠ h) (epp_listeners (eq_queue (pr_queue (nd_peer n))) type)).*2.
  eexists. split; try done; cbn.
  - by rewrite epp_remove_pending.
  - intros type'. rewrite epp_remove_listeners. destruct (decide (type = type')) as [->|Hne].
    + by rewrite decide_True by done.
    + rewrite decide_False by congruence. apply rd_listeners0.
  - by apply store_wf_satisfy.
Qed.

(** The loop takes an event a call of event_of_type waits for, and an answer nobody else listens
    to. *)
Lemma run_awaited_event ws rounds x ps e w h p n :
  live x F st ps [e] n → resolving e → sd_listeners x (event_type e) = [Await w] →
  sd_waiters x !! w = Some (MkWaiter (event_type e) h 1 None p) → untagged ps p →
  wp (node_run ws (S rounds))
     (λ _ n', result_of (pr_queue (nd_peer n')) p = Some e ∧ ∃ callbacks waiters ps',
        live (listening x (event_type e) callbacks waiters) F st ps' [] n') n.
Proof.
  intros Hn He Hl Hw Hp. eapply run_next; [exact Hn|].
  eapply process_event; [exact He|exact Hn|]. intros ps1 n1 Hn1 _ Hu.
  eapply wp_mono; [eapply dispatch_awaited; [exact Hn1|exact Hl|exact Hw|by apply Hu]|].
  intros [] n2 (callbacks & waiters & Hn2). eapply run_idle; [exact Hn2|]. split; [|by do 3 eexists].
  unfold result_of. rewrite (rd_promises _ _ _ _ _ _ Hn2). apply lookup_insert_eq.
Qed.

Lemma run_answered ws rounds x ps e p n :
  live x F st ps [e] n → resolving e → sd_listeners x (event_type e) = [] →
  ps_promises ps !! promise_tag e = Some p →
  wp (node_run ws (S rounds))
     (λ _ n', result_of (pr_queue (nd_peer n')) p = Some e ∧ ∃ ps', live x F st ps' [] n') n.
Proof.
  intros Hn He Hl Hp. eapply run_next; [exact Hn|].
  eapply process_event; [exact He|exact Hn|]. intros ps1 n1 Hn1 Hres _.
  eapply wp_mono; [by eapply dispatch_none|]. intros [] n2 ->.
  eapply run_idle; [exact Hn1|]. split; [|by eexists].
  unfold result_of. rewrite (rd_promises _ _ _ _ _ _ Hn1). by apply Hres.
Qed.

(** The loop takes an event with one callback. *)
Lemma run_callback_event ws rounds x ps e callback (Q : Node → Prop) n :
  live x F st ps [e] n → resolving e → sd_listeners x (event_type e) = [App callback] →
  (∀ ps' n', live x F st ps' [] n' →
     wp (run_callback ws callback e) (λ _ n'', Q n'' ∧ ∃ x' F' st' ps'', live x' F' st' ps'' [] n'')
       n') →
  wp (node_run ws (S rounds)) (λ _, Q) n.
Proof.
  intros Hn He Hl Hrun. eapply run_next; [exact Hn|].
  eapply process_event; [exact He|exact Hn|]. intros ps1 n1 Hn1 _ _.
  eapply dispatch_one; [exact Hn1|exact Hl|]. eapply wp_mono; [exact (Hrun _ _ Hn1)|].
  intros [] n2 (HQ & x' & F' & st' & ps2 & Hn2). by eapply run_idle.
Qed.
End Listening.
End Loop.
