(* ===== verification/Exchange.v ===== *)
(** * Two nodes and the wire between them

    A world of two full nodes with one open data channel. While a coroutine of the first node
    waits, the world runs: the first node's event loop, the channel, the second node's loop, the
    channel back, the first loop again. The lemmas follow a request of the first node through
    all of this to the answer that resolves its promise. *)

From stdpp Require Import base sets list gmap strings.
From Stdlib Require Import ZArith Lia.
From S2P Require Import Prelude Json Crypto LevelDB Fifo Rtc Enums Models Messages DBInterface.
From S2P Require Import Stores Blockchain Validator TransactionPool Event Coroutine Services.
From S2P Require Import BlockchainManager TransactionPoolManager Miner Peer RetryHandler.
From S2P Require Import PeerConnection PeerManager WaitForPeers SignalingClient Node Loop.

Open Scope Z_scope.

Section World.
Context `{JsonLib} `{CryptoLib} `{LevelDB} `{FifoLib} `{EventppLib} `{RtcLib} `{HostLib}.
Context `{HashOrder}.

(** The two nodes, and how many texts the channel has delivered in each direction. *)
Record World := MkWorld {
  w_a : Node;
  w_b : Node;
  w_ab : nat;
  w_ba : nat }.

Definition aL : Lens World Node := MkLens w_a (λ n ω, MkWorld n (w_b ω) (w_ab ω) (w_ba ω)).
Definition bL : Lens World Node := MkLens w_b (λ n ω, MkWorld (w_a ω) n (w_ab ω) (w_ba ω)).

#[global] Instance aL_laws : LensLaws aL.
Proof. by split; intros; destruct s. Qed.

#[global] Instance bL_laws : LensLaws bL.
Proof. by split; intros; destruct s. Qed.

(** The texts a process has handed to channel [ch]. *)
Definition texts_on (ch : nat) (r : rtc) : list string := texts_to (Channel ch) (rtc_sent r).

Definition node_texts (ch : nat) (n : Node) : list string := texts_on ch (pr_rtc (nd_peer n)).

(** What one end has sent and the other has not seen arrives there. *)
Definition receive (texts : list string) : M Node unit :=
  for_each texts (λ s, on_peer (on_message (RtcText s))).

Section Run.
Context (ch_a ch_b ws_a ws_b rounds : nat).

Definition deliver_ab : M World unit :=
  texts ← gets (λ ω, drop (w_ab ω) (node_texts ch_a (w_a ω)));
  _ ← zoom bL (receive texts);
  modify (λ ω, MkWorld (w_a ω) (w_b ω) (w_ab ω + length texts) (w_ba ω)).

Definition deliver_ba : M World unit :=
  texts ← gets (λ ω, drop (w_ba ω) (node_texts ch_b (w_b ω)));
  _ ← zoom aL (receive texts);
  modify (λ ω, MkWorld (w_a ω) (w_b ω) (w_ab ω) (w_ba ω + length texts)).

(** The second node gets what was sent, reacts, and its answers come back. *)
Definition round_trip : M World unit :=
  _ ← deliver_ab;
  _ ← zoom bL (node_run ws_b rounds);
  deliver_ba.

Definition exchange : M World unit :=
  _ ← zoom aL (node_run ws_a rounds);
  _ ← round_trip;
  zoom aL (node_run ws_a rounds).

(** The world while a coroutine of the first node waits; it fails when what the coroutine waits
    for does not come with one round trip. *)
Definition world_answers (w : Awaited) : M World (answer w) :=
  match w with
  | Answer p => λ ω,
      match exchange ω with
      | (Ok _, ω) => (match result_of (pr_queue (nd_peer (w_a ω))) p with
                      | Some e => Ok e
                      | None => Err LibraryError
                      end, ω)
      | (Err x, ω) => (Err x, ω)
      end
  | FirstOf ps _ => λ ω,
      match exchange ω with
      | (Ok _, ω) => (Ok (any_event_result ps (pr_queue (nd_peer (w_a ω)))), ω)
      | (Err x, ω) => (Err x, ω)
      end
  | Peers k => λ ω,
      match exchange ω with
      | (Ok _, ω) => (match pr_waits (nd_peer (w_a ω)) !! k ≫= pw_result with
                      | Some ids => Ok ids
                      | None => Err LibraryError
                      end, ω)
      | (Err x, ω) => (Err x, ω)
      end
  | Delay _ => λ ω, (Ok tt, ω)
  | Mined search => λ ω,
      (match search rounds with Some block => Ok block | None => Err LibraryError end, ω)
  end.
End Run.
End World.

(** ** A node between two events *)

Section Ready.
Context `{JsonLib} `{CryptoLib} `{LevelDB} `{FifoLib} `{EventppLib} `{RtcLib} `{HostLib}.
Context `{HashOrder}.

(** Connection object [c] is [pc], its channel [ch] is open and [txt] was sent over it. *)
Record across (c ch : nat) (pc : PeerConnection) (txt : list string) (r : rtc)
    (heap : gmap nat PeerConnection) : Prop := {
  ov_heap : heap !! c = Some pc;
  ov_channel : pc_channel pc = Some ch;
  ov_open : ch_is_open r ch = true;
  ov_not_closed : ch_is_closed r ch = false;
  ov_sent : texts_on ch r = txt }.

Definition over (x : Side) (pc : PeerConnection) (txt : list string) (r : rtc)
    (heap : gmap nat PeerConnection) (_ : db) : Prop :=
  across (sd_connection x) (sd_channel x) pc txt r heap.

(** The node of side [x] with its connection: its stores are [st], its promises [ps], it has sent
    [txt] over the channel and [evs] wait in its queue. *)
Definition ready (x : Side) (pc : PeerConnection) (st : Stores) (ps : PromiseStore Event)
    (txt : list string) (evs : list Event) (n : Node) : Prop :=
  live x (over x pc txt) st ps evs n.

Section Projections.
Context x pc st ps txt evs n (Hn : ready x pc st ps txt evs n).

Lemma rd_heap : pr_heap (nd_peer n) !! sd_connection x = Some pc.
Proof. apply (rd_frame _ _ _ _ _ _ Hn). Qed.

Lemma rd_sent : node_texts (sd_channel x) n = txt.
Proof. apply (rd_frame _ _ _ _ _ _ Hn). Qed.

Lemma ready_busy : ready (busy x) pc st ps txt evs n.
Proof. destruct Hn as [? ? ? ? ? ? ? ? ? ? []]. by split. Qed.
End Projections.

Section Steps.
Context `{!ReliableChannels} (x : Side) (pc : PeerConnection) (st : Stores).
Implicit Types (n : Node) (evs : list Event) (ps : PromiseStore Event) (txt : list string).
Abbreviation queue n := (eq_queue (pr_queue (nd_peer n))).

(** The texts of a channel after one more text. *)
Lemma texts_on_app ch r r' s :
  rtc_sent r' = rtc_sent r ++ [(Channel ch, s)] → texts_on ch r' = texts_on ch r ++ [s].
Proof.
  intros Hr. unfold texts_on. rewrite Hr, texts_to_app. f_equal. exact (texts_to_same _ [s]).
Qed.

(** A message goes out on the channel. *)
Lemma connection_sends ps txt evs m s n :
  ready x pc st ps txt evs n → PeerMessage_to_string m = Ok s →
  wp (on_peer (connection_send (sd_connection x) m))
     (λ sent n', sent = true ∧ ready x pc st ps (txt ++ [s]) evs n') n.
Proof.
  intros [] Hs. destruct rd_frame. unfold on_peer, connection_send, connection. do 4 wp_step.
  cbn. rewrite ov_heap0. wp_step.
  rewrite ov_channel0. do 2 wp_step. rewrite ov_open0, ov_not_closed0. cbn. wp_step.
  eapply wpx_lift_ok; [exact Hs|]. do 2 wp_step. cbn.
  eapply wpx_mono; [by apply ch_send_open| |done].
  intros [] r [Hsent Hstate]. split; [done|]. split; try done. split; try done; cbn.
  - by rewrite (proj1 (Hstate _)).
  - by rewrite (proj2 (Hstate _)).
  - erewrite texts_on_app by exact Hsent. by f_equal.
Qed.

(** A queued message for the connected peer goes this way. *)
Lemma send_out ps txt evs type sender receiver tag content t t' s n :
  ready x pc st ps txt evs n →
  PeerMessage_to_string (MkPeerMessage type sender receiver tag content t) = Ok s →
  mg_connections (sd_manager x) !! receiver = Some (Some (sd_connection x)) →
  wp (on_peer (on_send_peer_message (queued type sender receiver tag content t t')))
     (λ _ n', ready x pc st ps (txt ++ [s]) evs n') n.
Proof.
  intros Hn Hs Hrcv. pose proof (connection_sends _ _ _ _ _ _ Hn Hs) as Hsend.
  unfold on_peer in *. apply (wpx_zoom peerL) in Hsend. unfold on_send_peer_message.
  do 2 wp_step. eapply wpx_lift_ok; [done|]. do 2 wp_step. cbn.
  rewrite (rd_manager _ _ _ _ _ _ Hn), Hrcv. unfold deref. do 3 wp_step.
  eapply wpx_mono; [exact Hsend| |done]. intros sent p [-> Hp]. by wp_step.
Qed.

Lemma process_queued ws ps txt evs type sender receiver tag content t t' n :
  ready x pc st ps txt (queued type sender receiver tag content t t' :: evs) n →
  wf_peer_message (MkPeerMessage type sender receiver tag content t) →
  mg_connections (sd_manager x) !! receiver = Some (Some (sd_connection x)) →
  sd_listeners x (InternalEvent InternalMessageType.SendPeerMessage) = [App OnSendPeerMessage] →
  wp (node_process_one ws)
     (λ b n', b = true ∧ ∃ s,
        PeerMessage_to_string (MkPeerMessage type sender receiver tag content t) = Ok s ∧
        ready x pc st ps (txt ++ [s]) evs n') n.
Proof.
  intros Hn Hwf Hrcv Hl. destruct (to_string_parse _ Hwf) as (s & Hs & _).
  eapply wp_mono; [eapply (process_plain _ _ _ _ _ _ _ (λ n', ready x pc st ps (txt ++ [s]) evs n'));
    [|exact Hn|]|].
  - by intros [].
  - intros n1 Hn1. eapply dispatch_one; [exact Hn1|exact Hl|]. by apply (send_out _ _ evs).
  - intros b n2 [-> Hn2]. split; [done|]. by exists s.
Qed.

(** A text of the other side becomes an event. *)
Lemma ready_receive ps txt evs m s n :
  ready x pc st ps txt evs n → wf_peer_message m → PeerMessage_to_string m = Ok s →
  wp (receive [s]) (λ _ n', ready x pc st ps txt (evs ++ [EvPeer (on_the_wire m)]) n') n.
Proof.
  intros Hn Hm Hs. destruct (to_string_parse m Hm) as (s' & Hs' & Hp).
  rewrite Hs in Hs'. injection Hs' as <-. unfold receive. cbn [for_each]. wp_step.
  unfold on_peer. wp_step. unfold on_message. wp_step. eapply wpx_lift_ok; [done|].
  wp_step. eapply wpx_lift_ok; [exact Hp|]. wp_step.
  eapply wpx_lift_ok; [by apply PeerMessage_from_to_json, Hm|].
  pose proof (live_enqueue _ _ _ _ _ (EvPeer (on_the_wire m)) _ Hn) as Hq.
  unfold on_peer, wp in Hq. rewrite wpx_zoom in Hq. eapply wpx_mono; [exact Hq| |done].
  intros [] p Hp'. by wp_step.
Qed.

(** ** Several messages *)

(** The event that puts [m] into the queue. *)
Definition carries (e : Event) (m : PeerMessage) : Prop :=
  ∃ t', e = EvInternalPeer (MkInternalMessage InternalMessageType.SendPeerMessage m t' 0).

(** The text of a well-formed message. *)
Definition spells (m : PeerMessage) (s : string) : Prop :=
  wf_peer_message m ∧ PeerMessage_to_string m = Ok s.

(** The events the messages are when they arrive. *)
Definition arrived (ms : list PeerMessage) : list Event :=
  map (λ m, EvPeer (on_the_wire m)) ms.

Lemma run_sends ws rounds ps txt evs ms (Q : unit → Node → Prop) n :
  sd_listeners x (InternalEvent InternalMessageType.SendPeerMessage) = [App OnSendPeerMessage] →
  Forall (λ m, wf_peer_message m ∧ mg_connections (sd_manager x) !! pm_receiver_identity m =
                                     Some (Some (sd_connection x))) ms →
  Forall2 carries evs ms → ready x pc st ps txt evs n → (length ms ≤ rounds)%nat →
  (∀ ss n', Forall2 spells ms ss → ready x pc st ps (txt ++ ss) [] n' → Q tt n') →
  wp (node_run ws rounds) Q n.
Proof.
  intros Hl Hms Hevs. revert rounds txt n Q Hms.
  induction Hevs as [|e m evs ms [t' ->] _ IH]; intros rounds txt n Q Hms Hn Hr HQ.
  - eapply run_idle; [exact Hn|]. apply (HQ []); [constructor|]. by rewrite app_nil_r.
  - apply Forall_cons in Hms as [[Hwf Hrcv] Hms]. cbn in Hr.
    destruct rounds as [|rounds]; [lia|]. eapply run_next; [exact Hn|]. destruct m.
    eapply wp_mono; [by eapply process_queued|]. intros b n1 (-> & s & Hs & Hn1). split; [done|].
    eapply (IH rounds (txt ++ [s])); [exact Hms|exact Hn1|lia|]. intros ss n2 Hss Hn2.
    apply (HQ (s :: ss)); [by constructor|]. by rewrite <-app_assoc in Hn2.
Qed.

Lemma ready_receive_all ps txt evs ms ss n :
  Forall2 spells ms ss → ready x pc st ps txt evs n →
  wp (receive ss) (λ _ n', ready x pc st ps txt (evs ++ arrived ms) n') n.
Proof.
  intros Hss. revert evs n. induction Hss as [|m s ms ss [Hm Hs] _ IH]; intros evs n Hn.
  { apply wpx_ret. by rewrite app_nil_r. }
  pose proof (ready_receive _ _ _ _ _ _ Hn Hm Hs) as Hone. unfold receive in *. cbn [for_each] in *.
  unfold wp in Hone. rewrite wpx_bind in Hone. wp_step. eapply wpx_mono; [exact Hone| |done].
  intros [] n1 Hn1. eapply wp_mono; [exact (IH _ _ Hn1)|].
  intros [] n2 Hn2. by rewrite <-app_assoc in Hn2.
Qed.
End Steps.

(** ** A question and its answer *)

(** The types some callbacks come to after main: those of connections, of the signaling client's
    start and of waiting calls. *)
Definition later_types : list EventType :=
  [PeerEvent PeerMessageType.PeerStateUpdate; SignalingEvent SignalingMessageType.RTCCandidate;
   InternalEvent InternalMessageType.SendSignalingMessage;
   NotificationEvent InternalNotificationType.SignalingServerOpened;
   NotificationEvent InternalNotificationType.DataChannelOpened].

(** The other types have the callbacks main has registered. *)
Definition wired (x : Side) : Prop :=
  ∀ type, type ∉ later_types → sd_listeners x type = registered node_listeners type.

Lemma wired_sends x :
  wired x →
  sd_listeners x (InternalEvent InternalMessageType.SendPeerMessage) = [App OnSendPeerMessage].
Proof. intros Hx. rewrite Hx; [done|]. by apply (bool_decide_unpack _). Qed.

Lemma wired_peer x type :
  wired x → type ≠ PeerMessageType.PeerStateUpdate →
  sd_listeners x (PeerEvent type) = registered node_listeners (PeerEvent type).
Proof. intros Hx Htype. apply Hx. unfold later_types. set_solver. Qed.

(** [x] is the end of [self] in a connection to [other]. *)
Record connected (x : Side) (self other : string) : Prop := {
  cn_identity : mg_identity (sd_manager x) = self;
  cn_entry : mg_connections (sd_manager x) !! other = Some (Some (sd_connection x));
  cn_wired : wired x }.

Section Between.
Context (xA xB : Side) (pcB : PeerConnection) (stB : Stores).

(** The second node has nothing to do, and the first one has seen all its texts. *)
Definition resting (ω : World) : Prop :=
  (∃ psB, ready xB pcB stB psB (node_texts (sd_channel xB) (w_b ω)) [] (w_b ω)) ∧
  w_ba ω = length (node_texts (sd_channel xB) (w_b ω)).

(** Nothing is on its way; [evs] wait in the first node. *)
Record between (pcA : PeerConnection) (stA : Stores) (psA : PromiseStore Event)
    (evs : list Event) (ω : World) : Prop := {
  bt_a : ready xA pcA stA psA (node_texts (sd_channel xA) (w_a ω)) evs (w_a ω);
  bt_b : resting ω;
  bt_ab : w_ab ω = length (node_texts (sd_channel xA) (w_a ω)) }.

(** The first node has sent [s], which has not arrived. *)
Record crossing (pcA : PeerConnection) (stA : Stores) (psA : PromiseStore Event) (s : string)
    (ω : World) : Prop := {
  cr_a : ∃ txt, ready xA pcA stA psA (txt ++ [s]) [] (w_a ω) ∧ w_ab ω = length txt;
  cr_b : resting ω }.
End Between.

Section Answered.
Context `{!ReliableChannels} (xA xB : Side) (idA idB : string) (wsA wsB rounds : nat).
Context (HA : connected xA idA idB) (HB : connected xB idB idA).
Context (pcB : PeerConnection) (stB : Stores).
Abbreviation between := (between xA xB pcB).

(** [m] is handled by [callback] at the second node, which answers with the messages [ms] and
    leaves the stores [st'], related by [R]. *)
Definition replies (callback : PeerCallback NodeCallback) (m : PeerMessage)
    (R : list PeerMessage → Stores → Prop) : Prop :=
  ∀ ps txt n, ready xB pcB stB ps txt [] n →
    wp (run_callback wsB callback (EvPeer m))
       (λ _ n', ∃ ms evs st', R ms st' ∧
          Forall (λ a, wf_peer_message a ∧ pm_receiver_identity a = idA) ms ∧
          Forall2 carries evs ms ∧ ready xB pcB st' ps txt evs n') n.

(** A text of the first node, through the second one, to the answers in the first one's queue. *)
Lemma round_trip_replies pcA stA psA m s callback R loops ω :
  crossing xA xB pcB stB pcA stA psA s ω → spells m s →
  sd_listeners xB (PeerEvent (peer_wire_type (pm_type m))) = [App callback] →
  replies callback (on_the_wire m) R →
  (∀ ms st', R ms st' → (length ms ≤ loops)%nat) →
  wp (round_trip (sd_channel xA) (sd_channel xB) wsB (S loops))
     (λ _ ω', ∃ ms st', R ms st' ∧ between st' pcA stA psA (arrived ms) ω') ω.
Proof.
  intros [(txtA & Ha & Hab) [(psB & Hb) Hba]] Hs Hl Hre Hloops.
  destruct HB as [HidB HcB HsB%wired_sends]. set (txtB := node_texts _ (w_b ω)) in *.
  unfold round_trip, deliver_ab. do 3 wp_step.
  rewrite (rd_sent _ _ _ _ _ _ _ Ha), Hab, drop_app_length. do 2 wp_step. cbn [lget bL].
  eapply wp_mono; [eapply ready_receive_all; [by constructor|exact Hb]|].
  intros [] nB HB1. cbn in HB1.
  wp_step. cbn [lset bL w_a w_b w_ab w_ba]. do 2 wp_step. cbn [lget bL w_b].
  eapply run_next; [exact HB1|]. eapply process_event; [|exact HB1|]; [done|].
  intros psB1 nB1 HB2 _ _. eapply dispatch_one; [exact HB2|exact Hl|].
  eapply wp_mono; [by apply Hre|].
  intros [] nB2 (ms & evs & st' & HR & Hms & Hevs & HB3).
  eapply run_sends; [exact HsB| |exact Hevs|exact HB3| |].
  { eapply Forall_impl; [exact Hms|]. intros a [Ha1 ->]. by split. }
  { by eapply Hloops. }
  intros ss nB4 Hss HB4. cbn [lset bL w_a w_b w_ab w_ba].
  unfold deliver_ba. do 2 wp_step. cbn [w_b w_ba].
  rewrite (rd_sent _ _ _ _ _ _ _ HB4), Hba, drop_app_length. do 2 wp_step. cbn [lget aL w_a].
  eapply wp_mono; [by eapply ready_receive_all|]. intros [] nA HA1. cbn in HA1.
  wp_step. cbn [lset aL w_a w_b w_ab w_ba]. exists ms, st'. split; [exact HR|].
  pose proof (rd_sent _ _ _ _ _ _ _ HA1) as HtA. pose proof (rd_sent _ _ _ _ _ _ _ HB4) as HtB.
  split; [|split|]; cbn [w_a w_b w_ab w_ba]; rewrite ?HtA, ?HtB, ?length_app;
    [exact HA1|by eexists|done|]. rewrite Hab. cbn. lia.
Qed.

(** One answer. *)
Definition reacts (callback : PeerCallback NodeCallback) (m : PeerMessage)
    (R : PeerMessage → Stores → Prop) : Prop :=
  ∀ ps txt n, ready xB pcB stB ps txt [] n →
    wp (run_callback wsB callback (EvPeer m))
       (λ _ n', ∃ type tag content t t' st',
          let a := MkPeerMessage type idB idA tag content t in
          R a st' ∧ wf_peer_message a ∧
          ready xB pcB st' ps txt [queued type idB idA tag content t t'] n') n.

Lemma round_trip_answers pcA stA psA m s callback R ω :
  crossing xA xB pcB stB pcA stA psA s ω → wf_peer_message m → PeerMessage_to_string m = Ok s →
  sd_listeners xB (PeerEvent (peer_wire_type (pm_type m))) = [App callback] →
  reacts callback (on_the_wire m) R →
  wp (round_trip (sd_channel xA) (sd_channel xB) wsB (S (S rounds)))
     (λ _ ω', ∃ a st', R a st' ∧ between st' pcA stA psA [EvPeer (on_the_wire a)] ω') ω.
Proof.
  intros Hc Hm Hs Hl Hre. eapply wp_mono; [eapply (round_trip_replies _ _ _ _ _ _
    (λ ms st', ∃ a, ms = [a] ∧ R a st') _ _ Hc (conj Hm Hs) Hl)|].
  - intros ps txt n Hn. eapply wp_mono; [by apply Hre|].
    intros [] n' (type & tag & content & t & t' & st' & HR & Ha & Hn').
    exists [MkPeerMessage type idB idA tag content t]. do 2 eexists. split; [by eexists|].
    split; [by constructor|]. split; [|exact Hn']. constructor; [by exists t'|constructor].
  - intros ms st' (a & -> & _). cbn. lia.
  - intros [] ω' (ms & st' & (a & -> & HR) & Hb). by exists a, st'.
Qed.

(** What the callback [callback] of the second node answers to [m]. *)
Definition answers (callback : PeerCallback NodeCallback) (m : PeerMessage)
    (type : PeerMessageType.t) (content : json) : Prop :=
  ∀ ps txt n, ready xB pcB stB ps txt [] n →
    wp (run_callback wsB callback (EvPeer m))
       (λ _ n', ∃ t t', u64 t ∧
          ready xB pcB stB ps txt [queued type idB idA (pm_tag m) content t t'] n') n.

Lemma exchange_answers pcA stA psA type tag content t t' callback rtype rcontent p ω :
  let m := MkPeerMessage type idA idB tag content t in
  between stB pcA stA psA [queued type idA idB tag content t t'] ω →
  ps_promises psA !! tag = Some p →
  wf_peer_message m → canonical rcontent →
  sd_listeners xB (PeerEvent (peer_wire_type type)) = [App callback] →
  sd_listeners xA (PeerEvent (peer_wire_type rtype)) = [] →
  answers callback (on_the_wire m) rtype rcontent →
  wp (exchange (sd_channel xA) (sd_channel xB) wsA wsB (S (S rounds)))
     (λ _ ω', ∃ psA' tr, between stB pcA stA psA' [] ω' ∧
        pr_results (ps_cells psA') !! p =
          Some (EvPeer (on_the_wire (MkPeerMessage rtype idB idA tag rcontent tr)))) ω.
Proof.
  intros m [Ha Hb Hab] Hp Hm Hrc Hlb Hla Hans. destruct HA as [HidA HcA HsA%wired_sends].
  unfold exchange. do 2 wp_step. cbn [lget aL]. eapply run_next; [exact Ha|].
  eapply wp_mono; [by eapply process_queued|].
  intros b nA (-> & s & Hs & HA1). split; [done|].
  eapply run_idle; [exact HA1|]. cbn [lset aL]. wp_step.
  eapply (wp_mono _ (λ _ ω', ∃ tr, between stB pcA stA psA
    [EvPeer (on_the_wire (MkPeerMessage rtype idB idA tag rcontent tr))] ω')); [|].
  - eapply wp_mono; [eapply (round_trip_answers pcA stA psA m s callback (λ a st', st' = stB ∧
      ∃ tr, a = MkPeerMessage rtype idB idA tag rcontent tr)); [|exact Hm|exact Hs|exact Hlb|]|].
    + split; [|exact Hb]. eexists. split; [exact HA1|exact Hab].
    + intros ps txt n Hn. eapply wp_mono; [by apply Hans|]. intros [] n' (tr & tr' & Htr & Hn').
      destruct Hm as (Ht1 & Ht2 & Ht3 & _ & _).
      exists rtype, tag, rcontent, tr, tr', stB. split; [by split; [|exists tr]|].
      split; [by split_and!|exact Hn'].
    + intros [] ω' (a & st' & (-> & tr & ->) & Hbt). by exists tr.
  - intros [] ω1 (tr & [Ha1 Hb1 Hab1]). wp_step. cbn [lget aL].
    eapply run_next; [exact Ha1|]. eapply process_event; [|exact Ha1|]; [done|].
    intros psA' nA2 HA3 Hps _. eapply wp_mono; [by eapply dispatch_none|].
    intros [] nA3 ->. eapply run_idle; [exact HA3|]. cbn [lset aL].
    exists psA', tr. split; [|by apply Hps].
    pose proof (rd_sent _ _ _ _ _ _ _ HA3) as HtA.
    split; cbn [w_a w_b w_ab w_ba]; rewrite ?HtA; [exact HA3|exact Hb1|exact Hab1].
Qed.

(** What a coroutine of the first node puts into its queue to ask [content] under [type], and the
    answer the second node gives to it, whatever its tag and its time. *)
Definition asks (pcA : PeerConnection) (stA : Stores) (ask : M Node nat)
    (type : PeerMessageType.t) (content : json) : Prop :=
  ∀ ps txt n, ready xA pcA stA ps txt [] n →
    wp ask (λ p n', ∃ tag t t' ps', u64 t ∧ text tag ∧ ps_promises ps' !! tag = Some p ∧
              ready xA pcA stA ps' txt [queued type idA idB tag content t t'] n') n.

Record dialogue (type : PeerMessageType.t) (content : json) (rtype : PeerMessageType.t)
    (rcontent : json) : Prop := {
  dl_content : canonical content;
  dl_answer : canonical rcontent;
  dl_nobody : sd_listeners xA (PeerEvent (peer_wire_type rtype)) = [];
  dl_callback : ∃ callback,
    sd_listeners xB (PeerEvent (peer_wire_type type)) = [App callback] ∧
    ∀ tag t, answers callback (on_the_wire (MkPeerMessage type idA idB tag content t))
               rtype rcontent }.

Lemma ask_answered pcA stA psA ask type content rtype rcontent ω :
  text idA → text idB → asks pcA stA ask type content →
  dialogue type content rtype rcontent → between stB pcA stA psA [] ω →
  wp (p ← zoom aL ask;
      world_answers (sd_channel xA) (sd_channel xB) wsA wsB (S (S rounds)) (Answer p))
     (λ e ω', ∃ psA' tag tr, between stB pcA stA psA' [] ω' ∧
        e = EvPeer (on_the_wire (MkPeerMessage rtype idB idA tag rcontent tr))) ω.
Proof.
  intros HtA HtB Hask [Hc Hrc Hla (callback & Hlb & Hans)] [Ha Hb Hab]. do 2 wp_step.
  cbn [lget aL]. eapply wp_mono; [by eapply Hask|].
  intros p n' (tag & t & t' & psA1 & Ht & Htag & Hp & Ha'). cbn [lset aL].
  pose proof (rd_sent _ _ _ _ _ _ _ Ha') as Hsent.
  assert (between stB pcA stA psA1 [queued type idA idB tag content t t']
    (MkWorld n' (w_b ω) (w_ab ω) (w_ba ω))) as Hbt.
  { split; cbn [w_a w_b w_ab w_ba]; [by rewrite Hsent|exact Hb|by rewrite Hsent]. }
  unfold world_answers.
  pose proof (exchange_answers pcA stA psA1 type tag content t t' callback rtype rcontent p _ Hbt
    Hp ltac:(by split_and!) Hrc Hlb Hla (Hans tag t)) as Hex.
  apply wp_run in Hex as ([] & ω' & Hrun & psA' & tr & Hbt' & Hres). unfold wpx. rewrite Hrun.
  unfold result_of. rewrite (rd_promises _ _ _ _ _ _ (bt_a _ _ _ _ _ _ _ _ _ Hbt')), Hres.
  by exists psA', tag, tr.
Qed.

(** ** The callbacks that answer *)

(** Both requests of a PeerManager are answered with a member of the other one. *)
Lemma answers_from_manager {B} callback m type (member : PeerManager → B) (to_json : B → json) :
  pm_sender_identity m = idA →
  run_callback wsB callback (EvPeer m) =
    on_peer (message ← lift_result (get_peer (EvPeer m));
             id ← gets identity;
             value ← gets (λ p, member (pr_manager p));
             send_and_forget type id (pm_sender_identity message) (pm_tag message)
               (to_json value)) →
  answers callback m type (to_json (member (sd_manager xB))).
Proof.
  intros Hid Hrun ps txt n Hn. rewrite Hrun. destruct HB as [HidB _ _].
  pose proof (live_send xB (over xB pcB txt) stB ps [] type idB idA (pm_tag m)
    (to_json (member (sd_manager xB))) n Hn) as Hs. destruct Hn. unfold on_peer in *.
  unfold wp in *. rewrite wpx_zoom in *. wp_step. eapply wpx_lift_ok; [done|]. do 4 wp_step.
  cbn [lget peerL] in *. unfold identity. rewrite rd_manager, HidB, Hid. exact Hs.
Qed.

Lemma answers_type_request m :
  pm_sender_identity m = idA →
  answers OnPeerTypeRequest m PeerMessageType.PeerTypeResponse
    (enum_to_json PeerType.table (mg_type (sd_manager xB))).
Proof.
  intros Hid. by apply (answers_from_manager _ _ _ mg_type (enum_to_json PeerType.table)).
Qed.

Lemma answers_state_request m :
  pm_sender_identity m = idA →
  answers OnPeerStateRequest m PeerMessageType.PeerStateResponse
    (enum_to_json PeerState.table (mg_state (sd_manager xB))).
Proof.
  intros Hid. by apply (answers_from_manager _ _ _ mg_state (enum_to_json PeerState.table)).
Qed.

Lemma ready_view n : lset (lens_comp storesL chainL) (lget (lens_comp storesL chainL) n) n = n.
Proof. by destruct n as [p []]. Qed.

Lemma answers_headers_request m last_header hs :
  pm_sender_identity m = idA → pm_receiver_identity m = idB →
  BlockHeader_from_json (pm_content m) = Ok last_header →
  get_all_after last_header (st_chain stB) = Ok hs →
  answers (Program (ChainCallback OnBlockHeadersRequest)) m PeerMessageType.BlockHeadersResponse
    (BlockHeadersResponseContent_to_json hs).
Proof.
  intros HA1 HB1 Hm Hhs ps txt n Hn. cbn [run_callback run_node_callback run_blockchain_listener].
  unfold on_block_headers_request. wp_step. eapply wpx_lift_ok; [done|]. wp_step.
  eapply wpx_lift_ok; [exact Hm|]. wp_step. unfold on_chain.
  eapply (wpx_zoom (lens_comp storesL chainL)).
  eapply wpx_reads_ok; [cbn; rewrite (rd_stores _ _ _ _ _ _ Hn); exact Hhs|].
  rewrite ready_view, HA1, HB1. exact (live_send xB (over xB pcB txt) stB ps [] _ _ _ _ _ n Hn).
Qed.

Lemma answers_block_request m h b :
  pm_sender_identity m = idA → BlockHeader_from_json (pm_content m) = Ok h →
  db_wf (T:=Block) (st_chain stB) → db_abs (st_chain stB) !! bh_hash h = Some b →
  answers (Program (ChainCallback OnBlockRequest)) m PeerMessageType.BlockResponse
    (Block_to_json b).
Proof.
  intros HA1 Hm Hwf Hb ps txt n Hn. cbn [run_callback run_node_callback run_blockchain_listener].
  unfold on_block_request. wp_step. eapply wpx_lift_ok; [done|]. wp_step.
  eapply wpx_lift_ok; [exact Hm|]. wp_step. unfold on_chain.
  eapply (wpx_zoom (lens_comp storesL chainL)).
  eapply wpx_reads_ok; [cbn; rewrite (rd_stores _ _ _ _ _ _ Hn), get_abs, Hb by done; done|].
  rewrite ready_view. do 2 wp_step.
  assert (svc_id n = idB) as ->.
  { destruct HB as [<- _ _]. unfold svc_id. cbn. unfold identity.
    by rewrite (rd_manager _ _ _ _ _ _ Hn). }
  rewrite HA1. exact (live_send xB (over xB pcB txt) stB ps [] _ _ _ _ _ n Hn).
Qed.
End Answered.
End Ready.
