(* ===== verification/Sync.v ===== *)
(** * The initial block download between two nodes

    In the world of Exchange.v a node whose chain is behind asks the full node it is connected
    to, step by step: its type, its state, the headers after the own newest block, and the
    blocks. *)

From stdpp Require Import base sets list gmap strings.
From Stdlib Require Import ZArith Lia.
From S2P Require Import Prelude Json Crypto LevelDB Fifo Rtc Enums Models Messages DBInterface.
From S2P Require Import Stores Blockchain Validator TransactionPool Event Coroutine Services.
From S2P Require Import BlockchainManager TransactionPoolManager Miner Peer RetryHandler.
From S2P Require Import PeerConnection PeerManager WaitForPeers SignalingClient Node.
From S2P Require Import NodeInvariant Loop Exchange.

Open Scope Z_scope.

Section Sync.
Context `{JsonLib} `{CryptoLib} `{LevelDB} `{FifoLib} `{EventppLib} `{RtcLib} `{HostLib}.
Context `{HashOrder} `{!ReliableChannels}.
Context (xA xB : Side) (idA idB : string) (wsA wsB rounds : nat).
Context (pcB : PeerConnection) (stB : Stores).

(** Two nodes with one connection; the second one is a full node and open. *)
Record two_nodes : Prop := {
  tn_a : connected xA idA idB;
  tn_b : connected xB idB idA;
  tn_text_a : text idA;
  tn_text_b : text idB;
  tn_only : mg_connections (sd_manager xA) = {[idB := Some (sd_connection xA)]};
  tn_type : mg_type (sd_manager xB) = PeerType.Full;
  tn_state : mg_state (sd_manager xB) = PeerState.Open;
  tn_posted : sd_posted xB = None }.

Context (HN : two_nodes).
Abbreviation env := (world_answers (sd_channel xA) (sd_channel xB) wsA wsB (S (S rounds))).
Abbreviation between := (between xA xB pcB stB).
Abbreviation peerA := (lens_comp aL peerL).

(** What the second node's answer looks like when it arrives. *)
Definition answer_event (type : PeerMessageType.t) (content : json) (tag : string) (t : Z)
    : Event :=
  EvPeer (on_the_wire (MkPeerMessage type idB idA tag content t)).

(** A coroutine asks, waits, and goes on with the answer. *)
Lemma drive_asked {S B} (l : Lens World S) `{!LensLaws l} (ask : M S nat) (ask' : M Node nat)
    (f : Event → Coroutine S B) pcA stA psA type content rtype rcontent (Q : B → World → Prop) ω :
  (∀ ω, zoom l ask ω = zoom aL ask' ω) →
  asks xA idA idB pcA stA ask' type content →
  dialogue xA xB idA idB wsB pcB stB type content rtype rcontent →
  between pcA stA psA [] ω →
  (∀ psA' tag t ω', between pcA stA psA' [] ω' →
     wp (drive l env (f (answer_event rtype rcontent tag t))) Q ω') →
  wp (drive l env (p ← co_lift ask; e ← await p; f e)) Q ω.
Proof.
  intros Hask Ha Hd Hb Hf. destruct HN.
  pose proof (ask_answered xA xB idA idB wsA wsB rounds tn_a0 tn_b0 pcB stB pcA stA psA ask' type
    content rtype rcontent ω tn_text_a0 tn_text_b0 Ha Hd Hb) as Hans.
  unfold wp in *. rewrite wpx_bind in Hans. rewrite wpx_drive_bind, wpx_drive_lift by done.
  unfold wpx at 1. rewrite Hask. unfold wpx at 1 in Hans.
  destruct (zoom aL ask' ω) as [[p|e] ω1]; [|done].
  rewrite wpx_drive_bind by done. apply (wpx_drive_await l env (Answer p)).
  eapply wpx_mono; [exact Hans| |done]. intros e ω' (psA' & tag & t & Hb' & ->).
  exact (Hf psA' tag t ω' Hb').
Qed.

(** ** What the first node asks, and what the second one answers *)

Definition told_type (pc : PeerConnection) (type : PeerType.t) : PeerConnection :=
  MkPeerConnection (pc_identity pc) (pc_rtc pc) (pc_channel pc) type (pc_state pc)
    (pc_handles pc).

Definition told_state (pc : PeerConnection) (state : PeerState.t) : PeerConnection :=
  MkPeerConnection (pc_identity pc) (pc_rtc pc) (pc_channel pc) (pc_type pc) state
    (pc_handles pc).

Lemma asks_request pcA stA type header :
  asks xA idA idB pcA stA (request type idB header) type (BlockHeader_to_json header).
Proof.
  intros ps txt n Hn. destruct HN as [[<- _ _] _ _ _ _ _ _ _].
  exact (live_ask xA (over xA pcA txt) stA ps type idB (BlockHeader_to_json header) n Hn).
Qed.

Lemma asks_peer pcA stA type :
  pc_identity pcA = idB → asks xA idA idB pcA stA (on_peer (ask_peer type pcA)) type jnull.
Proof.
  intros Hid ps txt n Hn. destruct HN as [[<- _ _] _ _ _ _ _ _ _].
  pose proof (live_ask xA (over xA pcA txt) stA ps type idB jnull n Hn) as Hask.
  unfold ask_peer. rewrite Hid. exact Hask.
Qed.

Lemma type_dialogue :
  dialogue xA xB idA idB wsB pcB stB PeerMessageType.PeerTypeRequest jnull
    PeerMessageType.PeerTypeResponse (enum_to_json PeerType.table PeerType.Full).
Proof.
  destruct HN. split; [apply canonical_null|by apply enum_to_json_canonical|
    by rewrite (wired_peer _ _ (cn_wired _ _ _ tn_a0))|].
  exists OnPeerTypeRequest. split; [by rewrite (wired_peer _ _ (cn_wired _ _ _ tn_b0))|]. intros tag t.
  rewrite <-tn_type0. by apply answers_type_request.
Qed.

Lemma state_dialogue :
  dialogue xA xB idA idB wsB pcB stB PeerMessageType.PeerStateRequest jnull
    PeerMessageType.PeerStateResponse (enum_to_json PeerState.table PeerState.Open).
Proof.
  destruct HN. split; [apply canonical_null|by apply enum_to_json_canonical|
    by rewrite (wired_peer _ _ (cn_wired _ _ _ tn_a0))|].
  exists OnPeerStateRequest. split; [by rewrite (wired_peer _ _ (cn_wired _ _ _ tn_b0))|]. intros tag t.
  rewrite <-tn_state0. by apply answers_state_request.
Qed.

Lemma headers_dialogue header hs :
  wf_header header → Forall wf_header hs → get_all_after header (st_chain stB) = Ok hs →
  dialogue xA xB idA idB wsB pcB stB PeerMessageType.BlockHeadersRequest
    (BlockHeader_to_json header)
    PeerMessageType.BlockHeadersResponse (BlockHeadersResponseContent_to_json hs).
Proof.
  intros Hh Hhs Hget. destruct HN.
  split; [by apply BlockHeader_to_json_canonical|by apply BlockHeadersResponseContent_to_json_canonical|
    by rewrite (wired_peer _ _ (cn_wired _ _ _ tn_a0))|].
  eexists. split; [by rewrite (wired_peer _ _ (cn_wired _ _ _ tn_b0))|]. intros tag t.
  eapply answers_headers_request; try done.
  by apply BlockHeader_from_to_json.
Qed.

Lemma block_dialogue b :
  db_wf (T:=Block) (st_chain stB) → chain_map stB !! Block_hash b = Some b →
  dialogue xA xB idA idB wsB pcB stB PeerMessageType.BlockRequest
    (BlockHeader_to_json (bl_header b))
    PeerMessageType.BlockResponse (Block_to_json b).
Proof.
  intros Hwf Hb. destruct (db_abs_inv (T:=Block) _ _ _ Hwf Hb) as (_ & Hok & _).
  destruct HN. pose proof Hok as [Hh _].
  split; [by apply BlockHeader_to_json_canonical|by apply Block_to_json_canonical|
    by rewrite (wired_peer _ _ (cn_wired _ _ _ tn_a0))|].
  eexists. split; [by rewrite (wired_peer _ _ (cn_wired _ _ _ tn_b0))|]. intros tag t.
  eapply answers_block_request; try done.
  by apply BlockHeader_from_to_json.
Qed.

(** ** The coroutines of the first node, one after the other *)

#[local] Instance peerA_laws : LensLaws peerA.
Proof. apply lens_comp_laws; apply _. Qed.

Lemma connection_of pcA stA psA ω :
  between pcA stA psA [] ω →
  connection (sd_connection xA) (lget peerA ω) = (Ok pcA, lget peerA ω).
Proof.
  intros [Ha _ _]. unfold connection, mbind, M_bind, gets. cbn.
  by rewrite (rd_heap _ _ _ _ _ _ _ Ha).
Qed.

Lemma connections_of pcA stA psA ω :
  between pcA stA psA [] ω →
  lget connectionsL (lget peerA ω) = {[idB := Some (sd_connection xA)]}.
Proof.
  intros [Ha _ _]. destruct HN. cbn. by rewrite (rd_manager _ _ _ _ _ _ Ha).
Qed.

(** The connection object learns something. *)
Lemma between_told pcA pcA' stA psA ω :
  between pcA stA psA [] ω → pc_channel pcA' = pc_channel pcA →
  wp (zoom peerA (update_connection (sd_connection xA) pcA'))
     (λ _ ω', between pcA' stA psA [] ω') ω.
Proof.
  intros [Ha Hb Hab] Hch. unfold update_connection. do 3 wp_step. destruct Ha.
  destruct rd_frame. split; try done. split; try done. split; try done; cbn; [apply lookup_insert_eq|by rewrite Hch].
Qed.

(** What the first node knows of the second one's type and state is nothing or true. *)
Definition knows (pcA : PeerConnection) : Prop :=
  pc_identity pcA = idB ∧ (pc_type pcA = PeerType.Unknown ∨ pc_type pcA = PeerType.Full) ∧
  (pc_state pcA = PeerState.Unknown ∨ pc_state pcA = PeerState.Open).

Lemma zoom_peerA {B} (m : M Peer B) ω : zoom peerA m ω = zoom aL (on_peer m) ω.
Proof. unfold zoom, on_peer, zoom. cbn. by destruct (m (nd_peer (w_a ω))). Qed.

(** The answer is stored in the connection object. *)
Lemma stores_type pcA stA psA tag t ω :
  between pcA stA psA [] ω →
  wp (zoom peerA (store_type (sd_connection xA) (answer_event PeerMessageType.PeerTypeResponse
        (enum_to_json PeerType.table PeerType.Full) tag t)))
     (λ type ω', type = PeerType.Full ∧ between (told_type pcA PeerType.Full) stA psA [] ω') ω.
Proof.
  intros Hb. pose proof (between_told _ (told_type pcA PeerType.Full) _ _ _ Hb eq_refl) as Hu.
  unfold wp in *. apply (wpx_zoom peerA) in Hu. apply (wpx_zoom peerA). unfold store_type. wp_step. eapply wpx_lift_ok; [done|].
  wp_step. unfold wpx at 1. rewrite (connection_of _ _ _ _ Hb). cbn [pm_content on_the_wire].
  rewrite enum_roundtrip by (apply PeerType_table_ok || apply PeerType_in_table). wp_step.
  eapply wpx_mono; [exact Hu| |done]. intros [] p Hp. by wp_step.
Qed.

Lemma stores_state pcA stA psA tag t ω :
  between pcA stA psA [] ω →
  wp (zoom peerA (store_state (sd_connection xA) (answer_event PeerMessageType.PeerStateResponse
        (enum_to_json PeerState.table PeerState.Open) tag t)))
     (λ state ω', state = PeerState.Open ∧ between (told_state pcA PeerState.Open) stA psA [] ω')
     ω.
Proof.
  intros Hb. pose proof (between_told _ (told_state pcA PeerState.Open) _ _ _ Hb eq_refl) as Hu.
  unfold wp in *. apply (wpx_zoom peerA) in Hu. apply (wpx_zoom peerA). unfold store_state. wp_step. eapply wpx_lift_ok; [done|].
  wp_step. unfold wpx at 1. rewrite (connection_of _ _ _ _ Hb). cbn [pm_content on_the_wire].
  rewrite enum_roundtrip by (apply PeerState_table_ok || apply PeerState_in_table). wp_step.
  eapply wpx_mono; [exact Hu| |done]. intros [] p Hp. by wp_step.
Qed.

Lemma knows_type pcA : knows pcA → knows (told_type pcA PeerType.Full).
Proof. intros (? & ? & ?). split_and!; cbn; auto. Qed.

Lemma drive_type pcA stA psA ω :
  knows pcA → between pcA stA psA [] ω →
  wp (drive peerA env (type_of idB))
     (λ type ω', type = PeerType.Full ∧
        ∃ psA', between (told_type pcA PeerType.Full) stA psA' [] ω') ω.
Proof.
  intros (Hid & Ht & _) Hb. unfold type_of. eapply drive_reads; [apply _|done|].
  rewrite (connections_of _ _ _ _ Hb), lookup_singleton_eq.
  eapply drive_reads; [apply _|done|]. unfold connection_type.
  eapply drive_reads; [apply _|by eapply connection_of|]. case_decide as Hu.
  - eapply drive_asked; [apply _|apply zoom_peerA| |apply type_dialogue|done|].
    { by apply asks_peer. }
    intros psA' tag t ω' Hb'. unfold wp. rewrite wpx_drive_lift.
    eapply wp_mono; [by apply stores_type|]. intros type ω2 [-> ?]. split; [done|by eexists].
  - destruct Ht as [Ht|Ht]; [done|]. unfold wp. rewrite wpx_drive_ret by apply _. split; [done|].
    exists psA. rewrite <-Ht. by destruct pcA.
Qed.

Lemma drive_state pcA stA psA ω :
  knows pcA → between pcA stA psA [] ω →
  wp (drive peerA env (state_of idB))
     (λ state ω', state = PeerState.Open ∧
        ∃ psA', between (told_state pcA PeerState.Open) stA psA' [] ω') ω.
Proof.
  intros (Hid & _ & Ht) Hb. unfold state_of. eapply drive_reads; [apply _|done|].
  rewrite (connections_of _ _ _ _ Hb), lookup_singleton_eq.
  eapply drive_reads; [apply _|done|]. unfold connection_state.
  eapply drive_reads; [apply _|by eapply connection_of|]. case_decide as Hu.
  - eapply drive_asked; [apply _|apply zoom_peerA| |apply state_dialogue|done|].
    { by apply asks_peer. }
    intros psA' tag t ω' Hb'. unfold wp. rewrite wpx_drive_lift.
    eapply wp_mono; [by apply stores_state|]. intros state ω2 [-> ?]. split; [done|by eexists].
  - destruct Ht as [Ht|Ht]; [done|]. unfold wp. rewrite wpx_drive_ret by apply _. split; [done|].
    exists psA. rewrite <-Ht. by destruct pcA.
Qed.

(** wait_for_peers finds the second node. *)
Lemma drive_wait pcA stA psA ω :
  knows pcA → between pcA stA psA [] ω →
  wp (drive peerA env (wait_for_peers 1 [PeerType.Full] [PeerState.Open]))
     (λ ids ω', ids = [idB] ∧ ∃ pcA' psA', pc_type pcA' = PeerType.Full ∧
        between pcA' stA psA' [] ω') ω.
Proof.
  intros Hk Hb. unfold wait_for_peers. eapply drive_reads; [apply _|done|].
  rewrite (connections_of _ _ _ _ Hb), hash_order_singleton. cbn [co_fold].
  unfold wp. rewrite !wpx_drive_bind by apply _. unfold collect_wanted, details_getter.
  rewrite !wpx_drive_bind by apply _. eapply wp_mono; [by eapply drive_type|].
  intros type ω1 [-> (ps1 & Hb1)]. rewrite wpx_drive_bind by apply _.
  eapply wp_mono; [eapply (drive_state _ _ _ _ (knows_type _ Hk) Hb1)|].
  intros state ω2 [-> (ps2 & Hb2)]. rewrite !wpx_drive_ret by apply _.
  apply (wpx_drive_ret peerA env [idB]). split; [done|]. do 2 eexists. by split; [|exact Hb2].
Qed.

(** ** Headers and blocks *)

Lemma drive_headers pcA stA psA header hs ω :
  wf_header header → Forall wf_header hs → get_all_after header (st_chain stB) = Ok hs →
  between pcA stA psA [] ω →
  wp (drive aL env (request_headers [idB] header))
     (λ best ω', best = (hs, idB) ∧ ∃ psA', between pcA stA psA' [] ω') ω.
Proof.
  intros Hh Hhs Hget Hb. unfold request_headers, wp. cbn [co_fold].
  rewrite !wpx_drive_bind by apply _. eapply drive_asked; [apply _|done|apply asks_request|
    by apply headers_dialogue|done|].
  intros psA' tag t ω' Hb'. unfold wp. rewrite wpx_drive_bind, wpx_drive_lift by apply _.
  apply wpx_zoom. eapply wpx_lift_ok.
  { unfold headers_of_response. cbn. by rewrite BlockHeadersResponseContent_from_to_json. }
  rewrite lset_lget, !wpx_drive_ret by apply _. apply (wpx_drive_lift aL env (mret (hs, idB))).
  apply wpx_zoom. wp_step. rewrite lset_lget. split; [done|by eexists].
Qed.

Lemma drive_block pcA stA psA blocks b ω :
  db_wf (T:=Block) (st_chain stB) → chain_map stB !! Block_hash b = Some b →
  between pcA stA psA [] ω →
  wp (drive aL env (download_block idB blocks (bl_header b)))
     (λ blocks' ω', blocks' = blocks ++ [b] ∧ ∃ psA', between pcA stA psA' [] ω') ω.
Proof.
  intros Hwf Hin Hb. unfold download_block. eapply drive_asked; [apply _|done|
    apply asks_request|by apply block_dialogue|done|].
  intros psA' tag t ω' Hb'. unfold wp. rewrite wpx_drive_lift. apply wpx_zoom.
  eapply wpx_lift_ok; [|rewrite lset_lget; split; [done|by eexists]].
  unfold collect_block. cbn. rewrite Block_from_to_json; [done|].
  apply (db_abs_inv (T:=Block) _ _ _ Hwf Hin).
Qed.

Lemma drive_blocks pcA stA psA vs blocks ω :
  db_wf (T:=Block) (st_chain stB) → Forall (λ b, chain_map stB !! Block_hash b = Some b) vs →
  between pcA stA psA [] ω →
  wp (drive aL env (co_fold (download_block idB) (map bl_header vs) blocks))
     (λ blocks' ω', blocks' = blocks ++ vs ∧ ∃ psA', between pcA stA psA' [] ω') ω.
Proof.
  intros Hwf Hvs. revert blocks psA ω.
  induction Hvs as [|b vs Hb _ IH]; intros blocks psA ω Hbt; cbn [co_fold map].
  - unfold wp. rewrite wpx_drive_ret, app_nil_r by apply _. split; [done|by eexists].
  - unfold wp. rewrite wpx_drive_bind by apply _. eapply wp_mono; [by eapply drive_block|].
    intros blocks' ω1 [-> (ps1 & Hb1)]. eapply wp_mono; [by apply (IH _ ps1)|].
    intros blocks'' ω2 [-> Hps]. by rewrite <-app_assoc.
Qed.

(** What find_blocks finds: the blocks of the other chain that come after the own newest one,
    in the order of their hashes. *)
Lemma drive_find_blocks pcA stA psA g cs new ω :
  stores_wf stA → stores_wf stB → chain_of g cs (chain_map stA) →
  chain_of g (cs ++ new) (chain_map stB) → knows pcA → between pcA stA psA [] ω →
  wp (drive aL env find_blocks)
     (λ blocks ω', blocks ≡ₚ new ∧ ∃ pcA' psA', pc_type pcA' = PeerType.Full ∧
        between pcA' stA psA' [] ω') ω.
Proof.
  intros HwA HwB HcA HcB Hk Hb. pose proof (sw_chain _ HwB) as HdB.
  assert (∃ pre, g :: cs ++ new = pre ++ tip g cs :: new) as [pre Hpre].
  { destruct (tip_split g cs) as [pre Hpre]. exists pre.
    by rewrite app_comm_cons, Hpre, <-app_assoc. }
  destruct (get_all_after_perm g (cs ++ new) pre (tip g cs) new (st_chain stB) HdB HcB Hpre)
    as (vs & Hvs & Hperm).
  assert (∀ b, b ∈ g :: cs ++ new → chain_map stB !! Block_hash b = Some b) as Hin.
  { intros b Hb'. destruct HcB as (_ & _ & Hm). by apply Hm. }
  assert (∀ b, b ∈ g :: cs ++ new → wf_header (bl_header b)) as Hwf.
  { intros b Hb'. by apply (db_abs_inv (T:=Block) _ _ _ HdB (Hin b Hb')). }
  assert (Forall (λ b, chain_map stB !! Block_hash b = Some b) vs) as Hstored.
  { rewrite Hperm. apply Forall_forall. intros b Hb'. apply Hin. set_solver. }
  assert (Forall wf_header (map bl_header vs)) as Hheaders.
  { apply Forall_map. rewrite Hperm. apply Forall_forall. intros b Hb'. apply Hwf. set_solver. }
  assert (wf_header (bl_header (tip g cs))) as Htip.
  { apply Hwf. rewrite Hpre. set_solver. }
  unfold find_blocks. eapply (drive_reads aL env _ (tip g cs)).
  { unfold zoom, reads. cbn. rewrite (rd_stores _ _ _ _ _ _ (bt_a _ _ _ _ _ _ _ _ _ Hb)).
    rewrite (chain_last g cs) by (done || apply HwA). f_equal.
    rewrite <-(rd_stores _ _ _ _ _ _ (bt_a _ _ _ _ _ _ _ _ _ Hb)).
    by destruct (w_a ω) as [? []]. }
  unfold wp. rewrite wpx_drive_bind, wpx_drive_zoom by apply _.
  eapply wp_mono; [by eapply drive_wait|]. intros ids ω1 [-> (pc1 & ps1 & Hfull & Hb1)].
  rewrite wpx_drive_bind by apply _. eapply wp_mono; [by eapply drive_headers|].
  intros best ω2 [-> (ps2 & Hb2)]. cbn [fst snd].
  assert (wp (drive aL env (download_blocks idB (map bl_header vs)))
    (λ blocks ω', blocks ≡ₚ new ∧ ∃ pcA' psA', pc_type pcA' = PeerType.Full ∧
        between pcA' stA psA' [] ω') ω2) as Hdl.
  { eapply wp_mono; [by eapply drive_blocks|]. intros blocks ω3 [-> (ps3 & Hb3)].
    split; [exact Hperm|by do 2 eexists]. }
  destruct vs as [|v vs]; [|exact Hdl]. cbn [map]. rewrite wpx_drive_ret by apply _.
  split; [exact Hperm|by do 2 eexists].
Qed.
End Sync.

(** ** Properties *)

Section Properties.
Context `{JsonLib} `{CryptoLib} `{LevelDB} `{FifoLib} `{EventppLib} `{RtcLib} `{HostLib}.
Context `{HashOrder} `{!ReliableChannels}.

(** What the node does with the blocks it has found. *)
Lemma download_end_spec g cs new blocks n :
  ReliableWrites → stores_wf (nd_stores n) → chain_of g cs (chain_map (nd_stores n)) →
  linked (tip g cs) new → NoDup (map Block_hash (g :: cs ++ new)) → Forall wf_block blocks →
  blocks ≡ₚ new →
  wp (initial_block_download_end blocks)
     (λ _ n', stores_wf (nd_stores n') ∧ chain_of g (cs ++ new) (chain_map (nd_stores n')) ∧
        st_spent (nd_stores n') = st_spent (nd_stores n) ∧
        pool_map (nd_stores n') = pool_map (nd_stores n) ∧
        node_view n' = push_tasks (broadcast_tasks [PeerType.Full]
          PeerMessageType.SyncPoolRequest jnull (node_view n)) (node_view n)) n.
Proof.
  intros HR Hst Hc Hnew Hnd Hwf Hperm. unfold initial_block_download_end. wp_step.
  eapply wp_mono; [by apply (store_blocks_extends g cs new blocks)|].
  intros [] n1 (Hst1 & Hpeer & Hspent & Hpool & Hc1). do 2 wp_step.
  apply wpx_enqueue_stored; [apply Hst1|]. intros q vs Hvs Hq.
  eapply wp_mono; [apply wpx_node_broadcast|]. intros [] n2 [Hst2 Hview].
  rewrite Hst2, Hview. split; [by eapply stores_wf_enqueued|].
  unfold pool_map, chain_map. cbn. rewrite Hspent, Hpool.
  split_and!; try done. unfold node_view. cbn. by rewrite Hpeer.
Qed.

(** The hashes of a chain are all different. *)
Lemma chain_hashes g cs (m : gmap string Block) :
  chain_of g cs m → NoDup (map Block_hash (g :: cs)).
Proof.
  intros Hc. pose proof (chain_nodup _ _ _ Hc) as Hnd. destruct Hc as (_ & _ & Hm).
  apply (NoDup_fmap_2_strong Block_hash); [|exact Hnd]. intros b b' Hb Hb' Heq.
  assert (m !! Block_hash b = Some b) as Hlook by by apply Hm.
  assert (m !! Block_hash b' = Some b') as Hlook' by by apply Hm. congruence.
Qed.

(** The blocks of a stored chain are well formed. *)
Lemma new_blocks_wf g cs new st :
  stores_wf st → chain_of g (cs ++ new) (chain_map st) → Forall wf_block new.
Proof.
  intros Hwf (_ & _ & Hm). apply Forall_forall. intros b Hin.
  apply (db_abs_inv (T:=Block) (st_chain st) (Block_hash b) b (sw_chain _ Hwf)).
  apply Hm. split; [done|]. set_solver.
Qed.

(** The download up to its last segment, which posts the request for the pool. *)
Lemma download_runs xA xB idA idB wsA wsB rounds pcA pcB stA stB psA g cs new ω :
  ReliableWrites → two_nodes xA xB idA idB → knows idB pcA →
  between xA xB pcB stB pcA stA psA [] ω → stores_wf stA → stores_wf stB →
  chain_of g cs (chain_map stA) → chain_of g (cs ++ new) (chain_map stB) →
  ∃ ω1 ω',
    drive aL (world_answers (sd_channel xA) (sd_channel xB) wsA wsB (S (S rounds)))
      (blocks ← find_blocks; co_lift (initial_block_download_end blocks)) ω = (Ok tt, ω') ∧
    chain_map (nd_stores (w_a ω')) = chain_map stB ∧ nd_stores (w_b ω') = stB ∧
    st_spent (nd_stores (w_a ω')) = st_spent stA ∧
    pool_map (nd_stores (w_a ω')) = pool_map stA ∧
    pr_manager (nd_peer (w_a ω1)) = sd_manager xA ∧
    node_view (w_a ω') = push_tasks (broadcast_tasks [PeerType.Full]
      PeerMessageType.SyncPoolRequest jnull (node_view (w_a ω1))) (node_view (w_a ω1)).
Proof.
  intros HR HN Hk Hb HwA HwB HcA HcB.
  pose proof (drive_find_blocks xA xB idA idB wsA wsB rounds pcB stB HN pcA stA psA g cs new ω
    HwA HwB HcA HcB Hk Hb) as Hfind.
  pose proof (new_blocks_wf g cs new stB HwB HcB) as Hwf.
  pose proof HcB as (_ & Hl & _). apply linked_app in Hl as [_ Hl].
  apply wp_run in Hfind as (blocks & ω1 & Hrun & Hperm & pc1 & ps1 & _ & [Ha [(psB & HB) _] _]).
  pose proof (rd_stores _ _ _ _ _ _ Ha) as HstA.
  pose proof (download_end_spec g cs new blocks (w_a ω1)) as Hend. rewrite HstA in Hend.
  specialize (Hend HR HwA HcA Hl (chain_hashes _ _ _ HcB) ltac:(by rewrite Hperm) Hperm).
  apply wp_run in Hend as ([] & n' & Hrun' & _ & Hc' & Hspent & Hpool & Hview).
  exists ω1, (lset aL n' ω1). split.
  { rewrite drive_bind by apply _. unfold mbind, M_bind. rewrite Hrun, drive_lift by apply _.
    unfold zoom. cbn. by rewrite Hrun'. }
  split_and!; [|exact (rd_stores _ _ _ _ _ _ HB)|exact Hspent|exact Hpool|
    exact (rd_manager _ _ _ _ _ _ Ha)|exact Hview].
  by apply (chain_of_unique g (cs ++ new)).
Qed.

(** C2: nodes synchronise: a node whose chain is a prefix of the chain of the one full node it is
    connected to ends its initial block download with the same chain, when nothing is lost on
    the channel, whatever the messages in between are stamped with and in whatever order the
    other node's database lists the blocks. The other node's stores, the own pool and the own
    spent transactions stay as they are, and the other node is asked for its pool. *)
Theorem download_synchronises xA xB idA idB wsA wsB rounds pcA pcB stA stB psA g cs new ω :
  ReliableWrites → two_nodes xA xB idA idB → knows idB pcA →
  between xA xB pcB stB pcA stA psA [] ω → stores_wf stA → stores_wf stB →
  chain_of g cs (chain_map stA) → chain_of g (cs ++ new) (chain_map stB) →
  ∃ ω' tasks,
    drive aL (world_answers (sd_channel xA) (sd_channel xB) wsA wsB (S (S rounds)))
      (blocks ← find_blocks; co_lift (initial_block_download_end blocks)) ω = (Ok tt, ω') ∧
    chain_map (nd_stores (w_a ω')) = chain_map stB ∧ nd_stores (w_b ω') = stB ∧
    st_spent (nd_stores (w_a ω')) = st_spent stA ∧
    pool_map (nd_stores (w_a ω')) = pool_map stA ∧
    v_posted (node_view (w_a ω')) = tasks ++
      [MkTask idA [PeerType.Full] idB (Some (sd_connection xA)) PeerMessageType.SyncPoolRequest
         jnull].
Proof.
  intros HR HN Hk Hb HwA HwB HcA HcB.
  destruct (download_runs xA xB idA idB wsA wsB rounds pcA pcB stA stB psA g cs new ω HR HN Hk Hb
    HwA HwB HcA HcB) as (ω1 & ω' & Hrun & Hc & HB & Hspent & Hpool & Hmg & Hview).
  exists ω'. eexists. split; [exact Hrun|]. split_and!; [done..|].
  rewrite Hview. unfold push_tasks, broadcast_tasks. cbn [v_posted]. f_equal. cbn.
  destruct HN. rewrite Hmg, tn_only0, hash_order_singleton. cbn.
  unfold identity. rewrite Hmg. by destruct tn_a0 as [-> _ _].
Qed.
End Properties.
