(* ===== verification/Broadcast.v ===== *)
(** * A broadcast to the other node

    In the world of Exchange.v the first node has posted a broadcast to its executor. The task
    runs, and its message leaves on the channel. Before that, what the managers' handlers leave
    alone in a node. *)

From stdpp Require Import base sets list gmap strings.
From Stdlib Require Import ZArith Lia.
From S2P Require Import Prelude Json Crypto LevelDB Fifo Rtc Enums Models Messages DBInterface.
From S2P Require Import Stores Blockchain Validator TransactionPool Event Coroutine Services.
From S2P Require Import BlockchainManager TransactionPoolManager Miner Peer RetryHandler.
From S2P Require Import PeerConnection PeerManager WaitForPeers SignalingClient Node.
From S2P Require Import NodeInvariant Loop Exchange Sync.

Open Scope Z_scope.

(** ** The executor *)

Section World.
Context `{JsonLib} `{CryptoLib} `{LevelDB} `{FifoLib} `{EventppLib} `{RtcLib} `{HostLib}.
Context `{HashOrder}.
Context (ch_a ch_b ws_a ws_b rounds : nat).
Abbreviation peerA := (lens_comp aL peerL).
Abbreviation answers_a := (world_answers ch_a ch_b ws_a ws_b rounds).

(** The executor runs the broadcasts the first node has posted. *)
Definition run_posted : M World unit :=
  tasks ← gets (λ ω, v_posted (node_view (w_a ω)));
  for_each tasks (λ task, drive peerA answers_a (run_task (BroadcastTask task))).

End World.

(** ** What the managers' handlers leave alone *)

Section Settled.
Context `{JsonLib} `{CryptoLib} `{LevelDB} `{FifoLib} `{EventppLib} `{RtcLib} `{HostLib}.
Context `{HashOrder} `{!ReliableChannels} (x : Side) (pc : PeerConnection).
Context (Hbusy : sd_posted x = None) (ps : PromiseStore Event) (txt : list string).
Implicit Types (n : Node).

(** The node of side [x], with the stores and the queue it happens to have. *)
Definition settled n : Prop := ready x pc (nd_stores n) ps txt (pending (nd_peer n)) n.

Lemma ready_settled st evs n :
  ready x pc st ps txt evs n → settled n ∧ nd_stores n = st ∧ pending (nd_peer n) = evs.
Proof.
  intros Hn. pose proof (rd_stores _ _ _ _ _ _ Hn) as Hst.
  assert (pending (nd_peer n) = evs) as Hevs.
  { unfold pending. rewrite (rd_events _ _ _ _ _ _ Hn). clear. induction evs; [done|].
    cbn. by f_equal. }
  split_and!; [|done|done]. unfold settled. by rewrite Hst, Hevs.
Qed.

Lemma settled_ready st evs n :
  settled n → nd_stores n = st → v_enqueued (node_view n) = evs → ready x pc st ps txt evs n.
Proof. by intros Hn <- <-. Qed.

Lemma settled_stores n st : settled n → settled (lset svc_stores st n).
Proof. intros []. by split. Qed.

Lemma settled_tag : preserves settled svc_create_tag.
Proof.
  intros n []. unfold svc_create_tag, node_services, on_peer, create_tag. do 2 wp_step.
  unfold wpx. split; try done. intros k Hk. cbn in Hk. apply rd_tags. lia.
Qed.

Lemma settled_enqueue e : preserves settled (on_peer (enqueue_event e)).
Proof.
  apply preserves_wp. intros n Hn. eapply wp_mono; [by apply live_enqueue|].
  intros [] n' Hn'. apply (ready_settled _ _ _ Hn').
Qed.

Lemma settled_send type sender receiver tag content :
  preserves settled (svc_send type sender receiver tag content).
Proof.
  apply preserves_wp. intros n Hn. eapply wp_mono; [by apply (live_send x (over x pc txt))|].
  intros [] n' (t & t' & _ & Hn'). apply (ready_settled _ _ _ Hn').
Qed.

Lemma settled_broadcast types type content :
  preserves settled (svc_broadcast types type content).
Proof.
  intros n []. unfold svc_broadcast, node_services, on_peer. wp_step. unfold wpx.
  rewrite broadcast_posts. split; try done. by rewrite Hbusy.
Qed.

Lemma settled_notify {T} (event : InternalNotification T → Event) type content :
  preserves settled (node_notify event type content).
Proof.
  unfold node_notify. apply preserves_bind; [|intros n; apply settled_enqueue].
  apply preserves_wp. intros n []. unfold on_peer, InternalNotification_create.
  do 3 wp_step. unfold create_tag, wpx. cbn.
  split; try done. intros k Hk. cbn in Hk. apply rd_tags. lia.
Qed.

Lemma settled_blockchain l e : preserves settled (run_blockchain_listener l e).
Proof.
  apply blockchain_keeps; [exact settled_stores|exact settled_tag|exact settled_send|
    exact settled_broadcast|intros type; apply settled_notify].
Qed.
Lemma settled_pool l e : preserves settled (run_pool_listener l e).
Proof. apply pool_listener_keeps; [exact settled_stores|exact settled_send]. Qed.

Lemma settled_store {C A} (k : Lens Stores C) (m : M C A) :
  preserves settled (zoom (lens_comp svc_stores k) m).
Proof. apply stores_keep, settled_stores. Qed.
End Settled.

(** ** Nodes that may post tasks *)

Section Busy.
Context `{JsonLib} `{CryptoLib} `{LevelDB} `{FifoLib} `{EventppLib} `{RtcLib} `{HostLib}.
Context `{HashOrder}.
Implicit Types (x : Side).

Lemma two_nodes_busy xA xB idA idB : two_nodes xA xB idA idB → two_nodes (busy xA) xB idA idB.
Proof. intros [[] ? ? ? ? ? ? ?]. by split. Qed.

Lemma between_busy xA xB pcA pcB stA stB psA evs ω :
  between xA xB pcB stB pcA stA psA evs ω → between (busy xA) xB pcB stB pcA stA psA evs ω.
Proof. intros [Ha Hrest Hab]. split; [by apply ready_busy|exact Hrest|exact Hab]. Qed.

(** The first node after something that leaves the channel alone. *)
Lemma between_again x x' xB pcA pcB stA stB psA ω n :
  resting xB pcB stB ω → w_ab ω = length (node_texts (sd_channel x) (w_a ω)) →
  ready x' pcA stA psA (node_texts (sd_channel x) (w_a ω)) [] n →
  between x' xB pcB stB pcA stA psA [] (lset aL n ω).
Proof.
  intros Hrest Hab Hn. pose proof (rd_sent _ _ _ _ _ _ _ Hn) as Ht.
  split; cbn [lset aL w_a w_b w_ab]; rewrite ?Ht; [exact Hn|exact Hrest|exact Hab].
Qed.
End Busy.

(** ** The broadcast *)

Section Broadcast.
Context `{JsonLib} `{CryptoLib} `{LevelDB} `{FifoLib} `{EventppLib} `{RtcLib} `{HostLib}.
Context `{HashOrder} `{!ReliableChannels}.
Context (xA xB : Side) (idA idB : string) (wsA wsB rounds : nat).
Context (HN : two_nodes xA xB idA idB).
Context (pcA pcB : PeerConnection) (Htype : pc_type pcA = PeerType.Full).
Context (type : PeerMessageType.t) (content : json) (Hcontent : canonical content).
Implicit Types (x : Side) (st : Stores).
Abbreviation peerA := (lens_comp aL peerL).


Definition the_task x : Task :=
  MkTask idA [PeerType.Full] idB (Some (sd_connection x)) type content.

Definition the_message (tag : string) (t : Z) : PeerMessage :=
  MkPeerMessage type idA idB tag content t.

(** The task for a peer of known type sends at once. *)
Lemma broadcast_sends x stA psA txt n :
  ready x pcA stA psA txt [] n →
  wp (on_peer (broadcast_task_send (the_task x) PeerType.Full))
     (λ _ n', ∃ tag t s, spells (the_message tag t) s ∧
        ready x pcA stA psA (txt ++ [s]) [] n') n.
Proof.
  intros Hn. set (h := pr_host (nd_peer n)). destruct HN.
  set (n1 := lset peerL (lset hostL (MkHost (S (clock_ix h)) (S (uuid_ix h))) (nd_peer n)) n).
  assert (ready x pcA stA psA txt [] n1) as Hn1.
  { destruct Hn. split; try done. intros k Hk. cbn in Hk. apply rd_tags. unfold h in Hk. lia. }
  set (tag := uuid_at (uuid_ix h)). set (t := clock_at (clock_ix h)).
  assert (wf_peer_message (the_message tag t)) as Hm.
  { split_and!; try done; [apply text_ascii, uuid_ascii|apply clock_u64]. }
  destruct (to_string_parse _ Hm) as (s & Hs & _).
  pose proof (connection_sends _ _ _ _ _ _ _ _ _ Hn1 Hs) as Hsend.
  apply wp_run in Hsend as (sent & n2 & Hrun & -> & Hn2). apply wp_run. exists tt, n2.
  split; [|by exists tag, t, s; split]. unfold on_peer, zoom in *.
  rewrite (broadcast_task_send_spec _ _ (sd_connection x)) by (done || set_solver).
  fold h tag t. revert Hrun. change (lget peerL n1) with (nd_peer n1).
  change (MkPeerMessage _ _ _ _ _ _) with (the_message tag t).
  change (lset hostL _ _) with (nd_peer n1).
  destruct (connection_send (sd_connection x) (the_message tag t) (nd_peer n1)) as [[sent|e] p];
    [|done]. by intros [= _ <-].
Qed.

Lemma run_on_peer {B} (m : M Peer B) r n n' :
  on_peer m n = (r, n') → ∃ p, m (nd_peer n) = (r, p) ∧ n' = lset peerL p n.
Proof.
  unfold on_peer, zoom. change (lget peerL n) with (nd_peer n).
  destruct (m (nd_peer n)) as [r' p]. intros [= -> <-]. by exists p.
Qed.

(** What only the executor looks at. *)
Lemma ready_tasks x stA psA txt evs n posted running :
  sd_posted x = None → ready x pcA stA psA txt evs n →
  ready x pcA stA psA txt evs
    (lset peerL (lset runningL running (lset postedL posted (nd_peer n))) n).
Proof. intros Hx []. split; try done. by rewrite Hx. Qed.

(** The executor runs the one broadcast. *)
Lemma posted_sent x stA stB psA ω :
  sd_posted x = None → mg_connections (sd_manager x) = {[idB := Some (sd_connection x)]} →
  between x xB pcB stB pcA stA psA [] ω → v_posted (node_view (w_a ω)) = [the_task x] →
  wp (run_posted (sd_channel x) (sd_channel xB) wsA wsB rounds)
     (λ _ ω', ∃ tag t s, spells (the_message tag t) s ∧
        crossing x xB pcB stB pcA stA psA s ω') ω.
Proof.
  intros Hx Hmap [Ha Hrest Hab] Hposted. unfold run_posted. do 2 wp_step. rewrite Hposted.
  cbn [for_each]. wp_step. unfold run_task. rewrite wpx_drive_bind, wpx_drive_lift by apply _.
  set (task := BroadcastTask (the_task x)). set (p := nd_peer (w_a ω)).
  set (n1 := lset peerL (lset runningL (pr_running p ++ [task])
    (lset postedL (remove_first task (pr_posted p)) p)) (w_a ω)).
  assert (ready x pcA stA psA (node_texts (sd_channel x) (w_a ω)) [] n1) as Hn1
    by by apply ready_tasks.
  wp_step. eapply wpx_returns; [reflexivity|].
  change (lset peerA _ ω) with (lset aL n1 ω).
  pose proof (broadcast_sends _ _ _ _ _ Hn1) as Hsend.
  apply wp_run in Hsend as ([] & n2 & Hrun & tag & t & s & Hs & Hn2).
  apply run_on_peer in Hrun as (p2 & Hrun & ->).
  assert (task_body task (nd_peer n1) = (Ok (Finished tt), p2)) as Hbody.
  { cbn [task_body task]. rewrite (broadcast_task_known _ (sd_connection x) pcA);
      [|done|exact (rd_heap _ _ _ _ _ _ _ Hn1)|by rewrite Htype].
    rewrite Htype. by apply lift_finished. }
  eapply wp_mono; [eapply (drive_finally_finished peerA _ _ tt _ _
    (λ _ ω', crossing x xB pcB stB pcA stA psA s ω')); [exact Hbody|]|].
  - unfold task_end, release_connection. wp_step. wp_step.
    eapply wpx_returns; [reflexivity|]. unfold task. cbn [tk_connection the_task]. do 4 wp_step.
    change (lget connectionsL _) with (mg_connections (pr_manager p2)).
    rewrite (rd_manager _ _ _ _ _ _ Hn2 : pr_manager p2 = _), Hmap, hash_order_singleton.
    cbn [existsb snd]. rewrite bool_decide_true, orb_true_r by done. apply wpx_ret.
    split; [|exact Hrest]. eexists. split; [|exact Hab].
    exact (ready_tasks _ _ _ _ _ _ (pr_posted p2) _ Hx Hn2).
  - intros [] ω' Hω. apply wpx_ret. by exists tag, t, s.
Qed.

End Broadcast.
