(* ===== verification/PoolSync.v ===== *)
(** * A node joins the network

    In the world of Exchange.v: what follows the initial block download. The task it has posted
    asks the other node for its pool, the other node sends every transaction of it, and the node
    offers each one to its own pool. *)

From stdpp Require Import base sets list gmap strings.
From Stdlib Require Import ZArith Lia.
From S2P Require Import Prelude Json Crypto LevelDB Fifo Rtc Enums Models Messages DBInterface.
From S2P Require Import Stores Blockchain Validator TransactionPool Event Coroutine Services.
From S2P Require Import BlockchainManager TransactionPoolManager Miner Peer RetryHandler.
From S2P Require Import PeerConnection PeerManager WaitForPeers SignalingClient Node.
From S2P Require Import NodeInvariant Loop Exchange Sync Broadcast.

Open Scope Z_scope.

(** ** Transactions offered one after the other *)

Section Offers.
Context `{JsonLib} `{CryptoLib} `{LevelDB} `{FifoLib}.
Implicit Types (st : Stores) (t : Transaction) (ts : list Transaction).

Fixpoint offered_all ts st st' : Prop :=
  match ts with
  | [] => st' = st
  | t :: ts => ∃ st1, offered t st st1 ∧ offered_all ts st1 st'
  end.

Lemma offered_wf t st st' : stores_wf st → offered t st st' → stores_wf st'.
Proof. intros Hwf. unfold offered. case_decide; [by intros ->|]. by intros (_ & _ & ? & _). Qed.

(** What the pool holds once [t] was offered, on a disk that works. *)
Lemma offered_pool t st st' :
  ReliableWrites → offered t st st' →
  st_chain st' = st_chain st ∧ st_spent st' = st_spent st ∧
  ∀ k, pool_map st' !! k =
    if decide (k = tx_hash t ∧ pool_map st !! k = None ∧ spent_map st !! k = None)
    then Some t else pool_map st !! k.
Proof.
  intros HR. unfold offered. case_decide as Hsp.
  - intros ->. split_and!; [done..|]. intros k. rewrite decide_False; [done|].
    intros (-> & _ & Hn). rewrite Hn in Hsp. by destruct Hsp.
  - intros (Hc & Hs & _ & ok & Hok & Hp & _). split_and!; [done..|]. intros k.
    rewrite Hp, Hok by done. unfold put_spec. change (data_tag t) with (tx_hash t).
    change (data_norm t) with t.
    destruct (pool_map st !! tx_hash t) as [u|] eqn:Hu; cbn.
    + rewrite decide_False; [done|]. intros (-> & Hn & _). congruence.
    + destruct (decide (k = tx_hash t)) as [->|Hne].
      * rewrite lookup_insert_eq, decide_True; [done|]. split_and!; [done|done|].
        by apply eq_None_not_Some.
      * rewrite lookup_insert_ne by done. rewrite decide_False; [done|]. by intros [? _].
Qed.

(** The transactions of [ts] by their hashes; the first one counts. *)
Definition by_hash ts : gmap string Transaction :=
  list_to_map (map (λ t, (tx_hash t, t)) ts).

(** [pool] after the transactions [offers]: what was there stays, and the others enter unless
    they are spent. *)
Definition merged (pool spent offers : gmap string Transaction) (k : string)
    : option Transaction :=
  match pool !! k with
  | Some t => Some t
  | None => if decide (is_Some (spent !! k)) then None else offers !! k
  end.

Lemma offered_all_pool ts st st' :
  ReliableWrites → offered_all ts st st' →
  st_chain st' = st_chain st ∧ st_spent st' = st_spent st ∧
  ∀ k, pool_map st' !! k = merged (pool_map st) (spent_map st) (by_hash ts) k.
Proof.
  intros HR. revert st. induction ts as [|t ts IH]; intros st; cbn [offered_all].
  - intros ->. split_and!; [done..|]. intros k. unfold merged. cbn.
    by destruct (pool_map st !! k), (decide (is_Some (spent_map st !! k))).
  - intros (st1 & Hone & Hall). destruct (offered_pool _ _ _ HR Hone) as (Hc & Hs & Hp).
    destruct (IH _ Hall) as (-> & -> & IHp). split_and!; [done..|]. intros k.
    rewrite IHp. unfold merged, spent_map. rewrite Hp, Hs. fold (spent_map st).
    change (by_hash (t :: ts)) with (<[tx_hash t := t]> (by_hash ts)).
    destruct (decide (tx_hash t = k)) as [<-|Hne].
    + rewrite lookup_insert_eq. destruct (pool_map st !! tx_hash t) as [u|] eqn:Hu.
      * by rewrite decide_False by (intros (_ & ? & _); congruence).
      * destruct (spent_map st !! tx_hash t) as [v|] eqn:Hv; cbn.
        -- by rewrite decide_False by (intros (_ & _ & ?); congruence).
        -- by rewrite decide_True.
    + rewrite lookup_insert_ne by done. by rewrite decide_False by (intros [? _]; congruence).
Qed.

(** The transactions a pool lists are the pool. *)
Lemma by_hash_pool ts st :
  stores_wf st → NoDup (map tx_hash ts) → (∀ t, t ∈ ts ↔ pool_map st !! tx_hash t = Some t) →
  by_hash ts = pool_map st ∧ length ts = size (pool_map st).
Proof.
  intros Hwf Hnd Hin.
  assert (NoDup (map (λ t, (tx_hash t, t)) ts).*1) as Hnd'.
  { by rewrite <-list_fmap_compose. }
  assert (by_hash ts = pool_map st) as Heq.
  { apply map_eq. intros k. apply option_eq. intros t. unfold by_hash.
    rewrite <-elem_of_list_to_map by done. rewrite list_elem_of_fmap. split.
    - intros (u & [= -> ->] & Hu). by apply Hin.
    - intros Hk. destruct (db_abs_inv (T:=Transaction) _ _ _ (sw_pool _ Hwf) Hk) as (Ht & _).
      exists t. change (tx_hash t = k) in Ht. subst k. split; [done|by apply Hin]. }
  split; [done|]. rewrite <-Heq. unfold by_hash. rewrite map_size_list_to_map by done.
  by rewrite length_map.
Qed.
End Offers.

(** ** The question for the pool *)

Section Pool.
Context `{JsonLib} `{CryptoLib} `{LevelDB} `{FifoLib} `{EventppLib} `{RtcLib} `{HostLib}.
Context `{HashOrder} `{!ReliableChannels}.
Context (xA xB : Side) (idA idB : string) (wsA wsB rounds : nat).
Context (HN : two_nodes xA xB idA idB).
Context (pcA pcB : PeerConnection) (stB : Stores) (HwfB : stores_wf stB).
Implicit Types (t : Transaction) (ts : list Transaction) (m : PeerMessage).

(** [m] hands [t] over. *)
Definition hands_over t m : Prop :=
  pm_type m = PeerMessageType.AddTransaction ∧ pm_content m = Transaction_to_json t ∧
  wf_transaction t.

Lemma syncs_messages id m ts es :
  text id → text (pm_sender_identity m) → text (pm_tag m) → Forall wf_transaction ts →
  syncs id m ts es →
  ∃ ms, Forall2 carries es ms ∧ Forall2 hands_over ts ms ∧
    Forall (λ a, wf_peer_message a ∧ pm_receiver_identity a = pm_sender_identity m) ms.
Proof.
  intros Hid Hs Ht Hts Hes. induction Hes as [|t e ts es (tm & tm' & Htm & ->) _ IH].
  { exists []. split_and!; constructor. }
  apply Forall_cons in Hts as [Hwf Hts]. destruct (IH Hts) as (ms & Hc & Ho & Hm).
  eexists (_ :: ms). split; [constructor; [by eexists|exact Hc]|].
  split; [constructor; [done|exact Ho]|]. constructor; [|exact Hm].
  split; [|done]. split_and!; try done. by apply Transaction_to_json_canonical.
Qed.

(** The other node answers with its pool. *)
Definition pool_answer (ms : list PeerMessage) (st : Stores) : Prop :=
  st = stB ∧ ∃ ts, Forall2 hands_over ts ms ∧ by_hash ts = pool_map stB ∧
    length ts = size (pool_map stB).

Lemma sync_replies tag tm :
  text tag →
  replies xB idA wsB pcB stB (Program (PoolCallback OnSyncPoolRequest))
    (on_the_wire (the_message idA idB PeerMessageType.SyncPoolRequest jnull tag tm)) pool_answer.
Proof.
  intros Htag ps txt n Hn. destruct HN.
  destruct (ready_settled _ _ _ _ _ _ _ Hn) as (Hset & Hst & Hpend).
  set (m := on_the_wire _). cbn [run_callback run_node_callback run_pool_listener].
  pose proof (wp_preserves _ _ _ n (settled_pool xB pcB ps txt OnSyncPoolRequest (EvPeer m)) Hset
    (on_sync_pool_request_answer stB m n Hst HwfB)) as Hrun.
  eapply wp_mono; [exact Hrun|].
  intros [] n' [(Hst' & ts & es & Hnd & Hin & Hes & Hview) Hset'].
  assert (svc_id n = idB) as Hid.
  { destruct tn_b as [<- _ _]. unfold svc_id. cbn. unfold identity.
    by rewrite (rd_manager _ _ _ _ _ _ Hn). }
  assert (Forall wf_transaction ts) as Hts.
  { apply Forall_forall. intros u Hu%Hin.
    by apply (db_abs_inv (T:=Transaction) _ _ _ (sw_pool _ HwfB)) in Hu as (_ & ? & _). }
  rewrite Hid in Hes.
  destruct (syncs_messages idB m ts es) as (ms & Hc & Ho & Hms); try done.
  destruct (by_hash_pool ts stB HwfB Hnd Hin) as [Hpool Hlen].
  exists ms, es, stB. split; [split; [done|by exists ts]|]. split; [exact Hms|].
  split; [exact Hc|]. apply (settled_ready _ _ _ _ _ _ _ Hset'); [done|].
  etrans; [by apply (f_equal v_enqueued Hview)|]. cbn. by rewrite Hpend.
Qed.

(** The loop offers what has arrived to the own pool. *)
Lemma run_offers loops txt ts ms (Q : unit → Node → Prop) x st ps n :
  sd_listeners x (PeerEvent PeerMessageType.AddTransaction) =
    [App (Program (PoolCallback OnAddTransaction))] →
  Forall2 hands_over ts ms → stores_wf st → ready x pcA st ps txt (arrived ms) n →
  (length ts ≤ loops)%nat →
  (∀ st' n', offered_all ts st st' → (∃ ps', ready x pcA st' ps' txt [] n') → Q tt n') →
  wp (node_run wsA loops) Q n.
Proof.
  intros Hl Hts. revert loops st ps n Q.
  induction Hts as [|t m ts ms (Hty & Hcon & Ht) _ IH]; intros loops st ps n Q Hwf Hn Hlen HQ.
  { eapply run_idle; [exact Hn|]. apply (HQ st); [done|by eexists]. }
  cbn in Hlen. destruct loops as [|loops]; [lia|]. unfold arrived in Hn. cbn [map] in Hn.
  eapply run_next; [exact Hn|]. eapply process_event; [|exact Hn|]; [done|].
  intros ps1 n1 Hn1 _ _. assert (event_type (EvPeer (on_the_wire m)) =
    PeerEvent PeerMessageType.AddTransaction) as -> by (cbn; by rewrite Hty).
  eapply dispatch_one; [exact Hn1|exact Hl|].
  cbn [run_callback run_node_callback run_pool_listener].
  destruct (ready_settled _ _ _ _ _ _ _ Hn1) as (Hset & Hst & Hpend).
  assert (Transaction_from_json (pm_content (on_the_wire m)) = Ok t) as Hdec.
  { cbn. rewrite Hcon. by apply Transaction_from_to_json. }
  assert (canonical (pm_content (on_the_wire m))) as Hcan.
  { cbn. rewrite Hcon. by apply Transaction_to_json_canonical. }
  pose proof (wp_preserves _ _ _ n1 (settled_pool x pcA ps1 txt OnAddTransaction
    (EvPeer (on_the_wire m))) Hset (on_add_transaction_offers st _ t n1 Hst Hwf Hdec Hcan)) as Hrun.
  eapply wp_mono; [exact Hrun|]. intros [] n2 [(Hoff & Hview) Hset2].
  eapply (IH loops (lget svc_stores n2) ps1).
  - by eapply offered_wf.
  - apply (settled_ready _ _ _ _ _ _ _ Hset2); [done|].
    etrans; [by apply (f_equal v_enqueued Hview)|]. exact Hpend.
  - lia.
  - intros st' n' Hall Hn'. apply (HQ st'); [by exists (lget svc_stores n2)|exact Hn'].
Qed.

(** The executor runs the posted question, and the loops the rest. *)
Lemma pool_synced stA psA ω :
  sd_posted xA = None → pc_type pcA = PeerType.Full → stores_wf stA →
  (size (pool_map stB) ≤ rounds)%nat →
  between xA xB pcB stB pcA stA psA [] ω →
  v_posted (node_view (w_a ω)) =
    [the_task idA idB PeerMessageType.SyncPoolRequest jnull xA] →
  wp (_ ← run_posted (sd_channel xA) (sd_channel xB) wsA wsB (S rounds);
      exchange (sd_channel xA) (sd_channel xB) wsA wsB (S rounds))
     (λ _ ω', nd_stores (w_b ω') = stB ∧ ∃ ts, by_hash ts = pool_map stB ∧
        offered_all ts stA (nd_stores (w_a ω'))) ω.
Proof.
  intros Hbusy Hfull HwfA Hsize Hbt Hposted. wp_step. pose proof HN as [].
  eapply wp_mono; [eapply (posted_sent xA xB idA idB wsA wsB (S rounds) HN pcA pcB Hfull _ _
    canonical_null xA stA stB psA); done|].
  intros [] ω1 (tag & tm & s & Hs & Hcross). unfold exchange. do 2 wp_step.
  pose proof Hcross as [(txt & Ha & _) _]. eapply run_idle; [exact Ha|]. rewrite lset_lget.
  wp_step. pose proof Hs as [(_ & _ & Htag & _) _].
  eapply wp_mono; [eapply (round_trip_replies xA xB idA idB wsB tn_b pcB stB pcA stA psA _ s
    (Program (PoolCallback OnSyncPoolRequest)) pool_answer rounds ω1 Hcross Hs);
    [|by apply sync_replies|]|].
  - by rewrite (wired_peer _ _ (cn_wired _ _ _ tn_b)).
  - intros ms st' (_ & ts & Hts & _ & Hlen). apply Forall2_length in Hts. lia.
  - intros [] ω2 (ms & st' & (-> & ts & Hts & Hpool & Hlen) & [Ha2 [(psB & Hb2) _] _]).
    wp_step. eapply (run_offers _ _ ts ms); [|exact Hts|exact HwfA|exact Ha2|lia|].
    + by rewrite (wired_peer _ _ (cn_wired _ _ _ tn_a)).
    + intros st' n' Hall (ps' & Hn'). split; [exact (rd_stores _ _ _ _ _ _ Hb2)|].
      exists ts. split; [done|]. cbn. by rewrite (rd_stores _ _ _ _ _ _ Hn').
Qed.

(** The end of the download leaves the node ready, with the question posted. *)
Lemma download_end_ready g cs new blocks stA psA txt posted n :
  ReliableWrites → stores_wf stA → chain_of g cs (chain_map stA) →
  linked (tip g cs) new → NoDup (map Block_hash (g :: cs ++ new)) → Forall wf_block blocks →
  blocks ≡ₚ new → ready xA pcA stA psA txt [] n → sd_posted xA = Some posted →
  wp (initial_block_download_end blocks)
     (λ _ n', ∃ st', stores_wf st' ∧ chain_of g (cs ++ new) (chain_map st') ∧
        st_spent st' = st_spent stA ∧ pool_map st' = pool_map stA ∧
        ready (busy xA) pcA st' psA txt [] n' ∧
        v_posted (node_view n') = omap broadcast_of posted ++
          [the_task idA idB PeerMessageType.SyncPoolRequest jnull xA]) n.
Proof.
  intros HR HwfA Hc Hl Hnd Hwf Hperm Hn Hposted.
  destruct (ready_settled _ _ _ _ _ _ _ (ready_busy _ _ _ _ _ _ _ Hn)) as (Hset & Hst & Hpend).
  pose proof (download_end_spec g cs new blocks n) as Hend. rewrite Hst in Hend.
  assert (preserves (settled (busy xA) pcA psA txt) (initial_block_download_end blocks)) as Hkeep.
  { apply preserves_bind; [|intros _; apply preserves_bind; [|intros _]].
    - apply preserves_for_each. intros b. apply preserves_bind; [|intros _; apply preserves_ret].
      apply (settled_store _ _ _ _ chainL).
    - apply (settled_store _ _ _ _ poolL).
    - by apply settled_broadcast. }
  pose proof (wp_preserves _ _ _ n Hkeep Hset (Hend HR HwfA Hc Hl Hnd Hwf Hperm)) as Hrun.
  eapply wp_mono; [exact Hrun|].
  intros [] n' [(Hwf' & Hc' & Hspent & Hpool & Hview) Hset']. exists (nd_stores n').
  split_and!; [done..| |].
  - apply (settled_ready _ _ _ _ _ _ _ Hset'); [done|].
    etrans; [by apply (f_equal v_enqueued Hview)|]. exact Hpend.
  - rewrite Hview. unfold push_tasks, broadcast_tasks. cbn.
    rewrite (rd_posted _ _ _ _ _ _ Hn _ Hposted). f_equal.
    unfold identity. rewrite (rd_manager _ _ _ _ _ _ Hn). destruct HN as [[-> _ _] _ _ _ -> _ _ _].
    by rewrite hash_order_singleton.
Qed.
End Pool.

(** ** A node joins *)

Section Join.
Context `{JsonLib} `{CryptoLib} `{LevelDB} `{FifoLib} `{EventppLib} `{RtcLib} `{HostLib}.
Context `{HashOrder} `{!ReliableChannels}.

(** The initial block download, the task it posts, and one more exchange of messages. *)
Definition joins (chA chB wsA wsB rounds : nat) : M World unit :=
  _ ← drive aL (world_answers chA chB wsA wsB rounds)
    (blocks ← find_blocks; co_lift (initial_block_download_end blocks));
  _ ← run_posted chA chB wsA wsB rounds;
  exchange chA chB wsA wsB rounds.

(** The near node has the other one's chain, and in its pool what it held and every pooled
    transaction of the other node that it has not spent. *)
Definition joined_with (stA stB : Stores) (ω : World) : Prop :=
  let stA' := nd_stores (w_a ω) in
  chain_map stA' = chain_map stB ∧ nd_stores (w_b ω) = stB ∧ st_spent stA' = st_spent stA ∧
  ∀ k, pool_map stA' !! k = merged (pool_map stA) (spent_map stA) (pool_map stB) k.

Lemma node_joined xA xB idA idB wsA wsB rounds pcA pcB stA stB psA g cs new ω :
  ReliableWrites → two_nodes xA xB idA idB → sd_posted xA = Some [] → knows idB pcA →
  between xA xB pcB stB pcA stA psA [] ω → stores_wf stA → stores_wf stB →
  chain_of g cs (chain_map stA) → chain_of g (cs ++ new) (chain_map stB) →
  (size (pool_map stB) ≤ S rounds)%nat →
  wp (joins (sd_channel xA) (sd_channel xB) wsA wsB (S (S rounds)))
    (λ _ ω', joined_with stA stB ω') ω.
Proof.
  intros HR HN Hnone Hk Hb HwA HwB HcA HcB Hsize.
  pose proof (drive_find_blocks xA xB idA idB wsA wsB rounds pcB stB HN pcA stA psA g cs new ω
    HwA HwB HcA HcB Hk Hb) as Hfind.
  pose proof (new_blocks_wf g cs new stB HwB HcB) as Hwf.
  pose proof HcB as (_ & Hl & _). apply linked_app in Hl as [_ Hl].
  unfold joins. wp_step. unfold wp. rewrite wpx_drive_bind by apply _.
  eapply wp_mono; [exact Hfind|].
  intros blocks ω1 (Hperm & pc1 & ps1 & Hfull & [Ha Hrest Hab]).
  rewrite wpx_drive_lift by apply _. apply (wpx_zoom aL).
  eapply wpx_mono; [apply (download_end_ready xA xB idA idB HN pc1 g cs new blocks stA ps1 _ [] _
    HR HwA HcA Hl (chain_hashes _ _ _ HcB) ltac:(by rewrite Hperm) Hperm Ha Hnone)| |done].
  intros [] n1 (st1 & Hwf1 & Hc1 & Hsp1 & Hp1 & Hn1 & Hv1).
  eapply wp_mono; [eapply (pool_synced (busy xA) xB idA idB wsA wsB (S rounds)
    (two_nodes_busy _ _ _ _ HN) pc1 pcB stB HwB st1 ps1); try done;
    by apply (between_again xA)|].
  intros [] ω2 (HstB & ts & Hts & Hall).
  destruct (offered_all_pool ts _ _ HR Hall) as (Hch & Hsp & Hpool).
  split_and!; [|exact HstB|by rewrite Hsp|].
  - unfold chain_map. rewrite Hch. by apply (chain_of_unique g (cs ++ new)).
  - intros k. rewrite Hpool, Hts, Hp1. unfold spent_map. by rewrite Hsp1.
Qed.
End Join.

(** ** Properties *)

Section Properties.
Context `{JsonLib} `{CryptoLib} `{LevelDB} `{FifoLib} `{EventppLib} `{RtcLib} `{HostLib}.
Context `{HashOrder} `{!ReliableChannels}.

(** C4: a node joins. Its chain is a prefix of that of the one full node it is connected to. After
    its initial block download, the run of the task this posts, and one more exchange of messages,
    it has the same chain, and its pool holds what it held and every pooled transaction of the
    other node that it has not spent. The other node's stores and the own spent transactions
    stay as they are. *)
Theorem node_joins xA xB idA idB wsA wsB rounds pcA pcB stA stB psA g cs new ω :
  ReliableWrites → two_nodes xA xB idA idB → sd_posted xA = Some [] → knows idB pcA →
  between xA xB pcB stB pcA stA psA [] ω → stores_wf stA → stores_wf stB →
  chain_of g cs (chain_map stA) → chain_of g (cs ++ new) (chain_map stB) →
  (size (pool_map stB) ≤ S rounds)%nat →
  ∃ ω', joins (sd_channel xA) (sd_channel xB) wsA wsB (S (S rounds)) ω = (Ok tt, ω') ∧
    let stA' := nd_stores (w_a ω') in
    chain_map stA' = chain_map stB ∧ nd_stores (w_b ω') = stB ∧
    st_spent stA' = st_spent stA ∧
    ∀ k, pool_map stA' !! k = merged (pool_map stA) (spent_map stA) (pool_map stB) k.
Proof.
  intros. apply wp_unit.
  by apply (node_joined xA xB idA idB wsA wsB rounds pcA pcB stA stB psA g cs new).
Qed.
End Properties.
