(* ===== verification/Consensus.v ===== *)
(** * A mined block on both nodes

    In the world of Exchange.v a node mines a block on its chain, broadcasts it, and waits for the
    answer of the other one, whose chain may be another one. The lemmas follow the miner's
    coroutine: its broadcast through the executor and the channel, the other node's decision, the
    answer back to the miner's listeners, and the node's own decision. *)

From stdpp Require Import base sets list gmap strings.
From Stdlib Require Import ZArith Lia.
From S2P Require Import Prelude Json Crypto LevelDB Fifo Rtc Enums Models Messages DBInterface.
From S2P Require Import Stores Blockchain Validator TransactionPool Event Coroutine Services.
From S2P Require Import BlockchainManager TransactionPoolManager Miner Peer RetryHandler.
From S2P Require Import PeerConnection PeerManager WaitForPeers SignalingClient Node.
From S2P Require Import NodeInvariant Loop Exchange Sync Broadcast.

Open Scope Z_scope.

(** ** The world of a mining node *)

Section World.
Context `{JsonLib} `{CryptoLib} `{LevelDB} `{FifoLib} `{EventppLib} `{RtcLib} `{HostLib}.
Context `{HashOrder}.
Context (ch_a ch_b ws_a ws_b rounds power : nat).
Abbreviation peerA := (lens_comp aL peerL).
Abbreviation answers_a := (world_answers ch_a ch_b ws_a ws_b rounds).

(** The first node's loop goes on until promise [p] is resolved. *)
Fixpoint loop_until (fuel p : nat) : M Node (option Event) :=
  result ← gets (λ n, result_of (pr_queue (nd_peer n)) p);
  match result, fuel with
  | Some e, _ => mret (Some e)
  | None, O => mret None
  | None, S fuel => _ ← node_run ws_a 1; loop_until fuel p
  end.

(** What happens while the miner waits: the search goes on, the broadcasts are sent and answered,
    or the own loop gets to the awaited event. *)
Definition miner_answers (w : Awaited) : M World (answer w) :=
  match w with
  | Answer p =>
      result ← zoom aL (loop_until rounds p);
      match result with Some e => mret e | None => throw LibraryError end
  | FirstOf ps seconds => _ ← run_posted ch_a ch_b ws_a ws_b rounds; answers_a (FirstOf ps seconds)
  | Mined search => match search power with Some b => mret b | None => throw LibraryError end
  | Peers k => answers_a (Peers k)
  | Delay seconds => answers_a (Delay seconds)
  end.
End World.

(** ** A round of the miner *)

Section Mining.
Context `{JsonLib} `{CryptoLib} `{LevelDB} `{FifoLib} `{EventppLib} `{RtcLib} `{HostLib}.
Context `{HashOrder} `{!ReliableChannels}.
Context (xA xB : Side) (idA idB : string) (wsA wsB rounds power : nat).
Context (HN : two_nodes xA xB idA idB) (HbusyA : sd_posted xA = None).
Context (pcA pcB : PeerConnection) (Htype : pc_type pcA = PeerType.Full).
Context (g : Block) (cs : list Block) (g' : Block) (cs' : list Block) (b : Block).
Context (Hb : wf_block b).
Implicit Types (x : Side) (st : Stores).
Abbreviation block_task := (the_task idA idB PeerMessageType.AddBlock (Block_to_json b)).
Abbreviation env := (miner_answers (sd_channel xA) (sd_channel xB) wsA wsB (S (S rounds)) power).
Abbreviation peerA := (lens_comp aL peerL).

(** The other node's answer to the block, and what it makes of its stores. *)
Definition decision (st : Stores) (a : PeerMessage) (st' : Stores) : Prop :=
  if decide (verdict (tip g' cs') (st_spent st) b = ValidationState.Success)
  then pm_type a = PeerMessageType.BlockAccepted ∧ accepted g' cs' b st st'
  else pm_type a = PeerMessageType.BlockRejected ∧ st' = st.

Lemma add_block_reacts st tag t :
  stores_wf st → chain_of g' cs' (chain_map st) →
  reacts xB idA idB wsB pcB st (Program (ChainCallback OnAddBlock))
    (on_the_wire (MkPeerMessage PeerMessageType.AddBlock idA idB tag (Block_to_json b) t))
    (decision st).
Proof.
  intros Hwf Hc ps txt n Hn. destruct HN.
  destruct (ready_settled _ _ _ _ _ _ _ Hn) as (Hset & Hst & Hpend).
  assert (svc_id n = idB) as Hid.
  { destruct tn_b as [<- _ _]. unfold svc_id. cbn. unfold identity.
    by rewrite (rd_manager _ _ _ _ _ _ Hn). }
  set (m := on_the_wire _). cbn [run_callback run_node_callback run_blockchain_listener].
  assert (Block_from_json (pm_content m) = Ok b) as Hdec by by apply Block_from_to_json.
  assert (canonical (pm_content m)) as Hcan by by apply Block_to_json_canonical.
  pose proof (λ Q, wp_preserves _ _ Q n
    (settled_blockchain xB pcB tn_posted ps txt OnAddBlock (EvPeer m)) Hset) as Hkeep.
  unfold decision. case_decide as Hv.
  - eapply wp_mono; [exact (Hkeep _ (on_add_block_added g' cs' st m b n Hst Hwf Hc Hdec Hcan Hv))|].
    intros [] n' [(Hacc & tag' & e & Htag' & (t1 & t1' & Ht1 & ->) & Hview) Hset'].
    rewrite Hid in Hview. exists PeerMessageType.BlockAccepted, tag'. do 4 eexists.
    split; [split; [|exact Hacc]|split; cycle 1]; [done| |].
    + apply (settled_ready _ _ _ _ _ _ _ Hset'); [done|].
      etrans; [by apply (f_equal v_enqueued Hview)|]. cbn. by rewrite Hpend.
    + split_and!; try done. by apply BlockHeader_to_json_canonical, Hb.
  - eapply wp_mono; [exact (Hkeep _ (on_add_block_refused g' cs' st m b n Hst Hwf Hc Hdec Hv))|].
    intros [] n' [(Hst' & tag' & e & Htag' & (t1 & t1' & Ht1 & ->) & Hview) Hset'].
    rewrite Hid in Hview. exists PeerMessageType.BlockRejected, tag'. do 4 eexists.
    split; [split; [|exact Hst']|split; cycle 1]; [done| |].
    + apply (settled_ready _ _ _ _ _ _ _ Hset'); [done|].
      etrans; [by apply (f_equal v_enqueued Hview)|]. cbn. by rewrite Hpend.
    + split_and!; try done. by apply enum_to_json_canonical.
Qed.

(** ** The answer *)

(** The first node with other calls waiting for messages. *)
Record same_side x : Prop := {
  ss_manager : sd_manager x = sd_manager xA;
  ss_connection : sd_connection x = sd_connection xA;
  ss_channel : sd_channel x = sd_channel xA;
  ss_posted : sd_posted x = sd_posted xA;
  ss_notifications type :
    sd_listeners x (NotificationEvent type) = sd_listeners xA (NotificationEvent type) }.

Lemma same_listening x type callbacks waiters :
  same_side x → same_side (listening x (PeerEvent type) callbacks waiters).
Proof. intros []. by split. Qed.

(** Call [w] of event_of_type waits for a message of type [type] with promise [p]. *)
Definition awaits x type (w p : nat) : Prop :=
  sd_listeners x (PeerEvent type) = [Await w] ∧
  ∃ h, sd_waiters x !! w = Some (MkWaiter (PeerEvent type) h 1 None p).

(** The loop hands a message to the call that waits for it. *)
Lemma run_awaited x stA psA txt m w p (Q : unit → Node → Prop) n :
  ready x pcA stA psA txt [EvPeer m] n → same_side x → awaits x (pm_type m) w p →
  untagged psA p →
  (∀ x' psA' n', ready x' pcA stA psA' txt [] n' → same_side x' →
     result_of (pr_queue (nd_peer n')) p = Some (EvPeer m) →
     (∀ q, untagged psA q → q ≠ p → result_of (pr_queue (nd_peer n')) q = None) → Q tt n') →
  wp (node_run wsA (S (S rounds))) Q n.
Proof.
  intros Hn Hx [Hl (h & Hw)] Hp HQ. eapply run_next; [exact Hn|].
  eapply process_event; [|exact Hn|]; [done|]. intros psA' n1 Hn1 _ Hu.
  eapply wp_mono; [by eapply dispatch_awaited, Hu|]. intros [] n2 (callbacks & waiters & Hn2).
  eapply run_idle; [exact Hn2|]. eapply HQ; [exact Hn2|by apply same_listening|..].
  - unfold result_of. rewrite (rd_promises _ _ _ _ _ _ Hn2). apply lookup_insert_eq.
  - intros q Hq Hne. unfold result_of. rewrite (rd_promises _ _ _ _ _ _ Hn2). cbn.
    rewrite lookup_insert_ne by done. apply un_open. by apply Hu.
Qed.

Lemma any_event_first p1 p2 e (q : EventQueue (L:=PeerCallback NodeCallback)) :
  result_of q p1 = Some e → any_event_result [p1; p2] q = Some e.
Proof.
  intros Hr. unfold any_event_result. cbn. unfold result_of in Hr.
  rewrite decide_True by by eexists. exact Hr.
Qed.

Lemma any_event_second p1 p2 e (q : EventQueue (L:=PeerCallback NodeCallback)) :
  result_of q p1 = None → result_of q p2 = Some e → any_event_result [p1; p2] q = Some e.
Proof.
  intros Hn Hr. unfold any_event_result. cbn. unfold result_of in *.
  rewrite decide_False by (rewrite Hn; by intros [? ?]). rewrite decide_True by by eexists.
  exact Hr.
Qed.

Lemma first_answer x stA stB psA w1 w2 p1 p2 seconds ω :
  same_side x → awaits x PeerMessageType.BlockAccepted w1 p1 →
  awaits x PeerMessageType.BlockRejected w2 p2 → untagged psA p1 → untagged psA p2 → p1 ≠ p2 →
  stores_wf stB → chain_of g' cs' (chain_map stB) →
  between x xB pcB stB pcA stA psA [] ω → v_posted (node_view (w_a ω)) = [block_task x] →
  wp (env (FirstOf [p1; p2] seconds))
     (λ opt ω', ∃ a stB' x' psA', decision stB a stB' ∧ opt = Some (EvPeer (on_the_wire a)) ∧
        same_side x' ∧ between x' xB pcB stB' pcA stA psA' [] ω') ω.
Proof.
  intros Hx Hw1 Hw2 Hp1 Hp2 Hne Hwf Hc Hb' Hposted. cbn [miner_answers].
  rewrite <-(ss_channel _ Hx). wp_step.
  assert (mg_connections (sd_manager x) = {[idB := Some (sd_connection x)]}) as Hmap.
  { rewrite (ss_manager _ Hx), (ss_connection _ Hx). by destruct HN. }
  eapply wp_mono; [eapply (posted_sent xA xB idA idB wsA wsB (S (S rounds)) HN pcA pcB Htype _ _
    (Block_to_json_canonical _ Hb) x stA stB psA);
    [by rewrite (ss_posted _ Hx)|done..]|].
  intros [] ω1 (tag & t & s & [Hm Hs] & Hcross).
  assert (wp (exchange (sd_channel x) (sd_channel xB) wsA wsB (S (S rounds)))
    (λ _ ω', ∃ a stB' x' psA', decision stB a stB' ∧
       any_event_result [p1; p2] (pr_queue (nd_peer (w_a ω'))) = Some (EvPeer (on_the_wire a)) ∧
       same_side x' ∧ between x' xB pcB stB' pcA stA psA' [] ω') ω1) as Hex.
  { unfold exchange. do 2 wp_step. pose proof Hcross as [(txt & Ha & _) _].
    eapply run_idle; [exact Ha|]. rewrite lset_lget. wp_step. destruct HN.
    eapply wp_mono; [eapply (round_trip_answers x xB idA idB wsB rounds tn_b pcB stB pcA stA psA
      _ s (Program (ChainCallback OnAddBlock)) (decision stB) ω1 Hcross Hm Hs);
      [|by apply add_block_reacts]|].
    { by rewrite (wired_peer _ _ (cn_wired _ _ _ tn_b)). }
    intros [] ω2 (a & stB' & Hd & [Ha2 Hrest Hab]). wp_step.
    assert (pm_type (on_the_wire a) = PeerMessageType.BlockAccepted ∨
            pm_type (on_the_wire a) = PeerMessageType.BlockRejected) as [Ht|Ht].
    { unfold decision in Hd. cbn [pm_type on_the_wire].
      case_decide; destruct Hd as [-> _]; [by left|by right]. }
    - eapply (run_awaited x stA psA _ (on_the_wire a) w1 p1);
        [exact Ha2|exact Hx|by rewrite Ht|exact Hp1|].
      intros x' psA' n' Hn' Hx' Hr _. exists a, stB', x', psA'. split; [exact Hd|].
      split; [by apply any_event_first|]. split; [exact Hx'|by eapply between_again].
    - eapply (run_awaited x stA psA _ (on_the_wire a) w2 p2);
        [exact Ha2|exact Hx|by rewrite Ht|exact Hp2|].
      intros x' psA' n' Hn' Hx' Hr Ho. exists a, stB', x', psA'. split; [exact Hd|].
      split; [apply any_event_second; [by apply Ho|done]|].
      split; [exact Hx'|by eapply between_again]. }
  apply wp_run in Hex as ([] & ω2 & Hrun & Hpost). unfold world_answers, wpx. rewrite Hrun.
  destruct Hpost as (a & stB' & x' & psA' & ?). by exists a, stB', x', psA'.
Qed.

(** ** The own decision *)

Lemma same_notification x type :
  same_side x → NotificationEvent type ∉ later_types →
  sd_listeners x (NotificationEvent type) = registered node_listeners (NotificationEvent type).
Proof. intros Hx Hty. destruct HN. rewrite (ss_notifications _ Hx). by apply (cn_wired _ _ _ tn_a). Qed.

(** The loop takes the mined block: it is decided, and the notification is next. *)
Lemma run_block_mined x stA psA txt tag (Q : unit → Node → Prop) n :
  sd_posted x = None → ready x pcA stA psA txt [EvBlock (MkInternalNotification InternalNotificationType.BlockMined b
    tag)] n →
  sd_listeners x (NotificationEvent InternalNotificationType.BlockMined) =
    [App (Program (ChainCallback OnBlockMined))] →
  stores_wf stA → chain_of g cs (chain_map stA) →
  verdict (tip g cs) (st_spent stA) b = ValidationState.Success →
  (∀ psA' st' tag' es n', accepted g cs b stA st' → (∀ p, untagged psA p → untagged psA' p) →
     ready x pcA st' psA' txt (EvEmpty (MkInternalNotification
       InternalNotificationType.MinedBlockValidated tt tag') :: es) n' → Q tt n') →
  wp (node_run wsA 1) Q n.
Proof.
  intros Hx Hn Hl Hwf Hc Hv HQ. eapply run_next; [exact Hn|].
  eapply process_event; [|exact Hn|]; [done|]. intros psA' n1 Hn1 _ Hu.
  eapply dispatch_one; [exact Hn1|exact Hl|].
  cbn [run_callback run_node_callback run_blockchain_listener].
  destruct (ready_settled _ _ _ _ _ _ _ Hn1) as (Hset & Hst & Hpend).
  set (notif := MkInternalNotification InternalNotificationType.BlockMined b tag).
  pose proof (λ Q, wp_preserves _ _ Q n1
    (settled_blockchain x pcA Hx psA' txt OnBlockMined (EvBlock notif)) Hset) as Hkeep.
  eapply wp_mono; [exact (Hkeep _ (on_block_mined_added g cs stA notif n1 Hst Hwf Hc Hb Hv))|].
  intros [] n2 [(Hacc & e & es & (tag' & ->) & _ & Hview) Hset2].
  apply (HQ psA' (lget svc_stores n2) tag' es n2 Hacc Hu).
  apply (settled_ready _ _ _ _ _ _ _ Hset2); [done|].
  etrans; [by apply (f_equal v_enqueued Hview)|]. cbn. by rewrite Hpend.
Qed.

(** The miner puts the block into the queue, and waits for the notification. *)
Lemma ready_notify_block x stA psA txt n :
  ready x pcA stA psA txt [] n →
  wp (svc_notify_block InternalNotificationType.BlockMined b)
     (λ _ n', ∃ tag, ready x pcA stA psA txt
        [EvBlock (MkInternalNotification InternalNotificationType.BlockMined b tag)] n') n.
Proof.
  intros Hn. destruct (ready_settled _ _ _ _ _ _ _ Hn) as (Hset & Hst & Hpend).
  pose proof (wp_preserves _ _ _ _ (settled_notify x pcA psA txt EvBlock
    InternalNotificationType.BlockMined b) Hset (wpx_node_notify EvBlock _ b _)) as Hrun.
  eapply wp_mono; [exact Hrun|]. intros [] n1 [(Hst1 & tag & Hview) Hset1]. exists tag.
  apply (settled_ready _ _ _ _ _ _ _ Hset1); [congruence|].
  etrans; [by apply (f_equal v_enqueued Hview)|]. cbn. by rewrite Hpend.
Qed.

Lemma ready_await_validated x stA psA txt evs n :
  ready x pcA stA psA txt evs n → same_side x →
  wp (svc_event_of_type (NotificationEvent InternalNotificationType.MinedBlockValidated))
     (λ p n', ∃ h w waiters psA', waiters !! w = Some (MkWaiter (NotificationEvent
          InternalNotificationType.MinedBlockValidated) h 1 None p) ∧ untagged psA' p ∧
        ready (listening x (NotificationEvent InternalNotificationType.MinedBlockValidated)
                 [Await w] waiters) pcA stA psA' txt evs n') n.
Proof.
  intros Hn Hx. eapply wp_mono; [exact (live_event_of_type _ _ _ _ _ _ _ Hn)|].
  intros p n' (h & psA' & Hn' & _ & _ & Hp & _).
  rewrite (same_notification x _ Hx) in Hn' by by apply (bool_decide_unpack _).
  do 4 eexists. split; [|split; [exact Hp|exact Hn']]. apply lookup_insert_eq.
Qed.

Lemma loop_awaited fuel p e n :
  result_of (pr_queue (nd_peer n)) p = Some e → loop_until wsA fuel p n = (Ok (Some e), n).
Proof. intros Hr. destruct fuel; cbn; unfold mbind, M_bind, gets; by rewrite Hr. Qed.

Lemma loop_next fuel p (Q : option Event → Node → Prop) n :
  result_of (pr_queue (nd_peer n)) p = None →
  wp (node_run wsA 1) (λ _ n', wp (loop_until wsA fuel p) Q n') n →
  wp (loop_until wsA (S fuel) p) Q n.
Proof. intros Hr Hn. cbn. do 2 wp_step. rewrite Hr. wp_step. exact Hn. Qed.

Lemma announce_validated x stA psA txt ω :
  same_side x → ready x pcA stA psA txt [] (w_a ω) → stores_wf stA →
  chain_of g cs (chain_map stA) →
  verdict (tip g cs) (st_spent stA) b = ValidationState.Success →
  wp (drive aL env (announce_mined b))
     (λ _ ω', accepted g cs b stA (nd_stores (w_a ω')) ∧ w_b ω' = w_b ω) ω.
Proof.
  intros Hx Hn Hwf Hc Hv. unfold announce_mined, wp.
  rewrite wpx_drive_bind, wpx_drive_lift by apply _. apply (wpx_zoom aL).
  eapply wpx_mono; [by eapply (ready_notify_block x)| |done]. intros [] n1 (tag & Hn1).
  rewrite wpx_drive_bind, wpx_drive_lift by apply _. apply (wpx_zoom aL).
  eapply wpx_mono; [by eapply (ready_await_validated x)| |done].
  intros p n2 (h & w & waiters & psA2 & Hw & Hp & Hn2).
  rewrite wpx_drive_bind by apply _. apply (wpx_drive_await aL env (Answer p)).
  cbn [miner_answers].
  apply wpx_bind, (wpx_zoom aL).
  assert (wp (loop_until wsA (S (S rounds)) p)
    (λ r n', (∃ e, r = Some e) ∧ accepted g cs b stA (nd_stores n')) n2) as Hloop.
  { apply loop_next.
    { unfold result_of. rewrite (rd_promises _ _ _ _ _ _ Hn2). by apply un_open. }
    pose proof (eq_trans (ss_posted _ Hx) HbusyA) as Hbusy.
    eapply run_block_mined; [|exact Hn2| |exact Hwf|exact Hc|exact Hv|]; [exact Hbusy|..].
    { etrans; [apply (same_notification x InternalNotificationType.BlockMined Hx)|done].
      by apply (bool_decide_unpack _). }
    intros psA3 st' tag' es n3 Hacc Hu Hn3. apply loop_next.
    { unfold result_of. rewrite (rd_promises _ _ _ _ _ _ Hn3). by apply un_open, Hu. }
    eapply run_next; [exact Hn3|]. eapply process_event; [|exact Hn3|]; [done|].
    intros psA4 n4 Hn4 _ Hu4.
    eapply wp_mono; [eapply dispatch_awaited; [exact Hn4|reflexivity|exact Hw|by apply Hu4, Hu]|].
    intros [] n5 (callbacks & waiters' & Hn5). apply (wpx_ret tt), wp_run. do 2 eexists. split.
    { apply loop_awaited. unfold result_of. rewrite (rd_promises _ _ _ _ _ _ Hn5).
      apply lookup_insert_eq. }
    split; [by eexists|]. by rewrite (rd_stores _ _ _ _ _ _ Hn5). }
  eapply wpx_mono; [exact Hloop| |done]. intros r n' [(e & ->) Hacc]. apply wpx_ret.
  by rewrite wpx_drive_ret by apply _.
Qed.

(** ** The round *)

(** The miner listens for both answers. *)
Lemma ready_listen stA psA txt n :
  ready xA pcA stA psA txt [] n →
  wp (svc_any_event_of_type
        [PeerEvent PeerMessageType.BlockAccepted; PeerEvent PeerMessageType.BlockRejected])
     (λ ps n', ∃ x w1 w2 p1 p2 psA', ps = [p1; p2] ∧ same_side x ∧
        awaits x PeerMessageType.BlockAccepted w1 p1 ∧
        awaits x PeerMessageType.BlockRejected w2 p2 ∧ untagged psA' p1 ∧ untagged psA' p2 ∧
        p1 ≠ p2 ∧ ready x pcA stA psA' txt [] n' ∧ node_view n' = node_view n) n.
Proof.
  intros Hn. pose proof (cn_wired _ _ _ (tn_a _ _ _ _ HN)) as Hwired.
  pose proof (wired_peer _ PeerMessageType.BlockAccepted Hwired ltac:(done)) as Hacc.
  pose proof (wired_peer _ PeerMessageType.BlockRejected Hwired ltac:(done)) as Hrej.
  pose proof (live_event_of_type _ _ _ _ _ (PeerEvent PeerMessageType.BlockAccepted) _ Hn)
    as Hev1.
  unfold svc_any_event_of_type, node_services, on_peer, wp in *. apply (wpx_zoom peerL) in Hev1.
  apply (wpx_zoom peerL). cbn [any_event_of_type]. apply wpx_zoom_bind; [apply _|].
  eapply wpx_mono; [exact Hev1| |done].
  intros p1 q1 (h1 & psA1 & Hn1 & Hnext1 & Hv1 & Hp1 & _).
  pose proof (live_event_of_type _ _ _ _ _ (PeerEvent PeerMessageType.BlockRejected) _ Hn1)
    as Hev2.
  unfold on_peer, wp in Hev2. apply (wpx_zoom peerL) in Hev2.
  apply wpx_zoom_bind; [apply _|]. apply wpx_zoom_bind; [apply _|].
  eapply wpx_mono; [exact Hev2| |done].
  intros p2 q2 (h2 & psA2 & Hn2 & _ & Hv2 & Hp2 & Ho).
  do 6 wp_step. rewrite !lset_lget. change (lset peerL q2 (lset peerL q1 n)) with (lset peerL q2 n) in *.
  destruct (Ho p1 Hp1) as [Hne Hp1'].
  lazymatch type of Hn2 with live ?x _ _ _ _ _ => exists x end.
  exists (eq_next_waiter (pr_queue (nd_peer n))),
    (eq_next_waiter (pr_queue (nd_peer (lset peerL q1 n)))), p1, p2, psA2.
  split; [done|]. split; [by do 2 apply same_listening|].
  split; [|split; [|by split_and!; [exact Hp1'|exact Hp2|done|exact Hn2|rewrite Hv2]]].
  - split; [cbn [listening sd_listeners]; rewrite decide_False, decide_True, Hacc by done; done|].
    exists h1. cbn [listening sd_waiters].
    rewrite lookup_insert_ne by (rewrite Hnext1; lia). apply lookup_insert_eq.
  - split; [|exists h2; apply lookup_insert_eq]. cbn [listening sd_listeners].
    rewrite decide_True, decide_False, Hrej by done. done.
Qed.

(** The first answer, or the one in time, decides. *)
Lemma verdict_decides x stA stB psA a ω :
  same_side x → ready x pcA stA psA (node_texts (sd_channel x) (w_a ω)) [] (w_a ω) →
  stores_wf stA → chain_of g cs (chain_map stA) →
  verdict (tip g cs) (st_spent stA) b = ValidationState.Success →
  decision stB a (nd_stores (w_b ω)) →
  wp (drive aL env (Miner_verdict b (Some (EvPeer (on_the_wire a)))))
     (λ _ ω', if decide (verdict (tip g' cs') (st_spent stB) b = ValidationState.Success)
        then accepted g cs b stA (nd_stores (w_a ω')) ∧ accepted g' cs' b stB (nd_stores (w_b ω'))
        else nd_stores (w_a ω') = stA ∧ nd_stores (w_b ω') = stB) ω.
Proof.
  intros Hx Hn Hwf Hc Hv Hd. unfold Miner_verdict.
  eapply drive_reads; [apply _|done|]. unfold decision in Hd. case_decide as HvB.
  - destruct Hd as [Ht Hacc]. rewrite decide_True by (cbn; by rewrite Ht).
    eapply wp_mono; [by eapply announce_validated|]. intros [] ω' [? ->]. by split.
  - destruct Hd as [Ht Hst]. rewrite decide_False by (cbn; by rewrite Ht).
    unfold wp. rewrite wpx_drive_ret by apply _. split; [|exact Hst]. exact (rd_stores _ _ _ _ _ _ Hn).
Qed.

(** From the mined block to the decisions. *)
Lemma block_decided stA stB psA ω :
  between xA xB pcB stB pcA stA psA [] ω → v_posted (node_view (w_a ω)) = [] →
  stores_wf stA → stores_wf stB → chain_of g cs (chain_map stA) →
  chain_of g' cs' (chain_map stB) →
  verdict (tip g cs) (st_spent stA) b = ValidationState.Success →
  wp (drive aL env
        (_ ← co_lift (svc_broadcast [PeerType.Full] PeerMessageType.AddBlock (Block_to_json b));
         _ ← co_await (Delay 0);
         promises ← co_lift (svc_any_event_of_type
           [PeerEvent PeerMessageType.BlockAccepted; PeerEvent PeerMessageType.BlockRejected]);
         opt ← co_await (FirstOf promises 2);
         Miner_verdict b opt))
     (λ _ ω', if decide (verdict (tip g' cs') (st_spent stB) b = ValidationState.Success)
        then accepted g cs b stA (nd_stores (w_a ω')) ∧ accepted g' cs' b stB (nd_stores (w_b ω'))
        else nd_stores (w_a ω') = stA ∧ nd_stores (w_b ω') = stB) ω.
Proof.
  intros [Ha Hrest Hab] Hnone HwA HwB HcA HcB Hv. unfold wp.
  rewrite wpx_drive_bind, wpx_drive_lift by apply _. apply (wpx_zoom aL).
  destruct (ready_settled _ _ _ _ _ _ _ Ha) as (Hset & Hst & Hpend).
  pose proof (wp_preserves _ _ _ _ (settled_broadcast xA pcA HbusyA psA _ [PeerType.Full]
    PeerMessageType.AddBlock (Block_to_json b)) Hset (svc_broadcast_spec _ _ _ _)) as Hbc.
  eapply wpx_mono; [exact Hbc| |done]. intros [] n1 [[Hst1 Hview1] Hset1].
  rewrite wpx_drive_bind by apply _. apply (wpx_drive_await aL env (Delay 0)).
  cbn [miner_answers world_answers]. apply (wpx_ret tt).
  rewrite wpx_drive_bind, wpx_drive_lift by apply _. apply (wpx_zoom aL).
  assert (ready xA pcA stA psA (node_texts (sd_channel xA) (w_a ω)) [] n1) as Hn1.
  { apply (settled_ready _ _ _ _ _ _ _ Hset1); [by etrans; [exact Hst1|]|].
    etrans; [by apply (f_equal v_enqueued Hview1)|exact Hpend]. }
  assert (v_posted (node_view n1) = [block_task xA]) as Hposted.
  { etrans; [apply (f_equal v_posted Hview1)|]. cbn [push_tasks v_posted].
    etrans; [by apply (f_equal (.++ _) Hnone)|]. unfold broadcast_tasks, the_task. cbn.
    unfold identity. rewrite (rd_manager _ _ _ _ _ _ Ha).
    destruct HN as [[-> _ _] _ _ _ -> _ _ _]. by rewrite hash_order_singleton. }
  eapply wpx_mono; [exact (ready_listen _ _ _ _ Hn1)| |done].
  intros ps n2 (x & w1 & w2 & p1 & p2 & psA2 & -> & Hx & Hw1 & Hw2 & Hp1 & Hp2 & Hne & Hn2 & Hv2).
  rewrite wpx_drive_bind by apply _. apply (wpx_drive_await aL env (FirstOf [p1; p2] 2)).
  eapply wpx_mono; [apply (first_answer x stA stB psA2 w1 w2 p1 p2); try done| |done].
  - apply (between_again xA x xB pcA pcB stA stB psA2 ω); [exact Hrest|exact Hab|exact Hn2].
  - etrans; [apply (f_equal v_posted Hv2)|]. rewrite Hposted. unfold the_task.
    by rewrite (ss_connection _ Hx).
  - intros opt ω' (a & stB' & x' & psA' & Hd & -> & Hx' & [Ha' [(psB & Hb') _] _]).
    apply (verdict_decides x' stA stB psA'); try done.
    by rewrite (rd_stores _ _ _ _ _ _ Hb').
Qed.
End Mining.

(** ** Properties *)

Section Properties.
Context `{JsonLib} `{CryptoLib} `{LevelDB} `{FifoLib} `{EventppLib} `{RtcLib} `{HostLib}.
Context `{HashOrder} `{!ReliableChannels}.

(** What the search hands out, and what the reading of the clock leaves. *)
Lemma mining_function_spec prev id txs h search h' power b :
  mining_function prev id txs h = (Ok search, h') → search power = Some b →
  ∃ root k, get_merkle_root txs = Ok root ∧ u64 k ∧
    nonce_ok prev root (clock_at (clock_ix h)) k = true ∧
    b = mined_block prev id root (clock_at (clock_ix h)) txs k ∧
    h' = MkHost (S (clock_ix h)) (uuid_ix h).
Proof.
  intros Hm Hs. unfold mining_function, mbind, M_bind, lift_result in Hm.
  destruct (get_merkle_root txs) as [root|e]; [|done]. cbn in Hm. injection Hm as <- <-.
  destruct (mining_loop_some _ _ _ _ _ _ _ _ ltac:(done) Hs) as (k & Hk & Hok & ->).
  by exists root, k.
Qed.

(** The round up to the mined block. *)
Lemma round_mines xA xB idA idB wsA wsB rounds power pcA pcB stA stB psA g cs txs search h' b
    (Q : unit → World → Prop) ω :
  two_nodes xA xB idA idB → between xA xB pcB stB pcA stA psA [] ω → stores_wf stA →
  chain_of g cs (chain_map stA) →
  mining_function (Block_hash (tip g cs)) idA txs (pr_host (nd_peer (w_a ω))) = (Ok search, h') →
  search power = Some b →
  let env := miner_answers (sd_channel xA) (sd_channel xB) wsA wsB (S (S rounds)) power in
  (∀ ω', between xA xB pcB stB pcA stA psA [] ω' → node_view (w_a ω') = node_view (w_a ω) →
     wp (drive aL env
        (_ ← co_lift (svc_broadcast [PeerType.Full] PeerMessageType.AddBlock (Block_to_json b));
         _ ← co_await (Delay 0);
         promises ← co_lift (svc_any_event_of_type
           [PeerEvent PeerMessageType.BlockAccepted; PeerEvent PeerMessageType.BlockRejected]);
         opt ← co_await (FirstOf promises 2);
         Miner_verdict b opt)) Q ω') →
  wp (drive aL env (Miner_round (lens_comp peerL hostL) txs)) Q ω.
Proof.
  intros HN Hbt Hwf Hc Hm Hs env HQ. pose proof Hbt as [Ha Hrest Hab]. unfold Miner_round.
  eapply (drive_reads aL env _ (tip g cs)).
  { unfold on_chain, zoom, reads. cbn. rewrite (rd_stores _ _ _ _ _ _ Ha).
    rewrite (chain_last g cs) by (done || apply Hwf). f_equal.
    rewrite <-(rd_stores _ _ _ _ _ _ Ha). by destruct (w_a ω) as [? []]. }
  eapply (drive_reads aL env _ idA).
  { unfold gets, svc_id. cbn. unfold identity. rewrite (rd_manager _ _ _ _ _ _ Ha).
    by destruct HN as [[-> _ _] _ _ _ _ _ _ _]. }
  unfold wp. rewrite wpx_drive_bind, wpx_drive_lift by apply _.
  apply (wpx_zoom aL), (wpx_zoom (lens_comp peerL hostL)). eapply wpx_returns; [exact Hm|].
  rewrite wpx_drive_bind by apply _. apply (wpx_drive_await aL env (Mined search)).
  cbn [env miner_answers]. rewrite Hs. apply wpx_ret. apply HQ; [|done].
  destruct (mining_function_spec _ _ _ _ _ _ _ _ Hm Hs) as (root & k & _ & _ & _ & _ & ->).
  split; [|exact Hrest|exact Hab]. by destruct Ha.
Qed.

(** A new block that is accepted on a disk that works. *)
Lemma accepted_new g cs b st st' :
  ReliableWrites → accepted g cs b st st' → chain_map st !! Block_hash b = None →
  chain_of g (cs ++ [verified b]) (chain_map st') ∧
  ∀ t, t ∈ bl_transactions b → pool_map st' !! tx_hash t = None ∧
    (is_Some (pool_map st !! tx_hash t) → is_Some (spent_map st' !! tx_hash t)).
Proof.
  intros HR [_ _ Hsp Hc] Hnew. split.
  - destruct Hc as [[_ Hs]|[Hc _]]; [|done]. destruct (Hs HR) as [? ?]. congruence.
  - intros t Ht. apply (sr_reliable _ _ _ _ _ _ Hsp); [done|]. cbn. rewrite map_map. cbn.
    by apply list_elem_of_fmap_2.
Qed.

(** On equal chains the two end with equal chains again. *)
Lemma appended_same g cs g' cs' b (m1 m1' m2 m2' : gmap string Block) :
  chain_of g cs m1 → chain_of g (cs ++ [b]) m1' → chain_of g' cs' m2 →
  chain_of g' (cs' ++ [b]) m2' → m2 = m1 → m2' = m1'.
Proof.
  intros (_ & _ & HmA) (_ & _ & HmA') (_ & _ & HmB) (_ & _ & HmB') ->. apply map_eq. intros k.
  apply option_eq. intros c. rewrite HmA', HmB', !app_comm_cons, !elem_of_app.
  specialize (HmA k c). specialize (HmB k c). naive_solver.
Qed.

(** When a block mined on [newest] is accepted on top of [tip']. *)
Definition fits (newest tip' : Block) (ts : Z) (txs : list Transaction) (st : Stores) : Prop :=
  Block_hash tip' = Block_hash newest ∧ Block_timestamp tip' < ts ∧
  Forall (λ t, spent_map st !! tx_hash t = None) txs.

#[global] Instance fits_dec newest tip' ts txs st : Decision (fits newest tip' ts txs st).
Proof. unfold fits. apply _. Defined.

Lemma mined_decided newest tip' id root ts k txs st :
  nonce_ok (Block_hash newest) root ts k = true →
  verdict tip' (st_spent st) (mined_block (Block_hash newest) id root ts txs k) =
    ValidationState.Success ↔ fits newest tip' ts txs st.
Proof.
  intros Hok. assert (starts_with (nonce_hash (Block_hash newest) root ts k) "0000" = true) as Hpow.
  { unfold nonce_ok in Hok. by apply andb_prop in Hok as [? _]. }
  assert (∀ t, ¬ spent_in (st_spent st) t ↔ spent_map st !! tx_hash t = None) as Hspent.
  { intros t. symmetry. apply eq_None_not_Some. }
  rewrite verdict_success. cbn. setoid_rewrite Hspent. unfold follows, fits. cbn. naive_solver.
Qed.

(** C3: what becomes of a mined block. One of two nodes mines a block on its chain from pooled
    transactions, and the other one, whose chain is any chain without it, decides it. If the
    newest block of the other chain is older and has the hash the block was mined on, and the
    other node has spent none of the transactions before, both nodes end the round with the
    block, its transactions verified, as the newest one of their chains - of the same chain, if
    they had the same - and with none of its transactions in a pool. Otherwise, on another fork
    or after a double spend, both nodes are left as they were. The broadcast, the answer and the
    notification go through the executor, the channel in both directions, both event loops and
    the calls of event_of_type. *)
Theorem mined_block_spreads xA xB idA idB wsA wsB rounds power pcA pcB stA stB psA g cs g' cs' txs
    search h' b ω :
  ReliableWrites → two_nodes xA xB idA idB → pc_type pcA = PeerType.Full →
  between xA xB pcB stB pcA stA psA [] ω → v_posted (node_view (w_a ω)) = [] →
  stores_wf stA → stores_wf stB → chain_of g cs (chain_map stA) →
  chain_of g' cs' (chain_map stB) →
  Forall (λ t, wf_transaction t ∧ is_Some (pool_map stA !! tx_hash t)) txs →
  Block_timestamp (tip g cs) < clock_at (clock_ix (pr_host (nd_peer (w_a ω)))) →
  mining_function (Block_hash (tip g cs)) idA txs (pr_host (nd_peer (w_a ω))) = (Ok search, h') →
  search power = Some b → chain_map stA !! Block_hash b = None →
  chain_map stB !! Block_hash b = None →
  ∃ ω',
    drive aL (miner_answers (sd_channel xA) (sd_channel xB) wsA wsB (S (S rounds)) power)
      (Miner_round (lens_comp peerL hostL) txs) ω = (Ok tt, ω') ∧
    let stA' := nd_stores (w_a ω') in
    let stB' := nd_stores (w_b ω') in
    if decide (fits (tip g cs) (tip g' cs') (Block_timestamp b) txs stB) then
      chain_of g (cs ++ [verified b]) (chain_map stA') ∧
      chain_of g' (cs' ++ [verified b]) (chain_map stB') ∧
      (chain_map stB = chain_map stA → chain_map stB' = chain_map stA') ∧
      Forall (λ t, pool_map stA' !! tx_hash t = None ∧ pool_map stB' !! tx_hash t = None ∧
                   is_Some (spent_map stA' !! tx_hash t)) txs
    else stA' = stA ∧ stB' = stB.
Proof.
  intros HR HN Htype Hbt Hnone HwA HwB HcA HcB Htxs Hts Hm Hs Hnew HnewB.
  apply Forall_and in Htxs as [Hwf Hpool].
  destruct (mining_function_spec _ _ _ _ _ _ _ _ Hm Hs) as (root & k & Hroot & Hk & Hok & Hbeq & _).
  assert (wf_block b) as Hb.
  { rewrite Hbeq. apply mined_wf; [|apply HN|by eapply merkle_root_ascii|apply clock_u64|done|done].
    pose proof HcA as (_ & _ & HmA). destruct (tip_split g cs) as [pre Hpre].
    apply (db_abs_inv (T:=Block) (st_chain stA) (Block_hash (tip g cs)) (tip g cs) (sw_chain _ HwA)).
    apply HmA. split; [done|apply tip_in]. }
  assert (verdict (tip g cs) (st_spent stA) b = ValidationState.Success) as Hv.
  { rewrite Hbeq. by apply mined_verdict. }
  assert (wp (drive aL (miner_answers (sd_channel xA) (sd_channel xB) wsA wsB (S (S rounds)) power)
    (Miner_round (lens_comp peerL hostL) txs)) (λ _ ω',
      if decide (verdict (tip g' cs') (st_spent stB) b = ValidationState.Success)
      then accepted g cs b stA (nd_stores (w_a ω')) ∧ accepted g' cs' b stB (nd_stores (w_b ω'))
      else nd_stores (w_a ω') = stA ∧ nd_stores (w_b ω') = stB) ω) as Hround.
  { apply two_nodes_busy in HN. apply between_busy in Hbt.
    eapply (round_mines (busy xA)); try done. intros ω' Hbt' Hview.
    eapply (block_decided (busy xA)); try done. by rewrite Hview. }
  apply wp_run in Hround as ([] & ω' & Hrun & Hpost). exists ω'. split; [exact Hrun|]. cbn zeta.
  assert (verdict (tip g' cs') (st_spent stB) b = ValidationState.Success ↔
    fits (tip g cs) (tip g' cs') (Block_timestamp b) txs stB) as Hiff.
  { rewrite Hbeq. by apply mined_decided. }
  destruct (decide (fits _ _ _ _ _)) as [Hf|Hf].
  - rewrite decide_True in Hpost by by apply Hiff. destruct Hpost as [HA HB].
    destruct (accepted_new _ _ _ _ _ HR HA Hnew) as [HcA' HpA].
    destruct (accepted_new _ _ _ _ _ HR HB HnewB) as [HcB' HpB].
    split_and!; [exact HcA'|exact HcB'|by eapply appended_same|].
    rewrite Forall_forall in Hpool. apply Forall_forall. intros t Ht.
    assert (t ∈ bl_transactions b) as Htb by by rewrite Hbeq.
    destruct (HpA t Htb) as [? Hsp]. split_and!; [done|by apply HpB|]. by apply Hsp, Hpool.
  - by rewrite decide_False in Hpost by by rewrite Hiff.
Qed.
End Properties.
