(* ===== verification/Hub.v ===== *)
(** * Two nodes at the signaling server

    A world of the signaling server and two of its clients. The near client acts, the far one
    reacts; [swapL] changes their parts. Texts go up from a client to the server and down from
    the server to the clients, in order, and none is lost. *)

From stdpp Require Import base sets list gmap strings.
From Stdlib Require Import ZArith Lia.
From S2P Require Import Prelude Json Crypto LevelDB Fifo Rtc Enums Models Messages DBInterface.
From S2P Require Import Stores Blockchain Validator TransactionPool Event Coroutine Services.
From S2P Require Import BlockchainManager TransactionPoolManager Miner Peer RetryHandler.
From S2P Require Import PeerConnection PeerManager WaitForPeers SignalingClient SignalingServer.
From S2P Require Import Node Loop.

Open Scope Z_scope.

Section Hub.
Context `{JsonLib} `{CryptoLib} `{LevelDB} `{FifoLib} `{EventppLib} `{RtcLib} `{HostLib}.
Context `{HashOrder}.

(** A client's process, and how many texts have gone up and down. *)
Record End := MkEnd {
  en_node : Node;
  en_up : nat;
  en_down : nat }.

Record Hub := MkHub {
  hb_server : SignalingServer;
  hb_near : End;
  hb_far : End }.

Definition serverL : Lens Hub SignalingServer :=
  MkLens hb_server (λ x h, MkHub x (hb_near h) (hb_far h)).
Definition nearL : Lens Hub Node :=
  MkLens (λ h, en_node (hb_near h))
    (λ x h, MkHub (hb_server h) (MkEnd x (en_up (hb_near h)) (en_down (hb_near h))) (hb_far h)).
Definition swapL : Lens Hub Hub :=
  MkLens (λ h, MkHub (hb_server h) (hb_far h) (hb_near h))
    (λ x _, MkHub (hb_server x) (hb_far x) (hb_near x)).

#[global] Instance serverL_laws : LensLaws serverL.
Proof. by split; intros; destruct s. Qed.

#[global] Instance nearL_laws : LensLaws nearL.
Proof. by split; intros; repeat match goal with h : Hub |- _ => destruct h as [? [] []] end. Qed.

#[global] Instance swapL_laws : LensLaws swapL.
Proof. by split; intros; repeat match goal with h : Hub |- _ => destruct h as [? [] []] end. Qed.

Definition farL : Lens Hub Node := lens_comp swapL nearL.

(** What a process has handed to the web socket [ws]. *)
Definition socket_texts (ws : nat) (n : Node) : list string :=
  texts_to (Socket ws) (rtc_sent (pr_rtc (nd_peer n))).

(** What the server has handed to the socket [s]. *)
Definition server_texts (s : nat) (srv : SignalingServer) : list string :=
  texts_to (Socket s) (rtc_sent (sv_rtc srv)).

(** The server gets what the near client has sent over [ws] and it has not seen; [s] is the
    number of the client's socket at the server. *)
Definition up (s ws : nat) : M Hub unit :=
  texts ← gets (λ h, drop (en_up (hb_near h)) (socket_texts ws (en_node (hb_near h))));
  _ ← zoom serverL (for_each texts (λ text_, on_client_message s (RtcText text_)));
  modify (λ h, MkHub (hb_server h)
    (MkEnd (en_node (hb_near h)) (en_up (hb_near h) + length texts) (en_down (hb_near h)))
    (hb_far h)).

(** The near client gets what the server has sent to it. *)
Definition down (s : nat) : M Hub unit :=
  texts ← gets (λ h, drop (en_down (hb_near h)) (server_texts s (hb_server h)));
  _ ← zoom nearL (for_each texts (λ text_, on_peer (on_ws_message (RtcText text_))));
  modify (λ h, MkHub (hb_server h)
    (MkEnd (en_node (hb_near h)) (en_up (hb_near h)) (en_down (hb_near h) + length texts))
    (hb_far h)).

(** The near client's loop runs, its messages go to the server, what the server sends arrives at
    both clients, and both loops run. *)
Definition turn (s ws s' ws' rounds : nat) : M Hub unit :=
  _ ← zoom nearL (node_run ws rounds);
  _ ← up s ws;
  _ ← down s;
  _ ← zoom swapL (down s');
  _ ← zoom nearL (node_run ws rounds);
  zoom farL (node_run ws' rounds).

(** ** Texts on their way *)

(** [text_] is the well-formed message [m] in print. *)
Definition prints (m : SignalingMessage) (text_ : string) : Prop :=
  wf_signaling_message m ∧ signaling_wire_type (sm_type m) = sm_type m ∧
  SignalingMessage_to_string m = Ok text_.

Lemma prints_parse m text_ :
  prints m text_ →
  parse text_ = Ok (SignalingMessage_to_json m) ∧
  SignalingMessage_from_json (SignalingMessage_to_json m) = Ok m.
Proof.
  intros (Hm & Hty & Hs).
  destruct (parse_dump _ (SignalingMessage_to_json_canonical m Hm)) as (t & Ht & Hp).
  unfold SignalingMessage_to_string in Hs. rewrite Ht in Hs. injection Hs as ->.
  split; [exact Hp|]. rewrite SignalingMessage_from_to_json, Hty. by destruct m.
Qed.

Lemma prints_exists m :
  wf_signaling_message m → signaling_wire_type (sm_type m) = sm_type m →
  ∃ text_, prints m text_.
Proof.
  intros Hm Hty.
  destruct (parse_dump _ (SignalingMessage_to_json_canonical m Hm)) as (t & Ht & _).
  by exists t.
Qed.

(** What the web socket delivers waits in the queue. *)
Lemma live_receive x F st ps evs ms texts n :
  Forall2 prints ms texts → live x F st ps evs n →
  wp (for_each texts (λ text_, on_peer (on_ws_message (RtcText text_))))
     (λ _ n', live x F st ps (evs ++ map EvSignaling ms) n') n.
Proof.
  intros Hms. revert evs n. induction Hms as [|m text_ ms texts Hm _ IH]; intros evs n Hn.
  { apply wpx_ret. cbn. by rewrite app_nil_r. }
  destruct (prints_parse _ _ Hm) as [Hp Hdec]. cbn [for_each]. wp_step.
  pose proof (live_enqueue _ _ _ _ _ (EvSignaling m) _ Hn) as Hq. unfold on_peer, wp in *.
  apply (wpx_zoom peerL) in Hq. apply (wpx_zoom peerL). unfold on_ws_message.
  wp_step. eapply wpx_lift_ok; [done|]. wp_step. eapply wpx_lift_ok; [exact Hp|].
  wp_step. eapply wpx_lift_ok; [exact Hdec|]. eapply wpx_mono; [exact Hq| |done].
  intros [] p Hp'. eapply wpx_mono; [apply (IH _ _ Hp')| |done].
  intros [] n' Hn'. by rewrite <-app_assoc in Hn'.
Qed.

(** What is where when the texts [up_] of the near client have not gone up, and [near] and [far]
    not down to the clients. *)
Record on_the_way (s ws s' ws' : nat) (up_ near far : list string) (h : Hub) : Prop := {
  ow_up : ∃ old, socket_texts ws (en_node (hb_near h)) = old ++ up_ ∧
            en_up (hb_near h) = length old;
  ow_down : ∃ old, server_texts s (hb_server h) = old ++ near ∧
              en_down (hb_near h) = length old;
  ow_far_up : en_up (hb_far h) = length (socket_texts ws' (en_node (hb_far h)));
  ow_far_down : ∃ old, server_texts s' (hb_server h) = old ++ far ∧
                  en_down (hb_far h) = length old }.

(** The server has sent [near] to the socket [s] and [far] to [s']. *)
Definition served (s s' : nat) (near far : list string) (srv srv' : SignalingServer) : Prop :=
  server_texts s srv' = server_texts s srv ++ near ∧
  server_texts s' srv' = server_texts s' srv ++ far.

Lemma up_spec s ws s' ws' up_ near far (Q : SignalingServer → Prop) h :
  on_the_way s ws s' ws' up_ [] [] h →
  wp (for_each up_ (λ text_, on_client_message s (RtcText text_)))
     (λ _ srv', served s s' near far (hb_server h) srv' ∧ Q srv') (hb_server h) →
  wp (up s ws)
     (λ _ h', on_the_way s ws s' ws' [] near far h' ∧ Q (hb_server h') ∧
        en_node (hb_near h') = en_node (hb_near h) ∧ hb_far h' = hb_far h) h.
Proof.
  intros [(old & Hold & Hup) (dn & Hdn & Hdown) Hfu (fd & Hfd & Hfdown)] Hrun.
  unfold up. do 2 wp_step. rewrite Hold, Hup, drop_app_length. do 2 wp_step.
  eapply wpx_mono; [exact Hrun| |done]. intros [] srv' [[Hn Hf] HQ]. wp_step.
  split; [|done]. rewrite app_nil_r in Hdn, Hfd. split; cbn.
  - exists (old ++ up_). rewrite app_nil_r, length_app. by rewrite Hold, Hup.
  - exists dn. by rewrite Hn, Hdn.
  - done.
  - exists fd. by rewrite Hf, Hfd.
Qed.

Lemma down_spec s ws s' ws' near far (Q : Node → Prop) h :
  on_the_way s ws s' ws' [] near far h →
  wp (for_each near (λ text_, on_peer (on_ws_message (RtcText text_))))
     (λ _ n', socket_texts ws n' = socket_texts ws (en_node (hb_near h)) ∧ Q n')
     (en_node (hb_near h)) →
  wp (down s)
     (λ _ h', on_the_way s ws s' ws' [] [] far h' ∧ Q (en_node (hb_near h')) ∧
        hb_server h' = hb_server h ∧ hb_far h' = hb_far h) h.
Proof.
  intros [(old & Hold & Hup) (dn & Hdn & Hdown) Hfu Hfd] Hrun.
  unfold down. do 2 wp_step. rewrite Hdn, Hdown, drop_app_length. do 2 wp_step.
  eapply wpx_mono; [exact Hrun| |done]. intros [] n' [Hn HQ]. wp_step.
  split; [|done]. split; cbn; [| |done|exact Hfd].
  - exists old. by rewrite Hn.
  - exists (dn ++ near). rewrite app_nil_r, length_app. by rewrite Hdn, Hdown.
Qed.

Lemma on_the_way_swap s ws s' ws' near far h :
  on_the_way s ws s' ws' [] near far h →
  on_the_way s' ws' s ws [] far near (MkHub (hb_server h) (hb_far h) (hb_near h)).
Proof.
  intros [(old & Hold & Hup) Hdn Hfu Hfd]. split; cbn; [|exact Hfd| |exact Hdn].
  - exists (socket_texts ws' (en_node (hb_far h))). by rewrite app_nil_r.
  - by rewrite Hold, app_nil_r.
Qed.

(** A node that changes without sending. *)
Lemma on_the_way_near s ws s' ws' near far n h :
  on_the_way s ws s' ws' [] near far h →
  socket_texts ws n = socket_texts ws (en_node (hb_near h)) →
  on_the_way s ws s' ws' [] near far (lset nearL n h).
Proof. intros [Hu Hdn Hfu Hfd] Hn. split; cbn; [by rewrite Hn|done..]. Qed.

(** One turn, from what the near client sends, the server makes of it, and both clients do with
    what arrives. *)
Lemma turn_spec s ws s' ws' rounds up_ near far (N1 N2 F2 : Node → Prop)
    (Q : SignalingServer → Prop) h :
  on_the_way s ws s' ws' [] [] [] h →
  wp (node_run ws rounds)
     (λ _ n, socket_texts ws n = socket_texts ws (en_node (hb_near h)) ++ up_ ∧ N1 n)
     (en_node (hb_near h)) →
  wp (for_each up_ (λ text_, on_client_message s (RtcText text_)))
     (λ _ srv', served s s' near far (hb_server h) srv' ∧ Q srv') (hb_server h) →
  (∀ n, N1 n → wp (for_each near (λ text_, on_peer (on_ws_message (RtcText text_))))
     (λ _ n', socket_texts ws n' = socket_texts ws n ∧
        wp (node_run ws rounds) (λ _ n'', socket_texts ws n'' = socket_texts ws n' ∧ N2 n'') n')
     n) →
  wp (for_each far (λ text_, on_peer (on_ws_message (RtcText text_))))
     (λ _ n', socket_texts ws' n' = socket_texts ws' (en_node (hb_far h)) ∧
        wp (node_run ws' rounds) (λ _ n'', socket_texts ws' n'' = socket_texts ws' n' ∧ F2 n'') n')
     (en_node (hb_far h)) →
  wp (turn s ws s' ws' rounds)
     (λ _ h', on_the_way s ws s' ws' [] [] [] h' ∧ Q (hb_server h') ∧
        N2 (en_node (hb_near h')) ∧ F2 (en_node (hb_far h'))) h.
Proof.
  intros How Hrun Hserver Hnear Hfar. unfold turn. do 2 wp_step.
  eapply wpx_mono; [exact Hrun| |done]. intros [] n1 [Hn1 HN1]. set (h1 := lset nearL n1 h).
  assert (on_the_way s ws s' ws' up_ [] [] h1) as How1.
  { destruct How as [(old & Hold & Hup) Hdn Hfu Hfd]. rewrite app_nil_r in Hold.
    split; cbn; [|done..]. exists old. by rewrite Hn1, Hold. }
  wp_step. eapply wp_mono; [exact (up_spec _ _ _ _ _ _ _ _ _ How1 Hserver)|].
  intros [] h2 (How2 & HQ & Hnode & Hf2). change (en_node (hb_near h1)) with n1 in Hnode.
  wp_step. specialize (Hnear n1 HN1). rewrite <-Hnode in Hnear.
  eapply wp_mono; [exact (down_spec _ _ _ _ _ _ _ _ How2 Hnear)|].
  intros [] h3 (How3 & Hnear3 & Hs3 & Hf3). do 2 wp_step.
  change (hb_far h1) with (hb_far h) in Hf2. rewrite <-Hf2, <-Hf3 in Hfar.
  eapply wpx_mono; [exact (down_spec _ _ _ _ _ _ _ (MkHub (hb_server h3) (hb_far h3) (hb_near h3))
    (on_the_way_swap _ _ _ _ _ _ _ How3) Hfar)| |done].
  intros [] h4 (How4 & Hfar4 & Hs4 & Hn4). apply on_the_way_swap in How4.
  cbn in Hs4, Hn4. do 2 wp_step. cbn. rewrite Hn4. eapply wpx_mono; [exact Hnear3| |done].
  intros [] n5 [Hn5 HN2]. wp_step. cbn. eapply wpx_mono; [exact Hfar4| |done].
  intros [] n6 [Hn6 HF2]. split; [|by split; [rewrite Hs4, Hs3|]].
  destruct How4 as [(old & Hold & Hup) Hdn Hfu Hfd]. cbn in *. rewrite Hn4 in Hold, Hup, Hdn.
  split; cbn; rewrite ?Hn4; [|exact Hdn|by rewrite Hn6|exact Hfd]. exists old. by rewrite Hn5.
Qed.
End Hub.
