(* ===== verification/Clients.v ===== *)
(** * Clients of the signaling server

    What the handlers of the PeerManager, of a connection and of the signaling client do in a
    node that is between two events, and what the server makes of the messages a client sends
    when it starts and when it connects to another one. *)

From stdpp Require Import base sets list gmap strings.
From Stdlib Require Import ZArith Lia.
From S2P Require Import Prelude Json Crypto LevelDB Fifo Rtc Enums Models Messages DBInterface.
From S2P Require Import Stores Blockchain Validator TransactionPool Event Coroutine Services.
From S2P Require Import BlockchainManager TransactionPoolManager Miner Peer RetryHandler.
From S2P Require Import PeerConnection PeerManager WaitForPeers SignalingClient SignalingServer.
From S2P Require Import Node NodeInvariant Loop Exchange Hub.

Open Scope Z_scope.

Abbreviation server_opened :=
  (NotificationEvent InternalNotificationType.SignalingServerOpened).

(** ** What a node does with signaling messages *)

Section Client.
Context `{JsonLib} `{CryptoLib} `{LevelDB} `{FifoLib} `{EventppLib} `{RtcLib} `{HostLib}.
Context `{HashOrder} `{!ReliableSockets}.
Context (ws : nat) (d : db) (st : Stores).
Implicit Types (x : Side) (n : Node) (m : SignalingMessage).

(** A node that has sent [sent] over its web socket and has the connection objects [heap]; its
    retry handler's database is [d]. *)
Definition net (sent : list string) (heap : gmap nat PeerConnection) (r : rtc)
    (heap' : gmap nat PeerConnection) (d' : db) : Prop :=
  texts_to (Socket ws) (rtc_sent r) = sent ∧ heap' = heap ∧ d' = d.

Lemma live_socket_texts x sent heap ps evs n :
  live x (net sent heap) st ps evs n → socket_texts ws n = sent.
Proof. intros Hn. apply (rd_frame _ _ _ _ _ _ Hn). Qed.

(** A signaling message put into the queue. *)
Definition signal (m : SignalingMessage) (t : Z) : Event :=
  EvInternalSignaling (MkInternalMessage InternalMessageType.SendSignalingMessage m t 0).

(** The loop hands it to the web socket. *)
Lemma run_signal x sent heap ps m t text_ rounds n :
  live x (net sent heap) st ps [signal m t] n → prints m text_ →
  sm_sender_identity m = mg_identity (sd_manager x) →
  sd_listeners x (InternalEvent InternalMessageType.SendSignalingMessage) = [App SendSignaling] →
  wp (node_run ws (S rounds)) (λ _ n', live x (net (sent ++ [text_]) heap) st ps [] n') n.
Proof.
  intros Hn (Hm & _ & Hs) Hid Hl. eapply run_next; [exact Hn|].
  eapply process_plain; [|exact Hn|]; [by intros []|].
  intros n1 Hn1. eapply dispatch_one; [exact Hn1|exact Hl|].
  cbn [run_callback run_peer_callback]. unfold on_peer. wp_step.
  unfold send_signaling_message. wp_step. eapply wpx_lift_ok; [done|]. do 2 wp_step.
  destruct Hn1. cbn [im_content lget peerL].
  assert (SignalingMessage_set_sender_identity (identity (nd_peer n1)) m = m) as ->.
  { unfold identity. rewrite rd_manager, <-Hid. by destruct m. }
  wp_step. eapply wpx_lift_ok; [exact Hs|]. wp_step.
  eapply wpx_mono; [apply ws_send_open| |done]. intros [] r Hr.
  destruct rd_frame as (Hsent & Hheap & Hretry).
  match goal with |- wpx _ _ _ ?n2 =>
    assert (live x (net (sent ++ [text_]) heap) st ps [] n2) as Hn2 end.
  { split; try done. split; [|done]. etrans; [exact (f_equal (texts_to (Socket ws)) Hr)|].
    rewrite texts_to_app. f_equal; [exact Hsent|exact (texts_to_same _ [text_])]. }
  by eapply run_idle.
Qed.

(** ** Connection objects *)

(** The same connection object with other handles. *)
Definition with_handles (pc : PeerConnection) (handles : list (EventType * nat))
    : PeerConnection :=
  MkPeerConnection (pc_identity pc) (pc_rtc pc) (pc_channel pc) (pc_type pc) (pc_state pc)
    handles.

(** The side whose connection object [c] listens. *)
Definition attentive x (c : nat) : Side :=
  heeding (heeding x (PeerEvent PeerMessageType.PeerStateUpdate) (OnPeerStateUpdate c))
    (SignalingEvent SignalingMessageType.RTCCandidate) (OnRtcCandidate c).

Lemma live_update x sent heap ps evs c pc n :
  live x (net sent heap) st ps evs n →
  live x (net sent (<[c := pc]> heap)) st ps evs
    (lset peerL (lset heapL (<[c := pc]> (pr_heap (nd_peer n))) (nd_peer n)) n).
Proof.
  intros []. split; try done.
  destruct rd_frame as (Hsent & Hheap & Hretry). split; [done|]. cbn. by rewrite Hheap.
Qed.

Lemma live_attentive x sent heap ps evs c pc n :
  live x (net sent heap) st ps evs n → heap !! c = Some pc →
  wp (on_peer (append_connection_listeners c))
     (λ _ n', ∃ handles, live (attentive x c) (net sent (<[c := with_handles pc handles]> heap))
        st ps evs n') n.
Proof.
  intros Hn Hc. unfold append_connection_listeners, on_peer. apply wpx_zoom_bind; [apply _|].
  eapply wpx_mono; [apply (live_listen _ _ _ _ _ _ _ _ Hn)| |done]. intros h1 n1 Hn1.
  apply wpx_zoom_bind; [apply _|].
  eapply wpx_mono; [apply (live_listen _ _ _ _ _ _ _ _ Hn1)| |done]. intros h2 n2 Hn2.
  unfold connection, update_connection. do 4 wp_step.
  destruct (rd_frame _ _ _ _ _ _ Hn2) as (_ & Hheap & _). cbn [lget peerL].
  rewrite Hheap, Hc. do 3 wp_step. eexists. exact (live_update _ _ _ _ _ c _ _ Hn2).
Qed.

(** The side once the connection object [c], with channel [ch] when it has one, is in the map
    under [other], and listens. *)
Definition joined x (other : string) (c ch : nat) : Side :=
  let y := attentive x c in
  MkSide (MkPeerManager (mg_identity (sd_manager x))
            (<[other := Some c]> (mg_connections (sd_manager x)))
            (mg_state (sd_manager x)) (mg_type (sd_manager x)))
    c ch (sd_listeners y) (sd_waiters y) (sd_posted y).

(** A new connection object that knows nothing of its peer. *)
Definition stranger (other : string) (ch : option nat) (pc : PeerConnection) : Prop :=
  pc_identity pc = other ∧ pc_channel pc = ch ∧ pc_type pc = PeerType.Unknown ∧
  pc_state pc = PeerState.Unknown.

(** A constructor up to its listeners, and then these. *)
Lemma live_constructed x sent heap ps evs other c ch pc pc' p n :
  live x (net sent heap) st ps evs n → heap !! c = None →
  p = lset heapL (<[c := pc]> pc') (lset rtcL (pr_rtc p) (nd_peer n)) →
  rtc_sent (pr_rtc p) = rtc_sent (pr_rtc (nd_peer n)) → delete c pc' = heap →
  stranger other ch pc →
  wpx (append_connection_listeners c)
     (λ _ p', ∃ pc, stranger other ch pc ∧
        live (attentive x c) (net sent (<[c := pc]> heap)) st ps evs (lset peerL p' n))
     (λ _ _, False) p.
Proof.
  intros Hn Hc Hp Hr Hheap Hpc. set (n1 := lset peerL p n).
  assert (live x (net sent (<[c := pc]> heap)) st ps evs n1) as Hn1.
  { destruct Hn. destruct rd_frame as (Hsent & _ & Hretry). unfold n1. rewrite Hp. split; try done.
    split; cbn; [by rewrite Hr|]. by rewrite <-Hheap, insert_delete_eq. }
  pose proof (live_attentive _ _ _ _ _ c pc _ Hn1 (lookup_insert_eq _ _ _)) as Hatt.
  unfold on_peer in Hatt. apply (wpx_zoom peerL) in Hatt.
  eapply wpx_mono; [exact Hatt| |done]. intros [] p' (handles & Hp'). exists (with_handles pc handles).
  split; [exact Hpc|]. by rewrite insert_insert_eq in Hp'.
Qed.

(** The offering side creates a channel. *)
Lemma live_offer x sent heap ps evs other n :
  live x (net sent heap) st ps evs n →
  wp (on_peer (PeerConnection_offer other))
     (λ c n', ∃ ch pc, heap !! c = None ∧ stranger other (Some ch) pc ∧
        live (attentive x c) (net sent (<[c := pc]> heap)) st ps evs n') n.
Proof.
  intros Hn. destruct (rd_frame _ _ _ _ _ _ Hn) as (Hsent & Hheap & Hretry).
  unfold PeerConnection_offer, allocate_connection, on_peer, connection, update_connection,
    initialize_channel. repeat wp_step.
  set (c := fresh (dom (pr_heap (nd_peer n)))).
  assert (heap !! c = None) as Hc.
  { rewrite <-Hheap. apply not_elem_of_dom, is_fresh. }
  pose proof (rtc_connect_sent (pr_rtc (nd_peer n))) as Hr1.
  destruct (rtc_connect (pr_rtc (nd_peer n))) as [rn r1] eqn:Hconnect. cbn in Hr1.
  eapply wpx_returns; [unfold writes; cbn; rewrite Hconnect; reflexivity|]. repeat wp_step. cbn.
  fold c. rewrite lookup_insert_eq. repeat wp_step. cbn.
  pose proof (rtc_create_channel_sent rn "krapi" r1) as Hr2.
  destruct (rtc_create_channel rn "krapi" r1) as [ch r2] eqn:Hcreate. cbn in Hr2.
  eapply wpx_returns; [unfold writes; rewrite Hcreate; reflexivity|]. repeat wp_step. cbn.
  unfold connection. repeat wp_step. cbn. rewrite lookup_insert_eq. repeat wp_step.
  cbn [pc_channel]. repeat wp_step.
  eapply wpx_mono; [eapply (live_constructed _ _ _ _ _ other c (Some ch) _ _ _ _ Hn)| |done].
  - exact Hc.
  - reflexivity.
  - cbn. by rewrite Hr2.
  - rewrite delete_insert_id, Hheap; [done|]. by rewrite Hheap.
  - by split_and!.
  - intros [] p' (pc & Hpc & Hp'). wp_step. exists ch, pc. by split.
Qed.

(** The answering side takes the offer's description. *)
Lemma live_answer x sent heap ps evs other sdp type n :
  (∀ c r, wp (rtc_set_remote c sdp type) (λ _ _, True) r) →
  live x (net sent heap) st ps evs n →
  wp (on_peer (PeerConnection_answer other sdp type))
     (λ c n', ∃ pc, heap !! c = None ∧ stranger other None pc ∧
        live (attentive x c) (net sent (<[c := pc]> heap)) st ps evs n') n.
Proof.
  intros Hok Hn. destruct (rd_frame _ _ _ _ _ _ Hn) as (Hsent & Hheap & Hretry).
  unfold PeerConnection_answer, allocate_connection, set_remote_description, on_peer, connection,
    update_connection. repeat wp_step.
  set (c := fresh (dom (pr_heap (nd_peer n)))).
  assert (heap !! c = None) as Hc.
  { rewrite <-Hheap. apply not_elem_of_dom, is_fresh. }
  pose proof (rtc_connect_sent (pr_rtc (nd_peer n))) as Hr1.
  destruct (rtc_connect (pr_rtc (nd_peer n))) as [rn r1] eqn:Hconnect. cbn in Hr1.
  eapply wpx_returns; [unfold writes; cbn; rewrite Hconnect; reflexivity|]. repeat wp_step. cbn.
  fold c. rewrite lookup_insert_eq. repeat wp_step. cbn.
  pose proof (rtc_set_remote_sent rn sdp type r1) as Hr2.
  specialize (Hok rn r1). apply wp_run in Hok as ([] & r2 & Hset & _). rewrite Hset in Hr2. cbn in Hr2.
  eapply wpx_returns; [exact Hset|]. repeat wp_step.
  eapply wpx_mono; [eapply (live_constructed _ _ _ _ _ other c None _ _ _ _ Hn Hc)| |done].
  - reflexivity.
  - cbn. by rewrite Hr2.
  - rewrite Hheap. by apply delete_id.
  - by split_and!.
  - intros [] p' (pc & Hpc & Hp'). wp_step. exists pc. by split.
Qed.

(** ** The PeerManager's part *)

Lemma live_joined x sent heap ps evs other c ch n :
  live (attentive x c) (net sent heap) st ps evs n →
  live (joined x other c ch) (net sent heap) st ps evs
    (lset peerL (lset connectionsL (<[other := Some c]> (lget connectionsL (nd_peer n)))
       (nd_peer n)) n).
Proof. intros []. split; try done. cbn. cbn in rd_manager. by rewrite rd_manager. Qed.

(** A promise under a name that is no tag. *)
Lemma live_awaitable x F ps evs other n :
  live x F st ps evs n → (∀ k, uuid_at k ≠ other) →
  wp (on_peer (zoom queueL (create_awaitable other))) (λ _ n', ∃ ps', live x F st ps' evs n') n.
Proof.
  intros [] Hno. subst ps. unfold on_peer, create_awaitable. do 3 wp_step.
  set (ps := eq_store (pr_queue (nd_peer n))) in *.
  pose proof (store_wf_add other ps rd_store) as Hwf.
  assert (∃ p, PromiseStore_add other ps = (Ok p, (PromiseStore_add other ps).2)) as [p Hp].
  { destruct (ps_promises ps !! other) as [q|] eqn:Hq.
    - rewrite (add_duplicate _ _ _ Hq). by eexists.
    - rewrite (add_new _ _ Hq). by eexists. }
  eapply wpx_returns; [exact Hp|]. exists (PromiseStore_add other ps).2. split; try done.
  intros k Hk. destruct (ps_promises ps !! other) as [q|] eqn:Hq.
  - rewrite (add_duplicate _ _ _ Hq). by apply rd_tags.
  - rewrite (add_new _ _ Hq). cbn. rewrite lookup_insert_ne by by intros Heq; apply (Hno k).
    by apply rd_tags.
Qed.

(** connect_to_peer makes an offer to an unknown peer. *)
Lemma live_connect x sent heap ps evs m other n :
  live x (net sent heap) st ps evs n → sm_content m = jstring other →
  mg_connections (sd_manager x) !! other = None → (∀ k, uuid_at k ≠ other) →
  wp (on_peer (connect_to_peer (EvSignaling m)))
     (λ _ n', ∃ c ch pc ps', heap !! c = None ∧ stranger other (Some ch) pc ∧
        live (joined x other c ch) (net sent (<[c := pc]> heap)) st ps' evs n') n.
Proof.
  intros Hn Hm Hnone Hno. unfold connect_to_peer, on_peer. wp_step. wp_step.
  eapply wpx_lift_ok; [done|]. wp_step. rewrite Hm.
  eapply wpx_lift_ok; [apply get_string_string|]. do 2 wp_step.
  pose proof (rd_manager _ _ _ _ _ _ Hn) as Hmg. cbn [lget peerL connectionsL lens_comp managerL].
  rewrite Hmg. rewrite decide_False by (rewrite Hnone; by intros [? ?]).
  pose proof (live_awaitable _ _ _ _ other _ Hn Hno) as Haw. unfold on_peer in Haw.
  apply (wpx_zoom peerL) in Haw. apply wpx_bind. eapply wpx_mono; [exact Haw| |done].
  intros aw p1 (ps1 & Hn1).
  pose proof (live_offer _ _ _ _ _ other _ Hn1) as Hoff. unfold on_peer in Hoff.
  apply (wpx_zoom peerL) in Hoff. wp_step. eapply wpx_mono; [exact Hoff| |done].
  intros c p2 (ch & pc & Hc & Hpc & Hn2). do 2 wp_step.
  pose proof (rd_manager _ _ _ _ _ _ Hn2) as Hmg2. cbn in Hmg2. cbn. rewrite Hmg2.
  rewrite decide_False by (rewrite Hnone; by intros [? ?]). repeat wp_step.
  exists c, ch, pc, ps1. split; [done|]. split; [done|].
  exact (live_joined _ _ _ _ _ other c ch _ Hn2).
Qed.

(** A description on its way. *)
Definition description (sdp type : string) : json :=
  jobject [("sdp", jstring sdp); ("type", jstring type)].

Lemma description_fields sdp type :
  (v ← index_mut (description sdp type) "sdp"; get_string v) = Ok sdp ∧
  (v ← index_mut (description sdp type) "type"; get_string v) = Ok type.
Proof. unfold description. split; json_index; by rewrite get_string_string. Qed.

(** on_rtc_setup answers an unknown peer. *)
Lemma live_setup_new x sent heap ps evs m sdp type n :
  (∀ c r, wp (rtc_set_remote c sdp type) (λ _ _, True) r) →
  live x (net sent heap) st ps evs n → sm_content m = description sdp type →
  mg_connections (sd_manager x) !! sm_sender_identity m = None →
  wp (on_peer (on_rtc_setup (EvSignaling m)))
     (λ _ n', ∃ c pc, heap !! c = None ∧ stranger (sm_sender_identity m) None pc ∧
        live (joined x (sm_sender_identity m) c 0) (net sent (<[c := pc]> heap)) st ps evs n') n.
Proof.
  intros Hok Hn Hm Hnone. destruct (description_fields sdp type) as [Hsdp Htype].
  unfold on_rtc_setup, on_peer. wp_step. wp_step.
  eapply wpx_lift_ok; [done|]. wp_step. rewrite Hm. eapply wpx_lift_ok; [exact Hsdp|]. wp_step.
  eapply wpx_lift_ok; [exact Htype|]. do 2 wp_step.
  pose proof (rd_manager _ _ _ _ _ _ Hn) as Hmg. cbn [lget peerL connectionsL lens_comp managerL].
  rewrite Hmg, Hnone.
  pose proof (live_answer _ _ _ _ _ (sm_sender_identity m) _ _ _ Hok Hn) as Hans.
  unfold on_peer in Hans. apply (wpx_zoom peerL) in Hans. wp_step.
  eapply wpx_mono; [exact Hans| |done].
  intros c p2 (pc & Hc & Hpc & Hn2). repeat wp_step. exists c, pc. split; [done|]. split; [done|].
  exact (live_joined _ _ _ _ _ (sm_sender_identity m) c 0 _ Hn2).
Qed.

(** It gives the answer of a known one to its connection. *)
Lemma live_setup_known x sent heap ps evs m sdp type c pc n :
  (∀ c r, wp (rtc_set_remote c sdp type) (λ _ _, True) r) →
  live x (net sent heap) st ps evs n → sm_content m = description sdp type →
  mg_connections (sd_manager x) !! sm_sender_identity m = Some (Some c) → heap !! c = Some pc →
  wp (on_peer (on_rtc_setup (EvSignaling m))) (λ _ n', live x (net sent heap) st ps evs n') n.
Proof.
  intros Hok [] Hm Hsome Hc. destruct (description_fields sdp type) as [Hsdp Htype].
  unfold on_rtc_setup, on_peer. wp_step. wp_step.
  eapply wpx_lift_ok; [done|]. wp_step. rewrite Hm. eapply wpx_lift_ok; [exact Hsdp|]. wp_step.
  eapply wpx_lift_ok; [exact Htype|]. do 2 wp_step.
  cbn [lget peerL connectionsL lens_comp managerL]. rewrite rd_manager, Hsome. unfold deref.
  do 2 wp_step. unfold set_remote_description, connection. do 3 wp_step.
  destruct rd_frame as (Hsent & Hheap & Hretry). rewrite Hheap, Hc. do 2 wp_step.
  set (r := pr_rtc (nd_peer n)) in *.
  pose proof (rtc_set_remote_sent (pc_rtc pc) sdp type r) as Hr.
  specialize (Hok (pc_rtc pc) r). apply wp_run in Hok as ([] & r2 & Hset & _).
  rewrite Hset in Hr. cbn in Hr. eapply wpx_returns; [exact Hset|].
  split; try done. split; [cbn; by rewrite Hr|done].
Qed.

(** What is only read. *)
Lemma node_reads {B} (m : M Peer B) b n :
  m (nd_peer n) = (Ok b, nd_peer n) → zoom peerL m n = (Ok b, n).
Proof. intros Hm. unfold zoom. cbn. rewrite Hm. by destruct n. Qed.

Lemma live_connection x sent heap ps evs c pc n :
  live x (net sent heap) st ps evs n → heap !! c = Some pc →
  zoom peerL (connection c) n = (Ok pc, n).
Proof.
  intros [] Hc. destruct rd_frame as (_ & Hheap & _). apply node_reads.
  unfold connection, mbind, M_bind, gets. by rewrite Hheap, Hc.
Qed.

Lemma live_identity x F ps evs n :
  live x F st ps evs n → zoom peerL (gets identity) n = (Ok (mg_identity (sd_manager x)), n).
Proof. intros []. apply node_reads. unfold gets, identity. by rewrite rd_manager. Qed.

(** The clock is read and nothing else happens. *)
Lemma live_stamp x F ps evs (m : SignalingMessage) n :
  live x F st ps evs n →
  wp (on_peer (zoom hostL (InternalMessage_create InternalMessageType.SendSignalingMessage m)))
     (λ i n', (∃ t, EvInternalSignaling i = signal m t) ∧
        uuid_ix (pr_host (nd_peer n')) = uuid_ix (pr_host (nd_peer n)) ∧
        live x F st ps evs n') n.
Proof.
  intros []. unfold on_peer, InternalMessage_create, get_krapi_timestamp. do 3 wp_step.
  unfold wpx, mbind, M_bind. cbn. split; [by eexists|]. split; [done|]. by split.
Qed.

Lemma live_notification x F ps evs {B} type (content : B) n :
  live x F st ps evs n →
  wp (on_peer (zoom hostL (InternalNotification_create type content)))
     (λ notif n', (∃ tag, notif = MkInternalNotification type content tag) ∧
        live x F st ps evs n') n.
Proof.
  intros []. unfold on_peer, InternalNotification_create. do 3 wp_step. unfold wpx, create_tag.
  cbn. split; [by eexists|]. split; try done. intros k Hk. cbn in Hk. apply rd_tags. lia.
Qed.

Lemma live_send_signaling x F ps evs type sender receiver tag content n :
  live x F st ps evs n →
  wp (on_peer (send_signaling type sender receiver tag content))
     (λ _ n', ∃ t, live x F st ps (evs ++
        [signal (MkSignalingMessage type sender receiver tag content) t]) n') n.
Proof.
  intros Hn. unfold send_signaling, on_peer. apply wpx_zoom_bind; [apply _|].
  pose proof (live_stamp _ _ _ _ (MkSignalingMessage type sender receiver tag content) _ Hn) as Hs.
  unfold on_peer, wp in Hs. eapply wpx_mono; [exact Hs| |done]. intros i n1 ([t Ht] & _ & Hn1).
  pose proof (live_enqueue _ _ _ _ _ (EvInternalSignaling i) _ Hn1) as Hq.
  unfold on_peer, wp in Hq. eapply wpx_mono; [exact Hq| |done].
  intros [] n2 Hn2. exists t. by rewrite <-Ht.
Qed.

(** What the library reports of the local end of connection [c] goes into a message. *)
Lemma live_report x sent heap ps c pc type content n :
  live x (net sent heap) st ps [] n → heap !! c = Some pc →
  wp (on_peer (pc ← connection c; id ← gets identity; tag ← zoom hostL create_tag;
               send_signaling type id (pc_identity pc) tag content))
     (λ _ n', ∃ tag t, text tag ∧ live x (net sent heap) st ps
        [signal (MkSignalingMessage type (mg_identity (sd_manager x)) (pc_identity pc) tag
           content) t] n') n.
Proof.
  intros Hn Hc. unfold on_peer.
  apply wpx_zoom_bind; [apply _|]. eapply wpx_returns; [by eapply live_connection|].
  apply wpx_zoom_bind; [apply _|]. eapply wpx_returns; [exact (live_identity _ _ _ _ _ Hn)|].
  apply wpx_zoom_bind; [apply _|].
  pose proof (live_create_tag _ _ _ _ _ _ Hn) as Htag.
  unfold on_peer, wp in Htag. eapply wpx_mono; [exact Htag| |done]. intros tag n1 (Htext & _ & _ & Hn1).
  pose proof (λ type s r c, live_send_signaling _ _ _ _ type s r
    tag c _ Hn1) as Hs.
  unfold on_peer, wp in Hs. eapply wpx_mono; [apply Hs| |done].
  intros [] n2 (t & Hn2). exists tag, t. by split.
Qed.

(** ** Candidates *)

(** A candidate on its way. *)
Definition candidate (sdp mid : string) : json :=
  jobject [("candidate", jstring sdp); ("mid", jstring mid)].

Lemma candidate_fields sdp mid :
  (v ← index_mut (candidate sdp mid) "candidate"; get_string v) = Ok sdp ∧
  (v ← index_mut (candidate sdp mid) "mid"; get_string v) = Ok mid.
Proof. unfold candidate. split; json_index; by rewrite get_string_string. Qed.

(** Connection objects of [heap] are all that listens for candidates. *)
Definition hearing x (heap : gmap nat PeerConnection) : Prop :=
  ∃ cs, sd_listeners x (SignalingEvent SignalingMessageType.RTCCandidate) =
    map App (map OnRtcCandidate cs) ∧ ∀ c, c ∈ cs → is_Some (heap !! c).

Lemma hearing_joined x heap other c ch pc :
  hearing x heap → hearing (joined x other c ch) (<[c := pc]> heap).
Proof.
  intros (cs & Hl & Hcs). exists (cs ++ [c]). split.
  - cbn [joined attentive heeding sd_listeners]. rewrite Hl.
    rewrite decide_False, decide_True, app_nil_r by done. by rewrite !map_app.
  - intros c' [Hc'|Hc']%elem_of_app; apply lookup_insert_is_Some; [|set_solver].
    destruct (decide (c = c')); [by left|right; split; [done|by apply Hcs]].
Qed.

(** A connection takes the candidates of its peer and ignores the others. *)
Lemma live_hears x sent heap ps evs c m sdp mid n :
  (∀ c r, wp (rtc_add_candidate c sdp mid) (λ _ _, True) r) →
  live x (net sent heap) st ps evs n → sm_content m = candidate sdp mid → is_Some (heap !! c) →
  wp (on_peer (on_rtc_candidate c (EvSignaling m))) (λ _ n', live x (net sent heap) st ps evs n') n.
Proof.
  intros Hok Hn Hm [pc Hc]. destruct (candidate_fields sdp mid) as [Hsdp Hmid].
  unfold on_rtc_candidate, on_peer. apply wpx_zoom_bind; [apply _|].
  eapply wpx_returns; [reflexivity|]. apply wpx_zoom_bind; [apply _|].
  change (lset peerL (nd_peer n) n) with (lset peerL (lget peerL n) n). rewrite lset_lget.
  eapply wpx_returns; [by eapply live_connection|]. case_decide; [|by do 2 wp_step; destruct n].
  rewrite Hm. wp_step. wp_step. eapply wpx_lift_ok; [exact Hsdp|]. wp_step.
  eapply wpx_lift_ok; [exact Hmid|]. wp_step. set (r := pr_rtc (nd_peer n)).
  pose proof (rtc_add_candidate_sent (pc_rtc pc) sdp mid r) as Hr.
  specialize (Hok (pc_rtc pc) r). apply wp_run in Hok as ([] & r2 & Hadd & _).
  rewrite Hadd in Hr. cbn in Hr. eapply wpx_returns; [exact Hadd|]. destruct Hn.
  destruct rd_frame as (Hsent & Hheap & Hretry). split; try done.
  split_and!; [cbn; by rewrite Hr|done|done].
Qed.

(** ** The channel *)

(** The library hands the answering side its channel. *)
Lemma live_channel x sent heap ps evs c pc ch n :
  live x (net sent heap) st ps evs n → heap !! c = Some pc → pc_channel pc = None →
  wp (on_peer (initialize_channel c ch))
     (λ _ n', live x (net sent (<[c := MkPeerConnection (pc_identity pc) (pc_rtc pc) (Some ch)
        (pc_type pc) (pc_state pc) (pc_handles pc)]> heap)) st ps evs n') n.
Proof.
  intros Hn Hc Hch. unfold initialize_channel, on_peer. apply wpx_zoom_bind; [apply _|].
  eapply wpx_returns; [by eapply live_connection|]. rewrite Hch. unfold update_connection.
  do 3 wp_step. exact (live_update _ _ _ _ _ c _ _ Hn).
Qed.

(** The channel is open. *)
Definition opened_event (other tag : string) : Event :=
  EvString (MkInternalNotification InternalNotificationType.DataChannelOpened other tag).

Lemma live_open x sent heap ps evs c pc n :
  live x (net sent heap) st ps evs n → heap !! c = Some pc →
  wp (on_peer (on_open c))
     (λ _ n', ∃ tag, live x (net sent heap) st ps (evs ++ [opened_event (pc_identity pc) tag])
        n') n.
Proof.
  intros Hn Hc. unfold on_open, notify_string, on_peer.
  apply wpx_zoom_bind; [apply _|]. eapply wpx_returns; [by eapply live_connection|].
  apply wpx_zoom_bind; [apply _|].
  pose proof (live_notification _ _ _ _ InternalNotificationType.DataChannelOpened
    (pc_identity pc) _ Hn) as Hnt. unfold on_peer, wp in Hnt.
  eapply wpx_mono; [exact Hnt| |done]. intros notif n1 [(tag & ->) Hn1].
  pose proof (live_enqueue _ _ _ _ _ (opened_event (pc_identity pc) tag) _ Hn1) as Hq.
  unfold on_peer, wp in Hq. eapply wpx_mono; [exact Hq| |done]. intros [] n2 Hn2. by exists tag.
Qed.

(** A side with one more task for the executor. *)
Definition posting x (task : PostedTask) : Side :=
  MkSide (sd_manager x) (sd_connection x) (sd_channel x) (sd_listeners x) (sd_waiters x)
    (option_map (λ l, l ++ [task]) (sd_posted x)).

Lemma posting_busy x task : sd_posted x = None → posting x task = x.
Proof. destruct x. by cbn; intros ->. Qed.

Lemma live_post x F ps evs task n :
  live x F st ps evs n → wp (on_peer (post task)) (λ _ n', live (posting x task) F st ps evs n') n.
Proof.
  intros []. unfold on_peer, post. do 3 wp_step. split; try done. intros l. cbn.
  destruct (sd_posted x) as [l'|]; [|done]. intros [= <-]. by rewrite (rd_posted l').
Qed.

(** The loop takes the news: stored messages for the peer are to be sent again. *)
Lemma run_opened x sent heap ps other c tag rounds n :
  live x (net sent heap) st ps [opened_event other tag] n →
  sd_listeners x (NotificationEvent InternalNotificationType.DataChannelOpened) =
    [App RetryOnDatachannelOpen; App OnDatachannelOpened] →
  mg_connections (sd_manager x) !! other = Some c →
  wp (node_run ws (S rounds))
     (λ _ n', ∃ ps', live (posting x (RetryTask other)) (net sent heap) st ps' [] n') n.
Proof.
  intros Hn Hl Hc. eapply run_next; [exact Hn|].
  eapply process_event; [|exact Hn|]; [done|]. intros ps1 n1 Hn1 _ _.
  eapply (dispatch_two x (net sent heap) st ws _ _ _ _
    (λ n', live (posting x (RetryTask other)) (net sent heap) st ps1 [] n'));
    [exact Hn1|exact Hl| |].
  - cbn [run_callback run_peer_callback]. unfold on_peer, on_datachannel_open, post. wp_step.
    wp_step. eapply wpx_lift_ok; [done|]. do 2 wp_step. split; [|done].
    pose proof (live_post _ _ _ _ (RetryTask other) _ Hn1) as Hp.
    apply wp_run in Hp as ([] & n' & Hrun & Hp). by injection Hrun as <-.
  - intros n2 Hn2. cbn [run_callback run_peer_callback]. unfold on_peer, on_datachannel_opened.
    wp_step. wp_step. eapply wpx_lift_ok; [done|]. do 2 wp_step. cbn.
    rewrite (rd_manager _ _ _ _ _ _ Hn2 : pr_manager _ = sd_manager x), Hc.
    rewrite decide_True by by eexists. wp_step.
    replace (MkNode (nd_peer n2) (nd_stores n2)) with n2 by by destruct n2.
    eapply run_idle; [exact Hn2|by eexists].
Qed.

(** A worker of the executor takes the posted task, which finds nothing to send. *)
Lemma run_retry_task (env : ∀ w, M Node (answer w)) x sent heap ps other n :
  live (posting x (RetryTask other)) (net sent heap) st ps [] n → sd_posted x = Some [] →
  no_mail other d →
  wp (drive peerL env (run_task (RetryTask other))) (λ _ n', live x (net sent heap) st ps [] n') n.
Proof.
  intros Hn Hposted Hno. unfold run_task, wp. rewrite wpx_drive_bind, wpx_drive_lift by apply _.
  unfold task_start. do 6 wp_step.
  match goal with |- wpx _ _ _ ?n' => set (n1 := n') end.
  destruct (rd_frame _ _ _ _ _ _ Hn) as (Hsent & Hheap & Hretry).
  assert (no_mail other (pr_retry (nd_peer n1))) as Hno1 by (cbn; by rewrite Hretry).
  pose proof (retry_task_no_mail other (nd_peer n1) Hno1) as Hbody.
  apply wp_run in Hbody as ([] & p & Hbody & ->).
  eapply (drive_finally_finished peerL env (co_lift (retry_task other)) tt (nd_peer n1)).
  { by apply lift_finished. }
  unfold task_end, task_done. do 4 wp_step. destruct Hn. split; try done.
  intros l. rewrite Hposted. intros [= <-]. cbn.
  rewrite (rd_posted [RetryTask other]); [|cbn; by rewrite Hposted]. cbn. by rewrite decide_True.
Qed.

(** ** The start of the signaling client *)

Lemma live_initialize_client x F ps n :
  live x F st ps [] n → sd_listeners x server_opened = [] →
  wp (on_peer initialize_client)
     (λ p n', ∃ w h waiters ps', waiters !! w = Some (MkWaiter server_opened h 1 None p) ∧
        untagged ps' p ∧
        live (listening (heeding x (InternalEvent InternalMessageType.SendSignalingMessage)
                SendSignaling) server_opened [Await w] waiters) F st ps' [] n') n.
Proof.
  intros Hn Hl. unfold initialize_client, on_peer. apply wpx_zoom_bind; [apply _|].
  pose proof (live_listen _ _ _ _ _ (InternalEvent InternalMessageType.SendSignalingMessage)
    SendSignaling _ Hn) as Hli. unfold on_peer, wp in Hli.
  eapply wpx_mono; [exact Hli| |done]. intros h0 n1 Hn1.
  pose proof (live_event_of_type _ _ _ _ _ server_opened _ Hn1) as Hev. unfold on_peer, wp in Hev.
  eapply wpx_mono; [exact Hev| |done]. intros p n2 (h & ps' & Hn2 & _ & _ & Hp & _).
  cbn [heeding sd_listeners] in Hn2. rewrite decide_False, Hl in Hn2 by done.
  do 4 eexists. split; [apply lookup_insert_eq|]. split; [exact Hp|exact Hn2].
Qed.

(** The socket is open. *)
Lemma live_ws_open x F ps evs n :
  live x F st ps evs n →
  wp (on_peer on_ws_open)
     (λ _ n', ∃ tag, live x F st ps (evs ++ [EvEmpty (MkInternalNotification
        InternalNotificationType.SignalingServerOpened tt tag)]) n') n.
Proof.
  intros Hn. unfold on_ws_open, on_ws_notification, on_peer. apply wpx_zoom_bind; [apply _|].
  pose proof (live_notification _ _ _ _ InternalNotificationType.SignalingServerOpened tt _ Hn)
    as Hnt. unfold on_peer, wp in Hnt.
  eapply wpx_mono; [exact Hnt| |done]. intros notif n1 [(tag & ->) Hn1].
  pose proof (live_enqueue _ _ _ _ _ (EvEmpty (MkInternalNotification
    InternalNotificationType.SignalingServerOpened tt tag)) _ Hn1) as Hq.
  unfold on_peer, wp in Hq. eapply wpx_mono; [exact Hq| |done]. intros [] n2 Hn2. by exists tag.
Qed.

(** What a client says first. *)
Definition hello (self tag : string) : SignalingMessage :=
  MkSignalingMessage SignalingMessageType.SetIdentityRequest self "signaling_server" tag
    (jstring self).

Lemma live_initialize_opened x F ps n :
  live x F st ps [] n →
  wp (on_peer initialize_opened)
     (λ p n', ∃ tag t ps', text tag ∧ ps_promises ps' !! tag = Some p ∧
        live x F st ps' [signal (hello (mg_identity (sd_manager x)) tag) t] n') n.
Proof.
  intros Hn. unfold initialize_opened, on_peer. apply wpx_zoom_bind; [apply _|].
  eapply wpx_returns; [exact (live_identity _ _ _ _ _ Hn)|]. apply wpx_zoom_bind; [apply _|].
  pose proof (live_create_tag _ _ _ _ _ _ Hn) as Htag. unfold on_peer, wp in Htag.
  eapply wpx_mono; [exact Htag| |done]. intros tag n1 (Htext & Hnew & Hix & Hn1).
  apply wpx_zoom_bind; [apply _|].
  pose proof (live_stamp _ _ _ _ (hello (mg_identity (sd_manager x)) tag) _ Hn1) as Hs.
  unfold on_peer, wp in Hs. eapply wpx_mono; [exact Hs| |done]. intros i n2 ([t Ht] & Hsame & Hn2).
  pose proof (live_submit x F st ps [] (EvInternalSignaling i) n2 Hn2) as Hsub. rewrite Ht in Hsub.
  specialize (Hsub Hnew ltac:(by rewrite Hsame)). unfold on_peer, wp in Hsub. rewrite Ht.
  eapply wpx_mono; [exact Hsub| |done]. intros p n3 (ps' & Hp & Hn3). by exists tag, t, ps'.
Qed.
End Client.

(** ** What the server does *)

Section Server.
Context `{JsonLib} `{CryptoLib} `{LevelDB} `{FifoLib} `{EventppLib} `{RtcLib} `{HostLib}.
Context `{HashOrder} `{!ReliableSockets}.
Implicit Types (srv : SignalingServer) (m : SignalingMessage).

Lemma texts_to_map k (f : nat → string) (l : list nat) :
  NoDup l →
  texts_to (Socket k) (map (λ w, (Socket w, f w)) l) = if decide (k ∈ l) then [f k] else [].
Proof.
  induction l as [|w l IH]; intros Hnd; [by rewrite decide_False by set_solver|].
  apply NoDup_cons in Hnd as [Hw Hnd]. specialize (IH Hnd). unfold texts_to in *. cbn.
  destruct (decide (Socket w = Socket k)) as [[= ->]|Hne]; cbn; rewrite IH.
  - by rewrite decide_False, decide_True by set_solver.
  - destruct (decide (k ∈ l)); [by rewrite decide_True by set_solver|].
    rewrite decide_False; [done|]. intros [->|?]%elem_of_cons; done.
Qed.

(** What a loop over the sockets sends. *)
Lemma concat_filter (P : nat → Prop) `{∀ k, Decision (P k)} (f : nat → string) (l : list nat) :
  concat (map (λ w, if decide (P w) then [(Socket w, f w)] else []) l) =
  map (λ w, (Socket w, f w)) (filter P l).
Proof.
  induction l as [|w l IH]; [done|]. cbn [map concat]. rewrite filter_cons, IH.
  by destruct (decide (P w)).
Qed.

Lemma hash_elements_nodup (X : gset nat) : NoDup (hash_elements X).
Proof. rewrite hash_elements_perm. apply NoDup_elements. Qed.

Lemma hash_elements_in (X : gset nat) k : k ∈ hash_elements X ↔ k ∈ X.
Proof. by rewrite hash_elements_perm, elem_of_elements. Qed.

(** The server knows [ids] and its sockets are [socks]. *)
Record serving (socks : gset nat) (ids : gmap nat string) srv : Prop := {
  sg_sockets : sv_sockets srv = socks;
  sg_identities : sv_identities srv = ids;
  sg_wf : server_wf srv }.

Lemma sent_only_served sent srv srv' k :
  sent_only sent srv srv' → server_texts k srv' = server_texts k srv ++ texts_to (Socket k) sent.
Proof. intros (r & -> & Hr). unfold server_texts. cbn. by rewrite Hr, texts_to_app. Qed.

Lemma sent_only_serving sent socks ids srv srv' :
  sent_only sent srv srv' → serving socks ids srv → serving socks ids srv'.
Proof. intros (r & -> & _) [Hs Hi Hw]. by split. Qed.

Lemma wpx_reliable {A} (m : M SignalingServer A) (Q : A → SignalingServer → Prop) E srv :
  wpx m Q (λ e srv', ¬ ReliableSockets ∧ E e srv') srv → wp m Q srv.
Proof. intros Hm. unfold wp. eapply wpx_mono; [exact Hm|done|]. by intros e srv' [Hno _]. Qed.

(** A new client. *)
Lemma server_client s socks ids srv :
  serving socks ids srv → ids !! s = None →
  wp (on_client s) (λ _ srv', serving ({[s]} ∪ socks) (<[s := ""]> ids) srv' ∧
                               sv_rtc srv' = sv_rtc srv) srv.
Proof.
  intros [Hs Hi Hw] Hno. unfold on_client. repeat wp_step. cbn. rewrite Hs, Hi.
  rewrite decide_False by (rewrite Hno; by intros [? ?]). split; [|done]. split; [done|done|].
  intros k. cbn. rewrite elem_of_union, elem_of_singleton. intros [->|Hk].
  - by rewrite lookup_insert_eq.
  - destruct (decide (k = s)) as [->|Hne]; [by rewrite lookup_insert_eq|].
    rewrite lookup_insert_ne, <-Hi by done. apply Hw. by rewrite Hs.
Qed.

(** The handler of a message that arrives in print. *)
Definition handled (s : nat) (mine : string) m : M SignalingServer unit :=
  match sm_type m with
  | SignalingMessageType.SetIdentityRequest => on_set_identity s m
  | SignalingMessageType.AvailablePeersRequest => on_available_peers s mine m
  | SignalingMessageType.RTCSetup | SignalingMessageType.RTCCandidate => on_rtc_message m
  | _ => mret tt
  end.

Lemma server_reads s mine m text_ (Q : unit → SignalingServer → Prop) srv :
  prints m text_ → sv_identities srv !! s = Some mine →
  wp (handled s mine m) Q srv → wp (on_client_message s (RtcText text_)) Q srv.
Proof.
  intros Hm Hmine Hh. destruct (prints_parse _ _ Hm) as [Hp Hdec]. unfold on_client_message.
  wp_step. eapply wpx_lift_ok; [done|]. wp_step. eapply wpx_lift_ok; [exact Hp|]. wp_step.
  eapply wpx_lift_ok; [exact Hdec|]. wp_step. eapply wpx_identity_of; [exact Hmine|]. exact Hh.
Qed.

(** A client is introduced: it gets an answer, and the client of [s'] is told. *)
Lemma server_introduces s s' socks ids idA idB tag text_ answer told srv :
  serving socks ids srv → s ∈ socks → s' ∈ socks → s ≠ s' → ids !! s' = Some idB →
  (∀ k other, ids !! k = Some other → text other) → text idA →
  prints (hello idA tag) text_ →
  prints (from_server SignalingMessageType.SetIdentityResponse idA tag jnull) answer →
  prints (peer_available idB tag idA) told →
  wp (for_each [text_] (λ text_, on_client_message s (RtcText text_)))
     (λ _ srv', served s s' [answer] [told] srv srv' ∧ serving socks (<[s := idA]> ids) srv') srv.
Proof.
  intros Hsrv Hs Hs' Hne HidB Hids HtA Hm Ha Ht. pose proof Hsrv as [Hsocks Hi Hw].
  destruct Hm as (Hwf & Hty & Hprint). pose proof Hwf as (_ & _ & Htag & _).
  set (texts := λ other,
    match SignalingMessage_to_string (peer_available other tag idA) with
    | Ok t => t
    | Err _ => ""
    end).
  assert (∀ socket other, sv_identities srv !! socket = Some other →
    SignalingMessage_to_string (peer_available other tag idA) = Ok (texts other)) as Htexts.
  { intros socket other Hother. rewrite Hi in Hother.
    destruct (prints_exists (peer_available other tag idA)) as (t & _ & _ & Hts); [|done|].
    - split_and!; [by apply text_ascii|by eapply Hids|done|by apply canonical_string].
    - unfold texts. by rewrite Hts. }
  destruct (Hw s) as [mine Hmine]; [by rewrite Hsocks|].
  cbn [for_each]. wp_step. eapply wp_mono; [eapply (server_reads s mine (hello idA tag)
    text_ (λ _ srv', sent_only (introduction texts answer s srv)
      (lset sv_identitiesL (<[s := idA]> (sv_identities srv)) srv) srv')); [by split_and!|done|]|].
  { cbn [handled sm_type hello]. eapply wpx_reliable, set_identity_spec; [exact Hw|apply Ha|exact Htexts]. }
  intros [] srv' Hsent. wp_step. split.
  - assert (texts idB = told) as Htold.
    { destruct Ht as (_ & _ & Ht). unfold texts. by rewrite Ht. }
    assert (∀ k, texts_to (Socket k) (introduction texts answer s srv) =
      (if decide (k = s) then [answer] else []) ++
      if decide (k ∈ filter (λ w, w ≠ s) (hash_elements (sv_sockets srv)))
      then [texts (default "" (sv_identities srv !! k))] else []) as Hto.
    { intros k. unfold introduction. rewrite concat_filter.
      change (?t :: ?l) with ([t] ++ l). rewrite texts_to_app.
      rewrite texts_to_map by apply NoDup_filter, hash_elements_nodup. f_equal.
      destruct (decide (k = s)) as [->|Hk]; [exact (texts_to_same _ [answer])|].
      apply (texts_to_other _ _ [answer]). congruence. }
    split; rewrite (sent_only_served _ _ _ _ Hsent), Hto.
    + rewrite decide_True by done.
      by rewrite decide_False by (rewrite list_elem_of_filter; by intros [? _]).
    + rewrite decide_False by done.
      rewrite decide_True by by rewrite list_elem_of_filter, hash_elements_in, Hsocks.
      by rewrite Hi, HidB, <-Htold.
  - eapply sent_only_serving; [exact Hsent|]. split; cbn; [done|by rewrite Hi|].
    intros k Hk. cbn in *. destruct (decide (k = s)) as [->|Hks]; [by rewrite lookup_insert_eq|].
    rewrite lookup_insert_ne by done. by apply Hw.
Qed.

(** A description or a candidate goes to the client of [s'] and not back. *)
Lemma server_routes s s' socks ids m text_ srv :
  serving socks ids srv → s ∈ socks → s' ∈ socks →
  ids !! s' = Some (sm_receiver_identity m) → ids !! s ≠ Some (sm_receiver_identity m) →
  sm_type m ∈ [SignalingMessageType.RTCSetup; SignalingMessageType.RTCCandidate] →
  prints m text_ →
  wp (for_each [text_] (λ text_, on_client_message s (RtcText text_)))
     (λ _ srv', served s s' [] [text_] srv srv' ∧ serving socks ids srv') srv.
Proof.
  intros Hsrv Hs Hs' Hto Hnot Hty Hm. pose proof Hsrv as [Hsocks Hi Hw].
  destruct (Hw s) as [mine Hmine]; [by rewrite Hsocks|].
  set (targets := announced srv (sm_receiver_identity m) (hash_elements (sv_sockets srv))).
  cbn [for_each]. wp_step. eapply wp_mono; [eapply (server_reads s mine m text_
    (λ _ srv', sent_only (map (λ w, (Socket w, text_)) targets) srv srv')); [done..|]|].
  { assert (handled s mine m = on_rtc_message m) as ->.
    { unfold handled. by repeat (apply elem_of_cons in Hty as [->|Hty]); [| |set_solver]. }
    unfold on_rtc_message, for_sockets. do 2 wp_step.
    eapply wpx_reliable, route_loop; [apply Hm|].
    intros w. rewrite hash_elements_in. apply Hw. }
  intros [] srv' Hsent. wp_step. split; [|by eapply sent_only_serving].
  assert (∀ k, texts_to (Socket k) (map (λ w, (Socket w, text_)) targets) =
    if decide (k ∈ targets) then [text_] else []) as Htexts.
  { intros k. apply (texts_to_map k (λ _, text_)).
    apply NoDup_filter, hash_elements_nodup. }
  split; rewrite (sent_only_served _ _ _ _ Hsent), Htexts; unfold targets, announced.
  - by rewrite decide_False by (rewrite list_elem_of_filter, Hi; by intros [? _]).
  - by rewrite decide_True by by rewrite list_elem_of_filter, Hi, hash_elements_in, Hsocks.
Qed.
End Server.
