(* ===== verification/Introduction.v ===== *)
(** * The signaling server introduces two nodes

    In the world of Hub.v a node comes to the signaling server: it says who it is, the other node
    is told and makes an offer, the server routes the offer and the answer, and both nodes end
    with a connection to each other, ready for what Exchange.v is about. The initial block
    download of Sync.v and the question for the pool of PoolSync.v follow. *)

From stdpp Require Import base sets list gmap strings.
From Stdlib Require Import ZArith Lia.
From S2P Require Import Prelude Json Crypto LevelDB Fifo Rtc Enums Models Messages DBInterface.
From S2P Require Import Stores Blockchain Validator TransactionPool Event Coroutine Services.
From S2P Require Import BlockchainManager TransactionPoolManager Miner Peer RetryHandler.
From S2P Require Import PeerConnection PeerManager WaitForPeers SignalingClient SignalingServer.
From S2P Require Import Node NodeInvariant Loop Exchange Sync Broadcast PoolSync Hub Clients.

Open Scope Z_scope.

(** ** The meeting *)

Section Meeting.
Context `{JsonLib} `{CryptoLib} `{LevelDB} `{FifoLib} `{EventppLib} `{RtcLib} `{HostLib}.
Context `{HashOrder}.

(** The library's callbacks are bound to the connection objects. *)
Definition connection_with (other : string) : M Node nat :=
  connections ← gets (λ n, mg_connections (pr_manager (nd_peer n)));
  match connections !! other with
  | Some (Some c) => mret c
  | _ => throw UndefinedBehaviour
  end.

(** The channel of the connection object for [other]. *)
Definition channel_to (other : string) (n : Node) : option nat :=
  match mg_connections (pr_manager (nd_peer n)) !! other with
  | Some (Some c) => pr_heap (nd_peer n) !! c ≫= pc_channel
  | _ => None
  end.

(** The library describes the local end of the connection to [other]. *)
Definition describes (other sdp type : string) : M Node unit :=
  c ← connection_with other; on_peer (on_local_description c sdp type).

(** It does so, and the description goes to [other]. *)
Definition sends_description (s ws s' ws' rounds : nat) (other sdp type : string) : M Hub unit :=
  _ ← zoom nearL (describes other sdp type);
  turn s ws s' ws' rounds.

(** The library finds a candidate. *)
Definition trickles (other sdp mid : string) : M Node unit :=
  c ← connection_with other; on_peer (on_local_candidate c sdp mid).

(** Candidates are found one after the other and go to [other]. *)
Definition sends_candidates (s ws s' ws' rounds : nat) (other : string)
    (candidates : list (string * string)) : M Hub unit :=
  for_each candidates (λ sm,
    _ ← zoom nearL (trickles other sm.1 sm.2);
    turn s ws s' ws' rounds).

(** What the library reports of one end of a connection: the description and the candidates. *)
Record Reported := MkReported {
  rp_sdp : string;
  rp_type : string;
  rp_candidates : list (string * string) }.

Definition sends_reported (s ws s' ws' rounds : nat) (other : string) (r : Reported) : M Hub unit :=
  _ ← sends_description s ws s' ws' rounds other (rp_sdp r) (rp_type r);
  sends_candidates s ws s' ws' rounds other (rp_candidates r).

(** The library hands over the channel the other side has created. *)
Definition hands_channel (other : string) (ch : nat) : M Node unit :=
  c ← connection_with other; on_peer (initialize_channel c ch).

(** The executor runs the posted tasks, none of which waits for anything. *)
Definition executes : M Node unit :=
  tasks ← gets (λ n, pr_posted (nd_peer n));
  for_each tasks (λ task, drive peerL (λ _, throw LibraryError) (run_task task)).

(** The library reports that the channel is open, and the loop runs. *)
Definition opens (ws rounds : nat) (other : string) : M Node unit :=
  c ← connection_with other;
  _ ← on_peer (on_open c);
  node_run ws rounds.

Section Introduce.
Context (s ws s' ws' rounds : nat).

(** The web socket is open, at both ends. *)
Definition arrives : M Hub unit :=
  sockets ← gets (λ h, sv_sockets (hb_server h));
  if decide (s ∈ sockets) then mret tt
  else
    _ ← zoom serverL (on_client s);
    zoom nearL (on_peer on_ws_open).

(** The world while the near node waits for an answer. *)
Definition meeting_answers (w : Awaited) : M Hub (answer w) :=
  match w with
  | Answer p =>
      _ ← arrives;
      _ ← turn s ws s' ws' rounds;
      result ← gets (λ h, result_of (pr_queue (nd_peer (en_node (hb_near h)))) p);
      match result with Some e => mret e | None => throw LibraryError end
  | FirstOf _ _ => throw LibraryError
  | Peers _ => throw LibraryError
  | Delay _ => mret tt
  | Mined _ => throw LibraryError
  end.

(** The near node, [idA], comes; the far one, [idB], is there. It sends what the library reports
    of its offer, the near node answers, and the library gives the near node the channel [ch].
    Both ends report that it is open, and the near node's executor does what that has posted. *)
Definition introduce (idA idB : string) (offer answer : Reported) (ch : nat) : M Hub unit :=
  _ ← drive (lens_comp nearL peerL) meeting_answers initialize;
  _ ← zoom swapL (sends_reported s' ws' s ws rounds idA offer);
  _ ← sends_reported s ws s' ws' rounds idB answer;
  _ ← zoom nearL (hands_channel idB ch);
  _ ← zoom nearL (opens ws rounds idB);
  _ ← zoom nearL executes;
  zoom farL (opens ws' rounds idA).
End Introduce.
End Meeting.

(** ** Phase by phase *)

Section Phases.
Context `{JsonLib} `{CryptoLib} `{LevelDB} `{FifoLib} `{EventppLib} `{RtcLib} `{HostLib}.
Context `{HashOrder} `{!ReliableSockets}.
Implicit Types (x : Side) (n : Node) (h : Hub) (heap : gmap nat PeerConnection).

(** A node after main whose signaling client has started. *)
Record client x (self : string) : Prop := {
  ci_identity : mg_identity (sd_manager x) = self;
  ci_signals : sd_listeners x (InternalEvent InternalMessageType.SendSignalingMessage) =
    [App SendSignaling];
  ci_opened : sd_listeners x (NotificationEvent InternalNotificationType.DataChannelOpened) =
    [App RetryOnDatachannelOpen; App OnDatachannelOpened];
  ci_wired : wired x }.

Lemma client_joined x self other c ch : client x self → client (joined x other c ch) self.
Proof.
  intros [Hid Hsig Hop Hw]. split; try done.
  - cbn. by rewrite Hsig.
  - cbn. by rewrite Hop.
  - intros type Hty. cbn [joined attentive heeding sd_listeners]. rewrite (Hw type Hty).
    rewrite !decide_False by (intros <-; apply Hty; by apply (bool_decide_unpack _)).
    by rewrite !app_nil_r.
Qed.

Lemma client_hears x self type :
  client x self → SignalingEvent type ∉ later_types →
  sd_listeners x (SignalingEvent type) = registered node_listeners (SignalingEvent type).
Proof. intros [_ _ _ Hw] Hty. by apply Hw. Qed.

(** A client with nothing to do; [d] is its retry handler's database. *)
Definition quiet ws d x heap st n : Prop := ∃ sent ps, live x (net ws d sent heap) st ps [] n.

(** Both clients have nothing to do, and nothing is on its way. *)
Record met (s ws s' ws' : nat) (dA dB : db) (stA stB : Stores) (socks : gset nat)
    (ids : gmap nat string) xA (heapA : gmap nat PeerConnection) xB (heapB : gmap nat PeerConnection) h : Prop := {
  mt_way : on_the_way s ws s' ws' [] [] [] h;
  mt_server : serving socks ids (hb_server h);
  mt_near : quiet ws dA xA heapA stA (en_node (hb_near h));
  mt_far : quiet ws' dB xB heapB stB (en_node (hb_far h)) }.

Lemma met_swap s ws s' ws' dA dB stA stB socks ids xA heapA xB heapB h :
  met s ws s' ws' dA dB stA stB socks ids xA heapA xB heapB h →
  met s' ws' s ws dB dA stB stA socks ids xB heapB xA heapA
    (MkHub (hb_server h) (hb_far h) (hb_near h)).
Proof. intros [Hw Hs Hn Hf]. split; [by apply on_the_way_swap|done..]. Qed.

(** Nothing arrives at a client with nothing to do. *)
Lemma quiet_runs ws d x heap st rounds n :
  quiet ws d x heap st n →
  wp (for_each [] (λ text_, on_peer (on_ws_message (RtcText text_))))
     (λ _ n', socket_texts ws n' = socket_texts ws n ∧
        wp (node_run ws rounds)
           (λ _ n'', socket_texts ws n'' = socket_texts ws n' ∧ quiet ws d x heap st n'') n') n.
Proof.
  intros (sent & ps & Hn). apply wpx_ret. split; [done|]. eapply run_idle; [exact Hn|].
  split; [done|]. by exists sent, ps.
Qed.

(** One message arrives at a client, and a callback leaves it quiet again. *)
Lemma quiet_hears ws d x heap st rounds m text_ callback (Q : Node → Prop) n :
  quiet ws d x heap st n → prints m text_ →
  sd_listeners x (SignalingEvent (sm_type m)) = [App callback] →
  (∀ sent ps n', live x (net ws d sent heap) st ps [] n' →
     wp (run_callback ws callback (EvSignaling m))
        (λ _ n'', Q n'' ∧ ∃ x' heap' ps', live x' (net ws d sent heap') st ps' [] n'') n') →
  wp (for_each [text_] (λ text_, on_peer (on_ws_message (RtcText text_))))
     (λ _ n', socket_texts ws n' = socket_texts ws n ∧
        wp (node_run ws (S rounds))
           (λ _ n'', socket_texts ws n'' = socket_texts ws n' ∧ Q n'') n') n.
Proof.
  intros (sent & ps & Hn) Hm Hl Hrun. pose proof (live_socket_texts _ _ _ _ _ _ _ _ _ Hn) as Hsent.
  eapply wp_mono; [eapply (live_receive _ _ _ _ _ [m] [text_]); [by constructor|exact Hn]|].
  intros [] n1 Hn1. pose proof (live_socket_texts _ _ _ _ _ _ _ _ _ Hn1) as Hsent1.
  split; [by rewrite Hsent1|].
  eapply (run_callback_event _ _ _ _ _ _ _ _ (λ n'', socket_texts ws n'' = socket_texts ws n1 ∧ Q n''));
    [exact Hn1|done|exact Hl|].
  intros ps' n2 Hn2. eapply wp_mono; [by eapply Hrun|].
  intros [] n3 (HQ & x' & heap' & ps3 & Hn3). split; [|by exists x', (net ws d sent heap'), st, ps3].
  split; [|done]. by rewrite Hsent1, (live_socket_texts _ _ _ _ _ _ _ _ _ Hn3).
Qed.

(** The same with any number of callbacks that change nothing. *)
Lemma quiet_hears_all ws d x heap st rounds m text_ callbacks n :
  quiet ws d x heap st n → prints m text_ →
  sd_listeners x (SignalingEvent (sm_type m)) = map App callbacks →
  (∀ callback sent ps n', callback ∈ callbacks → live x (net ws d sent heap) st ps [] n' →
     wp (run_callback ws callback (EvSignaling m))
        (λ _ n'', live x (net ws d sent heap) st ps [] n'') n') →
  wp (for_each [text_] (λ text_, on_peer (on_ws_message (RtcText text_))))
     (λ _ n', socket_texts ws n' = socket_texts ws n ∧
        wp (node_run ws (S rounds))
           (λ _ n'', socket_texts ws n'' = socket_texts ws n' ∧ quiet ws d x heap st n'') n') n.
Proof.
  intros (sent & ps & Hn) Hm Hl Hrun.
  eapply wp_mono; [eapply (live_receive _ _ _ _ _ [m] [text_]); [by constructor|exact Hn]|].
  intros [] n1 Hn1. rewrite (live_socket_texts _ _ _ _ _ _ _ _ _ Hn).
  rewrite (live_socket_texts _ _ _ _ _ _ _ _ _ Hn1). split; [done|].
  eapply run_next; [exact Hn1|]. eapply process_event; [|exact Hn1|]; [done|].
  intros ps2 n2 Hn2 _ _. eapply wp_mono; [eapply dispatch_all; [exact Hn2|exact Hl|]|].
  - intros callback n' Hcb Hn'. by apply (Hrun callback sent ps2).
  - intros [] n3 Hn3. eapply run_idle; [exact Hn3|].
    rewrite (live_socket_texts _ _ _ _ _ _ _ _ _ Hn3). split; [done|]. by exists sent, ps2.
Qed.

Section Arrival.
Context (s ws s' ws' rounds : nat) (dA dB : db) (stA stB : Stores).
Context (Hss : s ≠ s').
Abbreviation met := (met s ws s' ws' dA dB stA stB).
Abbreviation env := (meeting_answers s ws s' ws' (S rounds)).

#[local] Instance near_peer_laws : LensLaws (lens_comp nearL peerL).
Proof. apply lens_comp_laws; apply _. Qed.

(** A client whose signaling client is about to start: nothing but what main registers. *)
Record fresh_client x (self : string) : Prop := {
  fc_identity : mg_identity (sd_manager x) = self;
  fc_wired type : sd_listeners x type = registered node_listeners type }.

(** The opening of the socket resolves the first promise. *)
Lemma meeting_opens socks ids x w hd p xB heapA heapB h :
  s ∉ socks → ids !! s = None →
  sd_listeners x server_opened = [Await w] →
  sd_waiters x !! w = Some (MkWaiter server_opened hd 1 None p) →
  on_the_way s ws s' ws' [] [] [] h → serving socks ids (hb_server h) →
  (∃ sent ps, live x (net ws dA sent heapA) stA ps [] (en_node (hb_near h)) ∧ untagged ps p) →
  quiet ws' dB xB heapB stB (en_node (hb_far h)) →
  wp (env (Answer p))
     (λ _ h', ∃ callbacks waiters, met ({[s]} ∪ socks) (<[s := ""]> ids)
        (listening x server_opened callbacks waiters) heapA xB heapB h') h.
Proof.
  intros Hs Hno Hl Hw How Hsrv (sent & ps & Hn & Hp) Hfar. cbn [meeting_answers].
  unfold arrives. do 3 wp_step. rewrite (sg_sockets _ _ _ Hsrv), decide_False by done. do 2 wp_step.
  eapply wpx_mono; [by apply (server_client s socks ids)| |done].
  intros [] srv' [Hsrv' Hrtc]. wp_step. set (h1 := lset serverL srv' h).
  eapply wpx_mono; [apply (live_ws_open stA x _ ps [] _ Hn)| |done].
  intros [] n1 (tag & Hn1). set (h2 := lset nearL n1 h1).
  assert (on_the_way s ws s' ws' [] [] [] h2) as How2.
  { apply on_the_way_near.
    - destruct How as [Hup Hdn Hfu Hfd].
      split; cbn; [done| |done|]; unfold server_texts in *; by rewrite Hrtc.
    - cbn. by rewrite (live_socket_texts _ _ _ _ _ _ _ _ _ Hn1), (live_socket_texts _ _ _ _ _ _ _ _ _ Hn). }
  set (e := EvEmpty _) in Hn1.
  set (N := λ n, result_of (pr_queue (nd_peer n)) p = Some e ∧ ∃ callbacks waiters ps',
    live (listening x server_opened callbacks waiters) (net ws dA sent heapA) stA ps' [] n).
  wp_step. eapply wp_mono; [eapply (turn_spec s ws s' ws' (S rounds) [] [] [] N N
    (quiet ws' dB xB heapB stB) (serving ({[s]} ∪ socks) (<[s := ""]> ids)) h2 How2)|].
  - eapply wp_mono; [eapply (run_awaited_event (net ws dA sent heapA) stA ws rounds x ps e w hd p);
      [exact Hn1|done|exact Hl|exact Hw|exact Hp]|].
    intros [] n2 HN. split; [|exact HN]. destruct HN as (_ & cs & wt & ps' & Hn2).
    rewrite app_nil_r, (live_socket_texts _ _ _ _ _ _ _ _ _ Hn2). cbn.
    by rewrite (live_socket_texts _ _ _ _ _ _ _ _ _ Hn1).
  - apply wpx_ret. split; [|exact Hsrv']. by split; rewrite app_nil_r.
  - intros n2 HN. apply wpx_ret. split; [done|]. pose proof HN as (_ & cs & wt & ps' & Hn2).
    eapply run_idle; [exact Hn2|]. by split.
  - by apply quiet_runs.
  - intros [] h3 (How3 & Hsrv3 & (Hres & cs & wt & ps' & Hn3) & Hfar3). do 2 wp_step.
    rewrite Hres. apply wpx_ret. exists cs, wt. split; [done|done| |done]. by eexists _, _.
Qed.

(** The client says who it is: it gets its answer, and the other client makes an offer. *)
Lemma meeting_introduces socks ids x idA heapA xB idB heapB tag t p h :
  client x idA → client xB idB → s ∈ socks → s' ∈ socks → ids !! s' = Some idB →
  (∀ k other, ids !! k = Some other → text other) → text idA → text tag →
  (∀ k, uuid_at k ≠ idA) → mg_connections (sd_manager xB) !! idA = None →
  on_the_way s ws s' ws' [] [] [] h → serving socks ids (hb_server h) →
  (∃ sent ps, live x (net ws dA sent heapA) stA ps [signal (hello idA tag) t] (en_node (hb_near h)) ∧
     ps_promises ps !! tag = Some p) →
  quiet ws' dB xB heapB stB (en_node (hb_far h)) →
  wp (env (Answer p))
     (λ _ h', ∃ c ch pc, heapB !! c = None ∧ stranger idA (Some ch) pc ∧
        met socks (<[s := idA]> ids) x heapA (joined xB idA c ch) (<[c := pc]> heapB) h') h.
Proof.
  intros HA HB Hs Hs' HidB Hids HtA Htag Huuid Hnone How Hsrv (sent & ps & Hn & Hp) Hfar.
  destruct (prints_exists (hello idA tag)) as [text_ Htext]; [|done|].
  { split_and!; [done|by apply text_ascii|done|by apply canonical_string]. }
  destruct (prints_exists (from_server SignalingMessageType.SetIdentityResponse idA tag jnull))
    as [answer Ha]; [|done|].
  { split_and!; [by apply text_ascii|done|done|exact canonical_null]. }
  destruct (prints_exists (peer_available idB tag idA)) as [told Ht]; [|done|].
  { split_and!; [by apply text_ascii|by eapply Hids|done|by apply canonical_string]. }
  pose proof (live_socket_texts _ _ _ _ _ _ _ _ _ Hn) as Hsent.
  set (e := EvSignaling (from_server SignalingMessageType.SetIdentityResponse idA tag jnull)).
  set (N1 := λ n, ∃ ps, live x (net ws dA (sent ++ [text_]) heapA) stA ps [] n ∧
    ps_promises ps !! tag = Some p).
  set (N2 := λ n, result_of (pr_queue (nd_peer n)) p = Some e ∧ quiet ws dA x heapA stA n).
  set (F2 := λ n, ∃ c ch pc, heapB !! c = None ∧ stranger idA (Some ch) pc ∧
    quiet ws' dB (joined xB idA c ch) (<[c := pc]> heapB) stB n).
  cbn [meeting_answers]. unfold arrives. do 3 wp_step.
  rewrite (sg_sockets _ _ _ Hsrv), decide_True by done. do 2 wp_step.
  eapply wp_mono; [eapply (turn_spec s ws s' ws' (S rounds) [text_] [answer] [told] N1 N2 F2
    (serving socks (<[s := idA]> ids)) h How)|].
  - eapply wp_mono; [eapply (run_signal ws dA stA x sent heapA ps _ t text_); [exact Hn|done| |]|].
    + symmetry. apply HA.
    + apply HA.
    + intros [] n1 Hn1. split; [|by exists ps].
      by rewrite Hsent, (live_socket_texts _ _ _ _ _ _ _ _ _ Hn1).
  - by eapply server_introduces.
  - intros n1 (ps1 & Hn1 & Hp1).
    eapply wp_mono; [eapply (live_receive _ _ _ _ _ [_] [answer]); [by constructor|exact Hn1]|].
    intros [] n2 Hn2. rewrite (live_socket_texts _ _ _ _ _ _ _ _ _ Hn1).
    rewrite (live_socket_texts _ _ _ _ _ _ _ _ _ Hn2). split; [done|].
    eapply wp_mono; [eapply (run_answered (net ws dA (sent ++ [text_]) heapA) stA ws rounds x ps1 e p);
      [exact Hn2|done| |exact Hp1]|].
    + etrans; [apply (client_hears _ _ SignalingMessageType.SetIdentityResponse HA)|done].
      by apply (bool_decide_unpack _).
    + intros [] n3 (Hres & ps3 & Hn3). rewrite (live_socket_texts _ _ _ _ _ _ _ _ _ Hn3).
      split; [done|]. split; [done|]. by eexists _, _.
  - eapply (quiet_hears ws' dB xB heapB stB rounds (peer_available idB tag idA) told ConnectToPeer F2);
      [done|done| |].
    + etrans; [apply (client_hears _ _ SignalingMessageType.PeerAvailable HB)|done].
      by apply (bool_decide_unpack _).
    + intros sent' ps' n' Hn'. cbn [run_callback run_peer_callback].
      eapply wp_mono; [eapply (live_connect ws' dB stB xB sent' heapB ps' [] _ idA); [exact Hn'|done..]|].
      intros [] n2 (c & ch & pc & ps2 & Hc & Hpc & Hn2). split.
      * exists c, ch, pc. split; [done|]. split; [done|]. by eexists _, _.
      * by eexists _, _, _.
  - intros [] h' (How' & Hsrv' & (Hres & Hnear) & c & ch & pc & Hc & Hpc & Hfar').
    do 2 wp_step. rewrite Hres. apply wpx_ret. exists c, ch, pc. split; [done|]. by split.
Qed.

(** ** The start of the signaling client, driven to its end *)

Lemma fresh_client_busy x self : fresh_client x self → fresh_client (busy x) self.
Proof. by intros []. Qed.

Lemma fresh_heeding x self :
  fresh_client x self →
  client (heeding x (InternalEvent InternalMessageType.SendSignalingMessage) SendSignaling) self.
Proof.
  intros [Hid Hw]. split; try done; cbn [heeding sd_listeners].
  - rewrite Hw. by rewrite decide_True.
  - rewrite Hw. by rewrite decide_False.
  - intros type Hty. cbn [heeding sd_listeners]. rewrite Hw, decide_False; [by rewrite app_nil_r|].
    intros <-. apply Hty. by apply (bool_decide_unpack _).
Qed.

(** Nothing listens for candidates yet. *)
Lemma fresh_hearing x self heap :
  fresh_client x self →
  hearing (heeding x (InternalEvent InternalMessageType.SendSignalingMessage) SendSignaling) heap.
Proof.
  intros HA. exists []. split; [|by intros c ?%elem_of_nil]. cbn [heeding sd_listeners].
  by rewrite decide_False, (fc_wired _ _ HA) by done.
Qed.

Lemma hearing_listening x heap callbacks waiters :
  hearing x heap → hearing (listening x server_opened callbacks waiters) heap.
Proof.
  intros (cs & Hl & Hcs). exists cs. split; [|done]. cbn [listening sd_listeners].
  by rewrite decide_False.
Qed.

Lemma client_listening x self callbacks waiters :
  client x self → client (listening x server_opened callbacks waiters) self.
Proof.
  intros [Hid Hs Ho Hw]. split; try done.
  intros type Hty. cbn [listening sd_listeners]. rewrite decide_False; [by apply Hw|].
  intros ->. apply Hty. by apply (bool_decide_unpack _).
Qed.

Lemma wpx_near_peer {B} (m : M Peer B) Q E h :
  wpx (zoom nearL (on_peer m)) Q E h → wpx (zoom (lens_comp nearL peerL) m) Q E h.
Proof. unfold wpx, zoom, on_peer, zoom. cbn. by destruct (m _). Qed.

Lemma drive_initialize socks ids x idA heapA xB idB heapB h :
  fresh_client x idA → client xB idB → s ∉ socks → ids !! s = None → s' ∈ socks →
  ids !! s' = Some idB → (∀ k other, ids !! k = Some other → text other) → text idA →
  (∀ k, uuid_at k ≠ idA) → mg_connections (sd_manager xB) !! idA = None →
  met socks ids x heapA xB heapB h →
  wp (drive (lens_comp nearL peerL) env (initialize))
     (λ _ h', ∃ x' c ch pc, client x' idA ∧ sd_manager x' = sd_manager x ∧
        sd_posted x' = sd_posted x ∧ hearing x' heapA ∧
        heapB !! c = None ∧ stranger idA (Some ch) pc ∧
        met ({[s]} ∪ socks) (<[s := idA]> ids) x' heapA (joined xB idA c ch) (<[c := pc]> heapB) h')
     h.
Proof.
  intros HA HB Hs Hno Hs' HidB Hids HtA Huuid Hnone [How Hsrv (sent & ps & Hn) Hfar].
  pose proof (fresh_heeding _ _ HA) as HA1.
  unfold initialize, wp. rewrite wpx_drive_bind, wpx_drive_lift by apply _.
  apply wpx_near_peer, wpx_zoom.
  eapply wpx_mono; [apply (live_initialize_client stA x _ ps _ Hn)| |done].
  { by rewrite (fc_wired _ _ HA). }
  intros p n1 (w & hd & wt & ps1 & Hw & Hp & Hn1). set (h1 := lset nearL n1 h).
  set (x1 := listening _ _ _ _) in Hn1.
  assert (client x1 idA) as HA2 by by apply client_listening.
  rewrite wpx_drive_bind by apply _.
  apply (wpx_drive_await (lens_comp nearL peerL) env (Answer p)).
  eapply wpx_mono; [eapply (meeting_opens socks ids x1 w hd p xB heapA heapB h1)| |done];
    [done|done| |exact Hw| |exact Hsrv|by exists sent, ps1|exact Hfar|].
  { cbn. by rewrite decide_True. }
  { apply on_the_way_near; [done|].
    by rewrite (live_socket_texts _ _ _ _ _ _ _ _ _ Hn1), (live_socket_texts _ _ _ _ _ _ _ _ _ Hn). }
  intros e2 h2 (cs & wt2 & [How2 Hsrv2 (sent2 & ps2 & Hn2) Hfar2]).
  set (x2 := listening _ _ _ _) in Hn2.
  assert (client x2 idA) as HA3 by by apply client_listening.
  rewrite wpx_drive_bind, wpx_drive_lift by apply _.
  apply wpx_near_peer, wpx_zoom.
  eapply wpx_mono; [apply (live_initialize_opened stA x2 _ ps2 _ Hn2)| |done].
  intros p3 n3 (tag & t & ps3 & Htag & Hp3 & Hn3). set (h3 := lset nearL n3 h2).
  rewrite (ci_identity _ _ HA3) in Hn3.
  rewrite wpx_drive_bind by apply _.
  apply (wpx_drive_await (lens_comp nearL peerL) env (Answer p3)).
  eapply wpx_mono; [eapply (meeting_introduces ({[s]} ∪ socks) (<[s := ""]> ids) x2 idA heapA xB
    idB heapB tag t p3 h3)| |done]; [done|done|set_solver|set_solver| | |done|done|done|done| |
    exact Hsrv2|by exists sent2, ps3|exact Hfar2|].
  { by rewrite lookup_insert_ne. }
  { intros k other Hk. apply lookup_insert_Some in Hk as [[_ <-]|[_ Hk]];
      [by apply text_ascii|by eapply Hids]. }
  { apply on_the_way_near; [done|].
    by rewrite (live_socket_texts _ _ _ _ _ _ _ _ _ Hn3), (live_socket_texts _ _ _ _ _ _ _ _ _ Hn2). }
  intros e4 h4 (c & ch & pc & Hc & Hpc & Hmet). rewrite insert_insert_eq in Hmet.
  rewrite wpx_drive_ret by apply _. exists x2, c, ch, pc. split_and!; try done.
  by do 2 apply hearing_listening; eapply fresh_hearing.
Qed.
End Arrival.

(** ** What the library reports *)

(** The library accepts what the other side has reported. *)
Record acceptable (r : Reported) : Prop := {
  ac_sdp : text (rp_sdp r);
  ac_type : text (rp_type r);
  ac_remote c rt : wp (rtc_set_remote c (rp_sdp r) (rp_type r)) (λ _ _, True) rt;
  ac_candidates : Forall (λ sm, text sm.1 ∧ text sm.2 ∧
    ∀ c rt, wp (rtc_add_candidate c sm.1 sm.2) (λ _ _, True) rt) (rp_candidates r) }.

Section Descriptions.
Context (s ws s' ws' rounds : nat) (dA dB : db) (stA stB : Stores) (socks : gset nat)
  (ids : gmap nat string).
Context (Hs : s ∈ socks) (Hs' : s' ∈ socks).
Abbreviation met := (met s ws s' ws' dA dB stA stB socks ids).

(** A connection object of a quiet node. *)
Lemma quiet_connection x heap st other c n :
  quiet ws dA x heap st n → mg_connections (sd_manager x) !! other = Some (Some c) →
  connection_with other n = (Ok c, n).
Proof.
  intros (sent & ps & Hn) Hc. unfold connection_with, mbind, M_bind, gets.
  by rewrite (rd_manager _ _ _ _ _ _ Hn), Hc.
Qed.

(** The library's callbacks are those of the connection object. *)
Lemma near_connection x other c heap (f : nat → M Node unit) (g : M Hub unit) Q h :
  quiet ws dA x heap stA (en_node (hb_near h)) →
  mg_connections (sd_manager x) !! other = Some (Some c) →
  wp (_ ← zoom nearL (f c); g) Q h →
  wp (_ ← zoom nearL (c ← connection_with other; f c); g) Q h.
Proof.
  intros Hq Hc Hrun. apply wpx_bind in Hrun. wp_step. apply wpx_zoom_bind; [apply _|].
  eapply wpx_returns; [|exact Hrun]. unfold zoom.
  rewrite (quiet_connection _ _ _ _ _ (lget nearL h) Hq Hc). by rewrite lset_lget.
Qed.

(** What the library reports of its connection waits in the queue. *)
Lemma quiet_report x heap st c pc type content n :
  quiet ws dA x heap st n → heap !! c = Some pc →
  wp (on_peer (pc ← connection c; id ← gets identity; tag ← zoom hostL create_tag;
               send_signaling type id (pc_identity pc) tag content))
     (λ _ n', ∃ tag t, text tag ∧ ∃ sent ps, live x (net ws dA sent heap) st ps
        [signal (MkSignalingMessage type (mg_identity (sd_manager x)) (pc_identity pc) tag
           content) t] n' ∧ socket_texts ws n' = socket_texts ws n) n.
Proof.
  intros (sent & ps & Hn) Hc.
  eapply wp_mono; [exact (live_report ws dA st x sent heap ps c pc type content n Hn Hc)|].
  intros [] n' (tag & t & Htag & Hn'). exists tag, t. split; [done|]. exists sent, ps.
  split; [done|].
  by rewrite (live_socket_texts _ _ _ _ _ _ _ _ _ Hn), (live_socket_texts _ _ _ _ _ _ _ _ _ Hn').
Qed.

Section Routed.
Context (xA xB : Side) (idA idB : string) (heapA heapB : gmap nat PeerConnection).
Context (HA : client xA idA) (HB : client xB idB) (Hne : idA ≠ idB).
Context (HidA : ids !! s = Some idA) (HidB : ids !! s' = Some idB).
Context (HtA : text idA) (HtB : text idB).
Context (c : nat) (pc : PeerConnection) (Hpc : heapA !! c = Some pc) (Hother : pc_identity pc = idB).
Context (Hc : mg_connections (sd_manager xA) !! idB = Some (Some c)).

(** It goes through the server to the far client, whose loop takes it. *)
Lemma report_routed type content (F2 : Node → Prop) h :
  type ∈ [SignalingMessageType.RTCSetup; SignalingMessageType.RTCCandidate] →
  canonical content → met xA heapA xB heapB h →
  (∀ m text_, sm_type m = type → sm_sender_identity m = idA → sm_content m = content →
     prints m text_ →
     wp (for_each [text_] (λ text_, on_peer (on_ws_message (RtcText text_))))
        (λ _ n', socket_texts ws' n' = socket_texts ws' (en_node (hb_far h)) ∧
           wp (node_run ws' (S rounds))
              (λ _ n'', socket_texts ws' n'' = socket_texts ws' n' ∧ F2 n'') n')
        (en_node (hb_far h))) →
  wp (_ ← zoom nearL (on_peer (pc ← connection c; id ← gets identity;
            tag ← zoom hostL create_tag; send_signaling type id (pc_identity pc) tag content));
      turn s ws s' ws' (S rounds))
     (λ _ h', on_the_way s ws s' ws' [] [] [] h' ∧ serving socks ids (hb_server h') ∧
        quiet ws dA xA heapA stA (en_node (hb_near h')) ∧ F2 (en_node (hb_far h'))) h.
Proof.
  intros Htype Hcon [How Hsrv Hnear Hfar] Hheard. do 2 wp_step.
  eapply wpx_mono; [exact (quiet_report _ _ _ c pc type content _ Hnear Hpc)| |done].
  intros [] n1 (tag & t & Htag & sent & ps & Hn1 & Hsame).
  rewrite (ci_identity _ _ HA), Hother in Hn1.
  set (m := MkSignalingMessage _ _ _ _ _) in Hn1. set (h1 := lset nearL n1 h).
  destruct (prints_exists m) as [text_ Htext]; [by split_and!| |].
  { by repeat (apply elem_of_cons in Htype as [->|Htype]); [| |set_solver]. }
  assert (on_the_way s ws s' ws' [] [] [] h1) as How1 by by apply on_the_way_near.
  eapply wp_mono; [eapply (turn_spec s ws s' ws' (S rounds) [text_] [] [text_]
    (quiet ws dA xA heapA stA) (quiet ws dA xA heapA stA) F2 (serving socks ids) h1 How1)|].
  - eapply wp_mono; [eapply (run_signal ws dA stA xA sent heapA ps m t text_); [exact Hn1|done| |]|].
    + symmetry. apply HA.
    + apply HA.
    + intros [] n2 Hn2. split; [|by eexists _, _].
      change (en_node (hb_near h1)) with n1.
      by rewrite (live_socket_texts _ _ _ _ _ _ _ _ _ Hn1), (live_socket_texts _ _ _ _ _ _ _ _ _ Hn2).
  - apply (server_routes s s' socks ids m text_); try done. rewrite HidA. cbn. congruence.
  - intros n2 Hn2. by apply quiet_runs.
  - by apply (Hheard m).
  - done.
Qed.

(** The near client's description gets to the far one's on_rtc_setup. *)
Lemma description_arrives sdp type (F2 : Node → Prop) h :
  text sdp → text type → met xA heapA xB heapB h →
  (∀ m sent ps n, sm_sender_identity m = idA → sm_content m = description sdp type →
     live xB (net ws' dB sent heapB) stB ps [] n →
     wp (on_peer (on_rtc_setup (EvSignaling m)))
        (λ _ n', F2 n' ∧ ∃ x' heap' ps', live x' (net ws' dB sent heap') stB ps' [] n') n) →
  wp (sends_description s ws s' ws' (S rounds) idB sdp type)
     (λ _ h', on_the_way s ws s' ws' [] [] [] h' ∧ serving socks ids (hb_server h') ∧
        quiet ws dA xA heapA stA (en_node (hb_near h')) ∧ F2 (en_node (hb_far h'))) h.
Proof.
  intros Hts Htt Hmet Hsetup. pose proof Hmet as [_ _ Hnear Hfar].
  assert (canonical (description sdp type)) as Hcon.
  { unfold description. json_canonical; auto with krapi. }
  pose proof (report_routed SignalingMessageType.RTCSetup (description sdp type) F2 h
    ltac:(set_solver) Hcon Hmet) as Hrun.
  apply (near_connection _ idB c _ (λ c, on_peer (on_local_description c sdp type)) _ _ _ Hnear Hc).
  apply Hrun. intros m text_ Hty Hsender Hm Hprint.
  eapply (quiet_hears ws' dB xB heapB stB rounds m text_ OnRtcSetup F2); [done|done| |].
  - rewrite Hty. etrans; [apply (client_hears _ _ SignalingMessageType.RTCSetup HB)|done].
    by apply (bool_decide_unpack _).
  - intros sent' ps' n' Hn'. by apply (Hsetup m sent' ps').
Qed.

(** A candidate of the near client gets to every connection of the far one. *)
Lemma candidate_arrives sdp mid h :
  text sdp → text mid → (∀ c r, wp (rtc_add_candidate c sdp mid) (λ _ _, True) r) →
  hearing xB heapB → met xA heapA xB heapB h →
  wp (_ ← zoom nearL (trickles idB sdp mid); turn s ws s' ws' (S rounds))
     (λ _ h', met xA heapA xB heapB h') h.
Proof.
  intros Hts Htm Hok (cs & Hl & Hcs) Hmet. pose proof Hmet as [_ _ Hnear Hfar].
  assert (canonical (candidate sdp mid)) as Hcon.
  { unfold candidate. json_canonical; auto with krapi. }
  pose proof (report_routed SignalingMessageType.RTCCandidate (candidate sdp mid)
    (quiet ws' dB xB heapB stB) h ltac:(set_solver) Hcon Hmet) as Hrun.
  eapply wp_mono; [apply (near_connection _ idB c _ (λ c, on_peer (on_local_candidate c sdp mid))
    _ _ _ Hnear Hc), Hrun|].
  - intros m text_ Hty _ Hm Hprint.
    eapply (quiet_hears_all ws' dB xB heapB stB rounds m text_ (map OnRtcCandidate cs));
      [done|done|by rewrite Hty|].
    intros callback sent ps n Hcb Hn. apply list_elem_of_fmap in Hcb as (c' & -> & Hc').
    by apply (live_hears ws' dB stB xB sent heapB ps [] c' m sdp mid n Hok Hn Hm), Hcs.
  - intros [] h' (How & Hsrv & Hn & Hf). by split.
Qed.

Lemma candidates_arrive candidates h :
  Forall (λ sm, text sm.1 ∧ text sm.2 ∧
    ∀ c r, wp (rtc_add_candidate c sm.1 sm.2) (λ _ _, True) r) candidates →
  hearing xB heapB → met xA heapA xB heapB h →
  wp (sends_candidates s ws s' ws' (S rounds) idB candidates) (λ _ h', met xA heapA xB heapB h') h.
Proof.
  intros Hall Hh. revert h. induction Hall as [|[sdp mid] candidates (Hts & Htm & Hok) _ IH];
    intros h Hmet; unfold sends_candidates; cbn [for_each]; [by wp_step|].
  wp_step. eapply wp_mono; [exact (candidate_arrives sdp mid h Hts Htm Hok Hh Hmet)|].
  intros [] h1 Hmet1. by apply IH.
Qed.
End Routed.

(** All that the library reports of one end gets to the other client, which makes of the
    description what on_rtc_setup does. *)
Lemma reported_arrives xA xB idA idB heapA heapB c pc r
    (P : Side → gmap nat PeerConnection → Prop) h :
  client xA idA → client xB idB → idA ≠ idB → ids !! s = Some idA → ids !! s' = Some idB →
  text idA → text idB → heapA !! c = Some pc → pc_identity pc = idB →
  mg_connections (sd_manager xA) !! idB = Some (Some c) → acceptable r →
  (∀ m sent ps n, sm_sender_identity m = idA →
     sm_content m = description (rp_sdp r) (rp_type r) →
     live xB (net ws' dB sent heapB) stB ps [] n →
     wp (on_peer (on_rtc_setup (EvSignaling m)))
        (λ _ n', ∃ x' heap' ps', (P x' heap' ∧ client x' idB ∧ hearing x' heap') ∧
           live x' (net ws' dB sent heap') stB ps' [] n') n) →
  met xA heapA xB heapB h →
  wp (sends_reported s ws s' ws' (S rounds) idB r)
     (λ _ h', ∃ x' heap', P x' heap' ∧ met xA heapA x' heap' h') h.
Proof.
  intros HA HB Hne HidA HidB HtA HtB Hpc Hother Hc [Hts Htt _ Hcand] Hsetup Hmet.
  unfold sends_reported. wp_step.
  eapply wp_mono; [eapply (description_arrives xA xB idA idB heapA heapB HA HB Hne HidA HidB HtA
    HtB c pc Hpc Hother Hc (rp_sdp r) (rp_type r) (λ n, ∃ x' heap', (P x' heap' ∧ client x' idB ∧
      hearing x' heap') ∧ quiet ws' dB x' heap' stB n) h Hts Htt Hmet)|].
  - intros m sent ps n Hsender Hcon Hn.
    eapply wp_mono; [by apply (Hsetup m sent ps n)|].
    intros [] n' (x' & heap' & ps' & HP & Hn'). split; [|by eexists _, _, _].
    exists x', heap'. split; [done|]. by exists sent, ps'.
  - intros [] h1 (How & Hsrv & Hnear & x' & heap' & (HP & HB' & Hh) & Hfar).
    eapply wp_mono; [eapply (candidates_arrive xA x' idA idB heapA heap'); try done|].
    intros [] h2 Hmet2. by exists x', heap'.
Qed.
End Descriptions.

(** ** The channel, at both ends *)

Section Channel.
Context (ws rounds : nat) (d : db) (st : Stores).

Lemma joined_entry x other c ch :
  mg_connections (sd_manager (joined x other c ch)) !! other = Some (Some c).
Proof. apply lookup_insert_eq. Qed.

Lemma quiet_hands_channel x other c ch heap pc n :
  quiet ws d (joined x other c 0) (<[c := pc]> heap) st n → stranger other None pc →
  wp (hands_channel other ch)
     (λ _ n', ∃ pc, stranger other (Some ch) pc ∧
        quiet ws d (joined x other c ch) (<[c := pc]> heap) st n') n.
Proof.
  intros Hq (Hid & Hch & Hty & Hst). unfold hands_channel. wp_step.
  eapply wpx_returns; [exact (quiet_connection _ _ _ _ _ _ _ _ Hq (joined_entry _ _ _ _))|].
  destruct Hq as (sent & ps & Hn).
  eapply wp_mono; [exact (live_channel ws d st _ sent _ ps [] c pc ch n Hn (lookup_insert_eq _ _ _) Hch)|].
  intros [] n' Hn'. rewrite insert_insert_eq in Hn'. eexists.
  split; [|exists sent, ps; by destruct Hn'; split]. by split_and!.
Qed.

Lemma quiet_opens x self heap other c pc n :
  client x self → quiet ws d x heap st n → mg_connections (sd_manager x) !! other = Some (Some c) →
  heap !! c = Some pc → pc_identity pc = other →
  wp (opens ws (S rounds) other)
     (λ _ n', quiet ws d (posting x (RetryTask other)) heap st n') n.
Proof.
  intros Hx Hq Hc Hpc Hid. unfold opens. wp_step.
  eapply wpx_returns; [exact (quiet_connection _ _ _ _ _ _ _ _ Hq Hc)|].
  destruct Hq as (sent & ps & Hn). wp_step.
  eapply wp_mono; [exact (live_open ws d st x sent heap ps [] c pc n Hn Hpc)|].
  intros [] n1 (tag & Hn1). rewrite Hid in Hn1.
  eapply wp_mono; [eapply (run_opened ws d st x sent heap ps other (Some c) tag rounds);
    [exact Hn1| |done]|].
  - apply Hx.
  - intros [] n2 (ps2 & Hn2). by exists sent, ps2.
Qed.

(** The executor's task finds no message for the peer in the database. *)
Lemma quiet_executes x heap other n :
  sd_posted x = Some [] → no_mail other d → quiet ws d (posting x (RetryTask other)) heap st n →
  wp executes (λ _ n', quiet ws d x heap st n') n.
Proof.
  intros Hposted Hno (sent & ps & Hn). unfold executes. do 2 wp_step.
  rewrite (rd_posted _ _ _ _ _ _ Hn [RetryTask other]) by (cbn; by rewrite Hposted).
  cbn [for_each]. wp_step.
  eapply wpx_mono; [exact (run_retry_task ws d st _ x sent heap ps other n Hn Hposted Hno)| |done].
  intros [] n' Hn'. wp_step. by exists sent, ps.
Qed.

Lemma quiet_channel x other c ch heap pc n :
  quiet ws d (joined x other c ch) (<[c := pc]> heap) st n → pc_channel pc = Some ch →
  channel_to other n = Some ch.
Proof.
  intros (sent & ps & []) Hch. unfold channel_to. rewrite rd_manager, joined_entry.
  destruct rd_frame as (_ & -> & _). by rewrite lookup_insert_eq.
Qed.

(** The library reports an open channel. *)
Definition channel_open (ch : nat) n : Prop :=
  ch_is_open (pr_rtc (nd_peer n)) ch = true ∧ ch_is_closed (pr_rtc (nd_peer n)) ch = false.

(** Then the node is ready for messages. *)
Lemma quiet_ready x heap pc n :
  quiet ws d x heap st n → heap !! sd_connection x = Some pc →
  pc_channel pc = Some (sd_channel x) → channel_open (sd_channel x) n →
  ∃ ps, ready x pc st ps (node_texts (sd_channel x) n) [] n.
Proof.
  intros (sent & ps & []) Hpc Hch [Ho Hc]. exists ps. split; try done.
  destruct rd_frame as (_ & Hheap & _). split; try done. by rewrite Hheap.
Qed.
End Channel.
End Phases.

(** ** Two nodes are introduced *)

Section Introduced.
Context `{JsonLib} `{CryptoLib} `{LevelDB} `{FifoLib} `{EventppLib} `{RtcLib} `{HostLib}.
Context `{HashOrder} `{!ReliableSockets}.

(** The world of the two nodes and their channel, nothing on its way. *)
Definition channel_world (chA chB : nat) h : World :=
  let a := en_node (hb_near h) in
  let b := en_node (hb_far h) in
  MkWorld a b (length (node_texts chA a)) (length (node_texts chB b)).

Lemma channel_between ws ws' dA dB stA stB xA heapA pcA xB heapB pcB h :
  quiet ws dA xA heapA stA (en_node (hb_near h)) →
  quiet ws' dB xB heapB stB (en_node (hb_far h)) →
  heapA !! sd_connection xA = Some pcA → pc_channel pcA = Some (sd_channel xA) →
  heapB !! sd_connection xB = Some pcB → pc_channel pcB = Some (sd_channel xB) →
  channel_open (sd_channel xA) (en_node (hb_near h)) →
  channel_open (sd_channel xB) (en_node (hb_far h)) →
  ∃ psA, between xA xB pcB stB pcA stA psA []
    (channel_world (sd_channel xA) (sd_channel xB) h).
Proof.
  intros Hnear Hfar HA HchA HB HchB HoA HoB.
  destruct (quiet_ready _ _ _ _ _ _ _ Hnear HA HchA HoA) as (psA & Ha).
  destruct (quiet_ready _ _ _ _ _ _ _ Hfar HB HchB HoB) as (psB & Hb).
  exists psA. split; [exact Ha| |done]. split; [|done]. by exists psB.
Qed.

Lemma client_connected x self other c ch :
  client x self → connected (joined x other c ch) self other.
Proof.
  intros Hx. pose proof (client_joined x self other c ch Hx) as [Hid _ _ Hw].
  split; [done|apply joined_entry|done].
Qed.

Section Steps.
Context (s ws s' ws' rounds : nat) (dA dB : db) (stA stB : Stores) (socks : gset nat)
  (ids : gmap nat string).
Context (Hs : s ∈ socks) (Hs' : s' ∈ socks) (idA idB : string) (Hne : idA ≠ idB).
Context (HidA : ids !! s = Some idA) (HidB : ids !! s' = Some idB).
Context (HtA : text idA) (HtB : text idB).
Abbreviation met := (met s ws s' ws' dA dB stA stB socks ids).

(** The far node's offer: the near one has a connection without a channel afterwards. *)
Lemma offer_arrives xA heapA xB heapB c pc r h :
  client xA idA → hearing xA heapA → client xB idB → acceptable r →
  mg_connections (sd_manager xA) !! idB = None →
  mg_connections (sd_manager xB) !! idA = Some (Some c) → heapB !! c = Some pc →
  pc_identity pc = idA → met xA heapA xB heapB h →
  wp (zoom swapL (sends_reported s' ws' s ws (S rounds) idA r))
     (λ _ h', ∃ cA pcA, stranger idB None pcA ∧
        met (joined xA idB cA 0) (<[cA := pcA]> heapA) xB heapB h') h.
Proof.
  intros HA HhA HB Hr Hnone Hc Hpc Hid Hmet. apply wpx_zoom.
  eapply wpx_mono; [eapply (reported_arrives s' ws' s ws rounds dB dA stB stA socks ids Hs' Hs xB xA
    idB idA heapB heapA c pc r (λ x' heap', ∃ cA pcA, stranger idB None pcA ∧
      x' = joined xA idB cA 0 ∧ heap' = <[cA := pcA]> heapA)
    (MkHub (hb_server h) (hb_far h) (hb_near h)))| |done]; try done.
  - intros m sent ps n Hsender Hcon Hn.
    eapply wp_mono; [eapply (live_setup_new ws dA stA xA sent heapA ps [] m _ _ n (ac_remote _ Hr));
      try done; by rewrite Hsender|].
    rewrite Hsender. intros [] n' (cA & pcA & HcA & HpcA & Hn').
    exists (joined xA idB cA 0), (<[cA := pcA]> heapA), ps.
    split; [|done]. split; [by exists cA, pcA|].
    split; [by apply client_joined|by apply hearing_joined].
  - by apply met_swap.
  - intros [] h' (x' & heap' & (cA & pcA & HpcA & -> & ->) & Hmet'). exists cA, pcA.
    split; [done|]. by apply met_swap in Hmet'.
Qed.

(** The near node's answer. *)
Lemma answer_arrives xA heapA cA pcA xB heapB cB pcB r h :
  client xA idA → client xB idB → hearing xB heapB → acceptable r →
  mg_connections (sd_manager xA) !! idB = Some (Some cA) → heapA !! cA = Some pcA →
  pc_identity pcA = idB →
  mg_connections (sd_manager xB) !! idA = Some (Some cB) → heapB !! cB = Some pcB →
  met xA heapA xB heapB h →
  wp (sends_reported s ws s' ws' (S rounds) idB r) (λ _ h', met xA heapA xB heapB h') h.
Proof.
  intros HA HB HhB Hr HcA HpcA Hid HcB HpcB Hmet.
  eapply wp_mono; [eapply (reported_arrives s ws s' ws' rounds dA dB stA stB socks ids Hs Hs' xA xB
    idA idB heapA heapB cA pcA r (λ x' heap', x' = xB ∧ heap' = heapB) h); try done|].
  - intros m sent ps n Hsender Hcon Hn.
    eapply wp_mono; [eapply (live_setup_known ws' dB stB xB sent heapB ps [] m _ _ cB pcB n
      (ac_remote _ Hr)); try done; by rewrite Hsender|].
    intros [] n' Hn'. by exists xB, heapB, ps.
  - by intros [] h' (x' & heap' & (-> & ->) & Hmet').
Qed.

(** The offer and the answer. *)
Lemma reports_exchanged xA heapA xB heapB cB pcB offer answer h :
  client xA idA → hearing xA heapA → client xB idB → hearing xB heapB →
  acceptable offer → acceptable answer → mg_connections (sd_manager xA) !! idB = None →
  mg_connections (sd_manager xB) !! idA = Some (Some cB) → heapB !! cB = Some pcB →
  pc_identity pcB = idA → met xA heapA xB heapB h →
  wp (_ ← zoom swapL (sends_reported s' ws' s ws (S rounds) idA offer);
      sends_reported s ws s' ws' (S rounds) idB answer)
     (λ _ h', ∃ cA pcA, stranger idB None pcA ∧
        met (joined xA idB cA 0) (<[cA := pcA]> heapA) xB heapB h') h.
Proof.
  intros HA HhA HB HhB Hok Hok' Hnone HcB HpcB Hid Hmet. wp_step.
  eapply wp_mono; [by eapply (offer_arrives xA heapA xB heapB cB pcB offer h)|].
  intros [] h1 (cA & pcA & HpcA & Hmet1).
  eapply wp_mono; [eapply (answer_arrives (joined xA idB cA 0) (<[cA := pcA]> heapA) cA pcA
    xB heapB cB pcB answer h1); try done|].
  - by apply client_joined.
  - apply lookup_insert_eq.
  - apply lookup_insert_eq.
  - apply HpcA.
  - intros [] h2 Hmet2. by exists cA, pcA.
Qed.

(** Both ends of the channel open, and the near node has no messages to send again. *)
Lemma channel_opens xA heapA cA pcA xB heapB cB pcB ch h :
  client (joined xA idB cA ch) idA → client xB idB → stranger idB None pcA →
  sd_posted xA = Some [] → sd_posted xB = None → no_mail idB dA →
  mg_connections (sd_manager xB) !! idA = Some (Some cB) → heapB !! cB = Some pcB →
  pc_identity pcB = idA →
  met (joined xA idB cA 0) (<[cA := pcA]> heapA) xB heapB h →
  wp (_ ← zoom nearL (hands_channel idB ch);
      _ ← zoom nearL (opens ws (S rounds) idB);
      _ ← zoom nearL executes;
      zoom farL (opens ws' (S rounds) idA))
     (λ _ h', ∃ pcA, stranger idB (Some ch) pcA ∧ serving socks ids (hb_server h') ∧
        quiet ws dA (joined xA idB cA ch) (<[cA := pcA]> heapA) stA (en_node (hb_near h')) ∧
        quiet ws' dB xB heapB stB (en_node (hb_far h'))) h.
Proof.
  intros HA HB HpcA HpA HpB Hmail HcB HpcB Hid [How Hsrv Hnear Hfar]. do 2 wp_step.
  eapply wpx_mono;
    [exact (quiet_hands_channel ws dA stA xA idB cA ch heapA pcA _ Hnear HpcA)| |done].
  intros [] n1 (pc & Hpc & Hn1). do 2 wp_step. cbn [lget nearL lset hb_near hb_far en_node].
  eapply wpx_mono; [eapply (quiet_opens ws rounds dA stA _ idA _ idB cA pc n1);
    [done|exact Hn1| | |]| |done].
  { apply joined_entry. }
  { apply lookup_insert_eq. }
  { apply Hpc. }
  intros [] n2 Hn2. do 2 wp_step. cbn [lget nearL lset hb_near hb_far en_node].
  eapply wpx_mono; [eapply (quiet_executes ws dA stA (joined xA idB cA ch)); done| |done].
  intros [] n3 Hn3. wp_step. cbn.
  eapply wpx_mono; [eapply (quiet_opens ws' rounds dB stB xB idB heapB idA cB pcB); done| |done].
  intros [] n4 Hn4. rewrite posting_busy in Hn4 by done. exists pc. by split_and!.
Qed.
End Steps.

(** A node, [idA], comes to a server that knows another one, [idB]. *)
Record coming (s ws s' ws' : nat) (idA idB : string) (dA dB : db) (stA stB : Stores)
    xA heapA xB heapB (socks : gset nat) (ids : gmap nat string) h : Prop := {
  cm_near : fresh_client xA idA;
  cm_posted : sd_posted xA = Some [];
  cm_no_mail : no_mail idB dA;
  cm_empty : mg_connections (sd_manager xA) = ∅;
  cm_far : client xB idB;
  cm_far_posted : sd_posted xB = None;
  cm_hearing : hearing xB heapB;
  cm_unknown : mg_connections (sd_manager xB) !! idA = None;
  cm_type : mg_type (sd_manager xB) = PeerType.Full;
  cm_state : mg_state (sd_manager xB) = PeerState.Open;
  cm_different : idA ≠ idB;
  cm_no_tag k : uuid_at k ≠ idA;
  cm_text_near : text idA;
  cm_text_far : text idB;
  cm_socket : s ∉ socks;
  cm_no_identity : ids !! s = None;
  cm_far_socket : s' ∈ socks;
  cm_far_identity : ids !! s' = Some idB;
  cm_texts k other : ids !! k = Some other → text other;
  cm_met : met s ws s' ws' dA dB stA stB socks ids xA heapA xB heapB h }.

(** They are introduced; [h] is the world then. *)
Record introduced (s : nat) (idA idB : string) (ch : nat) (stA stB : Stores) (socks : gset nat)
    (ids : gmap nat string) (xA xB : Side) (pcA pcB : PeerConnection) h : Prop := {
  it_server : serving ({[s]} ∪ socks) (<[s := idA]> ids) (hb_server h);
  it_nodes : two_nodes xA xB idA idB;
  it_posted : sd_posted xA = Some [];
  it_knows : knows idB pcA;
  it_near : channel_to idB (en_node (hb_near h)) = Some ch;
  it_channel : sd_channel xA = ch;
  it_far : channel_to idA (en_node (hb_far h)) = Some (sd_channel xB);
  it_ready :
    channel_open (sd_channel xA) (en_node (hb_near h)) →
    channel_open (sd_channel xB) (en_node (hb_far h)) →
    ∃ psA, between xA xB pcB stB pcA stA psA []
      (channel_world (sd_channel xA) (sd_channel xB) h) }.

Lemma introduce_spec s ws s' ws' rounds idA idB offer answer ch dA dB
    xA heapA stA xB heapB stB socks ids h :
  coming s ws s' ws' idA idB dA dB stA stB xA heapA xB heapB socks ids h →
  acceptable offer → acceptable answer →
  wp (introduce s ws s' ws' (S rounds) idA idB offer answer ch)
     (λ _ h', ∃ yA yB pcA pcB, introduced s idA idB ch stA stB socks ids yA yB pcA pcB h') h.
Proof.
  intros [] Hok Hok'. assert (s ≠ s') as Hss by by intros ->.
  unfold introduce. wp_step.
  eapply wp_mono; [by eapply (drive_initialize s ws s' ws' rounds dA dB stA stB Hss socks ids xA
    idA heapA xB idB heapB)|].
  intros [] h1 (x1 & cB & chB & pcB & HA1 & Hmg & HpA1 & HhA1 & HcB & HpcB & Hmet1).
  assert (s ∈ {[s]} ∪ socks ∧ s' ∈ {[s]} ∪ socks) as [Hs1 Hs1'] by set_solver.
  assert (<[s := idA]> ids !! s = Some idA) as HidA by apply lookup_insert_eq.
  assert (<[s := idA]> ids !! s' = Some idB) as HidB by by rewrite lookup_insert_ne.
  pose proof (client_joined xB idB idA cB chB cm_far0) as HB1.
  pose proof (joined_entry xB idA cB chB) as HcB1. destruct HpcB as (HidpcB & HchB & _).
  pose proof (reports_exchanged s ws s' ws' rounds dA dB stA stB _ _ Hs1 Hs1' idA idB cm_different0
    HidA HidB cm_text_near0 cm_text_far0 x1 heapA _ _ cB pcB offer answer h1 HA1 HhA1 HB1
    (hearing_joined _ _ _ _ _ _ cm_hearing0)
    Hok Hok' ltac:(by rewrite Hmg, cm_empty0) HcB1 (lookup_insert_eq _ _ _) HidpcB Hmet1)
    as Hdesc.
  apply wpx_bind in Hdesc. wp_step. eapply wpx_mono; [exact Hdesc| |done].
  intros [] h2 Hdesc2. wp_step. eapply wpx_mono; [exact Hdesc2| |done].
  intros [] h3 (cA & pcA & HpcA & Hmet3). pose proof (client_joined x1 idA idB cA ch HA1) as HA3.
  rewrite cm_posted0 in HpA1.
  eapply wp_mono; [by eapply (channel_opens s ws s' ws' rounds dA dB stA stB _ _ idA idB x1 heapA
    cA pcA _ _ cB pcB ch h3 HA3 HB1 HpcA HpA1 cm_far_posted0 cm_no_mail0 HcB1
    (lookup_insert_eq _ _ _) HidpcB)|].
  intros [] h4 (pcA' & (HidA' & HchA & HtyA & HstA) & Hsrv & Hnear & Hfar).
  exists (joined x1 idB cA ch), (joined xB idA cB chB), pcA', pcB.
  split; [exact Hsrv| |exact HpA1| |by eapply quiet_channel|done|by eapply quiet_channel|].
  - split; try done; [by apply client_connected|by apply client_connected|].
    cbn. by rewrite Hmg, cm_empty0.
  - split_and!; [done|by left|by left].
  - intros HoA HoB. eapply (channel_between ws ws' dA dB stA stB); try done; apply lookup_insert_eq.
Qed.
End Introduced.

(** ** Properties *)

Section Properties.
Context `{JsonLib} `{CryptoLib} `{LevelDB} `{FifoLib} `{EventppLib} `{RtcLib} `{HostLib}.
Context `{HashOrder} `{!ReliableSockets}.

(** C6: the signaling server introduces two nodes. The server knows a node; a second one opens its
    web socket and awaits the server's answer, the first one is told and makes an offer, the
    descriptions and the candidates of both sides pass through the server, and the library hands
    the second node its channel and reports it open at both ends, whereupon the second node's
    executor looks for messages to send again. Nothing of this fails. The server then knows the
    second node, both nodes have a connection with a channel to each other and are ready for
    every exchange of messages once the channel is open; their stores stay as they are. *)
Theorem server_introduces_nodes s ws s' ws' rounds idA idB offer answer ch dA dB
    xA heapA stA xB heapB stB socks ids h :
  coming s ws s' ws' idA idB dA dB stA stB xA heapA xB heapB socks ids h →
  acceptable offer → acceptable answer →
  ∃ h', introduce s ws s' ws' (S rounds) idA idB offer answer ch h = (Ok tt, h') ∧
    ∃ yA yB pcA pcB, introduced s idA idB ch stA stB socks ids yA yB pcA pcB h'.
Proof.
  intros Hcoming Hok Hok'. apply wp_unit.
  exact (introduce_spec s ws s' ws' rounds idA idB offer answer ch dA dB xA heapA stA
    xB heapB stB socks ids h Hcoming Hok Hok').
Qed.

(** C5: from the start of its signaling client to the end of its first synchronization: a node
    whose chain is a prefix of that of a node the signaling server knows is introduced to it and,
    once the library reports their channel open at both ends, ends its initial block download
    and the question for the pool with the chain of the other one and with every pooled
    transaction of the other one that it has not spent. The other node's stores stay as they
    are. *)
Theorem newcomer_catches_up `{!ReliableChannels} s ws s' ws' rounds loops idA idB offer answer ch
    dA dB xA heapA stA xB heapB stB socks ids g cs new h :
  coming s ws s' ws' idA idB dA dB stA stB xA heapA xB heapB socks ids h →
  acceptable offer → acceptable answer →
  ReliableWrites → stores_wf stA → stores_wf stB →
  chain_of g cs (chain_map stA) → chain_of g (cs ++ new) (chain_map stB) →
  (size (pool_map stB) ≤ S loops)%nat →
  ∃ h', introduce s ws s' ws' (S rounds) idA idB offer answer ch h = (Ok tt, h') ∧
    ∀ ch', channel_to idA (en_node (hb_far h')) = Some ch' →
      channel_open ch (en_node (hb_near h')) → channel_open ch' (en_node (hb_far h')) →
      ∃ ω', joins ch ch' ws ws' (S (S loops)) (channel_world ch ch' h') = (Ok tt, ω') ∧
        joined_with stA stB ω'.
Proof.
  intros Hcoming Hok Hok' HR HwA HwB HcA HcB Hsize.
  pose proof (introduce_spec s ws s' ws' rounds idA idB offer answer ch dA dB xA heapA stA
    xB heapB stB socks ids h Hcoming Hok Hok') as Hrun.
  apply wp_run in Hrun as ([] & h' & Hrun & yA & yB & pcA & pcB & []). exists h'.
  split; [exact Hrun|]. intros ch' Hch' HoA HoB. rewrite it_far0 in Hch'.
  injection Hch' as <-. subst ch. destruct (it_ready0 HoA HoB) as (psA & Hb). apply wp_unit.
  by apply (node_joined yA yB idA idB ws ws' loops pcA pcB stA stB psA g cs new).
Qed.
End Properties.
