(* ===== verification/ControlNode.v ===== *)
(** * The control node (Servers/ControlNode/main.cpp)

    The process from which an operator starts and stops a measurement. *)

From stdpp Require Import base sets list gmap strings.
From Stdlib Require Import ZArith Lia.
From S2P Require Import Prelude Json Crypto LevelDB Fifo Rtc Enums Models Messages DBInterface.
From S2P Require Import Stores TransactionPool Event Coroutine Services Peer RetryHandler.
From S2P Require Import PeerConnection PeerManager SignalingClient.

Open Scope Z_scope.

(** The callbacks the control node registers. *)
Inductive ControlCallback :=
  | ControlSignalingClosed
  | OnIsControlStarted.

Section ControlNode.
Context `{JsonLib} `{CryptoLib} `{LevelDB} `{FifoLib} `{EventppLib} `{RtcLib} `{HostLib}.
Context `{HashOrder}.

(** struct ControlManager: its three atomics, beside the peer it works for. *)
Record ControlManager := MkControlManager {
  cm_peer : Peer (A:=ControlCallback);
  cm_control_state : bool;
  cm_last_control_begin : Z;
  cm_last_control_end : Z }.

Definition cm_peerL : Lens ControlManager Peer :=
  MkLens cm_peer (λ p c, MkControlManager p (cm_control_state c) (cm_last_control_begin c)
                           (cm_last_control_end c)).

#[global] Instance cm_peerL_laws : LensLaws cm_peerL.
Proof. by split; intros; destruct s. Qed.

Definition ControlManager_new (p : Peer) : ControlManager := MkControlManager p false 0 0.

Definition set_begin (t : Z) (c : ControlManager) : ControlManager :=
  MkControlManager (cm_peer c) (cm_control_state c) t (cm_last_control_end c).

Definition set_end (t : Z) (c : ControlManager) : ControlManager :=
  MkControlManager (cm_peer c) (cm_control_state c) (cm_last_control_begin c) t.

Definition set_control_state (b : bool) (c : ControlManager) : ControlManager :=
  MkControlManager (cm_peer c) b (cm_last_control_begin c) (cm_last_control_end c).

(** A broadcast without content to the clients. *)
Definition announce (type : PeerMessageType.t) : M ControlManager unit :=
  zoom cm_peerL (broadcast_to_peers_of_type_and_forget [PeerType.Light; PeerType.Observer]
                   type jnull ∅).

(** What start() and stop() do after their delay. *)
Definition start_delayed : M ControlManager unit :=
  timestamp ← zoom cm_peerL (zoom hostL get_krapi_timestamp);
  _ ← modify (set_begin timestamp);
  _ ← modify (set_control_state true);
  announce PeerMessageType.ControlStarted.

Definition start : Coroutine ControlManager unit :=
  _ ← co_lift (announce PeerMessageType.ControlIsStartingPing);
  _ ← co_await (Delay 5);
  co_lift start_delayed.

Definition stop_delayed : M ControlManager unit :=
  timestamp ← zoom cm_peerL (zoom hostL get_krapi_timestamp);
  _ ← modify (set_end timestamp);
  _ ← modify (set_control_state false);
  announce PeerMessageType.ControlStopped.

Definition stop : Coroutine ControlManager unit :=
  _ ← co_lift (announce PeerMessageType.ControlIsEndingPing);
  _ ← co_await (Delay 5);
  co_lift stop_delayed.

Definition on_is_control_started (e : Event) : M ControlManager unit :=
  peer_message ← lift_result (get_peer e);
  state ← gets cm_control_state;
  zoom cm_peerL (send_and_forget PeerMessageType.IsControlStartedResponse
    (pm_receiver_identity peer_message) (pm_sender_identity peer_message)
    (pm_tag peer_message) (jbool state)).

(** The JSON object both sides of ControlOperateBetween use. *)
Definition control_interval (begin_ end_ : Z) : json :=
  jobject [("begin", juint begin_); ("end", juint end_)].

Definition opearte : M ControlManager unit :=
  begin_ ← gets cm_last_control_begin;
  end_ ← gets cm_last_control_end;
  zoom cm_peerL (broadcast_to_peers_of_type_and_forget [PeerType.Full]
                   PeerMessageType.ControlOperateBetween (control_interval begin_ end_) ∅).

(** [event_loop->end()] *)
Definition end_loop : M ControlManager unit := zoom cm_peerL (zoom endL (modify (λ _, true))).

(** The loop of main, for the numbers the operator types; [wait()] makes the main thread wait
    for the coroutine. What is no number reads as 0. When the input is at its end, [choice] is
    read without ever having been set. *)
Fixpoint menu (choices : list Z) : Coroutine ControlManager unit :=
  match choices with
  | [] => co_lift (throw UndefinedBehaviour)
  | choice :: choices =>
      if choice =? 1 then _ ← start; menu choices
      else if choice =? 2 then _ ← stop; menu choices
      else if choice =? 3 then _ ← co_lift opearte; menu choices
      else co_lift end_loop
  end.

Definition run_control_callback (a : ControlCallback) (e : Event) : M ControlManager unit :=
  match a with
  | ControlSignalingClosed => end_loop
  | OnIsControlStarted => on_is_control_started e
  end.

Definition control_run_callback (ws : nat) (l : PeerCallback ControlCallback) (e : Event)
    : M ControlManager unit :=
  match l with
  | Program a => run_control_callback a e
  | _ => zoom cm_peerL (run_peer_callback (send_signaling_message ws) (λ _ _, mret tt) l e)
  end.

(** main: [None] is an [exit(1)], and otherwise its thread, which waits for the signaling server
    and then runs the menu, beside the event loop. *)
Definition main (retrydb : option db) (choices : list Z)
    : option (Coroutine ControlManager unit) :=
  retry_handler ← RetryHandler_new true true retrydb;
  Some
    (_ ← co_lift (_ ← zoom cm_peerL retry_handler;
                  _ ← zoom cm_peerL (PeerManager_new "control" PeerType.Control PeerState.Open);
                  _ ← zoom cm_peerL (listen
                        (NotificationEvent InternalNotificationType.SignalingServerClosed)
                        (Program ControlSignalingClosed));
                  _ ← modify (λ c, ControlManager_new (cm_peer c));
                  _ ← zoom cm_peerL (listen
                        (PeerEvent PeerMessageType.IsControlStartedRequest)
                        (Program OnIsControlStarted));
                  mret tt);
     _ ← co_zoom cm_peerL initialize;
     menu choices).
End ControlNode.

Section Lemmas.
Context `{JsonLib} `{CryptoLib} `{LevelDB} `{FifoLib} `{EventppLib} `{RtcLib} `{HostLib}.
Context `{HashOrder}.
Implicit Types (c : ControlManager).

(** What the interval is sent as, the node reads back. *)
Lemma control_interval_read begin_ end_ :
  u64 begin_ → u64 end_ →
  (v ← index_mut (control_interval begin_ end_) "begin"; get_uint64 v) = Ok begin_ ∧
  (v ← index_mut (control_interval begin_ end_) "end"; get_uint64 v) = Ok end_.
Proof.
  intros Hb He. unfold control_interval.
  rewrite (index_mut_object _ "begin" (juint begin_)), (index_mut_object _ "end" (juint end_)).
  - cbn. by rewrite !get_uint64_uint.
  - by apply (bool_decide_unpack _); vm_compute.
  - set_solver.
  - by apply (bool_decide_unpack _); vm_compute.
  - set_solver.
Qed.

(** The atomics, which only the menu writes. *)
Definition atomics c : bool * Z * Z :=
  (cm_control_state c, cm_last_control_begin c, cm_last_control_end c).

(** The time the clock shows when it is read next, and the reading. *)
Definition now c : Z := clock_at (clock_ix (pr_host (cm_peer c))).

Definition read_clock c : ControlManager :=
  lset cm_peerL (lset hostL (MkHost (S (clock_ix (pr_host (cm_peer c))))
    (uuid_ix (pr_host (cm_peer c)))) (cm_peer c)) c.

(** The node after a broadcast. *)
Definition posts (types : list PeerType.t) (type : PeerMessageType.t) (content : json) c
    : ControlManager :=
  lset cm_peerL (lset postedL (pr_posted (cm_peer c) ++
    posted_broadcast types type content (cm_peer c)) (cm_peer c)) c.

Definition control_announced (type : PeerMessageType.t) : ControlManager → ControlManager :=
  posts [PeerType.Light; PeerType.Observer] type jnull.

(** The node after the second half of start() and of stop(). *)
Definition begun c : ControlManager :=
  control_announced PeerMessageType.ControlStarted
    (set_control_state true (set_begin (now c) (read_clock c))).

Definition stopped c : ControlManager :=
  control_announced PeerMessageType.ControlStopped
    (set_control_state false (set_end (now c) (read_clock c))).

(** The node after opearte(), and after the end of the menu. *)
Definition operated c : ControlManager :=
  posts [PeerType.Full] PeerMessageType.ControlOperateBetween
    (control_interval (cm_last_control_begin c) (cm_last_control_end c)) c.

Definition ended c : ControlManager := lset cm_peerL (lset endL true (cm_peer c)) c.

Lemma broadcast_control types type content c :
  zoom cm_peerL (broadcast_to_peers_of_type_and_forget types type content ∅) c =
    (Ok tt, posts types type content c).
Proof. unfold zoom. by rewrite broadcast_posts. Qed.

Lemma start_delayed_begins c : start_delayed c = (Ok tt, begun c).
Proof.
  unfold start_delayed, announce, mbind, M_bind. cbn -[broadcast_to_peers_of_type_and_forget].
  by rewrite broadcast_control.
Qed.

Lemma stop_delayed_stops c : stop_delayed c = (Ok tt, stopped c).
Proof.
  unfold stop_delayed, announce, mbind, M_bind. cbn -[broadcast_to_peers_of_type_and_forget].
  by rewrite broadcast_control.
Qed.

Section Driven.
Context (env : ∀ w, M ControlManager (answer w)).

(** What happens during a delay, which ends. *)
Context (env_delay : ∀ t c, ∃ c', env (Delay t) c = (Ok tt, c')).

Lemma start_spec c (Q : unit → ControlManager → Prop) E :
  (∀ c1, env (Delay 5) (control_announced PeerMessageType.ControlIsStartingPing c) = (Ok tt, c1) →
     Q tt (begun c1)) →
  wpx (drive lens_id env start) Q E c.
Proof.
  intros HQ. unfold start. do 2 co_step.
  eapply wpx_returns; [apply broadcast_control|]. do 2 co_step.
  destruct (env_delay 5 (control_announced PeerMessageType.ControlIsStartingPing c)) as [c1 Hc1].
  eapply wpx_returns; [exact Hc1|]. co_step. eapply wpx_returns; [apply start_delayed_begins|].
  by apply HQ.
Qed.

Lemma stop_spec c (Q : unit → ControlManager → Prop) E :
  (∀ c1, env (Delay 5) (control_announced PeerMessageType.ControlIsEndingPing c) = (Ok tt, c1) →
     Q tt (stopped c1)) →
  wpx (drive lens_id env stop) Q E c.
Proof.
  intros HQ. unfold stop. do 2 co_step.
  eapply wpx_returns; [apply broadcast_control|]. do 2 co_step.
  destruct (env_delay 5 (control_announced PeerMessageType.ControlIsEndingPing c)) as [c1 Hc1].
  eapply wpx_returns; [exact Hc1|]. co_step. eapply wpx_returns; [apply stop_delayed_stops|].
  by apply HQ.
Qed.
End Driven.
End Lemmas.

(** ** Properties *)

Section Properties.
Context `{JsonLib} `{CryptoLib} `{LevelDB} `{FifoLib} `{EventppLib} `{RtcLib} `{HostLib}.
Context `{HashOrder}.

(** C29: an operator who starts, stops, operates and exits measures the time between. The pings are
    announced before the two delays; when the first delay is over the clock is read, its time is
    the begin and ControlStarted is announced; when the second one is over the clock is read
    again, its time is the end and ControlStopped is announced. Whatever happens during the
    delays, as long as they end and leave the three atomics alone, the broadcast to the full
    nodes that follows, over every connection there is, carries an interval a node reads back as
    these two times; then the event loop is told to end. Nothing else changes. *)
Theorem measurement_is_sent (env : ∀ w, M ControlManager (answer w)) c :
  (∀ w c, wp (env w) (λ _ c', atomics c' = atomics c) c) →
  ∃ c1 c2, env (Delay 5) (control_announced PeerMessageType.ControlIsStartingPing c) = (Ok tt, c1) ∧
    env (Delay 5) (control_announced PeerMessageType.ControlIsEndingPing (begun c1)) = (Ok tt, c2) ∧
    let c' := ended (operated (stopped c2)) in
    drive lens_id env (menu [1; 2; 3; 4]) c = (Ok tt, c') ∧
    atomics c' = (false, now c1, now c2) ∧
    ∃ content posted,
      pr_posted (cm_peer c') = posted ++ posted_broadcast [PeerType.Full]
        PeerMessageType.ControlOperateBetween content (cm_peer c') ∧
      (v ← index_mut content "begin"; get_uint64 v) = Ok (now c1) ∧
      (v ← index_mut content "end"; get_uint64 v) = Ok (now c2) ∧
      pr_end (cm_peer c') = true.
Proof.
  intros Henv.
  assert (∀ t c, ∃ c', env (Delay t) c = (Ok tt, c') ∧ atomics c' = atomics c) as Hdelay.
  { intros t c0. pose proof (Henv (Delay t) c0) as Ht. apply wp_run in Ht as ([] & c' & Ht & Hat).
    by exists c'. }
  assert (∀ t c, ∃ c', env (Delay t) c = (Ok tt, c')) as Hends.
  { intros t c0. destruct (Hdelay t c0) as (c' & Ht & _). by exists c'. }
  destruct (Hdelay 5 (control_announced PeerMessageType.ControlIsStartingPing c)) as (c1 & Hc1 & _).
  destruct (Hdelay 5 (control_announced PeerMessageType.ControlIsEndingPing (begun c1)))
    as (c2 & Hc2 & Hat2).
  exists c1, c2. split; [exact Hc1|]. split; [exact Hc2|]. cbn zeta.
  injection Hat2 as _ Hbegin _. cbn in Hbegin. split_and!.
  - enough (wp (drive lens_id env (menu [1; 2; 3; 4]))
      (λ _ c', c' = ended (operated (stopped c2))) c) as ([] & c' & Hrun & ->)%wp_run by done.
    cbn [menu Z.eqb Pos.eqb]. co_step. apply (start_spec env Hends).
    intros c1' Hc1'. assert (c1' = c1) as -> by congruence.
    co_step. apply (stop_spec env Hends).
    intros c2' Hc2'. assert (c2' = c2) as -> by congruence.
    do 2 co_step. eapply wpx_returns; [apply broadcast_control|]. co_step.
    by eapply wpx_returns.
  - unfold atomics. cbn. by rewrite Hbegin.
  - destruct (control_interval_read (now c1) (now c2)) as [Hb He]; [apply clock_u64..|].
    exists (control_interval (now c1) (now c2)), (pr_posted (cm_peer (stopped c2))).
    split_and!; [|done..]. cbn. by rewrite Hbegin.
Qed.
End Properties.
