(* ===== verification/LightNode.v ===== *)
(** * The light node (Servers/LightNode/main.cpp)

    The process with a wallet: it sends transactions to the miners and keeps those it hears of.
    What it does with the control messages is to log them. *)

From stdpp Require Import base sets list gmap strings.
From Stdlib Require Import ZArith Lia.
From S2P Require Import Prelude Json Crypto LevelDB Fifo Rtc Enums Models Messages DBInterface.
From S2P Require Import Stores TransactionPool Event Coroutine Services Peer RetryHandler.
From S2P Require Import PeerConnection PeerManager WaitForPeers SignalingClient Wallet.

Open Scope Z_scope.

(** The callbacks of the wallet and of main. *)
Inductive LightCallback :=
  | WalletAddTransaction
  | WalletStatusChanged
  | LightSignalingClosed
  | LightControlStarting
  | LightControlStarted
  | LightControlStopped
  | LightControlResult.

Section LightNode.
Context `{JsonLib} `{CryptoLib} `{LevelDB} `{FifoLib} `{EventppLib} `{RtcLib} `{HostLib}.
Context `{HashOrder}.

Record LightNode := MkLightNode {
  lt_peer : Peer (A:=LightCallback);
  lt_wallet : db }.

Definition lt_peerL : Lens LightNode Peer := MkLens lt_peer (λ p n, MkLightNode p (lt_wallet n)).
Definition lt_walletL : Lens LightNode db := MkLens lt_wallet (λ d n, MkLightNode (lt_peer n) d).
Definition lt_hostL : Lens LightNode Host := lens_comp lt_peerL hostL.

#[global] Instance lt_peerL_laws : LensLaws lt_peerL.
Proof. by split; intros; destruct s. Qed.

#[global] Instance lt_walletL_laws : LensLaws lt_walletL.
Proof. by split; intros; destruct s. Qed.

(** The body of the inner loop of initialize: a transaction to one light peer. *)
Definition send_transaction (peer_id : string) : M LightNode unit :=
  id ← gets (λ n, identity (lt_peer n));
  transaction ← create_transaction lt_walletL lt_hostL id peer_id;
  zoom lt_peerL (broadcast_to_peers_of_type_and_forget [PeerType.Full]
    PeerMessageType.AddTransaction (Transaction_to_json transaction) ∅).

(** One of the five rounds. *)
Definition send_round : Coroutine LightNode unit :=
  light_peer_ids ← co_zoom lt_peerL (peers_of_type PeerType.Light);
  co_lift (for_each light_peer_ids send_transaction).

(** initialize, which main leaves running on the executor. *)
Definition light_initialize : Coroutine LightNode unit :=
  _ ← co_zoom lt_peerL initialize;
  peer_ids ← co_zoom lt_peerL
    (wait_for_peers 3 [PeerType.Full; PeerType.Light] [PeerState.Open]);
  co_for_each (seq 0 5) (λ _, send_round).

(** The listeners of the wallet's constructor, and those of main. *)
Definition wallet_listeners : list (EventType * LightCallback) :=
  [(PeerEvent PeerMessageType.AddTransaction, WalletAddTransaction);
   (PeerEvent PeerMessageType.SetTransactionStatus, WalletStatusChanged)].

Definition light_listeners : list (EventType * LightCallback) :=
  [(NotificationEvent InternalNotificationType.SignalingServerClosed, LightSignalingClosed);
   (PeerEvent PeerMessageType.ControlIsStartingPing, LightControlStarting);
   (PeerEvent PeerMessageType.ControlStarted, LightControlStarted);
   (PeerEvent PeerMessageType.ControlStopped, LightControlStopped);
   (PeerEvent PeerMessageType.ControlResult, LightControlResult)].

Definition listen_all (ls : list (EventType * LightCallback)) : M LightNode unit :=
  for_each ls (λ tl, _ ← zoom lt_peerL (listen tl.1 (Program tl.2)); mret tt).

(** The callbacks that log read what they log, and that may throw. *)
Definition run_light_callback (a : LightCallback) (e : Event) : M LightNode unit :=
  match a with
  | WalletAddTransaction => wallet_on_add_transaction lt_walletL e
  | WalletStatusChanged => on_transactions_status_changed lt_walletL e
  | LightSignalingClosed => zoom lt_peerL (zoom endL (modify (λ _, true)))
  | LightControlStarting => peer_message ← lift_result (get_peer e); mret tt
  | LightControlStarted | LightControlStopped => mret tt
  | LightControlResult =>
      peer_message ← lift_result (get_peer e);
      results ← lift_result (get_uint64_map (pm_content peer_message));
      mret tt
  end.

Definition light_run_callback (ws : nat) (l : PeerCallback LightCallback) (e : Event)
    : M LightNode unit :=
  match l with
  | Program a => run_light_callback a e
  | _ => zoom lt_peerL (run_peer_callback (send_signaling_message ws) (λ _ _, mret tt) l e)
  end.

(** main: [argv] has no second string when no wallet is named; [None] is an [exit(1)], and
    otherwise the coroutine that runs beside the event loop. *)
Definition main (argv : list string) (wallet retrydb : option db)
    : option (M LightNode (Coroutine LightNode unit)) :=
  match argv !! 1%nat with
  | None => Some (throw UndefinedBehaviour)
  | Some wallet_identity =>
      wallet ← Wallet_new true true wallet;
      retry_handler ← RetryHandler_new true true retrydb;
      Some
        (_ ← zoom lt_walletL (modify (λ _, wallet));
         _ ← listen_all wallet_listeners;
         _ ← zoom lt_peerL retry_handler;
         _ ← zoom lt_peerL (PeerManager_new wallet_identity PeerType.Light PeerState.Open);
         _ ← listen_all light_listeners;
         mret light_initialize)
  end.
End LightNode.

Section Lemmas.
Context `{JsonLib} `{CryptoLib} `{LevelDB} `{FifoLib} `{EventppLib} `{RtcLib} `{HostLib}.
Context `{HashOrder}.

(** What the wallet signs is a pending transaction its own hash function stands behind. *)
Lemma created_wf timestamp my_id receiver_id :
  u64 timestamp → text my_id → text receiver_id →
  wf_transaction (Transaction_new TransactionType.Send TransactionStatus.Pending
    (hex_encode (sha256 (transaction_input timestamp my_id receiver_id))) timestamp
    my_id receiver_id).
Proof.
  intros. split_and!; cbn; try done. apply text_ascii, hex_encode_ascii.
Qed.
End Lemmas.

Section RoundLemmas.
Context `{JsonLib} `{CryptoLib} `{LevelDB} `{FifoLib} `{EventppLib} `{RtcLib} `{HostLib}.
Context `{HashOrder}.
Implicit Types (n : LightNode).

(** A transaction as the wallet of [id] makes it for [peer]. *)
Definition fresh_transaction (id peer : string) (t : Transaction) : Prop :=
  wf_transaction t ∧ tx_from t = id ∧ tx_to t = peer ∧ tx_type t = TransactionType.Send ∧
  tx_status t = TransactionStatus.Pending.

(** What the light node posts for a transaction: a broadcast to the full nodes. *)
Definition offer_tasks (p : Peer (A:=LightCallback)) (t : Transaction) : list PostedTask :=
  posted_broadcast [PeerType.Full] PeerMessageType.AddTransaction (Transaction_to_json t) p.

(** [n'] has the same connections as [n] and has posted [ts] more. *)
Record sent_tasks (ts : list PostedTask) n n' : Prop := {
  se_wallet : db_wf (T:=Transaction) (lt_wallet n');
  se_posted : pr_posted (lt_peer n') = pr_posted (lt_peer n) ++ ts;
  se_manager : pr_manager (lt_peer n') = pr_manager (lt_peer n);
  se_heap : pr_heap (lt_peer n') = pr_heap (lt_peer n) }.

Lemma sent_trans ts1 ts2 n1 n2 n3 : sent_tasks ts1 n1 n2 → sent_tasks ts2 n2 n3 → sent_tasks (ts1 ++ ts2) n1 n3.
Proof.
  intros [? Hp ? ?] [? Hp' ? ?]. split; [done| |congruence..]. by rewrite Hp', Hp, app_assoc.
Qed.

Lemma offer_tasks_manager p p' t : pr_manager p' = pr_manager p → offer_tasks p' t = offer_tasks p t.
Proof. unfold offer_tasks, posted_broadcast, identity. by intros ->. Qed.

Lemma send_transaction_spec peer n :
  db_wf (T:=Transaction) (lt_wallet n) → text (identity (lt_peer n)) → text peer →
  wp (send_transaction peer)
     (λ _ n', ∃ t, fresh_transaction (identity (lt_peer n)) peer t ∧
                   sent_tasks (offer_tasks (lt_peer n) t) n n') n.
Proof.
  intros Hwf Hid Hpeer. unfold send_transaction, create_transaction. do 5 wp_step.
  apply wpx_timestamp. intros ts h Hts. do 2 wp_step.
  set (t := Transaction_new _ _ _ ts _ _).
  assert (fresh_transaction (identity (lt_peer n)) peer t) as Ht.
  { split_and!; [by apply created_wf|done..]. }
  apply wpx_put; [done|apply Ht|]. intros ok d Hd _ _. do 2 wp_step. unfold wpx.
  rewrite broadcast_posts. cbn. exists t. split; [done|]. by split.
Qed.

Lemma send_all_spec peers n :
  db_wf (T:=Transaction) (lt_wallet n) → text (identity (lt_peer n)) → Forall text peers →
  wp (for_each peers send_transaction)
     (λ _ n', ∃ ts, Forall2 (fresh_transaction (identity (lt_peer n))) peers ts ∧
                    sent_tasks (concat (map (offer_tasks (lt_peer n)) ts)) n n') n.
Proof.
  intros Hwf Hid Hpeers. revert n Hwf Hid.
  induction Hpeers as [|peer peers Hpeer _ IH]; intros n Hwf Hid; cbn [for_each].
  { wp_step. exists []. split; [done|]. split; cbn; by rewrite ?app_nil_r. }
  wp_step. eapply wpx_mono; [by apply send_transaction_spec| |done].
  intros [] n1 (t & Ht & Hs). pose proof Hs as [Hwf1 _ Hm _].
  assert (identity (lt_peer n1) = identity (lt_peer n)) as Hid1 by (unfold identity; by rewrite Hm).
  eapply wp_mono; [apply IH; [done|by rewrite Hid1]|]. intros [] n2 (ts & Hts & Hs2).
  exists (t :: ts). rewrite Hid1 in Hts. split; [by constructor|]. cbn.
  eapply sent_trans; [exact Hs|].
  assert (map (offer_tasks (lt_peer n1)) ts = map (offer_tasks (lt_peer n)) ts) as <-; [|done].
  apply map_ext. intros u. by apply offer_tasks_manager.
Qed.
End RoundLemmas.

(** ** Properties *)

Section Properties.
Context `{JsonLib} `{CryptoLib} `{LevelDB} `{FifoLib} `{EventppLib} `{RtcLib} `{HostLib}.
Context `{HashOrder}.
Implicit Types (n : LightNode) (details : string → PeerType.t * PeerState.t).

(** The connected light peers, in the order of the map. *)
Definition light_peers details n : list string :=
  List.filter (λ peer, bool_decide ((details peer).1 = PeerType.Light))
    (hash_order (mg_connections (pr_manager (lt_peer n)))).*1.

Lemma send_round_known details n :
  Forall (λ pc, answered_by pc.2 (details pc.1) (lt_peer n))
    (hash_order (mg_connections (pr_manager (lt_peer n)))) →
  db_wf (T:=Transaction) (lt_wallet n) → text (identity (lt_peer n)) →
  Forall text (light_peers details n) →
  ∃ n' ts, send_round n = (Ok (Finished tt), n') ∧
    Forall2 (fresh_transaction (identity (lt_peer n))) (light_peers details n) ts ∧
    sent_tasks (concat (map (offer_tasks (lt_peer n)) ts)) n n'.
Proof.
  intros Hk Hwf Hid Htext.
  pose proof (send_all_spec (light_peers details n) n Hwf Hid Htext) as Hrun.
  apply wp_run in Hrun as ([] & n' & Hrun & ts & Hts & Hs). exists n', ts.
  split_and!; [|done..]. unfold send_round.
  rewrite (bind_finished _ _ (light_peers details n) n n); [by apply lift_finished|].
  unfold co_zoom. cbn [lget lset lt_peerL]. rewrite (peers_of_type_known _ details _ Hk).
  by destruct n.
Qed.

(** C28: once the light node knows the types of its peers, its five rounds end without waiting, and
    in each of them it makes one pending transaction of its own for every light peer, in the
    order of the map, and posts its broadcast to the full nodes; nothing else is posted. *)
Theorem five_rounds_are_sent details n :
  Forall (λ pc, answered_by pc.2 (details pc.1) (lt_peer n))
    (hash_order (mg_connections (pr_manager (lt_peer n)))) →
  db_wf (T:=Transaction) (lt_wallet n) → text (identity (lt_peer n)) →
  Forall text (light_peers details n) →
  ∃ n' ts, co_for_each (seq 0 5) (λ _, send_round) n = (Ok (Finished tt), n') ∧
    Forall2 (fresh_transaction (identity (lt_peer n)))
      (concat (replicate 5 (light_peers details n))) ts ∧
    pr_posted (lt_peer n') =
      pr_posted (lt_peer n) ++ concat (map (λ t, posted_broadcast [PeerType.Full]
        PeerMessageType.AddTransaction (Transaction_to_json t) (lt_peer n)) ts).
Proof.
  intros Hk Hwf Hid Htext.
  enough (∃ n' ts, co_for_each (seq 0 5) (λ _, send_round) n = (Ok (Finished tt), n') ∧
    Forall2 (fresh_transaction (identity (lt_peer n)))
      (concat (replicate 5 (light_peers details n))) ts ∧
    sent_tasks (concat (map (offer_tasks (lt_peer n)) ts)) n n') as (n' & ts & ? & ? & []) by by exists n', ts.
  change (replicate 5 ?x) with (replicate (length (seq 0 5)) x). generalize (seq 0 5) as l. intros l.
  revert n Hk Hwf Hid Htext. induction l as [|i l IH]; intros n Hk Hwf Hid Htext; cbn [co_for_each].
  { exists n, []. cbn. split_and!; [done|done|]. split; by rewrite ?app_nil_r. }
  destruct (send_round_known details n Hk Hwf Hid Htext) as (n1 & ts1 & Hrun1 & Hts1 & Hs1).
  pose proof Hs1 as [Hwf1 _ Hm Hh].
  assert (identity (lt_peer n1) = identity (lt_peer n)) as Hid1 by (unfold identity; by rewrite Hm).
  assert (light_peers details n1 = light_peers details n) as Hl1.
  { unfold light_peers. by rewrite Hm. }
  destruct (IH n1) as (n2 & ts2 & Hrun2 & Hts2 & Hs2).
  { rewrite Hm. eapply Forall_impl; [exact Hk|]. intros pc (c & pc' & ? & ? & ?).
    exists c, pc'. by rewrite Hh. }
  { done. }
  { by rewrite Hid1. }
  { by rewrite Hl1. }
  exists n2, (ts1 ++ ts2). rewrite (bind_finished _ _ _ _ _ Hrun1). split_and!; [done| |].
  - cbn. rewrite Hid1, Hl1 in Hts2. by apply Forall2_app.
  - rewrite map_app, concat_app. eapply sent_trans; [exact Hs1|].
    assert (map (offer_tasks (lt_peer n1)) ts2 = map (offer_tasks (lt_peer n)) ts2) as <-; [|done].
    apply map_ext. intros u. by apply offer_tasks_manager.
Qed.
End Properties.
