(* ===== verification/Scenario.v ===== *)
(** * A concrete run

    Blocks, transactions, databases and a node over the libraries of Concrete.v, for the
    theorems' instances in Witnesses.v: a genesis block, a block mined on it with one
    transaction, a pool with another one. *)

From stdpp Require Import base sets list gmap strings.
From Stdlib Require Import ZArith Lia.
From S2P Require Import Prelude Json Crypto LevelDB Fifo Rtc Concrete Enums Models Messages.
From S2P Require Import DBInterface Stores Blockchain Validator TransactionPool Event Coroutine.
From S2P Require Import Services WaitForPeers.
From S2P Require Import BlockchainManager TransactionPoolManager Miner Peer RetryHandler.
From S2P Require Import PeerConnection PeerManager SignalingClient SignalingServer Wallet Node.
From S2P Require Import NodeInvariant Loop Exchange Sync Broadcast.
From S2P Require Import PoolSync Consensus Hub Clients Introduction.

Open Scope Z_scope.

(** ** Databases *)

Section Fill.
Context `{JsonLib} `{LevelDB} {T : Type} `{!DBData T} `{!DBDataLaws T}.

(** The database after storing [vs], first to last. *)
Definition fill (empty : db) (vs : list T) : db :=
  (for_each vs (λ v, _ ← put v; mret tt) empty).2.

Lemma fill_spec d vs :
  ReliableWrites → db_wf (T:=T) d → Forall data_ok vs → NoDup (map data_tag vs) →
  (∀ v, v ∈ vs → db_abs d !! data_tag v = None ∧ data_norm v = v) →
  db_wf (T:=T) (fill d vs) ∧
  ∀ k v, db_abs (fill d vs) !! k = Some v ↔ db_abs d !! k = Some v ∨ (v ∈ vs ∧ data_tag v = k).
Proof.
  intros HR. unfold fill. revert d. induction vs as [|v vs IH]; intros d Hwf Hok Hnd Hnew.
  - cbn. split; [done|]. set_solver.
  - apply Forall_cons in Hok as [Hv Hok]. cbn in Hnd. apply NoDup_cons in Hnd as [Hfresh Hnd].
    destruct (Hnew v (list_elem_of_here _ _)) as [Hnone Hnorm].
    destruct (put_refines d v Hwf Hv) as (ok & d' & Hput & Hwf' & Habs & _ & Hrel).
    rewrite Hrel in * by done. cbn [for_each]. unfold mbind, M_bind. rewrite Hput. cbn [fst snd].
    unfold put_spec in Habs. rewrite Hnone, Hnorm in Habs. cbn in Habs.
    destruct (IH d' Hwf' Hok Hnd) as [Hw Hl].
    { intros u Hu. rewrite Habs, lookup_insert_ne.
      - apply Hnew. by right.
      - intros Heq. apply Hfresh. rewrite Heq. by apply list_elem_of_fmap_2. }
    split; [exact Hw|]. intros k u. etrans; [apply Hl|].
    rewrite Habs, lookup_insert_Some, elem_of_cons. split.
    + intros [[[<- <-]|[_ ?]]|[? ?]]; auto.
    + intros [Hk|[[->|Hu] Ht]]; auto. left. right. split; [|done]. intros <-. congruence.
Qed.
End Fill.

(** Nothing stored. *)
Definition empty_db : @db map_leveldb := (∅ : gmap string string).

Lemma empty_wf {T} `{!@DBData tree_json T} `{!@DBDataLaws tree_json T _} :
  db_wf (T:=T) empty_db.
Proof. by intros k s Hk. Qed.

Lemma empty_abs {T} `{!@DBData tree_json T} k : db_abs (T:=T) empty_db !! k = None.
Proof. done. Qed.

(** ** The chain *)

Definition g0 : Block := create_genesis_block.

Definition t1 : Transaction :=
  Transaction_new TransactionType.Send TransactionStatus.Pending
    (hex_encode (sha256 (transaction_input 1668542650 "alice" "bob"))) 1668542650 "alice" "bob".

Definition t2 : Transaction :=
  Transaction_new TransactionType.Send TransactionStatus.Pending
    (hex_encode (sha256 (transaction_input 1668542651 "bob" "carol"))) 1668542651 "bob" "carol".

Definition mine (newest : Block) (ts : Z) (txs : list Transaction) : Block :=
  match get_merkle_root txs with
  | Ok root =>
      default Block_default (mining_loop 100 (Block_hash newest) "miner" root ts txs 0)
  | Err _ => Block_default
  end.

Definition b1 : Block := mine g0 1668542702 [t1].
Definition b2 : Block := mine b1 1668542800 [t2].

(** Well-formedness of a closed value, by evaluation. *)
Ltac wf_eval :=
  repeat match goal with
  | |- _ ∧ _ => split
  | |- Forall _ (_ :: _) => apply Forall_cons
  | |- Forall _ [] => apply Forall_nil_2
  | |- u64 _ => by apply (bool_decide_unpack _); vm_compute
  end; try (by vm_compute).

Lemma t1_wf : wf_transaction t1.
Proof. unfold wf_transaction. wf_eval. Qed.

Lemma t2_wf : wf_transaction t2.
Proof. unfold wf_transaction. wf_eval. Qed.

Lemma b1_eq : bl_transactions b1 = [t1].
Proof. by vm_compute. Qed.

Lemma b2_eq : bl_transactions b2 = [t2].
Proof. by vm_compute. Qed.

Lemma b1_wf : wf_block b1.
Proof. unfold wf_block. rewrite b1_eq. unfold wf_header. wf_eval. Qed.

Lemma b2_wf : wf_block b2.
Proof. unfold wf_block. rewrite b2_eq. unfold wf_header. wf_eval. Qed.

Lemma b1_follows : follows g0 b1.
Proof. unfold follows. wf_eval. Qed.

Lemma b2_follows : follows b1 b2.
Proof. unfold follows. wf_eval. Qed.

Lemma b2_follows_parts :
  Block_timestamp b1 < Block_timestamp b2 ∧ Block_previous_hash b2 = Block_hash b1 ∧
  starts_with (Block_hash b2) "0000" = true.
Proof. destruct b2_follows as (Ht & Hw & Hp). exact (conj Ht (conj Hp Hw)). Qed.

(** The blocks are evaluated by [vm_compute] only. *)
#[global] Opaque g0 b1 b2.

(** ** The stores: [b1] is on the chain, [t1] is spent, [t2] waits in the pool *)

Definition chain0 : db := fill empty_db [g0; b1].
Definition spent0 : db := fill empty_db [t1].
Definition pool_db0 : db := fill empty_db [t2].
Definition st0 : Stores :=
  MkStores _ _ chain0 spent0 (MkTransactionPool pool_db0 ([ItemTransaction t2] : list PoolItem)).

(** [fill_spec] from nothing. *)
Lemma fill_empty {T} `{!@DBData tree_json T} `{!@DBDataLaws tree_json T _} (vs : list T) :
  Forall data_ok vs → NoDup (map data_tag vs) → Forall (λ v, data_norm v = v) vs →
  db_wf (T:=T) (fill empty_db vs) ∧
  ∀ k v, db_abs (fill empty_db vs) !! k = Some v ↔ v ∈ vs ∧ data_tag v = k.
Proof.
  intros Hok Hnd Hnorm.
  destruct (fill_spec empty_db vs _ empty_wf Hok Hnd) as [Hwf Hl].
  { intros v Hv. split; [apply empty_abs|]. rewrite Forall_forall in Hnorm. by apply Hnorm. }
  split; [exact Hwf|]. intros k v. etrans; [apply Hl|].
  split; [intros [Hk|Hk]; [by rewrite empty_abs in Hk|done]|auto].
Qed.

Lemma chain0_spec : db_wf (T:=Block) chain0 ∧ chain_of g0 [b1] (db_abs chain0).
Proof.
  destruct (fill_empty [g0; b1]) as [Hwf Hl].
  { constructor; [exact genesis_wf|]. apply Forall_singleton, b1_wf. }
  { by apply (bool_decide_unpack _); vm_compute. }
  { by repeat constructor. }
  split; [exact Hwf|]. split; [by vm_compute|]. split; [by split; [exact b1_follows|]|].
  intros k b. etrans; [apply Hl|]. split; intros [? ?]; by split.
Qed.

Lemma spent0_spec :
  db_wf (T:=Transaction) spent0 ∧ ∀ k t, db_abs spent0 !! k = Some t ↔ t = t1 ∧ tx_hash t1 = k.
Proof.
  destruct (fill_empty [t1]) as [Hwf Hl].
  { apply Forall_singleton, t1_wf. }
  { by apply (bool_decide_unpack _); vm_compute. }
  { by repeat constructor. }
  split; [exact Hwf|]. intros k t. etrans; [apply Hl|]. rewrite list_elem_of_singleton.
  by split; intros [-> ?].
Qed.

Lemma pool0_spec :
  db_wf (T:=Transaction) pool_db0 ∧ ∀ k t, db_abs pool_db0 !! k = Some t ↔ t = t2 ∧ tx_hash t2 = k.
Proof.
  destruct (fill_empty [t2]) as [Hwf Hl].
  { apply Forall_singleton, t2_wf. }
  { by apply (bool_decide_unpack _); vm_compute. }
  { by repeat constructor. }
  split; [exact Hwf|]. intros k t. etrans; [apply Hl|]. rewrite list_elem_of_singleton.
  by split; intros [-> ?].
Qed.

Lemma st0_wf : stores_wf st0.
Proof.
  destruct chain0_spec as [Hc _], spent0_spec as [Hs Hsl], pool0_spec as [Hp Hpl].
  split; [exact Hc|exact Hs|exact Hp|..].
  - intros k. destruct (pool_map st0 !! k) as [t|] eqn:Ht; [right|by left].
    destruct (spent_map st0 !! k) as [u|] eqn:Hu; [|done].
    apply Hpl in Ht as [-> <-]. apply Hsl in Hu as [-> Hh]. by vm_compute in Hh.
  - intros t [= ->]%list_elem_of_singleton. exact t2_wf.
Qed.

Lemma st0_chain : chain_of g0 [b1] (chain_map st0).
Proof. apply chain0_spec. Qed.

(** A chain of the genesis block alone, as a node finds it at its first start. *)
Definition genesis_chain : db := fill empty_db [g0].

(** ** A node with these stores, and messages that peers send it *)

Definition network0 : rtc := Wire.Mk [] 1%nat {[7%nat]}.

(** The channel 7 to "bob" is open. *)
Definition pc_bob : PeerConnection :=
  MkPeerConnection "bob" 0 (Some 7%nat) PeerType.Full PeerState.Open [].
Definition peer_bob : Peer (A:=NodeCallback) :=
  MkPeer (MkHost 0 0) network0 EventQueue_new empty_db
    (MkPeerManager "node" {[ "bob" := Some 0%nat ]} PeerState.Open PeerType.Full)
    {[ 0%nat := pc_bob ]} [] [] ∅ false.
Definition node0 : Node := MkNode peer_bob st0.

Definition from_alice (type : PeerMessageType.t) (content : json) : PeerMessage :=
  MkPeerMessage type "alice" "node" "tag" content 1668542900.

Definition to_bob : PeerMessage :=
  MkPeerMessage PeerMessageType.DEFAULT "node" "bob" "tag" jnull 1668542900.
Definition retry_bob : InternalMessage PeerMessage :=
  MkInternalMessage InternalMessageType.SendPeerMessage to_bob 1668542901 0.

Lemma to_bob_wf : wf_peer_message to_bob.
Proof. unfold wf_peer_message. wf_eval. Qed.

Lemma retry_bob_wf : wf_internal_message retry_bob.
Proof. unfold wf_internal_message. wf_eval. Qed.

(** ** Two nodes: "alice" has only the genesis block, "bob" has a block more *)

Definition no_stores : Stores :=
  MkStores _ _ empty_db empty_db (MkTransactionPool empty_db fifo_empty).

Definition main_queue : EventQueue :=
  pr_queue (nd_peer (main_register "node"
    (listen (NotificationEvent InternalNotificationType.DataChannelOpened)
       RetryOnDatachannelOpen)
    (MkNode (Peer_new (MkHost 0 0) network0 empty_db) no_stores)).2).

Lemma main_queue_listeners type :
  (epp_listeners (eq_queue main_queue) type).*2 = registered node_listeners type.
Proof.
  set (retries := listen (NotificationEvent InternalNotificationType.DataChannelOpened)
    RetryOnDatachannelOpen : M (Peer (A:=NodeCallback)) nat).
  set (n0 := MkNode (Peer_new (MkHost 0 0) network0 empty_db) no_stores).
  pose proof (main_register_registers "node" retries n0 (listen_registers _ _)) as Hr.
  apply (proj1 (wp_run _ _ _)) in Hr as ([] & n & Hrun & Hr).
  unfold main_queue. fold retries n0. rewrite Hrun. cbn [snd]. rewrite <-(app_nil_l (registered _ _)).
  exact (Hr type).
Qed.

Lemma main_queue_store : eq_store main_queue = MkPromiseStore ∅ (MkPromises 0 ∅ ∅).
Proof. vm_cast_no_check (eq_refl (eq_store main_queue)). Qed.

Lemma main_queue_pending : epp_pending (eq_queue main_queue) = [].
Proof. vm_cast_no_check (eq_refl (epp_pending (eq_queue main_queue))). Qed.

#[global] Opaque main_queue.

Definition genesis_stores : Stores := MkStores _ _ genesis_chain spent0 (st_pool st0).

Lemma genesis_stores_spec :
  stores_wf genesis_stores ∧ chain_of g0 [] (chain_map genesis_stores).
Proof.
  destruct (fill_empty [g0]) as [Hwf Hl].
  { apply Forall_singleton. exact genesis_wf. }
  { by apply (bool_decide_unpack _); vm_compute. }
  { by repeat constructor. }
  destruct st0_wf as [_ Hs Hp Hd Hq]. split; [split; [exact Hwf|exact Hs|exact Hp|exact Hd|exact Hq]|].
  split; [by vm_compute|]. split; [exact I|]. intros k b. etrans; [apply Hl|].
  split; intros [? ?]; by split.
Qed.

(** The same node before it has heard of a transaction. *)
Definition newcomer_stores : Stores :=
  MkStores _ _ genesis_chain spent0 (MkTransactionPool empty_db ([] : list PoolItem)).

Lemma newcomer_stores_spec :
  stores_wf newcomer_stores ∧ chain_of g0 [] (chain_map newcomer_stores).
Proof.
  destruct genesis_stores_spec as [[Hc Hs _ _ _] Hchain]. split; [|exact Hchain].
  split; [exact Hc|exact Hs|exact empty_wf| |].
  - intros k. left. exact (lookup_empty k).
  - intros t Ht. by apply not_elem_of_nil in Ht.
Qed.

Definition connected_node (self other : string) (type : PeerType.t) (state : PeerState.t)
    (st : Stores) : Node :=
  MkNode
    (MkPeer (MkHost 0 0) network0 main_queue empty_db
       (MkPeerManager self {[ other := Some 0%nat ]} PeerState.Open PeerType.Full)
       {[ 0%nat := MkPeerConnection other 0 (Some 7%nat) type state [] ]} [] [] ∅ false) st.

(** The connection object of a node, and the world of "alice" and "bob". *)
Definition connection_to (other : string) (type : PeerType.t) (state : PeerState.t)
    : PeerConnection := MkPeerConnection other 0 (Some 7%nat) type state [].

Definition alice_with (type : PeerType.t) (state : PeerState.t) (st : Stores) : Node :=
  connected_node "alice" "bob" type state st.
Definition bob_with (st : Stores) : Node :=
  connected_node "bob" "alice" PeerType.Full PeerState.Open st.

Definition alice : Node := alice_with PeerType.Unknown PeerState.Unknown genesis_stores.
Definition newcomer : Node := alice_with PeerType.Unknown PeerState.Unknown newcomer_stores.
Definition bob : Node := bob_with st0.
Definition two : World := MkWorld alice bob 0 0.

(** The end of a node's connection, with nothing posted, and when it may post tasks. *)
Definition idle_side (n : Node) : Side :=
  MkSide (pr_manager (nd_peer n)) 0 7 (λ type, (epp_listeners (eq_queue main_queue) type).*2)
    (eq_waiters main_queue) (Some []).
Definition side_of (n : Node) : Side := busy (idle_side n).

Lemma idle_wired n : wired (idle_side n).
Proof. intros type _. apply main_queue_listeners. Qed.

Lemma connected_node_ready self other type state st :
  let n := connected_node self other type state st in
  ready (idle_side n) (connection_to other type state) st (eq_store main_queue) [] [] n.
Proof.
  split.
  - exact eq_refl.
  - exact eq_refl.
  - exact main_queue_pending.
  - intros type'. exact eq_refl.
  - exact eq_refl.
  - exact eq_refl.
  - exact (eq_ind_r store_wf store_wf_empty main_queue_store).
  - intros k _. rewrite main_queue_store. exact (lookup_empty _).
  - exact eq_refl.
  - intros l Hl. injection Hl as <-. exact eq_refl.
  - split.
    + exact (lookup_singleton_eq 0%nat _).
    + exact eq_refl.
    + vm_compute. reflexivity.
    + vm_compute. reflexivity.
    + exact eq_refl.
Qed.

(** They are connected, and nothing is on its way. *)
Lemma two_connected_idle type state stA stB :
  two_nodes (idle_side (alice_with type state stA)) (side_of (bob_with stB)) "alice" "bob".
Proof.
  split; [split; [reflexivity|exact (lookup_singleton_eq _ _)|apply idle_wired]|
    split; [reflexivity|exact (lookup_singleton_eq _ _)|exact (idle_wired (bob_with stB))]|..];
    try reflexivity; vm_compute; reflexivity.
Qed.

Lemma two_between_idle type state stA stB :
  between (idle_side (alice_with type state stA)) (side_of (bob_with stB))
    (connection_to "alice" PeerType.Full PeerState.Open) stB
    (connection_to "bob" type state) stA (eq_store main_queue) []
    (MkWorld (alice_with type state stA) (bob_with stB) 0 0).
Proof.
  split; [exact (connected_node_ready _ _ _ _ _)| |reflexivity].
  split; [eexists; exact (ready_busy _ _ _ _ _ _ _ (connected_node_ready _ _ _ _ _))|reflexivity].
Qed.

Lemma two_connected type state stA stB :
  two_nodes (side_of (alice_with type state stA)) (side_of (bob_with stB)) "alice" "bob".
Proof. exact (two_nodes_busy _ _ _ _ (two_connected_idle type state stA stB)). Qed.

Lemma two_between type state stA stB :
  between (side_of (alice_with type state stA)) (side_of (bob_with stB))
    (connection_to "alice" PeerType.Full PeerState.Open) stB
    (connection_to "bob" type state) stA (eq_store main_queue) []
    (MkWorld (alice_with type state stA) (bob_with stB) 0 0).
Proof. exact (between_busy _ _ _ _ _ _ _ _ _ (two_between_idle type state stA stB)). Qed.

(** ** "alice" mines a block with [t2] on the chain both have *)

Definition root2 : string := match get_merkle_root [t2] with Ok root => root | Err _ => "" end.

Definition search2 (fuel : nat) : option Block :=
  mining_loop fuel (Block_hash b1) "alice" root2 (clock_at 0) [t2] 0.

Definition b3 : Block := default Block_default (search2 10).

Lemma search2_eq : mining_function (Block_hash b1) "alice" [t2] (MkHost 0 0) =
  (Ok search2, MkHost 1 0).
Proof.
  assert (get_merkle_root [t2] = Ok root2) as Hroot by by vm_compute.
  unfold mining_function, mbind, M_bind, lift_result. by rewrite Hroot.
Qed.

Lemma b3_found : search2 10 = Some b3.
Proof. vm_compute. reflexivity. Qed.

Lemma b3_new : chain_map st0 !! Block_hash b3 = None.
Proof. vm_compute. reflexivity. Qed.

#[global] Opaque b3.

Definition miners : World :=
  MkWorld (alice_with PeerType.Full PeerState.Open st0) (bob_with st0) 0 0.

(** The other node has not got [b1]. *)
Definition miners_apart : World :=
  MkWorld (alice_with PeerType.Full PeerState.Open st0) (bob_with genesis_stores) 0 0.

Lemma b3_new_apart : chain_map genesis_stores !! Block_hash b3 = None.
Proof. vm_compute. reflexivity. Qed.

Lemma b3_fits : fits b1 b1 (Block_timestamp b3) [t2] st0.
Proof. split_and!; [reflexivity|vm_compute; reflexivity|]. apply Forall_singleton. vm_compute. reflexivity. Qed.

Lemma b3_apart : ¬ fits b1 g0 (Block_timestamp b3) [t2] genesis_stores.
Proof. intros [Heq _]. vm_compute in Heq. discriminate Heq. Qed.

(** ** A signaling server: socket 1 is "alice", 2 is "bob", 3 has not said yet *)

Definition server0 : SignalingServer :=
  MkSignalingServer {[1; 2; 3]}%nat {[ 1 := "alice"; 2 := "bob"; 3 := "" ]}%nat
    (Wire.Mk [] 0%nat ∅) (MkHost 0 0).

Lemma server0_wf : server_wf server0.
Proof.
  intros ws Hws. cbn in *. repeat (apply elem_of_union in Hws as [Hws|Hws]);
    apply elem_of_singleton in Hws as ->; by eexists.
Qed.

Definition offer_to_bob : SignalingMessage :=
  MkSignalingMessage SignalingMessageType.RTCSetup "alice" "bob" "tag" (jstring "sdp").

(** ** "alice" comes to a signaling server that knows "bob" *)

Definition fresh_node (self : string) (opened : gset nat) (st : Stores) : Node :=
  MkNode
    (MkPeer (MkHost 0 0) (Wire.Mk [] 1%nat opened) main_queue empty_db
       (MkPeerManager self ∅ PeerState.Open PeerType.Full) ∅ [] [] ∅ false) st.

Definition fresh_side (self : string) : Side :=
  MkSide (MkPeerManager self ∅ PeerState.Open PeerType.Full) 0 0
    (λ type, (epp_listeners (eq_queue main_queue) type).*2) (eq_waiters main_queue) (Some []).

Lemma fresh_node_live self opened st ws :
  live (fresh_side self) (net ws empty_db [] ∅) st (eq_store main_queue) [] (fresh_node self opened st).
Proof.
  split.
  - exact eq_refl.
  - exact eq_refl.
  - exact main_queue_pending.
  - intros type'. exact eq_refl.
  - exact eq_refl.
  - exact eq_refl.
  - exact (eq_ind_r store_wf store_wf_empty main_queue_store).
  - intros k _. rewrite main_queue_store. exact (lookup_empty _).
  - exact eq_refl.
  - intros l Hl. injection Hl as <-. exact eq_refl.
  - split_and!; exact eq_refl.
Qed.

Lemma fresh_side_client self : fresh_client (fresh_side self) self.
Proof. split; [exact eq_refl|intros type; apply main_queue_listeners]. Qed.

(** "bob" after the start of its signaling client. *)
Definition waiting_side : Side :=
  heeding (busy (fresh_side "bob")) (InternalEvent InternalMessageType.SendSignalingMessage)
    SendSignaling.
Definition waiting_bob : Node :=
  (on_peer (listen (InternalEvent InternalMessageType.SendSignalingMessage) SendSignaling)
     (fresh_node "bob" {[2%nat]} st0)).2.

Lemma waiting_bob_quiet : quiet 1 empty_db waiting_side ∅ st0 waiting_bob.
Proof.
  pose proof (live_listen _ _ _ _ _ (InternalEvent InternalMessageType.SendSignalingMessage)
    SendSignaling _ (live_busy _ _ _ _ _ _ (fresh_node_live "bob" {[2%nat]} st0 1))) as Hl.
  apply (proj1 (wp_run _ _ _)) in Hl as (h & n & Hrun & Hl). exists [], (eq_store main_queue).
  unfold waiting_bob. rewrite Hrun. exact Hl.
Qed.

Definition server1 : SignalingServer :=
  MkSignalingServer {[2]}%nat {[ 2 := "bob" ]}%nat (Wire.Mk [] 0%nat ∅) (MkHost 0 0).
Definition hub0 : Hub :=
  MkHub server1 (MkEnd (fresh_node "alice" {[7%nat]} newcomer_stores) 0 0)
    (MkEnd waiting_bob 0 0).

Lemma waiting_bob_sent : socket_texts 1 waiting_bob = [].
Proof. vm_cast_no_check (eq_refl (socket_texts 1 waiting_bob)). Qed.

Lemma hub0_met :
  met 1 1 2 1 empty_db empty_db newcomer_stores st0 {[2%nat]} {[ 2%nat := "bob" ]} (fresh_side "alice") ∅
    waiting_side ∅ hub0.
Proof.
  split.
  - split; [by exists []|by exists []| |by exists []].
    exact (eq_sym (f_equal length waiting_bob_sent)).
  - split; [exact eq_refl|exact eq_refl|]. intros ws Hws. change (ws ∈ ({[2%nat]} : gset nat)) in Hws.
    apply elem_of_singleton in Hws as ->. exists "bob". exact (lookup_singleton_eq _ _).
  - exists [], (eq_store main_queue). apply fresh_node_live.
  - exact waiting_bob_quiet.
Qed.

Lemma tally_alice k : uuid_at k ≠ "alice".
Proof. by destruct k. Qed.

Lemma alice_comes :
  coming 1 1 2 1 "alice" "bob" empty_db empty_db newcomer_stores st0 (fresh_side "alice") ∅ waiting_side ∅
    {[2%nat]} {[ 2%nat := "bob" ]} hub0.
Proof.
  split.
  - exact (fresh_side_client _).
  - exact eq_refl.
  - split; [exact empty_wf|]. intros k m Hk. rewrite empty_abs in Hk. discriminate Hk.
  - exact eq_refl.
  - exact (fresh_heeding _ _ (fresh_client_busy _ _ (fresh_side_client _))).
  - exact eq_refl.
  - exact (fresh_hearing _ _ ∅ (fresh_client_busy _ _ (fresh_side_client _))).
  - exact (lookup_empty _).
  - exact eq_refl.
  - exact eq_refl.
  - discriminate.
  - exact tally_alice.
  - apply text_ascii. reflexivity.
  - apply text_ascii. reflexivity.
  - intros Hs. apply elem_of_singleton in Hs. discriminate Hs.
  - exact eq_refl.
  - exact (proj2 (elem_of_singleton _ _) eq_refl).
  - exact (lookup_singleton_eq _ _).
  - intros k other Hk. apply lookup_singleton_Some in Hk as [_ <-]. apply text_ascii. reflexivity.
  - exact hub0_met.
Qed.

(** The introduction, for [rounds] of the event loops, and what the library reports after it. *)
Definition offer0 : Reported := MkReported "offer sdp" "offer" [("candidate 1", "0")].
Definition answer0 : Reported :=
  MkReported "answer sdp" "answer" [("candidate 2", "0"); ("candidate 3", "0")].
Definition introduction0 (rounds : nat) : M Hub unit :=
  introduce 1 1 2 1 rounds "alice" "bob" offer0 answer0 7.

Lemma reported_acceptable sdp type candidates :
  ascii_only sdp = true → ascii_only type = true → sdp ≠ "" →
  Forall (λ sm, ascii_only sm.1 = true ∧ ascii_only sm.2 = true) candidates →
  acceptable (MkReported sdp type candidates).
Proof.
  intros Hs Ht Hsdp Hc. split.
  - by apply text_ascii.
  - by apply text_ascii.
  - intros c r. cbn. by rewrite decide_False.
  - eapply Forall_impl; [exact Hc|]. intros [s m] [? ?].
    split; [by apply text_ascii|]. by split; [apply text_ascii|].
Qed.

Lemma introduction0_acceptable : acceptable offer0 ∧ acceptable answer0.
Proof.
  split; apply reported_acceptable; try reflexivity; try discriminate; by repeat constructor.
Qed.

Lemma introduction0_opens :
  let h := (introduction0 1 hub0).2 in
  channel_to "alice" (en_node (hb_far h)) = Some 2%nat ∧
  channel_open 7 (en_node (hb_near h)) ∧ channel_open 2 (en_node (hb_far h)).
Proof.
  unfold channel_open. split_and!;
    match goal with |- ?a = ?b => vm_cast_no_check (eq_refl b) end.
Qed.
