(* ===== verification/Witnesses.v ===== *)
(** * The properties at concrete inputs

    Every theorem that has hypotheses, applied to a run of Scenario.v over the libraries of
    Concrete.v, where the hypotheses hold. *)

From stdpp Require Import base sets list gmap strings relations.
From Stdlib Require Import ZArith Lia.
From S2P Require Import Prelude Json Crypto LevelDB Fifo Rtc Concrete Box Enums Models.
From S2P Require Import Messages DBInterface Stores Blockchain Validator TransactionPool Event.
From S2P Require Import Coroutine Services BlockchainManager TransactionPoolManager Miner Peer.
From S2P Require Import RetryHandler PeerConnection PeerManager WaitForPeers SignalingClient.
From S2P Require Import SignalingServer Wallet Node NodeInvariant Exchange Sync Broadcast.
From S2P Require Import Loop PoolSync Consensus Hub Clients Introduction.
From S2P Require Import ControlNode LightNode Scenario.

Open Scope Z_scope.

(** ** Models and messages *)

Lemma block_wire_roundtrip_witness :
  wf_block b1 ∧ ∃ s, dump (Block_to_json b1) = Ok s ∧ (j ← parse s; Block_from_json j) = Ok b1.
Proof. split; [exact b1_wf|]. apply (block_wire_roundtrip b1). exact b1_wf. Defined.

Lemma block_from_wire_wf_witness :
  ∃ s, dump (Block_to_json b1) = Ok s ∧ ∃ b, (j ← parse s; Block_from_json j) = Ok b ∧ wf_block b.
Proof.
  destruct (parse_dump _ (Block_to_json_canonical b1 b1_wf)) as (s & Hs & Hp).
  exists s. split; [exact Hs|]. exists b1.
  assert ((j ← parse s; Block_from_json j) = Ok b1) as Hb.
  { rewrite Hp. exact (Block_from_to_json b1 b1_wf). }
  split; [exact Hb|]. exact (block_from_wire_wf s b1 Hb).
Defined.

Lemma transaction_hash_word_witness :
  u64 (Transaction_std_hash t1) ∧ Transaction_std_hash t1 ≠ Transaction_std_hash t2.
Proof.
  destruct (transaction_hash_word t1 t2 t1_wf t2_wf) as (_ & Hu & Hiff).
  split; [exact Hu|]. intros Heq. pose proof (proj1 Hiff Heq 3%nat ltac:(lia)) as Hbyte.
  by vm_compute in Hbyte.
Defined.

Lemma block_equality_respects_hash_witness :
  let b1' := Block_set_transactions_status TransactionStatus.Verified b1 in
  Block_eqb b1 b1' = true ∧ b1 ≠ b1' ∧ Block_std_hash b1 = Block_std_hash b1'.
Proof.
  split; [by vm_compute|]. split; [by vm_compute|].
  apply (block_equality_respects_hash b1); [exact b1_wf|by apply wf_block_set_status, b1_wf|].
  by vm_compute.
Defined.

Lemma peer_message_wire_roundtrip_witness :
  wf_peer_message to_bob ∧
  ∃ s, PeerMessage_to_string to_bob = Ok s ∧
    (j ← parse s; PeerMessage_from_json j) =
      Ok (MkPeerMessage PeerMessageType.PeerTypeRequest "node" "bob" "tag" jnull 1668542900).
Proof. split; [exact to_bob_wf|]. exact (peer_message_wire_roundtrip to_bob to_bob_wf). Defined.

Lemma pool_response_roundtrip_witness :
  PoolResponseContent_from_json (PoolResponseContent_to_json [t1; t2]) = Ok [t1; t2].
Proof.
  destruct (pool_response_roundtrip [t1; t2]) as (set & Hset & _ & _ & _ & Heq).
  { constructor; [exact t1_wf|]. constructor; [exact t2_wf|constructor]. }
  rewrite <-(Heq ltac:(repeat constructor)) at 2. exact Hset.
Defined.

(** ** Databases *)

Lemma database_refines_map_witness :
  db_wf (T:=Block) chain0 ∧ get (T:=Block) (Block_hash b1) chain0 = Ok (Some b1) ∧
  get (T:=Block) "none" chain0 = Ok None.
Proof.
  destruct chain0_spec as [Hwf (_ & _ & Hc)].
  destruct (database_refines_map (T:=Block) chain0 Hwf) as (Hget & _ & _ & _).
  split; [exact Hwf|]. rewrite !Hget. split.
  - apply f_equal, Hc. split; [done|]. right. left.
  - by vm_compute.
Defined.

Lemma data_enumerates_witness :
  ∃ vs, db_data (T:=Block) chain0 = Ok vs ∧ b1 ∈ vs ∧ NoDup (map data_tag vs).
Proof.
  destruct chain0_spec as [Hwf (_ & _ & Hc)].
  destruct (data_enumerates (T:=Block) chain0 Hwf) as (vs & Hvs & Hin & Hnd & _).
  exists vs. split; [exact Hvs|]. split; [|exact Hnd]. apply Hin, Hc.
  split; [done|]. right. left.
Defined.

Lemma last_is_newest_witness :
  ∃ w, last Block_default chain0 = Ok w ∧ Block_timestamp b1 ≤ Block_timestamp w.
Proof.
  destruct chain0_spec as [Hwf (_ & _ & Hc)].
  destruct (last_is_newest chain0 Block_default Hwf) as (w & Hw & Hmax & _).
  exists w. split; [exact Hw|]. apply (Hmax (Block_hash b1)), Hc.
  split; [done|]. right. left.
Defined.

(** ** The chain and the pool *)

Lemma remove_all_after_truncates_witness :
  (∃ d', remove_all_after (bl_header b1) chain0 = (Ok [b1], d') ∧ chain_of g0 [] (db_abs d')) ∧
  ∃ removed d', remove_all_after (bl_header g0) chain0 = (Ok removed, d') ∧
    removed ≡ₚ [g0; b1] ∧ db_abs (T:=Block) d' = ∅.
Proof.
  destruct chain0_spec as [Hwf Hc].
  destruct (remove_all_after_truncates g0 [b1] chain0 Hwf Hc) as [Hall _]. split.
  - destruct (Hall [g0] b1 [] eq_refl) as (removed & d' & Hrun & _ & Hp & _ & _ & Hc').
    exists d'. split; [|exact Hc']. apply Permutation_singleton_r in Hp. rewrite <-Hp. exact Hrun.
  - destruct (Hall [] g0 [b1] eq_refl) as (removed & d' & Hrun & _ & Hp & _ & _ & Hempty).
    exists removed, d'. split; [exact Hrun|]. split; [exact Hp|exact Hempty].
Defined.

Lemma validate_block_accepts_witness :
  validate_block chain0 spent0 b2 = Ok ValidationState.Success.
Proof.
  destruct chain0_spec as [Hwf Hc], spent0_spec as [Hs Hsl].
  destruct (validate_block_accepts g0 [b1] chain0 spent0 b2 Hwf Hc Hs) as (v & Hv & Hiff).
  rewrite Hv. f_equal. apply Hiff. split; [exact b2_follows_parts|].
  intros t Ht. rewrite b2_eq in Ht. apply list_elem_of_singleton in Ht as ->. by vm_compute.
Defined.

Lemma validate_block_precedence_witness :
  validate_block chain0 spent0 b1 = Ok ValidationState.WrongTimestamp.
Proof.
  destruct chain0_spec as [Hwf Hc], spent0_spec as [Hs _].
  rewrite (validate_block_precedence g0 [b1] chain0 spent0 b1 Hwf Hc Hs). by vm_compute.
Defined.

Lemma wait_implements_spec_witness :
  ∃ q, wait 1 [] (st_pool st0) = (Ok (Collected [t2]), MkTransactionPool pool_db0 q) ∧
       fifo_view q = [].
Proof.
  destruct pool0_spec as [Hp _].
  destruct (wait_implements_spec 1 [] (st_pool st0) Hp) as (q & Hrun & Hq).
  exists q. split; [|rewrite Hq; vm_compute; reflexivity].
  rewrite Hrun. apply f_equal2; [vm_compute; reflexivity|reflexivity].
Defined.

Lemma add_stores_and_queues_witness :
  ∃ p', add t1 (st_pool st0) = (Ok true, p') ∧ db_abs (pool_db p') !! tx_hash t1 = Some t1 ∧
    fifo_view (pool_queue p') = [ItemTransaction t2; ItemTransaction t1].
Proof.
  destruct pool0_spec as [Hp _].
  destruct (add_stores_and_queues t1 (st_pool st0) Hp t1_wf)
    as (r & p' & Hrun & _ & Hiff & Hyes & _ & Hrel).
  assert (r = true) as Hr by (apply Hrel; [exact _|by vm_compute]).
  exists p'. split; [by rewrite Hrun, Hr|]. split; [by apply Hiff|].
  destruct (Hyes Hr) as (_ & _ & Hq). rewrite Hq. vm_compute. reflexivity.
Defined.

Lemma enqueue_stored_appends_witness :
  ∃ p', enqueue_stored (st_pool st0) = (Ok tt, p') ∧
        fifo_view (pool_queue p') = [ItemTransaction t2; ItemTransaction t2].
Proof.
  destruct pool0_spec as [Hp _].
  destruct (enqueue_stored_appends (st_pool st0) Hp) as (p' & ts & Hrun & _).
  exists p'. split; [exact Hrun|].
  pose proof (f_equal snd Hrun) as Hp'. cbn [snd] in Hp'. symmetry in Hp'.
  rewrite Hp'. vm_compute; reflexivity.
Defined.

(** ** The managers, in a node *)

Lemma st0_wf_node : stores_wf (lget svc_stores node0).
Proof. exact st0_wf. Qed.

Lemma st0_chain_node : chain_of g0 [b1] (chain_map (lget svc_stores node0)).
Proof. exact st0_chain. Qed.

Lemma b2_json : Block_from_json (Block_to_json b2) = Ok b2.
Proof. exact (Block_from_to_json b2 b2_wf). Qed.

Lemma b2_accepted : verdict (tip g0 [b1]) spent0 b2 = ValidationState.Success.
Proof. vm_compute. reflexivity. Qed.

Lemma on_add_block_decides_witness :
  ∃ n', on_add_block (EvPeer (from_alice PeerMessageType.AddBlock (Block_to_json b2))) node0 =
          (Ok tt, n') ∧
        accepted g0 [b1] b2 st0 (nd_stores n').
Proof.
  destruct (on_add_block_decides g0 [b1] (from_alice PeerMessageType.AddBlock (Block_to_json b2))
    b2 node0 st0_wf_node st0_chain_node b2_json (Block_to_json_canonical b2 b2_wf))
    as (n' & tag & e & Hrun & _ & Hd).
  exists n'. split; [exact Hrun|]. rewrite (decide_True _ _ b2_accepted) in Hd. exact (proj1 Hd).
Defined.

Lemma on_block_mined_decides_witness :
  ∃ n', on_block_mined (EvBlock (MkInternalNotification InternalNotificationType.BlockMined b2 "tag"))
          node0 = (Ok tt, n') ∧
        accepted g0 [b1] b2 st0 (nd_stores n').
Proof.
  destruct (on_block_mined_decides g0 [b1]
    (MkInternalNotification InternalNotificationType.BlockMined b2 "tag") node0
    st0_wf_node st0_chain_node b2_wf) as (n' & e & es & Hrun & _ & Hd).
  exists n'. split; [exact Hrun|].
  rewrite (decide_True (P := verdict (tip g0 [b1]) spent0 b2 = ValidationState.Success) _ _
             b2_accepted) in Hd. exact (proj1 Hd).
Defined.

Lemma on_block_request_answers_witness :
  ∃ n' e, on_block_request (EvPeer (from_alice PeerMessageType.BlockRequest
            (BlockHeader_to_json (bl_header b1)))) node0 = (Ok tt, n') ∧
          send_event PeerMessageType.BlockResponse "node" "alice" "tag" (Block_to_json b1) e ∧
          pending (nd_peer n') = [e].
Proof.
  destruct (on_block_request_answers (from_alice PeerMessageType.BlockRequest
    (BlockHeader_to_json (bl_header b1))) (bl_header b1) node0 st0_wf_node
    (BlockHeader_from_to_json (bl_header b1) (proj1 b1_wf))) as (n' & e & Hrun & _ & Hview & He).
  exists n', e. split; [exact Hrun|]. split.
  - assert (chain_map (lget svc_stores node0) !! bh_hash (bl_header b1) = Some b1) as Hb.
    { apply st0_chain. split; [reflexivity|]. right. left. }
    rewrite Hb in He. exact He.
  - pose proof (f_equal v_enqueued Hview) as Hev. exact Hev.
Defined.

Lemma on_block_headers_request_answers_witness :
  let m := from_alice PeerMessageType.BlockHeadersRequest (BlockHeader_to_json (bl_header g0)) in
  ∃ n' e hs, on_block_headers_request (EvPeer m) node0 = (Ok tt, n') ∧
    send_event PeerMessageType.BlockHeadersResponse "node" "alice" "tag"
      (BlockHeadersResponseContent_to_json hs) e ∧
    ∀ x, x ∈ hs ↔ x ∈ [bl_header b1].
Proof.
  intros m.
  destruct (on_block_headers_request_answers g0 [b1] [] g0 [b1] m node0 st0_wf_node
    st0_chain_node eq_refl (BlockHeader_from_to_json (bl_header g0) (proj1 genesis_wf)))
    as (n' & e & hs & Hrun & _ & _ & He & Hin).
  exists n', e, hs. split; [exact Hrun|]. split; [exact He|exact Hin].
Defined.

(** [t2], pooled until [b2] was accepted, is spent afterwards. *)
Lemma no_double_spend_witness :
  ∃ n', on_add_block (EvPeer (from_alice PeerMessageType.AddBlock (Block_to_json b2))) node0 =
          (Ok tt, n') ∧
        pool_map (nd_stores n') !! tx_hash t2 = None ∧
        validate_block chain0 (st_spent (nd_stores n')) b2 ≠ Ok ValidationState.Success.
Proof.
  assert (validate_block chain0 spent0 b2 = Ok ValidationState.Success) as Hval
    by (vm_compute; reflexivity).
  assert (is_Some (pool_map st0 !! tx_hash t2)) as Hpool by (exists t2; vm_compute; reflexivity).
  assert (t2 ∈ bl_transactions b2) as Hin by (rewrite b2_eq; left).
  destruct (no_double_spend g0 [b1] (from_alice PeerMessageType.AddBlock (Block_to_json b2)) b2 t2
    node0 _ st0_wf_node st0_chain_node b2_json (Block_to_json_canonical b2 b2_wf) Hval Hin Hpool)
    as (n' & Hrun & Hgone & Hrej).
  exists n'. split; [exact Hrun|]. split; [exact Hgone|].
  apply Hrej. exists t2. split; [exact Hin|reflexivity].
Defined.

Lemma on_add_transaction_offers_to_pool_witness :
  ∃ n', on_add_transaction (EvPeer (from_alice PeerMessageType.AddTransaction
          (Transaction_to_json t1))) node0 = (Ok tt, n') ∧ nd_stores n' = st0.
Proof.
  destruct (on_add_transaction_offers_to_pool
    (from_alice PeerMessageType.AddTransaction (Transaction_to_json t1)) t1 node0 st0_wf_node
    (Transaction_from_to_json t1 t1_wf) (Transaction_to_json_canonical t1 t1_wf))
    as (n' & Hrun & Hoff & _).
  exists n'. split; [exact Hrun|].
  assert (is_Some (spent_map st0 !! tx_hash t1)) as Hspent by (exists t1; vm_compute; reflexivity).
  unfold offered in Hoff. rewrite (decide_True _ _ Hspent) in Hoff. exact Hoff.
Defined.

Lemma on_sync_pool_request_sends_pool_witness :
  ∃ n' ts es, on_sync_pool_request (EvPeer (from_alice PeerMessageType.SyncPoolRequest jnull))
                node0 = (Ok tt, n') ∧
    syncs "node" (from_alice PeerMessageType.SyncPoolRequest jnull) ts es ∧ t2 ∈ ts.
Proof.
  destruct (on_sync_pool_request_sends_pool (from_alice PeerMessageType.SyncPoolRequest jnull)
    node0 st0_wf_node) as (n' & ts & es & Hrun & _ & _ & Hsync & _ & Hin).
  exists n', ts, es. split; [exact Hrun|]. split; [exact Hsync|]. apply Hin.
  vm_compute. reflexivity.
Defined.

(** The clock of Concrete.v is past [b1]; the search ends within a hundred rounds. *)
Lemma mined_block_validates_witness :
  ∃ search b h', mining_function (Block_hash b1) "miner" [t2] (MkHost 0 0) = (Ok search, h') ∧
    search 100%nat = Some b ∧ validate_block chain0 spent0 b = Ok ValidationState.Success.
Proof.
  assert (∃ p', wait 1 [] (st_pool st0) = (Ok (Collected [t2]), p')) as [p' Hwait].
  { assert ((wait 1 [] (st_pool st0)).1 = Ok (Collected [t2])) as Hw by (vm_compute; reflexivity).
    exists (wait 1 [] (st_pool st0)).2. rewrite <-Hw. apply surjective_pairing. }
  assert (last Block_default chain0 = Ok b1) as Hlast by (vm_compute; reflexivity).
  assert (Block_timestamp b1 < clock_at 0) as Hts by (vm_compute; reflexivity).
  assert (match mining_function (Block_hash b1) "miner" [t2] (MkHost 0 0) with
          | (Ok search, _) => bool_decide (is_Some (search 100%nat))
          | _ => false
          end = true) as Hfound by (vm_compute; reflexivity).
  destruct (mining_function (Block_hash b1) "miner" [t2] (MkHost 0 0)) as [[search|e] h'] eqn:Hm;
    [|discriminate Hfound].
  destruct (search 100%nat) as [b|] eqn:Hb; [|discriminate Hfound].
  exists search, b, h'. split; [reflexivity|]. split; [exact Hb|].
  exact (proj2 (proj2 (mined_block_validates g0 [b1] st0 1 [t2] p' b1 search 100 "miner"
    (MkHost 0 0) b h' st0_wf st0_chain Hwait Hlast Hts Hm Hb))).
Defined.

(** ** Peers *)

Lemma retry_is_bounded_witness :
  ∃ p', retry (Nat.iter 3 increament_retry_count retry_bob) peer_bob = (Ok tt, p') ∧
    stored p' = {[ "tag" := stored_message retry_bob ]}.
Proof.
  destruct (retry_is_bounded retry_bob 3 peer_bob _ empty_wf retry_bob_wf eq_refl)
    as (p' & Hrun & _ & Hlast).
  exists p'. split; [exact Hrun|]. exact (proj2 (Hlast eq_refl)).
Defined.

Lemma retry_task_resends_witness :
  ∃ p', retry_task "bob" (lset retryL (fill empty_db [stored_message retry_bob]) peer_bob) =
          (Ok tt, p') ∧ stored p' = ∅.
Proof.
  destruct (fill_empty [stored_message retry_bob]) as [Hwf Hin].
  { apply Forall_singleton. exact (data_norm_ok (T:=InternalMessage PeerMessage) _ retry_bob_wf). }
  { apply NoDup_singleton. }
  { by repeat constructor. }
  destruct (retry_task_resends "bob"
    (lset retryL (fill empty_db [stored_message retry_bob]) peer_bob) _ Hwf)
    as (p' & ms & Hrun & _ & _ & _ & Hst & _).
  exists p'. split; [exact Hrun|]. rewrite Hst. apply map_empty_filter.
  intros k m Hm Hne. apply Hin in Hm as [->%list_elem_of_singleton _]. exact (Hne eq_refl).
Defined.

Lemma bob_gets_it :
  ∃ p', connection_send 0 to_bob peer_bob = (Ok true, p').
Proof.
  assert ((connection_send 0 to_bob peer_bob).1 = Ok true) as Hok by (vm_compute; reflexivity).
  exists (connection_send 0 to_bob peer_bob).2. rewrite <-Hok. apply surjective_pairing.
Qed.

Lemma message_is_delivered_witness :
  ∃ p' s q', connection_send 0 to_bob peer_bob = (Ok true, p') ∧
    rtc_sent (pr_rtc p') = [(Channel 7%nat, s)] ∧
    on_message (RtcText s) peer_bob = (Ok tt, q') ∧
    pending q' = [EvPeer (on_the_wire to_bob)].
Proof.
  destruct bob_gets_it as [p' Hsend].
  destruct (message_is_delivered 0 to_bob peer_bob p' peer_bob to_bob_wf Hsend)
    as (pc & ch & s & q' & Hpc & Hch & Hsent & Hrun & Hpend).
  exists p', s, q'. split; [exact Hsend|].
  assert (pr_heap peer_bob !! 0%nat = Some pc_bob) as Hbob by (apply lookup_singleton_eq).
  rewrite Hbob in Hpc. injection Hpc as <-.
  injection Hch as <-. split; [exact Hsent|]. split; [exact Hrun|exact Hpend].
Defined.

(** There is no connection to "carol": the message is queued again. *)
Lemma on_send_peer_message_keeps_message_witness :
  let m := MkInternalMessage InternalMessageType.SendPeerMessage
             (MkPeerMessage PeerMessageType.SyncPoolRequest "node" "carol" "tag" jnull 1) 2 0 in
  (∃ p', on_send_peer_message (EvInternalPeer m) peer_bob = (Ok tt, p') ∧ retried m peer_bob p') ∧
  ∃ rt, on_send_peer_message (EvInternalPeer retry_bob) peer_bob =
      (Ok tt, lset rtcL rt peer_bob) ∧ handed_over 7 retry_bob peer_bob (lset rtcL rt peer_bob).
Proof.
  intros m. assert (wf_internal_message m) as Hm by (unfold wf_internal_message; wf_eval).
  split; [exact (on_send_peer_message_keeps_message m peer_bob _ empty_wf Hm)|].
  destruct (on_send_peer_message_keeps_message retry_bob peer_bob _ empty_wf retry_bob_wf)
    as ([[]|e] & rt & Hrun & Hpost); [exists rt; split; [exact Hrun|exact Hpost]|].
  destruct Hpost as [Hno _]. destruct Hno. exact _.
Defined.

Lemma datachannel_opened_inserts_null_witness :
  ∃ p' p'', on_datachannel_opened (EvString (MkInternalNotification
              InternalNotificationType.DataChannelOpened "bob" "tag")) 
              (lset managerL (MkPeerManager "node" ∅ PeerState.Open PeerType.Full) peer_bob) =
              (Ok tt, p') ∧
    on_send_peer_message (EvInternalPeer retry_bob) p' = (Err UndefinedBehaviour, p'').
Proof.
  destruct (datachannel_opened_inserts_null (MkInternalNotification
    InternalNotificationType.DataChannelOpened "bob" "tag") retry_bob
    (lset managerL (MkPeerManager "node" ∅ PeerState.Open PeerType.Full) peer_bob)
    (lookup_empty "bob") eq_refl) as (p' & p'' & Hrun & _ & Hsend).
  exists p', p''. split; [exact Hrun|exact Hsend].
Defined.

(** ** Events *)

Definition reply : Event := EvPeer (from_alice PeerMessageType.BlockNotFoundResponse jnull).

Definition store0 : PromiseStore Event := MkPromiseStore ∅ (MkPromises 0 ∅ ∅).

Lemma promise_resolved_once_witness :
  ∃ p s1 s3, PromiseStore_add "tag" store0 = (Ok p, s1) ∧ ps_promises s1 = {[ "tag" := p ]} ∧
    PromiseStore_set_result "tag" reply s1 = (Ok false, s3) ∧
    pr_results (ps_cells s3) !! p = Some reply.
Proof.
  destruct (promise_resolved_once "tag" reply store0 store_wf_empty (lookup_empty _))
    as (p & s1 & Hadd & Hwf & Htags & _ & _ & _ & _ & Hres).
  destruct (Hres s1 Hwf) as (s3 & Hset & _ & Hcells & _).
  { rewrite Htags. apply lookup_insert_eq. }
  exists p, s1, s3. split; [exact Hadd|]. split; [exact Htags|]. split; [exact Hset|].
  rewrite Hcells. apply lookup_insert_eq.
Defined.

Lemma duplicate_tag_breaks_promise_witness :
  let s := MkPromiseStore {[ "tag" := 0%nat ]} (MkPromises 1 ∅ ∅) : PromiseStore Event in
  ∃ p' s', PromiseStore_add "tag" s = (Ok p', s') ∧ p' ∈ pr_broken (ps_cells s').
Proof.
  intros s. assert (store_wf s) as Hwf.
  { pose proof (store_wf_add "tag" store0 store_wf_empty) as Hwf.
    rewrite (add_new "tag" store0 (lookup_empty _)) in Hwf. exact Hwf. }
  destruct (duplicate_tag_breaks_promise "tag" 0%nat s Hwf eq_refl)
    as (p' & s' & Hadd & _ & _ & Hbroken & _).
  exists p', s'. split; [exact Hadd|exact Hbroken].
Defined.

(** A waiter for the second BlockAccepted, whatever comes in between. *)
Lemma event_of_type_resolves_nth_witness :
  let accepts e := bool_decide (event_type e = PeerEvent PeerMessageType.BlockAccepted) in
  let accepted_ := EvPeer (from_alice PeerMessageType.BlockAccepted jnull) in
  ∃ p q1 w q', event_of_type (PeerEvent PeerMessageType.BlockAccepted) 2 (Some accepts)
        (EventQueue_new (L:=unit)) = (Ok p, q1) ∧
    for_each ([accepted_; reply] ++ [accepted_]) (on_awaited w) q1 = (Ok tt, q') ∧
    result_of q' p = Some accepted_.
Proof.
  intros accepts accepted_.
  destruct (event_of_type_resolves_nth (PeerEvent PeerMessageType.BlockAccepted) 2 (Some accepts)
    [accepted_; reply] accepted_ (EventQueue_new (L:=unit)) store_wf_empty eq_refl eq_refl)
    as (p & q1 & h & w & Hrun & _ & _ & _ & _ & q' & Hes & Hres & _).
  exists p, q1, w, q'. split; [exact Hrun|]. split; [exact Hes|exact Hres].
Defined.

(** ** The signaling server, the wallet, boxes *)

Lemma rtc_message_is_routed_witness :
  ∃ text_, SignalingMessage_to_string offer_to_bob = Ok text_ ∧
    sent_only [(Socket 2%nat, text_)] server0 (on_rtc_message offer_to_bob server0).2.
Proof.
  destruct (SignalingMessage_to_string offer_to_bob) as [text_|e] eqn:Ht; [|by vm_compute in Ht].
  exists text_. split; [reflexivity|].
  pose proof (rtc_message_is_routed offer_to_bob text_ server0 server0_wf Ht) as Hr.
  assert ((on_rtc_message offer_to_bob server0).1 = Ok tt) as Hok by (vm_compute; reflexivity).
  destruct (on_rtc_message offer_to_bob server0) as [[u|e] s']; [|by discriminate Hok].
  assert (announced server0 "bob" (hash_elements (sv_sockets server0)) = [2%nat]) as Ha
    by (vm_compute; reflexivity).
  change (sm_receiver_identity offer_to_bob) with "bob" in Hr. rewrite Ha in Hr. exact Hr.
Defined.

Lemma sockets_have_identities_witness :
  server_wf server0 ∧ server_wf (on_client 4 server0).2.
Proof.
  split; [exact server0_wf|]. exact (proj1 (sockets_have_identities 4 (RtcBinary []) server0 server0_wf)).
Defined.

Lemma status_message_sets_status_witness :
  let c := MkSetTransactionStatusContent TransactionStatus.Verified (tx_hash t1) in
  let m := from_alice PeerMessageType.SetTransactionStatus (SetTransactionStatusContent_to_json c) in
  ∃ d', on_transactions_status_changed lens_id (EvPeer m) spent0 = (Ok tt, d') ∧
    db_abs d' !! tx_hash t1 = Some (Transaction_set_status TransactionStatus.Verified t1).
Proof.
  intros c m. destruct spent0_spec as [Hwf Hl].
  destruct (status_message_sets_status lens_id m c spent0 _ Hwf eq_refl) as (d' & Hrun & _ & Habs).
  exists d'. split; [exact Hrun|]. rewrite Habs.
  assert (db_abs spent0 !! tx_hash t1 = Some t1) as Ht by (apply Hl; split; reflexivity).
  rewrite (lookup_alter_eq _ (db_abs (T:=Transaction) (lget lens_id spent0)) (sts_hash c)).
  change (db_abs (T:=Transaction) (lget lens_id spent0) !! sts_hash c)
    with (db_abs (T:=Transaction) spent0 !! tx_hash t1).
  rewrite Ht. reflexivity.
Defined.

Lemma copy_is_deep_witness :
  let h : gmap nat nat := {[ 5%nat := 42%nat ]} in
  let b := MkBox (Some 5%nat) (Some (Direct 5)) in
  ∃ b' h', Box_copy b h = (Ok b', h') ∧ box_value h' b' = Some 42%nat.
Proof.
  intros h b. assert (box_wf h b) as Hwf by (by exists 5%nat; split_and!; eexists).
  destruct (copy_is_deep b h Hwf eq_refl) as (b' & h' & Hcopy & _ & _ & Hval & _).
  exists b', h'. split; [exact Hcopy|]. rewrite Hval. reflexivity.
Defined.

(** ** The node *)

(** Two peers answer, "bob" with the longer list. *)
Lemma request_headers_longest_witness :
  let response peer hs :=
    EvPeer (MkPeerMessage PeerMessageType.BlockHeadersResponse peer "node" "tag"
              (BlockHeadersResponseContent_to_json hs) 1668542900) in
  let es := [response "alice" [bl_header g0]; response "bob" [bl_header g0; bl_header b1]] in
  runs (request_headers ["alice"; "bob"] (bl_header g0)) node0 es
    (Ok ([bl_header g0; bl_header b1], "bob")).
Proof.
  intros response es.
  assert (traverse headers_of_response es = Ok [([bl_header g0], "alice");
    ([bl_header g0; bl_header b1], "bob")]) as He by (vm_compute; reflexivity).
  destruct (request_headers_runs ["alice"; "bob"] (bl_header g0) node0 es _ He eq_refl
    ltac:(discriminate)) as (best & Hrun).
  pose proof (request_headers_longest _ _ _ _ _ Hrun) as Hbest. rewrite He in Hbest.
  destruct Hbest as (_ & pre & best' & post & Hb & Heq & Hpre & Hpost). injection Hb as <-.
  destruct pre as [|x [|y pre]]; injection Heq as <- ?; subst.
  - apply Forall_cons in Hpost as [Hlen _]. cbn in Hlen. lia.
  - exact Hrun.
  - by destruct pre.
Defined.

Lemma control_operate_counts_witness :
  ∃ n' (results : gmap string Z), on_control_operate_between
      (EvPeer (from_alice PeerMessageType.ControlOperateBetween
        (jobject [("begin", juint 0); ("end", juint 1668542650)]))) node0 = (Ok tt, n') ∧
    nd_stores n' = st0 ∧
    node_view n' = push_tasks (broadcast_tasks [PeerType.Light] PeerMessageType.ControlResult
      (jobject (map (λ kv, (kv.1, jint kv.2)) (hash_order results))) (node_view node0))
      (node_view node0) ∧ results !! "bob" = Some 1.
Proof.
  destruct (control_operate_counts (from_alice PeerMessageType.ControlOperateBetween
    (jobject [("begin", juint 0); ("end", juint 1668542650)])) 0 1668542650 node0
    (proj1 chain0_spec)) as (n' & results & blocks & Hrun & Hst & Hview & Hnd & Hin & Hres).
  - vm_compute. reflexivity.
  - vm_compute. reflexivity.
  - exists n', results. split; [exact Hrun|]. split; [exact Hst|]. split; [exact Hview|].
    assert (blocks ≡ₚ [g0; b1]) as Hp.
    { apply NoDup_Permutation; [exact (NoDup_fmap_1 _ _ Hnd)|
        exact (chain_nodup _ _ _ (proj2 chain0_spec))|].
      intros b. rewrite Hin. destruct chain0_spec as [_ (_ & _ & Hm)]. rewrite Hm.
      split; [intros [_ Hb]; exact Hb|intros Hb; split; [reflexivity|exact Hb]]. }
    rewrite Hres. cbn zeta. rewrite (received_perm _ _ _ _ _ Hp). vm_compute. reflexivity.
Defined.

(** Five databases as they are at the first start: the chain is made from nothing. *)
Lemma node_stays_consistent_witness :
  ∃ m, Node.main "node" (Some pool_db0) (Some spent0) (Some empty_db) (Some empty_db) = Some m ∧
    ∀ p, relations.rtc (node_step g0 0)
           (MkNodeProcess (m (MkNode (Peer_new (MkHost 0 0) network0 empty_db) st0)).2
              (Collecting []) NotStarted []) p →
         stores_inv g0 (nd_stores (np_node p)).
Proof.
  destruct (Blockchain_new_empty empty_db _ eq_refl) as (chain & Hnew & Hwf & Hc).
  destruct (node_stays_consistent g0 [] "node" pool_db0 spent0 empty_db chain empty_db
    (MkHost 0 0) network0 st0 0%nat (text_ascii "node" eq_refl) (proj1 pool0_spec) (proj1 spent0_spec)
    (sw_disjoint st0 st0_wf) Hnew Hwf Hc) as (m & Hm & Hsteps).
  exists m. split; [exact Hm|]. intros p Hp. exact (proj1 (Hsteps p Hp)).
Defined.

(** ** Waiting for peers *)

Definition all_full_open (peer : string) : PeerType.t * PeerState.t :=
  (PeerType.Full, PeerState.Open).

Lemma bob_answers : answered_by (Some 0%nat) (PeerType.Full, PeerState.Open) peer_bob.
Proof. exists 0%nat, pc_bob. by split_and!. Qed.

Lemma bob_known : known "bob" (PeerType.Full, PeerState.Open) peer_bob.
Proof. exists (Some 0%nat). split; [done|exact bob_answers]. Qed.

Lemma bob_alone : hash_order (mg_connections (pr_manager peer_bob)) = [("bob", Some 0%nat)].
Proof. by vm_compute. Qed.

Lemma wait_for_peers_returns_known_witness :
  wait_for_peers 1 [PeerType.Full] [PeerState.Open] peer_bob = (Ok (Finished ["bob"]), peer_bob).
Proof.
  assert (Forall (λ pc, known pc.1 (all_full_open pc.1) peer_bob)
    (hash_order (mg_connections (pr_manager peer_bob)))) as Hall.
  { rewrite bob_alone. apply Forall_singleton. exact bob_known. }
  pose proof (wait_for_peers_returns_known 1 [PeerType.Full] [PeerState.Open] all_full_open
    peer_bob Hall) as Hrun.
  cbv zeta in Hrun. rewrite bob_alone in Hrun. exact Hrun.
Defined.

(** One wait for one full peer, and the channel to "bob" opens. *)
Definition one_wait : PeersWait :=
  MkPeersWait 1 [PeerType.Full] [PeerState.Open] [] (Some 1%nat) (Some 2%nat) None.
Definition peer_waiting : Peer (A:=NodeCallback) := lset waitsL {[ 0%nat := one_wait ]} peer_bob.
Definition bob_opened : InternalNotification string :=
  MkInternalNotification InternalNotificationType.DataChannelOpened "bob" "tag".

Lemma wait_resolves_at_count_witness :
  ∃ p wait, on_datachannel_task 0 (EvString bob_opened) peer_waiting = (Ok (Finished tt), p) ∧
    pr_waits p !! 0%nat = Some wait ∧ pw_result wait = Some ["bob"].
Proof.
  destruct (wait_resolves_at_count 0 one_wait all_full_open [] bob_opened peer_waiting eq_refl
    eq_refl) as (p1 & p2 & wait1 & wait2 & Hrun1 & _ & _ & Hrun2 & Hw & Hr & _).
  { apply Forall_singleton. exact bob_known. }
  { reflexivity. }
  { reflexivity. }
  injection Hrun1 as <-. exists p2, wait2. split; [exact Hrun2|]. split; [exact Hw|exact Hr].
Defined.

Definition bob_update : PeerMessage :=
  MkPeerMessage PeerMessageType.PeerStateUpdate "bob" "node" "tag"
    (enum_to_json PeerState.table PeerState.Open) 1668542900.

Lemma state_update_does_not_resolve_witness :
  ∃ p, run_task (WaitTask 0 (EvPeer bob_update)) peer_waiting = (Err BadVariantAccess, p) ∧
       pr_waits p !! 0%nat = Some one_wait.
Proof.
  destruct (state_update_does_not_resolve 0 one_wait bob_update (PeerType.Full, PeerState.Open)
    peer_waiting eq_refl eq_refl bob_known eq_refl eq_refl) as [(p & Hrun & Hw) _].
  exists p. split; [exact Hrun|]. rewrite Hw. reflexivity.
Defined.

(** ** The other programs *)

Definition control0 : ControlManager :=
  ControlManager_new (MkPeer (MkHost 0 0) network0 EventQueue_new empty_db
    (MkPeerManager "control" {[ "bob" := Some 0%nat ]} PeerState.Open PeerType.Control)
    {[ 0%nat := pc_bob ]} [] [] ∅ false).

(** Nothing happens while the operator waits. *)
Definition still (w : Awaited) : M ControlManager (answer w) :=
  match w with
  | Answer _ => λ c, (Ok (EvEmpty (MkInternalNotification
                        InternalNotificationType.SignalingServerOpened tt "tag")), c)
  | Peers _ => λ c, (Ok [], c)
  | Delay _ => λ c, (Ok tt, c)
  | FirstOf _ _ => λ c, (Ok None, c)
  | Mined _ => λ c, (Ok Block_default, c)
  end.

Lemma measurement_is_sent_witness :
  ∃ c, drive lens_id still (menu [1; 2; 3; 4]) control0 = (Ok tt, c) ∧
    atomics c = (false, clock_at 0, clock_at 1) ∧ pr_end (cm_peer c) = true.
Proof.
  destruct (measurement_is_sent still control0) as (c1 & c2 & Hc1 & Hc2 & Hrun & Hat & _ & _ & _ &
    _ & _ & Hend).
  { intros [p|ps s|k|s|f] c; exact eq_refl. }
  injection Hc1 as <-. injection Hc2 as <-.
  eexists. split; [exact Hrun|]. split; [exact Hat|exact Hend].
Defined.

Definition light0 : LightNode :=
  MkLightNode (MkPeer (MkHost 0 0) network0 EventQueue_new empty_db
    (MkPeerManager "alice" {[ "bob" := Some 0%nat ]} PeerState.Open PeerType.Light)
    {[ 0%nat := MkPeerConnection "bob" 0 (Some 7%nat) PeerType.Light PeerState.Open [] ]}
    [] [] ∅ false) empty_db.

Definition all_light_open (peer : string) : PeerType.t * PeerState.t :=
  (PeerType.Light, PeerState.Open).

Lemma five_rounds_are_sent_witness :
  ∃ n ts, co_for_each (seq 0 5) (λ _, send_round) light0 = (Ok (Finished tt), n) ∧
    Forall2 (fresh_transaction "alice") ["bob"; "bob"; "bob"; "bob"; "bob"] ts.
Proof.
  assert (hash_order (mg_connections (pr_manager (lt_peer light0))) = [("bob", Some 0%nat)])
    as Hone by (vm_compute; reflexivity).
  assert (light_peers all_light_open light0 = ["bob"]) as Hlight.
  { unfold light_peers. rewrite Hone. reflexivity. }
  destruct (five_rounds_are_sent all_light_open light0) as (n & ts & Hrun & Hts & _).
  - rewrite Hone. apply Forall_singleton.
    exists 0%nat, (MkPeerConnection "bob" 0 (Some 7%nat) PeerType.Light PeerState.Open []).
    by split_and!.
  - exact empty_wf.
  - exact (text_ascii "alice" eq_refl).
  - rewrite Hlight. apply Forall_singleton. exact (text_ascii "bob" eq_refl).
  - exists n, ts. split; [exact Hrun|]. rewrite Hlight in Hts. exact Hts.
Defined.

Lemma identity_is_announced_witness :
  ∃ text_ s', on_client_message 3 (RtcText text_) server0 = (Ok tt, s') ∧
    sv_identities s' !! 3%nat = Some "carol" ∧ length (rtc_sent (sv_rtc s')) = 3%nat.
Proof.
  set (m := MkSignalingMessage SignalingMessageType.SetIdentityRequest "carol"
    "signaling_server" "tag" (jstring "carol")).
  assert (wf_signaling_message m) as Hm by (unfold wf_signaling_message; wf_eval).
  destruct (parse_dump _ (SignalingMessage_to_json_canonical m Hm)) as (t & Ht & _).
  exists t.
  assert (∀ socket other, sv_identities server0 !! socket = Some other → text other) as Hids.
  { intros socket other Hs. unfold server0 in Hs. cbn [sv_identities] in Hs.
    rewrite !lookup_insert_Some, lookup_singleton_Some in Hs.
    destruct Hs as [[_ <-]|[_ [[_ <-]|[_ [_ <-]]]]]; apply text_ascii; reflexivity. }
  destruct (identity_is_announced 3 "carol" "signaling_server" "tag" "carol" t server0 server0_wf
    ltac:(apply (bool_decide_unpack _); vm_compute; exact I) Hm Ht (text_ascii "carol" eq_refl) Hids)
    as (texts & answer & _ & _ & Hrun).
  vm_compute in Ht. injection Ht as <-.
  destruct (on_client_message 3 _ server0) as [[[]|e] s'] eqn:Heq.
  - exists s'. split; [reflexivity|]. destruct Hrun as (r & -> & Hr). split; [reflexivity|].
    transitivity (length (rtc_sent r)); [reflexivity|]. rewrite Hr. vm_compute. reflexivity.
  - vm_compute in Heq. discriminate Heq.
Defined.

(** ** Two nodes *)

Lemma main_registers_once_witness :
  ∃ m n, main_setup "node" (Some pool_db0) (Some spent0) (Some empty_db) (Some empty_db) =
      Some m ∧
    m (MkNode (Peer_new (MkHost 0 0) network0 empty_db) st0) = (Ok tt, n) ∧
    listeners_of (nd_peer n) (PeerEvent PeerMessageType.BlockRequest) =
      [App (Program (ChainCallback OnBlockRequest))].
Proof.
  destruct (Blockchain_new_empty empty_db _ eq_refl) as (chain & Hnew & _).
  destruct (main_registers_once "node" pool_db0 spent0 empty_db chain empty_db
    (MkHost 0 0) network0 st0 Hnew) as (m & n & Hm & Hrun & Hreg & _).
  exists m, n. split; [exact Hm|]. split; [exact Hrun|]. rewrite Hreg. reflexivity.
Defined.

Lemma download_synchronises_witness :
  chain_map (nd_stores alice) !! Block_hash b1 = None ∧
  ∃ ω', drive aL (world_answers 7 7 1 1 2)
      (blocks ← find_blocks; co_lift (initial_block_download_end blocks)) two = (Ok tt, ω') ∧
    chain_map (nd_stores (w_a ω')) !! Block_hash b1 = Some b1 ∧ nd_stores (w_b ω') = st0.
Proof.
  split; [vm_compute; reflexivity|].
  destruct genesis_stores_spec as [HwA HcA].
  assert (knows "bob" (connection_to "bob" PeerType.Unknown PeerState.Unknown)) as Hk by (split_and!; [reflexivity|left; reflexivity|left; reflexivity]).
  destruct (download_synchronises (side_of alice) (side_of bob) "alice" "bob" 1 1 0 _ _ _ _ _ g0
    [] [b1] two _
    (two_connected _ _ _ _) Hk (two_between _ _ _ _) HwA
    st0_wf HcA st0_chain) as (ω' & _ & Hrun & Hmap & Hst & _).
  exists ω'. split; [exact Hrun|]. split; [|exact Hst]. rewrite Hmap.
  destruct st0_chain as (_ & _ & Hm). apply Hm. split; [reflexivity|]. right. left.
Defined.

Lemma node_joins_witness :
  pool_map newcomer_stores !! tx_hash t2 = None ∧
  ∃ ω',
    joins 7 7 1 1 2 (MkWorld newcomer bob 0 0) = (Ok tt, ω') ∧
    chain_map (nd_stores (w_a ω')) = chain_map st0 ∧
    pool_map (nd_stores (w_a ω')) !! tx_hash t2 = Some t2.
Proof.
  split; [vm_compute; reflexivity|].
  destruct newcomer_stores_spec as [HwA HcA].
  assert (knows "bob" (connection_to "bob" PeerType.Unknown PeerState.Unknown)) as Hk
    by (split_and!; [reflexivity|left; reflexivity|left; reflexivity]).
  assert (size (pool_map st0) ≤ 1)%nat as Hsize by (vm_compute; exact (le_n 1)).
  destruct (node_joins (idle_side newcomer) (side_of bob) "alice" "bob" 1 1 0 _ _ _ _ _ g0
    [] [b1] (MkWorld newcomer bob 0 0) _ (two_connected_idle _ _ _ _) eq_refl Hk
    (two_between_idle _ _ _ _) HwA st0_wf HcA st0_chain Hsize)
    as (ω' & Hrun & Hchain & _ & _ & Hpool).
  exists ω'. split; [exact Hrun|]. split; [exact Hchain|]. rewrite Hpool. vm_compute. reflexivity.
Defined.

Lemma server_introduces_nodes_witness :
  ∃ h', introduction0 1 hub0 = (Ok tt, h') ∧
    sv_identities (hb_server h') = {[ 1%nat := "alice"; 2%nat := "bob" ]} ∧
    ∃ yA yB pcA pcB psA, two_nodes yA yB "alice" "bob" ∧ knows "bob" pcA ∧
      between yA yB pcB st0 pcA newcomer_stores psA [] (channel_world 7 2 h').
Proof.
  destruct introduction0_acceptable as [Hoffer Hanswer].
  destruct (server_introduces_nodes 1 1 2 1 0 "alice" "bob" offer0 answer0
    7 empty_db empty_db (fresh_side "alice") ∅ newcomer_stores waiting_side ∅ st0 {[2%nat]}
    {[ 2%nat := "bob" ]} hub0 alice_comes Hoffer Hanswer)
    as (h' & Hrun & yA & yB & pcA & pcB & [[_ Hids _] HN _ Hk _ Hch Hfar Hopen]).
  destruct introduction0_opens as (Hto & Hnear & Hend). unfold introduction0 in Hto, Hnear, Hend.
  rewrite Hrun in Hto, Hnear, Hend. cbn [snd] in Hto, Hnear, Hend.
  rewrite Hto in Hfar. injection Hfar as Hfar. rewrite Hch, <-Hfar in Hopen.
  destruct (Hopen Hnear Hend) as (psA & Hbt).
  exists h'. split; [exact Hrun|]. split; [exact Hids|].
  exists yA, yB, pcA, pcB, psA. split; [exact HN|]. split; [exact Hk|exact Hbt].
Defined.

Lemma newcomer_catches_up_witness :
  chain_map newcomer_stores !! Block_hash b1 = None ∧
  ∃ h' ω', introduction0 1 hub0 = (Ok tt, h') ∧
    joins 7 2 1 1 2 (channel_world 7 2 h') = (Ok tt, ω') ∧
    chain_map (nd_stores (w_a ω')) = chain_map st0 ∧
    pool_map (nd_stores (w_a ω')) !! tx_hash t2 = Some t2.
Proof.
  split; [vm_compute; reflexivity|]. destruct newcomer_stores_spec as [HwA HcA].
  destruct introduction0_acceptable as [Hoffer Hanswer].
  assert (size (pool_map st0) ≤ 1)%nat as Hsize by (vm_compute; exact (le_n 1)).
  destruct (newcomer_catches_up 1 1 2 1 0 0 "alice" "bob" offer0 answer0
    7 empty_db empty_db (fresh_side "alice") ∅ newcomer_stores waiting_side ∅ st0 {[2%nat]}
    {[ 2%nat := "bob" ]} g0 [] [b1] hub0 alice_comes Hoffer Hanswer _ HwA st0_wf HcA
    st0_chain Hsize) as (h' & Hrun & Hdl).
  destruct introduction0_opens as (Hto & Hnear & Hend). unfold introduction0 in Hto, Hnear, Hend.
  rewrite Hrun in Hto, Hnear, Hend. cbn [snd] in Hto, Hnear, Hend.
  destruct (Hdl 2%nat Hto Hnear Hend) as (ω' & Hrun' & Hc & _ & _ & Hp).
  exists h', ω'. split; [exact Hrun|]. split; [exact Hrun'|]. split; [exact Hc|].
  rewrite Hp. vm_compute. reflexivity.
Defined.

Lemma mined_block_spreads_witness :
  let run := drive aL (miner_answers 7 7 1 1 2 10) (Miner_round (lens_comp peerL hostL) [t2]) in
  (∃ ω', run miners = (Ok tt, ω') ∧
    chain_of g0 [b1; verified b3] (chain_map (nd_stores (w_a ω'))) ∧
    chain_map (nd_stores (w_b ω')) = chain_map (nd_stores (w_a ω'))) ∧
  ∃ ω', run miners_apart = (Ok tt, ω') ∧ nd_stores (w_a ω') = st0 ∧
    nd_stores (w_b ω') = genesis_stores.
Proof.
  cbn zeta.
  assert (Forall (λ t, wf_transaction t ∧ is_Some (pool_map st0 !! tx_hash t)) [t2]) as Htxs.
  { apply Forall_singleton. split; [exact t2_wf|]. eexists. vm_compute. reflexivity. }
  destruct genesis_stores_spec as [HwG HcG]. split.
  - destruct (mined_block_spreads (side_of (alice_with PeerType.Full PeerState.Open st0))
      (side_of (bob_with st0)) "alice" "bob" 1 1 0 10
      (connection_to "bob" PeerType.Full PeerState.Open) _ st0 st0 _ g0 [b1] g0 [b1] [t2] search2
      _ b3 miners _ (two_connected _ _ _ _) eq_refl (two_between _ _ _ _) eq_refl st0_wf st0_wf
      st0_chain st0_chain Htxs eq_refl search2_eq b3_found b3_new b3_new) as (ω' & Hrun & Hpost).
    exists ω'. split; [exact Hrun|]. rewrite decide_True in Hpost by exact b3_fits.
    destruct Hpost as (Hchain & _ & Hsame & _). split; [exact Hchain|exact (Hsame eq_refl)].
  - destruct (mined_block_spreads (side_of (alice_with PeerType.Full PeerState.Open st0))
      (side_of (bob_with genesis_stores)) "alice" "bob" 1 1 0 10
      (connection_to "bob" PeerType.Full PeerState.Open) _ st0 genesis_stores _ g0 [b1] g0 [] [t2]
      search2 _ b3 miners_apart _ (two_connected _ _ _ _) eq_refl (two_between _ _ _ _) eq_refl
      st0_wf HwG st0_chain HcG Htxs eq_refl search2_eq b3_found b3_new b3_new_apart)
      as (ω' & Hrun & Hpost).
    exists ω'. split; [exact Hrun|]. rewrite decide_False in Hpost by exact b3_apart. exact Hpost.
Defined.
